(** * MP-Gadget: domain decomposition, particle exchange and force tree

    A shallow embedding of the parts of [domain.c] and [forcetree.c] that
    decide how leaves of the top-level tree are split among processes, how
    particles migrate, how the particle arrays are kept consistent and how
    the gravitational oct-tree is built and its moments computed.

    Conventions of the embedding.
    - A C [int], [int64_t] or [peanokey] is a [Z]; signed arithmetic is
      written without wrap-around (overflow is undefined in C), unsigned
      arithmetic has its wrap-around written out.
    - A C [double], [float] or [MyFloat] is an exact rational [Q]: rounding
      is not modelled, comparisons are the total order of [Q].
    - A C array is a [list]; reading or writing outside it is the outcome
      [Fault].  [endrun] and [abort] are the outcome [Endrun].
    - A loop whose termination is not evident from its header is run on
      fuel and ends in [Hang] when the fuel is used up. *)

From Stdlib Require Import ZArith QArith Qabs Lia Lqa List Bool.
From stdpp Require Import base list.

Local Open Scope Z_scope.

(** ** Outcomes of a routine *)

Inductive outcome (A : Type) : Type :=
| Ok (a : A)
| Endrun (code : Z)
| Fault
| Hang.

Arguments Ok {A} a.
Arguments Endrun {A} code.
Arguments Fault {A}.
Arguments Hang {A}.

Definition obind {A B : Type} (m : outcome A) (f : A -> outcome B) : outcome B :=
  match m with
  | Ok a => f a
  | Endrun c => Endrun c
  | Fault => Fault
  | Hang => Hang
  end.

#[global] Instance outcome_bind : MBind outcome :=
  fun A B f m => obind m f.
#[global] Instance outcome_ret : MRet outcome := @Ok.

(** ** Arrays indexed by a C integer *)

Definition rd {A : Type} (l : list A) (i : Z) : outcome A :=
  if i <? 0 then Fault
  else match l !! Z.to_nat i with
       | Some x => Ok x
       | None => Fault
       end.

Definition wr {A : Type} (l : list A) (i : Z) (x : A) : outcome (list A) :=
  if (0 <=? i) && (i <? Z.of_nat (length l))
  then Ok (<[Z.to_nat i := x]> l)
  else Fault.

Definition zlen {A : Type} (l : list A) : Z := Z.of_nat (length l).

Lemma rd_Ok {A : Type} (l : list A) (i : Z) (x : A) :
  rd l i = Ok x <-> 0 <= i /\ l !! Z.to_nat i = Some x.
Proof.
  unfold rd. destruct (Z.ltb_spec i 0).
  - split; [discriminate | lia].
  - destruct (l !! Z.to_nat i) eqn:E; split; intros H1;
      try discriminate; try (destruct H1; congruence).
    split; [lia | congruence].
Qed.

Lemma rd_in_range {A : Type} (l : list A) (i : Z) :
  0 <= i < zlen l -> exists x, rd l i = Ok x.
Proof.
  intros Hi. unfold zlen in Hi.
  destruct (lookup_lt_is_Some_2 l (Z.to_nat i)) as [x Hx]; [lia |].
  exists x. apply rd_Ok. split; [lia | exact Hx].
Qed.

Lemma rd_range {A : Type} (l : list A) (i : Z) (x : A) :
  rd l i = Ok x -> 0 <= i < zlen l.
Proof.
  intros H. apply rd_Ok in H as [H0 H]. apply lookup_lt_Some in H.
  unfold zlen. lia.
Qed.

Lemma wr_in_range {A : Type} (l : list A) (i : Z) (x : A) :
  0 <= i < zlen l -> wr l i x = Ok (<[Z.to_nat i := x]> l).
Proof.
  intros Hi. unfold wr, zlen in *.
  destruct (Z.leb_spec 0 i); [| lia].
  destruct (Z.ltb_spec i (Z.of_nat (length l))); [reflexivity | lia].
Qed.

Lemma wr_Ok {A : Type} (l l' : list A) (i : Z) (x : A) :
  wr l i x = Ok l' <-> 0 <= i < zlen l /\ l' = <[Z.to_nat i := x]> l.
Proof.
  unfold wr, zlen.
  destruct (Z.leb_spec 0 i); destruct (Z.ltb_spec i (Z.of_nat (length l)));
    simpl; split; intros H1; try discriminate; try lia.
  - split; [lia | congruence].
  - destruct H1 as [_ ->]. reflexivity.
Qed.

Lemma zlen_wr {A : Type} (l l' : list A) (i : Z) (x : A) :
  wr l i x = Ok l' -> zlen l' = zlen l.
Proof.
  intros H. apply wr_Ok in H as [_ ->]. unfold zlen. now rewrite length_insert.
Qed.

Lemma rd_wr_eq {A : Type} (l l' : list A) (i : Z) (x : A) :
  wr l i x = Ok l' -> rd l' i = Ok x.
Proof.
  intros H. apply wr_Ok in H as [Hi ->]. apply rd_Ok. split; [lia |].
  apply list_lookup_insert_eq. unfold zlen in Hi. lia.
Qed.

Lemma rd_wr_ne {A : Type} (l l' : list A) (i j : Z) (x : A) :
  wr l i x = Ok l' -> i <> j -> rd l' j = rd l j.
Proof.
  intros H Hne. apply wr_Ok in H as [Hi ->]. unfold rd.
  destruct (Z.ltb_spec j 0); [reflexivity |].
  rewrite list_lookup_insert_ne; [reflexivity | lia].
Qed.

Lemma zlen_nonneg {A : Type} (l : list A) : 0 <= zlen l.
Proof. unfold zlen. lia. Qed.

(** A counted loop [for(i = i0; i < i0 + n; i++) s = body(i, s)]. *)
Fixpoint for_range {St : Type} (n : nat) (i : Z) (body : Z -> St -> outcome St) (s : St)
  : outcome St :=
  match n with
  | O => Ok s
  | S n' => s' ← body i s; for_range n' (i + 1) body s'
  end.

Lemma for_range_inv {St : Type} (I : Z -> St -> Prop) (body : Z -> St -> outcome St)
  (n : nat) (i : Z) (s : St) :
  I i s ->
  (forall k s0, i <= k < i + Z.of_nat n -> I k s0 ->
     exists s1, body k s0 = Ok s1 /\ I (k + 1) s1) ->
  exists s', for_range n i body s = Ok s' /\ I (i + Z.of_nat n) s'.
Proof.
  revert i s. induction n as [| n IH]; intros i s Hi Hstep.
  - exists s. split; [reflexivity |]. replace (i + Z.of_nat 0) with i by lia. exact Hi.
  - cbn [for_range]. unfold mbind, outcome_bind.
    destruct (Hstep i s ltac:(lia) Hi) as (s1 & Hb & H1).
    rewrite Hb. cbn [obind].
    destruct (IH (i + 1) s1 H1) as (s' & Hr & H').
    + intros k s0 Hk. apply Hstep. lia.
    + exists s'. split; [exact Hr |].
      replace (i + Z.of_nat (S n)) with (i + 1 + Z.of_nat n) by lia. exact H'.
Qed.

Lemma obind_Ok {A B : Type} (m : outcome A) (f : A -> outcome B) (b : B) :
  obind m f = Ok b -> exists a, m = Ok a /\ f a = Ok b.
Proof. destruct m as [a | | |]; cbn; intros H; try discriminate. eauto. Qed.

(** Take one bind of a hypothesis [H : (x ← m; k) = Ok r] apart. *)
Ltac bind_inv H :=
  let a := fresh "a" in
  let E := fresh "E" in
  apply obind_Ok in H; destruct H as (a & E & H).

Lemma for_range_Ok {St : Type} (I : Z -> St -> Prop) (body : Z -> St -> outcome St)
  (n : nat) (i : Z) (s s' : St) :
  for_range n i body s = Ok s' ->
  I i s ->
  (forall k s0 s1, i <= k < i + Z.of_nat n -> I k s0 -> body k s0 = Ok s1 -> I (k + 1) s1) ->
  I (i + Z.of_nat n) s'.
Proof.
  revert i s. induction n as [| n IH]; intros i s Hrun Hi Hstep.
  - cbn in Hrun. injection Hrun as <-. replace (i + Z.of_nat 0) with i by lia. exact Hi.
  - cbn [for_range] in Hrun. unfold mbind, outcome_bind in Hrun. bind_inv Hrun.
    replace (i + Z.of_nat (S n)) with (i + 1 + Z.of_nat n) by lia.
    apply (IH (i + 1) a Hrun).
    + apply (Hstep i s a); [lia | exact Hi | exact E].
    + intros k s0 s1 Hk. apply Hstep. lia.
Qed.

(** ** The particle record ([struct particle_data], the fields used here) *)

Definition vec3 : Type := (Q * Q * Q)%type.

Record particle_data : Type := mkP {
  Pos : vec3;
  Vel : vec3;
  Mass : Q;
  ID : Z;                 (* MyIDType, an unsigned 64-bit integer *)
  PType : Z;              (* the field Type: 0 gas, 1 dark matter, 4 star, 5 black hole *)
  TimeBin : Z;
  Generation : Z;
  PI : Z;                 (* index of the black-hole record in BhP *)
  OnAnotherDomain : bool;
  WillExport : bool;
  Key : Z;                (* peanokey *)
  GravCost : Q;
  Hsml : Q
}.

Definition set_Mass (p : particle_data) (m : Q) : particle_data :=
  mkP (Pos p) (Vel p) m (ID p) (PType p) (TimeBin p) (Generation p) (PI p)
      (OnAnotherDomain p) (WillExport p) (Key p) (GravCost p) (Hsml p).

Definition set_ID (p : particle_data) (i : Z) : particle_data :=
  mkP (Pos p) (Vel p) (Mass p) i (PType p) (TimeBin p) (Generation p) (PI p)
      (OnAnotherDomain p) (WillExport p) (Key p) (GravCost p) (Hsml p).

Definition set_Generation (p : particle_data) (g : Z) : particle_data :=
  mkP (Pos p) (Vel p) (Mass p) (ID p) (PType p) (TimeBin p) g (PI p)
      (OnAnotherDomain p) (WillExport p) (Key p) (GravCost p) (Hsml p).

Definition set_PI (p : particle_data) (i : Z) : particle_data :=
  mkP (Pos p) (Vel p) (Mass p) (ID p) (PType p) (TimeBin p) (Generation p) i
      (OnAnotherDomain p) (WillExport p) (Key p) (GravCost p) (Hsml p).

Definition set_flags (p : particle_data) (oad we : bool) : particle_data :=
  mkP (Pos p) (Vel p) (Mass p) (ID p) (PType p) (TimeBin p) (Generation p) (PI p)
      oad we (Key p) (GravCost p) (Hsml p).

Definition blank_particle : particle_data :=
  mkP (0, 0, 0)%Q (0, 0, 0)%Q 0%Q 0 0 0 0 0 false false 0 0%Q 0%Q.

Definition wrap64 (x : Z) : Z := x mod 2 ^ 64.

(** ** Spawning a particle: [domain_fork_particle] *)

Module Fork.

Record fork_state : Type := mkFork {
  NumPart : Z;
  MaxPart : Z;                       (* All.MaxPart *)
  P : list particle_data;
  FirstActiveParticle : Z;
  NextActiveParticle : list Z;
  TimeBinCount : list Z;
  PrevInTimeBin : list Z;
  NextInTimeBin : list Z;
  LastInTimeBin : list Z;
  Nextnode : option (list Z);        (* NULL when no force tree is allocated *)
  Father : list Z
}.

Section WithGeneration.

(** [allvars.h] is not part of the sources at hand: the width in bits of the
    unsigned field [Generation] is a parameter of the model. *)
Variable genbits : Z.

Definition incr_generation (g : Z) : Z := (g + 1) mod 2 ^ genbits.

(** (P[parent].ID & 0x00ffffffffffffffL) + (g << 56L), in 64 unsigned bits. *)
Definition child_id (parent_id g : Z) : Z :=
  wrap64 (Z.land parent_id (2 ^ 56 - 1) + wrap64 (Z.shiftl g 56)).

Definition domain_fork_particle (st : fork_state) (parent : Z)
  : outcome (Z * fork_state) :=
  if NumPart st >=? MaxPart st then Endrun 8888
  else
    let child := NumPart st in
    let numpart := NumPart st + 1 in
    nap ← wr (NextActiveParticle st) child (FirstActiveParticle st);
    let fap := child in
    pp ← rd (P st) parent;
    let pp := set_Generation pp (incr_generation (Generation pp)) in
    p1 ← wr (P st) parent pp;
    let g := Generation pp in
    p2 ← wr p1 child pp;
    p3 ← wr p2 child (set_ID pp (child_id (ID pp) g));
    pc ← rd p3 child;
    p4 ← wr p3 child (set_Mass pc 0);
    pc ← rd p4 child;
    tbc ← rd (TimeBinCount st) (TimeBin pc);
    tbcs ← wr (TimeBinCount st) (TimeBin pc) (tbc + 1);
    prev ← wr (PrevInTimeBin st) child parent;
    nxp ← rd (NextInTimeBin st) parent;
    next ← wr (NextInTimeBin st) child nxp;
    prev ← (if nxp >=? 0 then wr prev nxp child else Ok prev);
    next ← wr next parent child;
    ppar ← rd p4 parent;
    lst ← rd (LastInTimeBin st) (TimeBin ppar);
    last ← (if lst =? parent then wr (LastInTimeBin st) (TimeBin ppar) child
             else Ok (LastInTimeBin st));
    '(nn, fa) ← match Nextnode st with
                 | Some nn =>
                     no ← rd nn parent;
                     nn ← wr nn parent child;
                     nn ← wr nn child no;
                     f ← rd (Father st) parent;
                     fa ← wr (Father st) child f;
                     Ok (Some nn, fa)
                 | None => Ok (None, Father st)
                 end;
    Ok (child, mkFork numpart (MaxPart st) p4 fap nap tbcs prev next last nn fa).

(** The arrays a spawn touches are large enough for the new slot. *)
Record fork_ready (st : fork_state) (parent : Z) (pp : particle_data) : Prop := {
  ready_parent : 0 <= parent < NumPart st;
  ready_read : rd (P st) parent = Ok pp;
  ready_id : 0 <= ID pp < 2 ^ 64;
  ready_P : MaxPart st <= zlen (P st);
  ready_active : MaxPart st <= zlen (NextActiveParticle st);
  ready_prev : MaxPart st <= zlen (PrevInTimeBin st);
  ready_next : MaxPart st <= zlen (NextInTimeBin st);
  ready_bin : 0 <= TimeBin pp < zlen (TimeBinCount st);
  ready_last : TimeBin pp < zlen (LastInTimeBin st);
  ready_link : forall n, rd (NextInTimeBin st) parent = Ok n -> n < zlen (PrevInTimeBin st);
  ready_tree : forall nn, Nextnode st = Some nn ->
                 MaxPart st <= zlen nn /\ MaxPart st <= zlen (Father st)
}.

Lemma child_id_split (id g : Z) :
  0 <= g < 2 ^ 8 ->
  child_id id g = id mod 2 ^ 56 + g * 2 ^ 56.
Proof.
  intros Hg. unfold child_id, wrap64.
  replace (2 ^ 56 - 1) with (Z.ones 56) by reflexivity.
  rewrite Z.land_ones by lia. rewrite Z.shiftl_mul_pow2 by lia.
  pose proof (Z.mod_pos_bound id (2 ^ 56) ltac:(lia)) as Hm.
  rewrite (Z.mod_small (g * 2 ^ 56)) by lia.
  apply Z.mod_small. lia.
Qed.

Lemma incr_generation_range (g : Z) :
  0 <= genbits <= 8 -> 0 <= incr_generation g < 2 ^ 8.
Proof.
  intros Hb. unfold incr_generation.
  assert (0 < 2 ^ genbits) by (apply Z.pow_pos_nonneg; lia).
  pose proof (Z.mod_pos_bound (g + 1) (2 ^ genbits) ltac:(lia)).
  assert (2 ^ genbits <= 2 ^ 8) by (apply Z.pow_le_mono_r; lia).
  lia.
Qed.

(** C10. When [NumPart < All.MaxPart], [domain_fork_particle] returns the old
    [NumPart] as the index of the child and raises [NumPart] by one; the
    parent's [Generation] is incremented (in its unsigned width); the child's
    ID keeps the low 56 bits of the parent's ID and carries the incremented
    generation in its high 8 bits; the child's [Mass] is zero.  When
    [NumPart >= All.MaxPart] the spawn ends the run with code 8888. *)
Theorem fork_particle_spec (st : fork_state) (parent : Z) (pp : particle_data) :
  0 <= genbits <= 8 ->
  fork_ready st parent pp ->
  if NumPart st <? MaxPart st then
    exists st' par' ch,
      domain_fork_particle st parent = Ok (NumPart st, st') /\
      NumPart st' = NumPart st + 1 /\
      rd (P st') parent = Ok par' /\
      Generation par' = incr_generation (Generation pp) /\
      ID par' = ID pp /\
      rd (P st') (NumPart st) = Ok ch /\
      Z.land (ID ch) (2 ^ 56 - 1) = Z.land (ID pp) (2 ^ 56 - 1) /\
      Z.shiftr (ID ch) 56 = Generation par' /\
      0 <= ID ch < 2 ^ 64 /\
      Mass ch = 0%Q
  else domain_fork_particle st parent = Endrun 8888.
Proof.
  intros Hb [Hpar Hrd Hid HP Hact Hprev Hnext Hbin Hlast Hlink Htree].
  unfold domain_fork_particle, mbind, outcome_bind.
  destruct (Z.ltb_spec (NumPart st) (MaxPart st)) as [Hlt | Hge].
  2: { destruct (Z.geb_spec (NumPart st) (MaxPart st)); [reflexivity | lia]. }
  destruct (Z.geb_spec (NumPart st) (MaxPart st)); [lia |].
  set (child := NumPart st).
  set (g := incr_generation (Generation pp)).
  set (pp1 := set_Generation pp g).
  assert (Hg : 0 <= g < 2 ^ 8) by (apply incr_generation_range; exact Hb).
  assert (Hne : parent <> child) by (unfold child; lia).
  rewrite (wr_in_range (NextActiveParticle st) child) by (unfold child; lia).
  cbn [obind]. rewrite Hrd. cbn [obind].
  fold g pp1.
  destruct (wr (P st) parent pp1) as [p1 | | |] eqn:E1;
    try (rewrite wr_in_range in E1 by (apply rd_range in Hrd; lia); discriminate).
  cbn [obind].
  assert (L1 : zlen p1 = zlen (P st)) by (eapply zlen_wr; eauto).
  destruct (wr p1 child pp1) as [p2 | | |] eqn:E2;
    try (rewrite wr_in_range in E2 by (unfold child; lia); discriminate).
  cbn [obind].
  assert (L2 : zlen p2 = zlen p1) by (eapply zlen_wr; eauto).
  destruct (wr p2 child (set_ID pp1 (child_id (ID pp1) (Generation pp1)))) as [p3 | | |] eqn:E3;
    try (rewrite wr_in_range in E3 by (unfold child; lia); discriminate).
  cbn [obind].
  assert (L3 : zlen p3 = zlen p2) by (eapply zlen_wr; eauto).
  rewrite (rd_wr_eq _ _ _ _ E3). cbn [obind].
  set (ch0 := set_ID pp1 (child_id (ID pp1) (Generation pp1))).
  destruct (wr p3 child (set_Mass ch0 0)) as [p4 | | |] eqn:E4;
    try (rewrite wr_in_range in E4 by (unfold child; lia); discriminate).
  cbn [obind].
  rewrite (rd_wr_eq _ _ _ _ E4). cbn [obind].
  change (TimeBin (set_Mass ch0 0)) with (TimeBin pp).
  destruct (rd_in_range (TimeBinCount st) (TimeBin pp) Hbin) as [tbc Htbc].
  rewrite Htbc. cbn [obind].
  rewrite (wr_in_range (TimeBinCount st)) by exact Hbin. cbn [obind].
  rewrite (wr_in_range (PrevInTimeBin st) child) by (unfold child; lia).
  cbn [obind].
  destruct (rd_in_range (NextInTimeBin st) parent ltac:(lia)) as [nxp Hnxp].
  rewrite Hnxp. cbn [obind].
  rewrite (wr_in_range (NextInTimeBin st) child) by (unfold child; lia).
  cbn [obind].
  specialize (Hlink nxp Hnxp).
  assert (Hpr : exists prev', (if nxp >=? 0
              then wr (<[Z.to_nat child:=parent]> (PrevInTimeBin st)) nxp child
              else Ok (<[Z.to_nat child:=parent]> (PrevInTimeBin st))) = Ok prev').
  { destruct (Z.geb_spec nxp 0); [| eauto].
    eexists. apply wr_in_range. unfold zlen in *. rewrite length_insert. lia. }
  destruct Hpr as [prev' ->]. cbn [obind].
  rewrite wr_in_range by (unfold zlen in *; rewrite length_insert; lia).
  cbn [obind].
  assert (Hp4par : rd p4 parent = Ok pp1).
  { rewrite (rd_wr_ne _ _ _ _ _ E4) by lia.
    rewrite (rd_wr_ne _ _ _ _ _ E3) by lia.
    rewrite (rd_wr_ne _ _ _ _ _ E2) by lia.
    eapply rd_wr_eq; eauto. }
  rewrite Hp4par. cbn [obind].
  change (TimeBin pp1) with (TimeBin pp).
  destruct (rd_in_range (LastInTimeBin st) (TimeBin pp) ltac:(lia)) as [lst Hlst].
  rewrite Hlst. cbn [obind].
  assert (Hla : exists last', (if lst =? parent
              then wr (LastInTimeBin st) (TimeBin pp) child
              else Ok (LastInTimeBin st)) = Ok last').
  { destruct (lst =? parent); [| eauto]. eexists. apply wr_in_range. lia. }
  destruct Hla as [last' ->]. cbn [obind].
  assert (Htr : exists nn' fa', match Nextnode st with
       | Some nn =>
           no ← rd nn parent; nn0 ← wr nn parent child; nn1 ← wr nn0 child no;
           f ← rd (Father st) parent; fa ← wr (Father st) child f; Ok (Some nn1, fa)
       | None => Ok (None, Father st)
       end = Ok (nn', fa')).
  { unfold mbind, outcome_bind. destruct (Nextnode st) as [nn |] eqn:En; [| eauto].
    destruct (Htree nn eq_refl) as [Hn Hf].
    destruct (rd_in_range nn parent ltac:(lia)) as [no Hno].
    destruct (rd_in_range (Father st) parent ltac:(lia)) as [f Hf'].
    cbn [obind]. rewrite Hno. cbn [obind].
    rewrite (wr_in_range nn parent) by lia. cbn [obind].
    rewrite wr_in_range by (unfold zlen in *; rewrite length_insert; unfold child; lia).
    cbn [obind]. rewrite Hf'. cbn [obind].
    rewrite wr_in_range by (unfold child; lia). cbn [obind]. eauto. }
  destruct Htr as (nn' & fa' & Htr). unfold mbind, outcome_bind in Htr.
  rewrite Htr. cbn [obind].
  eexists _, pp1, (set_Mass ch0 0). cbn [NumPart P].
  assert (Hcid : ID ch0 = ID pp mod 2 ^ 56 + g * 2 ^ 56).
  { unfold ch0. cbn [ID set_ID pp1 set_Generation Generation].
    apply child_id_split. exact Hg. }
  pose proof (Z.mod_pos_bound (ID pp) (2 ^ 56) ltac:(lia)) as Hm.
  repeat split; try reflexivity; try exact Hp4par.
  - eapply rd_wr_eq; eauto.
  - replace (2 ^ 56 - 1) with (Z.ones 56) by reflexivity.
    rewrite !Z.land_ones by lia. cbn [ID set_Mass]. rewrite Hcid.
    rewrite Z.mod_add by lia. apply Z.mod_mod. lia.
  - cbn [ID set_Mass Generation pp1 set_Generation]. rewrite Hcid.
    rewrite Z.shiftr_div_pow2 by lia.
    rewrite Z.div_add by lia. rewrite Z.div_small by lia. lia.
  - cbn [ID set_Mass]. lia.
  - cbn [ID set_Mass]. lia.
Qed.

(** X2: where the child is linked in.  When [domain_fork_particle] returns
    for a parent among the particles whose successor in its time bin is a
    particle too, the child is the old [NumPart]; it is the first active
    particle and the old first one follows it; in the chain of the time bin
    it stands between the parent and the parent's old successor, in both
    directions; the count of the bin is one higher and the child is the last
    of the bin when the parent was; and when a force tree is allocated the
    child follows the parent in the walk, takes over the parent's old
    successor there and has the parent's father. *)
Theorem fork_particle_links (st st' : fork_state) (parent child : Z) :
  0 <= parent < NumPart st ->
  (forall n, rd (NextInTimeBin st) parent = Ok n -> n < NumPart st) ->
  domain_fork_particle st parent = Ok (child, st') ->
  child = NumPart st /\
  FirstActiveParticle st' = child /\
  rd (NextActiveParticle st') child = Ok (FirstActiveParticle st) /\
  rd (NextInTimeBin st') parent = Ok child /\
  rd (NextInTimeBin st') child = rd (NextInTimeBin st) parent /\
  rd (PrevInTimeBin st') child = Ok parent /\
  (forall n, rd (NextInTimeBin st) parent = Ok n -> 0 <= n ->
             rd (PrevInTimeBin st') n = Ok child) /\
  (forall pp tbc, rd (P st) parent = Ok pp ->
     rd (TimeBinCount st) (TimeBin pp) = Ok tbc ->
     rd (TimeBinCount st') (TimeBin pp) = Ok (tbc + 1)) /\
  (forall pp, rd (P st) parent = Ok pp ->
     rd (LastInTimeBin st) (TimeBin pp) = Ok parent ->
     rd (LastInTimeBin st') (TimeBin pp) = Ok child) /\
  (forall nn, Nextnode st = Some nn ->
     exists nn', Nextnode st' = Some nn' /\ rd nn' parent = Ok child /\
                 rd nn' child = rd nn parent /\
                 rd (Father st') child = rd (Father st) parent).
Proof.
  intros Hpar Hlive Hrun. unfold domain_fork_particle in Hrun.
  destruct (Z.geb_spec (NumPart st) (MaxPart st)) as [| Hroom]; [discriminate |].
  unfold mbind, outcome_bind in Hrun.
  bind_inv Hrun. rename a into nap, E into Enap.
  bind_inv Hrun. rename a into pp, E into Epp.
  bind_inv Hrun. rename a into p1, E into Ep1.
  bind_inv Hrun. rename a into p2, E into Ep2.
  bind_inv Hrun. rename a into p3, E into Ep3.
  bind_inv Hrun. rename a into pc, E into Epc.
  bind_inv Hrun. rename a into p4, E into Ep4.
  bind_inv Hrun. rename a into pc', E into Epc'.
  bind_inv Hrun. rename a into tbc, E into Etbc.
  bind_inv Hrun. rename a into tbcs, E into Etbcs.
  bind_inv Hrun. rename a into prev, E into Eprev.
  bind_inv Hrun. rename a into nxp, E into Enxp.
  bind_inv Hrun. rename a into next, E into Enext.
  bind_inv Hrun. rename a into prev', E into Eprev'.
  bind_inv Hrun. rename a into next', E into Enext'.
  bind_inv Hrun. rename a into ppar, E into Eppar.
  bind_inv Hrun. rename a into lst, E into Elst.
  bind_inv Hrun. rename a into last', E into Elast.
  bind_inv Hrun. destruct a as [nn' fa']. rename E into Etree.
  injection Hrun as <- <-.
  cbn [FirstActiveParticle NextActiveParticle NextInTimeBin PrevInTimeBin Nextnode Father
       TimeBinCount LastInTimeBin].
  assert (Hne : parent <> NumPart st) by lia.
  assert (Hpc' : TimeBin pc' = TimeBin pp /\ TimeBin ppar = TimeBin pp).
  { rewrite (rd_wr_eq _ _ _ _ Ep4) in Epc'. injection Epc' as <-.
    rewrite (rd_wr_eq _ _ _ _ Ep3) in Epc. injection Epc as <-.
    rewrite (rd_wr_ne _ _ _ _ _ Ep4), (rd_wr_ne _ _ _ _ _ Ep3),
      (rd_wr_ne _ _ _ _ _ Ep2), (rd_wr_eq _ _ _ _ Ep1) in Eppar by lia.
    injection Eppar as <-. split; reflexivity. }
  destruct Hpc' as [Hbin Hbin'].
  split; [reflexivity |]. split; [reflexivity |].
  split; [exact (rd_wr_eq _ _ _ _ Enap) |].
  split; [exact (rd_wr_eq _ _ _ _ Enext') |].
  split.
  { rewrite (rd_wr_ne _ _ _ _ _ Enext') by lia.
    rewrite (rd_wr_eq _ _ _ _ Enext). symmetry. exact Enxp. }
  split.
  { destruct (Z.geb_spec nxp 0).
    - rewrite (rd_wr_ne _ _ _ _ _ Eprev') by (specialize (Hlive nxp Enxp); lia).
      exact (rd_wr_eq _ _ _ _ Eprev).
    - injection Eprev' as <-. exact (rd_wr_eq _ _ _ _ Eprev). }
  split.
  { intros n Hn Hn0. rewrite Enxp in Hn. injection Hn as ->.
    destruct (Z.geb_spec n 0); [| lia]. exact (rd_wr_eq _ _ _ _ Eprev'). }
  split.
  { intros pp0 tbc0 Hpp0 Htbc0. rewrite Epp in Hpp0. injection Hpp0 as <-.
    rewrite Hbin in *. rewrite Etbc in Htbc0. injection Htbc0 as <-.
    exact (rd_wr_eq _ _ _ _ Etbcs). }
  split.
  { intros pp0 Hpp0 Hl0. rewrite Epp in Hpp0. injection Hpp0 as <-.
    rewrite Hbin' in *. rewrite Elst in Hl0. injection Hl0 as ->.
    rewrite Z.eqb_refl in Elast. exact (rd_wr_eq _ _ _ _ Elast). }
  intros nn Hnn. rewrite Hnn in Etree.
  bind_inv Etree. rename a into no, E into Eno.
  bind_inv Etree. rename a into nn0, E into Enn0.
  bind_inv Etree. rename a into nn1, E into Enn1.
  bind_inv Etree. rename a into f, E into Ef.
  bind_inv Etree. rename a into fa, E into Efa.
  injection Etree as <- <-.
  exists nn1. split; [reflexivity |].
  split.
  { rewrite (rd_wr_ne _ _ _ _ _ Enn1) by lia. exact (rd_wr_eq _ _ _ _ Enn0). }
  split.
  { rewrite (rd_wr_eq _ _ _ _ Enn1). symmetry. exact Eno. }
  rewrite (rd_wr_eq _ _ _ _ Efa). symmetry. exact Ef.
Qed.

End WithGeneration.

Definition sample_parent : particle_data :=
  mkP (1, 2, 3)%Q (0, 0, 0)%Q 7%Q (2 ^ 56 + 5) 0 3 1 0 false false 0 0%Q 1%Q.

Definition sample_state : fork_state :=
  mkFork 1 2 [sample_parent; sample_parent] 0 [-1; -1] [0; 0; 0; 1]
         [-1; -1] [-1; -1] [-1; -1; -1; 0] (Some [-1; -1; -1]) [4; -1].

Lemma sample_state_ready : fork_ready sample_state 0 sample_parent.
Proof.
  constructor; try (vm_compute; intuition congruence).
  - intros n Hn. vm_compute in Hn. injection Hn as <-. reflexivity.
  - intros nn Hn. injection Hn as <-. vm_compute. intuition congruence.
Qed.

Lemma fork_particle_spec_witness :
  0 <= 8 <= 8 /\ fork_ready sample_state 0 sample_parent /\
  exists st' par' ch,
    domain_fork_particle 8 sample_state 0 = Ok (1, st') /\
    NumPart st' = 2 /\
    rd (P st') 0 = Ok par' /\
    Generation par' = 2 /\
    ID par' = 2 ^ 56 + 5 /\
    rd (P st') 1 = Ok ch /\
    Z.land (ID ch) (2 ^ 56 - 1) = 5 /\
    Z.shiftr (ID ch) 56 = Generation par' /\
    0 <= ID ch < 2 ^ 64 /\
    Mass ch = 0%Q.
Proof.
  split; [lia |]. split; [exact sample_state_ready |].
  exact (fork_particle_spec 8 sample_state 0 sample_parent
           ltac:(lia) sample_state_ready).
Defined.

Lemma fork_particle_links_witness :
  exists st',
    domain_fork_particle 8 sample_state 0 = Ok (1, st') /\
    FirstActiveParticle st' = 1 /\
    rd (NextActiveParticle st') 1 = Ok 0 /\
    rd (NextInTimeBin st') 0 = Ok 1 /\
    rd (NextInTimeBin st') 1 = Ok (-1) /\
    rd (PrevInTimeBin st') 1 = Ok 0.
Proof.
  destruct (domain_fork_particle 8 sample_state 0) as [[c st'] | | |] eqn:Hrun;
    [| vm_compute in Hrun; discriminate ..].
  assert (Hpar : 0 <= 0 < NumPart sample_state) by (vm_compute; intuition congruence).
  assert (Hlive : forall n, rd (NextInTimeBin sample_state) 0 = Ok n ->
                            n < NumPart sample_state).
  { intros n Hn. vm_compute in Hn. injection Hn as <-. reflexivity. }
  destruct (fork_particle_links 8 sample_state st' 0 c Hpar Hlive Hrun)
    as (Hc & Hfirst & Hact & Hnext & Hnext' & Hprev & _).
  exists st'. rewrite Hc in *. change (NumPart sample_state) with 1 in *.
  repeat split; assumption.
Defined.

End Fork.

(** ** The greedy one-dimensional split of the top-level leaves:
       [domain_findSplit_work_balanced] and [domain_findSplit_load_balanced] *)

Module Split.

Section Greedy.

(** Both routines are the same loop over a different leaf metric.  The loop
    is written once, over the element type [M] of the metric array and over
    the arithmetic of the accumulator type [D]; nothing is assumed of that
    arithmetic, so what is proved of the loop does not depend on how sums
    and comparisons of [double] values come out. *)
Variables (M D : Type).
Variable to_double : M -> D.
Variable dzero : D.
Variable dadd : D -> D -> D.
Variable ddiv : D -> Z -> D.
Variable dlt : D -> D -> bool.

Variable metric : list M.            (* domainWork or domainCount *)
Variables (ncpu ndomain : Z).

(** for(i = 0, work = 0; i < ndomain; i++) work += metric[i]; *)
Fixpoint total_from (n : nat) (i : Z) (work : D) : outcome D :=
  match n with
  | O => Ok work
  | S n' => w ← rd metric i; total_from n' (i + 1) (dadd work (to_double w))
  end.

Variable workavg : D.

(** The inner [while]: it extends the segment of process [i], whose last leaf
    is [end_], by one leaf per turn. *)
Fixpoint extend (fuel : nat) (i end_ : Z) (work work_before workavg_before : D)
  : outcome (Z * D) :=
  if dlt (dadd work work_before) (dadd workavg workavg_before)
     || ((i =? ncpu - 1) && (end_ <? ndomain - 1))
  then
    if ndomain - end_ >? ncpu - i then
      match fuel with
      | O => Hang
      | S fuel' =>
          w ← rd metric (end_ + 1);
          extend fuel' i (end_ + 1) (dadd work (to_double w)) work_before workavg_before
      end
    else Ok (end_, work)
  else Ok (end_, work).

(** The outer [for] over the processes, [n] turns left. *)
Fixpoint segments (n : nat) (i start : Z) (work_before workavg_before : D)
  (DomainStartList DomainEndList : list Z) : outcome (list Z * list Z) :=
  match n with
  | O => Ok (DomainStartList, DomainEndList)
  | S n' =>
      w ← rd metric start;
      '(end_, work) ← extend (Z.to_nat ndomain) i start (dadd dzero (to_double w))
                         work_before workavg_before;
      sl ← wr DomainStartList i start;
      el ← wr DomainEndList i end_;
      segments n' (i + 1) (end_ + 1) (dadd work_before work)
               (dadd workavg_before workavg) sl el
  end.

End Greedy.

Section GreedyTop.

Variables (M D : Type).
Variable to_double : M -> D.
Variable dzero : D.
Variable dadd : D -> D -> D.
Variable ddiv : D -> Z -> D.
Variable dlt : D -> D -> bool.

Definition findSplit (metric : list M) (ncpu ndomain : Z)
  (DomainStartList DomainEndList : list Z) : outcome (list Z * list Z) :=
  work ← total_from M D to_double dadd metric (Z.to_nat ndomain) 0 dzero;
  let workavg := ddiv work ncpu in
  segments M D to_double dzero dadd dlt metric ncpu ndomain workavg
           (Z.to_nat ncpu) 0 0 dzero dzero DomainStartList DomainEndList.

End GreedyTop.

Definition Qdiv_int (x : Q) (n : Z) : Q := (x / inject_Z n)%Q.
Definition Qltb (x y : Q) : bool :=
  match (x ?= y)%Q with Lt => true | _ => false end.

(** [domainWork] is an array of [float], [domainCount] an array of [int]. *)
Definition domain_findSplit_work_balanced (domainWork : list Q) (ncpu ndomain : Z)
  (DomainStartList DomainEndList : list Z) : outcome (list Z * list Z) :=
  findSplit Q Q (fun w => w) 0%Q Qplus Qdiv_int Qltb domainWork ncpu ndomain
            DomainStartList DomainEndList.

Definition domain_findSplit_load_balanced (domainCount : list Z) (ncpu ndomain : Z)
  (DomainStartList DomainEndList : list Z) : outcome (list Z * list Z) :=
  findSplit Z Q inject_Z 0%Q Qplus Qdiv_int Qltb domainCount ncpu ndomain
            DomainStartList DomainEndList.

(** Leaf [leaf] lies in the segment of index [i]. *)
Definition in_segment (sl el : list Z) (i leaf : Z) : Prop :=
  exists s e, rd sl i = Ok s /\ rd el i = Ok e /\ s <= leaf <= e.

(** What the split has to deliver: [ncpu] segments, the first starting at
    leaf 0, the last ending at leaf [ndomain - 1], each non-empty and each
    starting right after the previous one ends. *)
Record chain (ncpu ndomain : Z) (sl el : list Z) : Prop := {
  chain_first : rd sl 0 = Ok 0;
  chain_last : rd el (ncpu - 1) = Ok (ndomain - 1);
  chain_link : forall i, 0 <= i < ncpu ->
     exists s e, rd sl i = Ok s /\ rd el i = Ok e /\ s <= e /\
                 (i + 1 < ncpu -> rd sl (i + 1) = Ok (e + 1))
}.

Definition partition (ncpu ndomain : Z) (sl el : list Z) : Prop :=
  forall leaf, 0 <= leaf < ndomain ->
    exists i, 0 <= i < ncpu /\ in_segment sl el i leaf /\
      forall j, 0 <= j < ncpu -> in_segment sl el j leaf -> j = i.

Example work_split_3_of_5 :
  domain_findSplit_work_balanced [1; 1; 1; 1; 5]%Q 3 5 [0; 0; 0] [0; 0; 0]
  = Ok ([0; 3; 4], [2; 3; 4]).
Proof. reflexivity. Qed.

Example load_split_2_of_4 :
  domain_findSplit_load_balanced [9; 0; 0; 1] 2 4 [7; 7] [7; 7]
  = Ok ([0; 1], [0; 3]).
Proof. reflexivity. Qed.

Section GreedyFacts.

Variables (M D : Type).
Variable to_double : M -> D.
Variable dzero : D.
Variable dadd : D -> D -> D.
Variable ddiv : D -> Z -> D.
Variable dlt : D -> D -> bool.
Variable metric : list M.
Variables (ncpu ndomain : Z).
Hypothesis ncpu_range : 1 <= ncpu <= ndomain.
Hypothesis metric_size : ndomain <= zlen metric.

Lemma total_from_Ok (n : nat) (i : Z) (work : D) :
  0 <= i -> i + Z.of_nat n <= ndomain ->
  exists w, total_from M D to_double dadd metric n i work = Ok w.
Proof.
  revert i work. induction n as [| n IH]; intros i work Hi Hn; cbn [total_from].
  - eauto.
  - destruct (rd_in_range metric i ltac:(lia)) as [x Hx].
    unfold mbind, outcome_bind. rewrite Hx. cbn [obind].
    apply IH; lia.
Qed.

Lemma extend_Ok (workavg : D) (fuel : nat) (i end_ : Z) (work wb ab : D) :
  0 <= i < ncpu -> 0 <= end_ <= ndomain - ncpu + i ->
  (Z.to_nat (ndomain - ncpu + i - end_) <= fuel)%nat ->
  exists e w,
    extend M D to_double dadd dlt metric ncpu ndomain workavg fuel i end_ work wb ab
    = Ok (e, w) /\
    end_ <= e <= ndomain - ncpu + i /\ (i = ncpu - 1 -> e = ndomain - 1).
Proof.
  revert end_ work. induction fuel as [| fuel IH]; intros end_ work Hi He Hf.
  - cbn [extend].
    destruct (dlt _ _ || _) eqn:Ec.
    + destruct (Z.gtb_spec (ndomain - end_) (ncpu - i)); [lia |].
      exists end_, work. repeat split; lia.
    + exists end_, work. repeat split; lia.
  - cbn [extend].
    destruct (dlt _ _ || _) eqn:Ec.
    + destruct (Z.gtb_spec (ndomain - end_) (ncpu - i)).
      * destruct (rd_in_range metric (end_ + 1) ltac:(lia)) as [x Hx].
        unfold mbind, outcome_bind. rewrite Hx. cbn [obind].
        destruct (IH (end_ + 1) (dadd work (to_double x)) Hi ltac:(lia) ltac:(lia))
          as (e & w & Hr & Hb & Hl).
        exists e, w. repeat split; try assumption; lia.
      * exists end_, work. repeat split; lia.
    + exists end_, work. repeat split; lia.
Qed.

Lemma segments_Ok (workavg : D) (n : nat) (i start : Z) (wb ab : D) (sl el : list Z) :
  i = ncpu - Z.of_nat n -> 0 <= i ->
  (i < ncpu -> i <= start <= ndomain - ncpu + i) ->
  ncpu <= zlen sl -> ncpu <= zlen el ->
  exists sl' el',
    segments M D to_double dzero dadd dlt metric ncpu ndomain workavg n i start wb ab sl el
    = Ok (sl', el') /\
    zlen sl' = zlen sl /\ zlen el' = zlen el /\
    (forall j, j < i -> rd sl' j = rd sl j /\ rd el' j = rd el j) /\
    (i < ncpu -> rd sl' i = Ok start) /\
    (forall j, i <= j < ncpu ->
       exists s e, rd sl' j = Ok s /\ rd el' j = Ok e /\ s <= e /\
                   (j + 1 < ncpu -> rd sl' (j + 1) = Ok (e + 1)) /\
                   (j = ncpu - 1 -> e = ndomain - 1)).
Proof.
  revert i start wb ab sl el.
  induction n as [| n IH]; intros i start wb ab sl el Hi Hi0 Hst Hsl Hel.
  - cbn [segments]. exists sl, el. repeat split; try reflexivity; intros; lia.
  - cbn [segments]. unfold mbind, outcome_bind.
    assert (Hlt : i < ncpu) by lia. specialize (Hst Hlt).
    destruct (rd_in_range metric start ltac:(lia)) as [x Hx].
    rewrite Hx. cbn [obind].
    destruct (extend_Ok workavg (Z.to_nat ndomain) i start (dadd dzero (to_double x))
                wb ab ltac:(lia) ltac:(lia) ltac:(lia)) as (e & w & Hr & Hb & Hl).
    rewrite Hr. cbn [obind].
    destruct (wr sl i start) as [sl1 | | |] eqn:E1;
      try (rewrite wr_in_range in E1 by lia; discriminate).
    destruct (wr el i e) as [el1 | | |] eqn:E2;
      try (rewrite wr_in_range in E2 by lia; discriminate).
    cbn [obind].
    pose proof (zlen_wr _ _ _ _ E1) as L1. pose proof (zlen_wr _ _ _ _ E2) as L2.
    destruct (IH (i + 1) (e + 1) (dadd wb w) (dadd ab workavg) sl1 el1
                ltac:(lia) ltac:(lia) ltac:(lia) ltac:(lia) ltac:(lia))
      as (sl' & el' & Hrun & Ls & Le & Hframe & Hnext & Hrest).
    exists sl', el'. split; [exact Hrun |].
    assert (Hsi : rd sl' i = Ok start).
    { destruct (Hframe i ltac:(lia)) as [-> _]. eapply rd_wr_eq; eauto. }
    assert (Hei : rd el' i = Ok e).
    { destruct (Hframe i ltac:(lia)) as [_ ->]. eapply rd_wr_eq; eauto. }
    repeat split; try lia.
    + destruct (Hframe j ltac:(lia)) as [-> _]. eapply rd_wr_ne; eauto. lia.
    + destruct (Hframe j ltac:(lia)) as [_ ->]. eapply rd_wr_ne; eauto. lia.
    + intros _. exact Hsi.
    + intros j Hj. destruct (Z.eq_dec j i) as [-> | Hne].
      * exists start, e. repeat split; try assumption; try lia.
      * apply Hrest. lia.
Qed.

Lemma findSplit_chain (sl el : list Z) :
  ncpu <= zlen sl -> ncpu <= zlen el ->
  exists sl' el',
    findSplit M D to_double dzero dadd ddiv dlt metric ncpu ndomain sl el = Ok (sl', el') /\
    zlen sl' = zlen sl /\ zlen el' = zlen el /\
    chain ncpu ndomain sl' el'.
Proof.
  intros Hsl Hel. unfold findSplit, mbind, outcome_bind.
  destruct (total_from_Ok (Z.to_nat ndomain) 0 dzero ltac:(lia) ltac:(lia)) as [w Hw].
  rewrite Hw. cbn [obind].
  destruct (segments_Ok (ddiv w ncpu) (Z.to_nat ncpu) 0 0 dzero dzero sl el
              ltac:(lia) ltac:(lia) ltac:(lia) Hsl Hel)
    as (sl' & el' & Hrun & Ls & Le & _ & Hfirst & Hrest).
  exists sl', el'. repeat split; try assumption.
  - apply Hfirst. lia.
  - destruct (Hrest (ncpu - 1) ltac:(lia)) as (s & e & _ & He & _ & _ & Hl).
    rewrite He, (Hl eq_refl). reflexivity.
  - intros i Hi. destruct (Hrest i Hi) as (s & e & Hs & He & Hse & Hn & _).
    exists s, e. repeat split; assumption.
Qed.

End GreedyFacts.

Section ChainFacts.

Variables (ncpu ndomain : Z).
Variables (sl el : list Z).
Hypothesis ncpu_pos : 1 <= ncpu.
Hypothesis Hchain : chain ncpu ndomain sl el.

Lemma chain_order (k : nat) (i e s' : Z) :
  0 <= i -> i + 1 + Z.of_nat k < ncpu ->
  rd el i = Ok e -> rd sl (i + 1 + Z.of_nat k) = Ok s' -> e < s'.
Proof.
  revert s'. induction k as [| k IH]; intros s' Hi Hk He Hs.
  - destruct (chain_link _ _ _ _ Hchain i ltac:(lia)) as (s0 & e0 & _ & He0 & _ & Hn).
    rewrite He in He0. injection He0 as <-.
    replace (i + 1 + Z.of_nat 0) with (i + 1) in Hs by lia.
    rewrite (Hn ltac:(lia)) in Hs. injection Hs as <-. lia.
  - destruct (chain_link _ _ _ _ Hchain (i + 1 + Z.of_nat k) ltac:(lia))
      as (s1 & e1 & Hs1 & He1 & Hse & Hn).
    specialize (IH s1 Hi ltac:(lia) He Hs1).
    replace (i + 1 + Z.of_nat (S k)) with (i + 1 + Z.of_nat k + 1) in Hs by lia.
    rewrite (Hn ltac:(lia)) in Hs. injection Hs as <-. lia.
Qed.

Lemma chain_disjoint (i j leaf : Z) :
  0 <= i < j -> j < ncpu ->
  in_segment sl el i leaf -> in_segment sl el j leaf -> False.
Proof.
  intros Hij Hj (si & ei & _ & Hei & Hli) (sj & ej & Hsj & _ & Hlj).
  assert (ei < sj).
  { apply (chain_order (Z.to_nat (j - i - 1)) i ei sj); try lia; try assumption.
    replace (i + 1 + Z.of_nat (Z.to_nat (j - i - 1))) with j by lia. exact Hsj. }
  lia.
Qed.

Lemma chain_reach (leaf : Z) (m : nat) :
  0 <= leaf -> Z.of_nat m < ncpu ->
  (exists i, 0 <= i <= Z.of_nat m /\ in_segment sl el i leaf) \/
  (exists e, rd el (Z.of_nat m) = Ok e /\ e < leaf).
Proof.
  intros Hleaf. induction m as [| m IH]; intros Hm.
  - destruct (chain_link _ _ _ _ Hchain 0 ltac:(lia)) as (s & e & Hs & He & Hse & _).
    rewrite (chain_first _ _ _ _ Hchain) in Hs. injection Hs as <-.
    destruct (Z_le_gt_dec leaf e).
    + left. exists 0. split; [simpl; lia |]. exists 0, e.
      repeat split; try assumption; try lia. apply (chain_first _ _ _ _ Hchain).
    + right. exists e. split; [exact He | lia].
  - destruct (IH ltac:(lia)) as [(i & Hi & Hin) | (e & He & Hlt)].
    + left. exists i. split; [lia | exact Hin].
    + destruct (chain_link _ _ _ _ Hchain (Z.of_nat m) ltac:(lia))
        as (s0 & e0 & _ & He0 & _ & Hn).
      rewrite He in He0. injection He0 as <-.
      destruct (chain_link _ _ _ _ Hchain (Z.of_nat (S m)) ltac:(lia))
        as (s1 & e1 & Hs1 & He1 & Hse1 & _).
      replace (Z.of_nat m + 1) with (Z.of_nat (S m)) in Hn by lia.
      rewrite (Hn ltac:(lia)) in Hs1. injection Hs1 as <-.
      destruct (Z_le_gt_dec leaf e1).
      * left. exists (Z.of_nat (S m)). split; [lia |]. exists (e + 1), e1.
        repeat split; try assumption; try lia. apply Hn. lia.
      * right. exists e1. split; [exact He1 | lia].
Qed.

Lemma chain_partition : partition ncpu ndomain sl el.
Proof.
  intros leaf Hleaf.
  destruct (chain_reach leaf (Z.to_nat (ncpu - 1)) ltac:(lia) ltac:(lia))
    as [(i & Hi & Hin) | (e & He & Hlt)].
  - exists i. split; [lia |]. split; [exact Hin |].
    intros j Hj Hjn.
    destruct (Z.lt_trichotomy i j) as [Hlt | [-> | Hgt]]; [| reflexivity |].
    + exfalso. apply (chain_disjoint i j leaf); try assumption; lia.
    + exfalso. apply (chain_disjoint j i leaf); try assumption; lia.
  - replace (Z.of_nat (Z.to_nat (ncpu - 1))) with (ncpu - 1) in He by lia.
    rewrite (chain_last _ _ _ _ Hchain) in He. injection He as <-. lia.
Qed.

End ChainFacts.

(** C1. For either leaf metric and every [ncpu] with [1 <= ncpu <= ndomain],
    the greedy split returns, and its [ncpu] segments
    [DomainStartList[i] .. DomainEndList[i]] are non-empty, each starts right
    after the previous one ends, the first starts at leaf 0 and the last ends
    at leaf [ndomain - 1]: every leaf lies in exactly one segment. *)
Theorem findSplit_segments_partition
  (domainWork : list Q) (domainCount : list Z) (ncpu ndomain : Z)
  (DomainStartList DomainEndList : list Z) :
  1 <= ncpu <= ndomain ->
  ndomain <= zlen domainWork -> ndomain <= zlen domainCount ->
  ncpu <= zlen DomainStartList -> ncpu <= zlen DomainEndList ->
  (exists sl el,
     domain_findSplit_work_balanced domainWork ncpu ndomain
       DomainStartList DomainEndList = Ok (sl, el) /\
     chain ncpu ndomain sl el /\ partition ncpu ndomain sl el) /\
  (exists sl el,
     domain_findSplit_load_balanced domainCount ncpu ndomain
       DomainStartList DomainEndList = Ok (sl, el) /\
     chain ncpu ndomain sl el /\ partition ncpu ndomain sl el).
Proof.
  intros Hn Hw Hc Hsl Hel. split.
  - destruct (findSplit_chain Q Q (fun w => w) 0%Q Qplus Qdiv_int Qltb
                domainWork ncpu ndomain Hn Hw DomainStartList DomainEndList Hsl Hel)
      as (sl & el & Hrun & _ & _ & Hch).
    exists sl, el. split; [exact Hrun |]. split; [exact Hch |].
    apply chain_partition; [lia | exact Hch].
  - destruct (findSplit_chain Z Q inject_Z 0%Q Qplus Qdiv_int Qltb
                domainCount ncpu ndomain Hn Hc DomainStartList DomainEndList Hsl Hel)
      as (sl & el & Hrun & _ & _ & Hch).
    exists sl, el. split; [exact Hrun |]. split; [exact Hch |].
    apply chain_partition; [lia | exact Hch].
Qed.

Lemma findSplit_segments_partition_witness :
  (exists sl el,
     domain_findSplit_work_balanced [1; 1; 1; 1; 5]%Q 3 5 [0; 0; 0] [0; 0; 0]
     = Ok (sl, el) /\
     chain 3 5 sl el /\ partition 3 5 sl el) /\
  (exists sl el,
     domain_findSplit_load_balanced [9; 0; 0; 1; 2] 3 5 [0; 0; 0] [0; 0; 0]
     = Ok (sl, el) /\
     chain 3 5 sl el /\ partition 3 5 sl el).
Proof.
  apply (findSplit_segments_partition [1; 1; 1; 1; 5]%Q [9; 0; 0; 1; 2] 3 5
           [0; 0; 0] [0; 0; 0]); vm_compute; intuition congruence.
Defined.

End Split.

(** ** The local top-level tree: [domain_add_cost] and
       [domain_check_for_local_refine] *)

Module TopTree.

(** [struct local_topnode_data] *)
Record local_topnode_data : Type := mkTop {
  Size : Z;        (* peanokey *)
  StartKey : Z;    (* peanokey *)
  Count : Z;       (* int64_t *)
  Cost : Q;
  Daughter : Z;
  Leaf : Z;
  Parent : Z;
  PIndex : Z
}.

Definition add_to (n : local_topnode_data) (count : Z) (cost : Q) : local_topnode_data :=
  mkTop (Size n) (StartKey n) (Count n + count) (Cost n + cost)%Q
        (Daughter n) (Leaf n) (Parent n) (PIndex n).

(** One turn of the loop over the eight daughters in [domain_add_cost];
    [recurse] is the routine itself. *)
Definition add_cost_turn
  (recurse : list local_topnode_data -> Z -> Z -> Q -> outcome (list local_topnode_data))
  (noA countA countB : Z) (cost : Q) (i : Z) (treeA : list local_topnode_data)
  : outcome (list local_topnode_data) :=
  na ← rd treeA noA;
  let sub := Daughter na + i in
  let count := if i =? 0 then countA else countB in
  ns ← rd treeA sub;
  treeA ← wr treeA sub (add_to ns count cost);
  ns ← rd treeA sub;
  if Daughter ns >=? 0
  then recurse treeA sub count cost
  else Ok treeA.

(** [domain_add_cost]; the recursion follows the [Daughter] links and runs on
    fuel. *)
Fixpoint domain_add_cost (fuel : nat) (treeA : list local_topnode_data)
  (noA count : Z) (cost : Q) : outcome (list local_topnode_data) :=
  match fuel with
  | O => Hang
  | S fuel' =>
      let countB := count ÷ 8 in
      let countA := count - 7 * countB in
      let cost := (cost / 8)%Q in
      for_range 8 0 (add_cost_turn (domain_add_cost fuel') noA countA countB cost) treeA
  end.

Definition cnt (t : list local_topnode_data) (n : Z) : Z :=
  match rd t n with Ok x => Count x | _ => 0 end.

Definition cst (t : list local_topnode_data) (n : Z) : Q :=
  match rd t n with Ok x => Cost x | _ => 0%Q end.

Definition dau (t : list local_topnode_data) (n : Z) : Z :=
  match rd t n with Ok x => Daughter x | _ => -1 end.

(** [c] is one of the eight daughters of [n]. *)
Definition child (t : list local_topnode_data) (n c : Z) : Prop :=
  0 <= dau t n /\ dau t n <= c < dau t n + 8.

(** [x] lies strictly below [a]. *)
Inductive below (t : list local_topnode_data) (a : Z) : Z -> Prop :=
| below_child x : child t a x -> below t a x
| below_step p x : below t a p -> child t p x -> below t a x.

(** The array holds a tree: daughters come in blocks of eight allocated
    after their parent, and no two nodes share a block. *)
Record tree_shaped (t : list local_topnode_data) : Prop := {
  shaped_forward : forall n, 0 <= dau t n -> n < dau t n /\ dau t n + 8 <= zlen t;
  shaped_apart : forall n m, 0 <= dau t n -> 0 <= dau t m -> n <> m ->
                   dau t n + 8 <= dau t m \/ dau t m + 8 <= dau t n
}.

(** What a call adds to node [x]: the difference between the tree after and
    the tree before. *)
Definition dcnt (t t' : list local_topnode_data) (x : Z) : Z := cnt t' x - cnt t x.
Definition dcst (t t' : list local_topnode_data) (x : Z) : Q := (cst t' x - cst t x)%Q.

(** The eight daughters of [n] received [c] and [q] between them: the first
    daughter takes what the integer division leaves over. *)
Record level (t t' : list local_topnode_data) (n c : Z) (q : Q) : Prop := {
  level_first : dcnt t t' (dau t n) = c - 7 * (c ÷ 8);
  level_rest : forall i, 1 <= i < 8 -> dcnt t t' (dau t n + i) = c ÷ 8;
  level_cost : forall i, 0 <= i < 8 -> (dcst t t' (dau t n + i) == q / 8)%Q
}.

Definition sum8 (f : Z -> Z) : Z :=
  f 0 + f 1 + f 2 + f 3 + f 4 + f 5 + f 6 + f 7.

Definition Qsum8 (f : Z -> Q) : Q :=
  (f 0%Z + f 1%Z + f 2%Z + f 3%Z + f 4%Z + f 5%Z + f 6%Z + f 7%Z)%Q.

Section Shape.

Variable t : list local_topnode_data.
Hypothesis Hshape : tree_shaped t.

Lemma child_gt (n c : Z) : child t n c -> n < c.
Proof.
  intros [H0 Hc]. destruct (shaped_forward t Hshape n H0). lia.
Qed.

Lemma child_in_range (n c : Z) : child t n c -> 0 <= c < zlen t.
Proof.
  intros [H0 Hc]. destruct (shaped_forward t Hshape n H0). lia.
Qed.

Lemma below_gt (a x : Z) : below t a x -> a < x.
Proof.
  induction 1 as [x Hc | p x _ IH Hc]; apply child_gt in Hc; lia.
Qed.

Lemma parent_unique (p q x : Z) : child t p x -> child t q x -> p = q.
Proof.
  intros [Hp Hpx] [Hq Hqx]. destruct (Z.eq_dec p q) as [| Hne]; [assumption |].
  destruct (shaped_apart t Hshape p q Hp Hq Hne); lia.
Qed.

Lemma below_last (a x : Z) :
  below t a x -> exists p, child t p x /\ (p = a \/ below t a p).
Proof.
  destruct 1 as [x Hc | p x Hb Hc]; eauto.
Qed.

Lemma sibling_not_below (n c1 c2 : Z) :
  child t n c1 -> child t n c2 -> ~ below t c1 c2.
Proof.
  intros H1 H2 Hb. apply below_last in Hb as (p & Hp & Hpa).
  assert (p = n) by (eapply parent_unique; eauto). subst p.
  apply child_gt in H1. destruct Hpa as [-> | Hpa]; [lia |].
  apply below_gt in Hpa. lia.
Qed.

Lemma below_apart (n c1 c2 x : Z) :
  child t n c1 -> child t n c2 -> c1 <> c2 -> below t c1 x -> ~ below t c2 x.
Proof.
  intros H1 H2 Hne Hb1. induction Hb1 as [x Hc | p x Hb IH Hc]; intros Hb2.
  - apply below_last in Hb2 as (q & Hq & Hqa).
    assert (q = c1) by (eapply parent_unique; eauto). subst q.
    destruct Hqa as [-> | Hqa]; [congruence |].
    eapply sibling_not_below; [exact H2 | exact H1 | exact Hqa].
  - apply below_last in Hb2 as (q & Hq & Hqa).
    assert (q = p) by (eapply parent_unique; eauto). subst q.
    destruct Hqa as [-> | Hqa]; [| auto].
    eapply sibling_not_below; [exact H1 | exact H2 | exact Hb].
Qed.

Lemma below_trans_child (a c x : Z) : child t a c -> below t c x -> below t a x.
Proof.
  intros Hc Hb. induction Hb as [x Hx | p x _ IH Hx].
  - eapply below_step; [apply below_child; exact Hc | exact Hx].
  - eapply below_step; [exact IH | exact Hx].
Qed.

End Shape.

Lemma below_same_dau (t t' : list local_topnode_data) (a x : Z) :
  (forall n, dau t' n = dau t n) -> below t a x -> below t' a x.
Proof.
  intros Hd Hb. induction Hb as [x [H0 Hc] | p x _ IH [H0 Hc]].
  - apply below_child. unfold child. rewrite Hd. auto.
  - eapply below_step; [exact IH |]. unfold child. rewrite Hd. auto.
Qed.

Lemma tree_shaped_same_dau (t t' : list local_topnode_data) :
  zlen t' = zlen t -> (forall n, dau t' n = dau t n) ->
  tree_shaped t -> tree_shaped t'.
Proof.
  intros Hl Hd [Hf Ha]. constructor.
  - intros n. rewrite Hd, Hl. apply Hf.
  - intros n m. rewrite !Hd. apply Ha.
Qed.

Lemma below_root_internal (t : list local_topnode_data) (a x : Z) :
  below t a x -> 0 <= dau t a.
Proof. induction 1 as [x [H _] | ]; assumption. Qed.

Lemma dau_Ok (t : list local_topnode_data) (n : Z) :
  0 <= dau t n -> exists x, rd t n = Ok x /\ Daughter x = dau t n.
Proof.
  unfold dau. destruct (rd t n) as [x | | |]; intros H; try lia. eauto.
Qed.

Lemma dcnt_agree (t0 t1 t' : list local_topnode_data) (x : Z) :
  rd t1 x = rd t0 x -> dcnt t1 t' x = dcnt t0 t' x.
Proof. intros H. unfold dcnt, cnt. now rewrite H. Qed.

Lemma dcst_agree (t0 t1 t' : list local_topnode_data) (x : Z) :
  rd t1 x = rd t0 x -> dcst t1 t' x = dcst t0 t' x.
Proof. intros H. unfold dcst, cst. now rewrite H. Qed.

Lemma dcnt_agree_r (t t1 t2 : list local_topnode_data) (x : Z) :
  rd t2 x = rd t1 x -> dcnt t t2 x = dcnt t t1 x.
Proof. intros H. unfold dcnt, cnt. now rewrite H. Qed.

Lemma dcst_agree_r (t t1 t2 : list local_topnode_data) (x : Z) :
  rd t2 x = rd t1 x -> dcst t t2 x = dcst t t1 x.
Proof. intros H. unfold dcst, cst. now rewrite H. Qed.

Lemma level_agree (t0 t1 t2 t3 : list local_topnode_data) (n c c' : Z) (q q' : Q) :
  (forall i, 0 <= i < 8 -> rd t1 (dau t0 n + i) = rd t0 (dau t0 n + i)) ->
  (forall i, 0 <= i < 8 -> rd t3 (dau t0 n + i) = rd t2 (dau t0 n + i)) ->
  dau t1 n = dau t0 n -> c = c' -> (q == q')%Q ->
  level t1 t2 n c q -> level t0 t3 n c' q'.
Proof.
  intros H01 H23 Hd <- Hq [Hf Hr Hc]. rewrite Hd in *. constructor.
  - specialize (H01 0 ltac:(lia)). specialize (H23 0 ltac:(lia)).
    rewrite Z.add_0_r in *.
    rewrite (dcnt_agree_r _ _ _ _ H23), <- (dcnt_agree _ _ _ _ H01). exact Hf.
  - intros i Hi.
    rewrite (dcnt_agree_r _ _ _ _ (H23 i ltac:(lia))), <- (dcnt_agree _ _ _ _ (H01 i ltac:(lia))).
    apply Hr. exact Hi.
  - intros i Hi.
    rewrite (dcst_agree_r _ _ _ _ (H23 i Hi)), <- (dcst_agree _ _ _ _ (H01 i Hi)).
    rewrite (Hc i Hi). rewrite Hq. reflexivity.
Qed.

(** What a completed call has done to the tree. *)
Record add_cost_post (t t' : list local_topnode_data) (noA count : Z) (cost : Q)
  : Prop := {
  post_len : zlen t' = zlen t;
  post_dau : forall n, dau t' n = dau t n;
  post_frame : forall x, ~ below t noA x -> rd t' x = rd t x;
  post_top : level t t' noA count cost;
  post_deep : forall n, below t noA n -> 0 <= dau t n ->
                level t t' n (dcnt t t' n) (dcst t t' n)
}.

(** The state of the loop when the daughters [0 .. k-1] are done. *)
Record part_done (t : list local_topnode_data) (noA count : Z) (cost : Q)
  (k : Z) (tk : list local_topnode_data) : Prop := {
  part_len : zlen tk = zlen t;
  part_dau : forall n, dau tk n = dau t n;
  part_frame : forall x,
     (forall j, 0 <= j < k -> x <> dau t noA + j /\ ~ below t (dau t noA + j) x) ->
     rd tk x = rd t x;
  part_top : forall j, 0 <= j < k ->
     dcnt t tk (dau t noA + j) = (if j =? 0 then count - 7 * (count ÷ 8) else count ÷ 8) /\
     (dcst t tk (dau t noA + j) == cost / 8)%Q;
  part_deep : forall j n, 0 <= j < k ->
     n = dau t noA + j \/ below t (dau t noA + j) n -> 0 <= dau t n ->
     level t tk n (dcnt t tk n) (dcst t tk n)
}.

Section Turn.

Variable t : list local_topnode_data.
Hypothesis Hshape : tree_shaped t.
Variable noA : Z.
Hypothesis Hint : 0 <= dau t noA.

Lemma daughter_child (j : Z) : 0 <= j < 8 -> child t noA (dau t noA + j).
Proof. intros Hj. split; [exact Hint | lia]. Qed.

Lemma other_subtree (j k x : Z) :
  0 <= j < 8 -> 0 <= k < 8 -> j <> k ->
  x = dau t noA + j \/ below t (dau t noA + j) x ->
  x <> dau t noA + k /\ ~ below t (dau t noA + k) x.
Proof.
  intros Hj Hk Hne [-> | Hb].
  - split; [lia |].
    apply (sibling_not_below t Hshape noA); apply daughter_child; assumption.
  - split.
    + intros ->. revert Hb.
      apply (sibling_not_below t Hshape noA); apply daughter_child; assumption.
    + apply (below_apart t Hshape noA (dau t noA + j)); try assumption;
        try (apply daughter_child; assumption). lia.
Qed.

Lemma own_subtree_fresh (k x : Z) :
  0 <= k < 8 -> x = noA \/ (exists j, 0 <= j < 8 /\ j <> k /\
                              (x = dau t noA + j \/ below t (dau t noA + j) x)) ->
  ~ below t (dau t noA + k) x.
Proof.
  intros Hk [-> | (j & Hj & Hne & Hx)].
  - intros Hb. apply (below_gt t Hshape) in Hb.
    destruct (shaped_forward t Hshape noA Hint). lia.
  - apply (other_subtree j k x Hj Hk Hne Hx).
Qed.

Lemma add_cost_turn_spec
  (recurse : list local_topnode_data -> Z -> Z -> Q -> outcome (list local_topnode_data))
  (count : Z) (cost : Q) (k : Z) (tk : list local_topnode_data) :
  (forall t1 sub c q, tree_shaped t1 -> 0 <= dau t1 sub -> noA < sub ->
     zlen t1 = zlen t ->
     exists t2, recurse t1 sub c q = Ok t2 /\ add_cost_post t1 t2 sub c q) ->
  0 <= k < 8 ->
  part_done t noA count cost k tk ->
  exists tk',
    add_cost_turn recurse noA (count - 7 * (count ÷ 8)) (count ÷ 8) (cost / 8)%Q k tk
    = Ok tk' /\
    part_done t noA count cost (k + 1) tk'.
Proof.
  intros Hrec Hk [Hlen Hdau Hframe Htop Hdeep].
  set (d := dau t noA) in *. set (sub := d + k).
  set (c := if k =? 0 then count - 7 * (count ÷ 8) else count ÷ 8).
  destruct (shaped_forward t Hshape noA Hint) as [Hfwd Hfit]. fold d in Hfwd, Hfit.
  destruct (dau_Ok t noA Hint) as (na & Hna & Hnad). fold d in Hnad.
  assert (Hsubc : child t noA sub) by (apply daughter_child; exact Hk).
  assert (Hnosub : ~ below t sub sub).
  { intros Hb. apply (below_gt t Hshape) in Hb. lia. }
  (* the reads of this turn see the original nodes *)
  assert (Hrna : rd tk noA = Ok na).
  { rewrite Hframe; [exact Hna |]. intros j Hj. split; [lia |].
    intros Hb. apply (below_gt t Hshape) in Hb. lia. }
  assert (Hother : forall j, 0 <= j < k -> sub <> d + j /\ ~ below t (d + j) sub).
  { intros j Hj. apply (other_subtree k j sub ltac:(lia) ltac:(lia) ltac:(lia)). auto. }
  destruct (rd_in_range t sub ltac:(unfold sub; lia)) as [ns Hns].
  assert (Hrns : rd tk sub = Ok ns) by (rewrite Hframe; assumption).
  unfold add_cost_turn, mbind, outcome_bind.
  rewrite Hrna. cbn [obind]. rewrite Hnad. fold sub c. rewrite Hrns. cbn [obind].
  destruct (wr tk sub (add_to ns c (cost / 8))) as [tk1 | | |] eqn:Ew;
    try (rewrite wr_in_range in Ew by (rewrite Hlen; unfold sub; lia); discriminate).
  cbn [obind]. rewrite (rd_wr_eq _ _ _ _ Ew). cbn [obind].
  change (Daughter (add_to ns c (cost / 8))) with (Daughter ns).
  assert (Hl1 : zlen tk1 = zlen t) by (rewrite (zlen_wr _ _ _ _ Ew); exact Hlen).
  assert (Hd1 : forall n, dau tk1 n = dau t n).
  { intros n. rewrite <- Hdau. destruct (Z.eq_dec n sub) as [-> | Hn].
    - unfold dau. rewrite (rd_wr_eq _ _ _ _ Ew), Hrns. reflexivity.
    - unfold dau. rewrite (rd_wr_ne _ _ _ _ _ Ew) by lia. reflexivity. }
  assert (Hdsub : Daughter ns = dau t sub) by (unfold dau; rewrite Hns; reflexivity).
  (* the tree after the recursive call, if any *)
  assert (Hcall : exists tk2,
     (if Daughter ns >=? 0 then recurse tk1 sub c (cost / 8)%Q else Ok tk1) = Ok tk2 /\
     zlen tk2 = zlen t /\ (forall n, dau tk2 n = dau t n) /\
     (forall x, ~ below t sub x -> rd tk2 x = rd tk1 x) /\
     (0 <= dau t sub -> level tk1 tk2 sub c (cost / 8)) /\
     (forall n, below t sub n -> 0 <= dau t n ->
        level tk1 tk2 n (dcnt tk1 tk2 n) (dcst tk1 tk2 n))).
  { destruct (Z.geb_spec (Daughter ns) 0) as [Hge | Hlt].
    - destruct (Hrec tk1 sub c (cost / 8)%Q) as (tk2 & Hrun & [Pl Pd Pf Pt Pp]).
      + apply (tree_shaped_same_dau t); assumption.
      + rewrite Hd1. lia.
      + unfold sub. lia.
      + exact Hl1.
      + exists tk2. split; [exact Hrun |]. split; [congruence |].
        split; [intros n; rewrite Pd; apply Hd1 |].
        split.
        { intros x Hx. apply Pf. intros Hb. apply Hx.
          apply (below_same_dau tk1 t); [intros n; symmetry; apply Hd1 | exact Hb]. }
        split; [intros _; exact Pt |].
        intros n Hb Hn. apply Pp.
        * apply (below_same_dau t tk1); [exact Hd1 | exact Hb].
        * rewrite Hd1. exact Hn.
    - exists tk1. split; [reflexivity |]. split; [exact Hl1 |].
      split; [exact Hd1 |]. split; [reflexivity |]. split; [lia |].
      intros n Hb. apply below_root_internal in Hb. lia. }
  destruct Hcall as (tk2 & -> & Hl2 & Hd2 & Hf2 & Ht2 & Hp2).
  exists tk2. split; [reflexivity |].
  (* nodes of the daughters already done keep what they had in [tk] *)
  assert (Hkeep : forall x, x <> sub -> ~ below t sub x -> rd tk2 x = rd tk x).
  { intros x Hx Hb. rewrite (Hf2 x Hb). apply (rd_wr_ne _ _ _ _ _ Ew). lia. }
  assert (Hsub2 : rd tk2 sub = Ok (add_to ns c (cost / 8))).
  { rewrite (Hf2 sub Hnosub). apply (rd_wr_eq _ _ _ _ Ew). }
  assert (Hbelow_orig : forall x, below t sub x -> rd tk1 x = rd t x).
  { intros x Hb. rewrite (rd_wr_ne _ _ _ _ _ Ew).
    - apply Hframe. intros j Hj. apply (other_subtree k j x); try lia. right. exact Hb.
    - apply (below_gt t Hshape) in Hb. lia. }
  assert (Hdsubc : dcnt t tk2 sub = c).
  { unfold dcnt, cnt. rewrite Hsub2, Hns. cbn [Count add_to]. lia. }
  assert (Hdsubq : (dcst t tk2 sub == cost / 8)%Q).
  { unfold dcst, cst. rewrite Hsub2, Hns. cbn [Cost add_to]. lra. }
  constructor.
  - exact Hl2.
  - exact Hd2.
  - intros x Hx. destruct (Hx k ltac:(lia)) as [Hx1 Hx2]. fold d sub in Hx1, Hx2.
    rewrite (Hkeep x Hx1 Hx2). apply Hframe. intros j Hj. apply Hx. lia.
  - intros j Hj. fold d. destruct (Z.eq_dec j k) as [-> | Hjk].
    + fold sub c. split; assumption.
    + destruct (other_subtree j k (d + j) ltac:(lia) ltac:(lia) ltac:(lia) ltac:(auto))
        as [Hne Hnb].
      fold d sub in Hne, Hnb.
      rewrite (dcnt_agree_r t tk tk2), (dcst_agree_r t tk tk2) by (apply Hkeep; assumption).
      apply Htop. lia.
  - intros j n Hj Hn Hin. fold d in Hn. destruct (Z.eq_dec j k) as [-> | Hjk].
    + fold sub in Hn.
      assert (Hdch : forall i, 0 <= i < 8 -> below t sub (dau t n + i)).
      { intros i Hi. destruct Hn as [-> | Hb].
        - apply below_child. split; [exact Hin | lia].
        - eapply below_step; [exact Hb |]. split; [exact Hin | lia]. }
      destruct Hn as [-> | Hb].
      * apply (level_agree t tk1 tk2 tk2 sub c (dcnt t tk2 sub) (cost / 8) (dcst t tk2 sub)).
        -- intros i Hi. apply Hbelow_orig, Hdch, Hi.
        -- reflexivity.
        -- apply Hd1.
        -- symmetry. exact Hdsubc.
        -- symmetry. exact Hdsubq.
        -- apply Ht2. exact Hin.
      * apply (level_agree t tk1 tk2 tk2 n (dcnt tk1 tk2 n) _ (dcst tk1 tk2 n)).
        -- intros i Hi. apply Hbelow_orig, Hdch, Hi.
        -- reflexivity.
        -- apply Hd1.
        -- apply dcnt_agree, Hbelow_orig, Hb.
        -- rewrite (dcst_agree t tk1 tk2 n (Hbelow_orig n Hb)). reflexivity.
        -- apply Hp2; assumption.
    + assert (Hout : forall x, x = d + j \/ below t (d + j) x -> rd tk2 x = rd tk x).
      { intros x Hx.
        destruct (other_subtree j k x ltac:(lia) ltac:(lia) ltac:(lia) Hx) as [Hne Hnb].
        apply Hkeep; assumption. }
      assert (Hdch : forall i, 0 <= i < 8 -> below t (d + j) (dau t n + i)).
      { intros i Hi. destruct Hn as [-> | Hb].
        - apply below_child. split; [exact Hin | lia].
        - eapply below_step; [exact Hb |]. split; [exact Hin | lia]. }
      apply (level_agree t t tk tk2 n (dcnt t tk n) _ (dcst t tk n)).
      * reflexivity.
      * intros i Hi. apply Hout. right. apply Hdch, Hi.
      * reflexivity.
      * symmetry. apply dcnt_agree_r, Hout, Hn.
      * rewrite (dcst_agree_r t tk tk2 n (Hout n Hn)). reflexivity.
      * apply (Hdeep j n); try assumption. lia.
Qed.

End Turn.

Lemma below_split (t : list local_topnode_data) (noA n : Z) :
  below t noA n ->
  exists j, 0 <= j < 8 /\ (n = dau t noA + j \/ below t (dau t noA + j) n).
Proof.
  induction 1 as [x [H0 Hx] | p x _ (j & Hj & IH) Hc].
  - exists (x - dau t noA). split; [lia |]. left. lia.
  - exists j. split; [exact Hj |]. right. destruct IH as [-> | IH].
    + apply below_child. exact Hc.
    + eapply below_step; [exact IH | exact Hc].
Qed.

Lemma add_cost_run (fuel : nat) :
  forall (t : list local_topnode_data) (noA count : Z) (cost : Q),
    tree_shaped t -> 0 <= dau t noA ->
    (Z.to_nat (zlen t - noA) <= fuel)%nat ->
    exists t', domain_add_cost fuel t noA count cost = Ok t' /\
               add_cost_post t t' noA count cost.
Proof.
  induction fuel as [| fuel IH]; intros t noA count cost Hshape Hint Hfuel.
  - destruct (dau_Ok t noA Hint) as (na & Hna & _). apply rd_range in Hna. lia.
  - cbn [domain_add_cost].
    destruct (dau_Ok t noA Hint) as (na & Hna & _). apply rd_range in Hna.
    destruct (for_range_inv (part_done t noA count cost)
                (add_cost_turn (domain_add_cost fuel) noA
                   (count - 7 * (count ÷ 8)) (count ÷ 8) (cost / 8)%Q) 8 0 t)
      as (t' & Hrun & [Hlen Hdau Hframe Htop Hdeep]).
    + constructor; try reflexivity; intros; lia.
    + intros k tk Hk Hpart.
      apply (add_cost_turn_spec t Hshape noA Hint); [| lia | exact Hpart].
      intros t1 sub c q Hs1 Hd1 Hsub Hl1. apply IH; [assumption .. |]. lia.
    + exists t'. split; [exact Hrun |].
      change (0 + Z.of_nat 8) with 8 in *.
      constructor.
      * exact Hlen.
      * exact Hdau.
      * intros x Hx. apply Hframe. intros j Hj. split.
        -- intros ->. apply Hx. apply below_child. split; [exact Hint | lia].
        -- intros Hb. apply Hx. apply (below_trans_child t noA (dau t noA + j)).
           ++ split; [exact Hint | lia].
           ++ exact Hb.
      * constructor.
        -- destruct (Htop 0 ltac:(lia)) as [H _]. rewrite Z.add_0_r in H. exact H.
        -- intros i Hi. destruct (Htop i ltac:(lia)) as [H _].
           destruct (Z.eqb_spec i 0); [lia | exact H].
        -- intros i Hi. apply (Htop i ltac:(lia)).
      * intros n Hb Hn. destruct (below_split t noA n Hb) as (j & Hj & Hjn).
        apply (Hdeep j n Hj Hjn Hn).
Qed.

(** The amounts the eight daughters of [n] received add up to [c] and [q];
    every daughter received one eighth of [q], and every daughter but the
    first the integer eighth of [c]. *)
Record conserved (t t' : list local_topnode_data) (n c : Z) (q : Q) : Prop := {
  conserved_count : sum8 (fun i => dcnt t t' (dau t n + i)) = c;
  conserved_cost : (Qsum8 (fun i => dcst t t' (dau t n + i)) == q)%Q;
  conserved_count_eighth : forall i, 1 <= i < 8 -> dcnt t t' (dau t n + i) = c ÷ 8;
  conserved_cost_eighth : forall i, 0 <= i < 8 -> (dcst t t' (dau t n + i) == q / 8)%Q
}.

Lemma level_conserved (t t' : list local_topnode_data) (n c : Z) (q : Q) :
  level t t' n c q -> conserved t t' n c q.
Proof.
  intros [Hf Hr Hc]. constructor; try assumption.
  - unfold sum8. rewrite Z.add_0_r, Hf.
    rewrite !Hr by lia. lia.
  - unfold Qsum8. rewrite !Hc by lia. field.
Qed.

(** C9. [domain_add_cost] returns on every tree-shaped array and every
    refined node [noA]; the amounts it adds to the eight daughters of [noA]
    sum to the inserted count and cost, and at every refined node below, the
    amounts added to its eight daughters sum to what was added to the node
    itself.  The count need not be divisible by 8. *)
Theorem add_cost_conserves (t : list local_topnode_data) (noA count : Z) (cost : Q) :
  tree_shaped t -> 0 <= dau t noA ->
  exists t',
    domain_add_cost (Z.to_nat (zlen t)) t noA count cost = Ok t' /\
    conserved t t' noA count cost /\
    (forall n, below t noA n -> 0 <= dau t n ->
       conserved t t' n (dcnt t t' n) (dcst t t' n)) /\
    (forall x, ~ below t noA x -> rd t' x = rd t x).
Proof.
  intros Hshape Hint.
  destruct (dau_Ok t noA Hint) as (na & Hna & _). apply rd_range in Hna.
  destruct (add_cost_run (Z.to_nat (zlen t)) t noA count cost Hshape Hint ltac:(lia))
    as (t' & Hrun & [_ _ Hframe Htop Hdeep]).
  exists t'. split; [exact Hrun |]. split; [apply level_conserved, Htop |].
  split; [| exact Hframe].
  intros n Hb Hn. apply level_conserved, Hdeep; assumption.
Qed.

Definition leaf_node (count : Z) (cost : Q) (parent : Z) : local_topnode_data :=
  mkTop 8 0 count cost (-1) 0 parent 0.

(** A root with eight daughters, the third of which is refined once more. *)
Definition sample_tree : list local_topnode_data :=
  mkTop 512 0 40 40%Q 1 0 (-1) 0
  :: leaf_node 5 5 0 :: leaf_node 5 5 0
  :: mkTop 64 128 5 5%Q 9 0 0 0
  :: leaf_node 5 5 0 :: leaf_node 5 5 0 :: leaf_node 5 5 0
  :: leaf_node 5 5 0 :: leaf_node 5 5 0
  :: repeat (leaf_node 0 0 3) 8.

Lemma sample_tree_refined (n : Z) : 0 <= dau sample_tree n -> n = 0 \/ n = 3.
Proof.
  unfold dau, rd. destruct (Z.ltb_spec n 0) as [| Hn]; [lia |].
  remember (Z.to_nat n) as k eqn:Hk.
  do 17 (destruct k as [| k]; [cbn; lia |]).
  simpl. lia.
Qed.

Lemma sample_tree_shaped : tree_shaped sample_tree.
Proof.
  constructor.
  - intros n H. destruct (sample_tree_refined n H) as [-> | ->];
      vm_compute; intuition congruence.
  - intros n m Hn Hm Hne.
    destruct (sample_tree_refined n Hn) as [-> | ->];
      destruct (sample_tree_refined m Hm) as [-> | ->];
      try congruence; vm_compute; intuition congruence.
Qed.

Lemma add_cost_conserves_witness :
  exists t',
    domain_add_cost 17 sample_tree 0 13 (3 # 1) = Ok t' /\
    conserved sample_tree t' 0 13 (3 # 1) /\
    (forall n, below sample_tree 0 n -> 0 <= dau sample_tree n ->
       conserved sample_tree t' n (dcnt sample_tree t' n) (dcst sample_tree t' n)) /\
    (forall x, ~ below sample_tree 0 x -> rd t' x = rd sample_tree x).
Proof.
  apply (add_cost_conserves sample_tree 0 13 (3 # 1) sample_tree_shaped).
  vm_compute. congruence.
Defined.

Example add_cost_13 :
  (fun r => match r with
            | Ok t' => map Count t'
            | _ => []
            end) (domain_add_cost 17 sample_tree 0 13 (3 # 1))
  = [40; 11; 6; 6; 6; 6; 6; 6; 6; 1; 0; 0; 0; 0; 0; 0; 0].
Proof. reflexivity. Qed.

(** *** Local refinement: [domain_check_for_local_refine] *)

(** [struct peano_hilbert_data] *)
Record peano_hilbert_data : Type := mkMp { key : Z; index : Z }.

Record top_state : Type := mkTopState {
  topNodes : list local_topnode_data;
  NTopnodes : Z;
  MaxTopNodes : Z
}.

Definition set_Daughter (n : local_topnode_data) (d : Z) : local_topnode_data :=
  mkTop (Size n) (StartKey n) (Count n) (Cost n) d (Leaf n) (Parent n) (PIndex n).

Definition set_PIndex (n : local_topnode_data) (p : Z) : local_topnode_data :=
  mkTop (Size n) (StartKey n) (Count n) (Cost n) (Daughter n) (Leaf n) (Parent n) p.

Section Refine.

(** [TIMEBASE] and [TOPNODEFACTOR] are macros of [allvars.h], which is not
    among the sources at hand: they are parameters. *)
Variable TIMEBASE : Q.
Variable TOPNODEFACTOR : Q.

Variable P : list particle_data.
Variable mp : list peano_hilbert_data.
Variables (countlimit costlimit : Q).

Definition domain_particle_costfactor (i : Z) : outcome Q :=
  p ← rd P i;
  if TimeBin p =? 0
  then Ok ((1 + GravCost p) / TIMEBASE)%Q
  else Ok ((1 + GravCost p) / inject_Z (Z.shiftl 1 (TimeBin p)))%Q.

(** The test at the head of the routine: [true] when the node is left as it
    is.  The parent is read only when the node has one and is under both
    limits. *)
Definition refine_not_needed (t : list local_topnode_data) (ni : local_topnode_data)
  : outcome bool :=
  if Size ni <? 8 then Ok true
  else if Qle_bool (inject_Z (Count ni)) countlimit && Qle_bool (Cost ni) costlimit
  then
    if Parent ni <? 0 then Ok true
    else
      np ← rd t (Parent ni);
      Ok (Qle_bool (inject_Z (Count ni)) ((8 # 10) * inject_Z (Count np))
          && Qle_bool (Cost ni) ((8 # 10) * Cost np))
  else Ok false.

(** Initialise daughter [j] of node [i]. *)
Definition init_daughter (i j : Z) (t : list local_topnode_data)
  : outcome (list local_topnode_data) :=
  ni ← rd t i;
  let sub := Daughter ni + j in
  ns ← rd t sub;
  let size := Z.shiftr (Size ni) 3 in
  wr t sub (mkTop size (wrap64 (StartKey ni + wrap64 (j * size))) 0 0%Q
                  (-1) (Leaf ns) i (PIndex ni)).

(** The inner [while] of the particle loop: step to the daughter whose key
    range holds [k]. *)
Fixpoint advance (fuel : nat) (sub p k : Z) (t : list local_topnode_data) (j : Z)
  : outcome (list local_topnode_data * Z) :=
  match fuel with
  | O => Hang
  | S fuel' =>
      ns ← rd t (sub + j + 1);
      if StartKey ns <=? k then
        t ← wr t (sub + j + 1) (set_PIndex ns p);
        let j := j + 1 in
        if j >=? 7 then Ok (t, j) else advance fuel' sub p k t j
      else Ok (t, j)
  end.

(** One turn of the loop over the particles of node [i]. *)
Definition count_particle (i p : Z) (tj : list local_topnode_data * Z)
  : outcome (list local_topnode_data * Z) :=
  let '(t, j) := tj in
  ni ← rd t i;
  let sub := Daughter ni in
  m ← rd mp p;
  '(t, j) ← (if j <? 7 then advance 7 sub p (key m) t j else Ok (t, j));
  c ← domain_particle_costfactor (index m);
  ns ← rd t (sub + j);
  t ← wr t (sub + j) (add_to ns 1 c);
  Ok (t, j).

(** The loop over the eight daughters that refines each in turn and gives up
    as soon as one of them is out of nodes. *)
Fixpoint refine_daughters (recurse : Z -> top_state -> outcome (Z * top_state))
  (n : nat) (i j : Z) (st : top_state) : outcome (Z * top_state) :=
  match n with
  | O => Ok (0, st)
  | S n' =>
      ni ← rd (topNodes st) i;
      '(r, st) ← recurse (Daughter ni + j) st;
      if r =? 0 then refine_daughters recurse n' i (j + 1) st else Ok (1, st)
  end.

Fixpoint domain_check_for_local_refine (fuel : nat) (i : Z) (st : top_state)
  : outcome (Z * top_state) :=
  match fuel with
  | O => Hang
  | S fuel' =>
      ni ← rd (topNodes st) i;
      keep ← refine_not_needed (topNodes st) ni;
      if (keep : bool) then Ok (0, st)
      else if NTopnodes st + 8 >? MaxTopNodes st then Ok (1, st)
      else
        t ← wr (topNodes st) i (set_Daughter ni (NTopnodes st));
        let ntop := NTopnodes st + 8 in
        t ← for_range 8 0 (init_daughter i) t;
        ni ← rd t i;
        '(t, _) ← for_range (Z.to_nat (Count ni)) (PIndex ni) (count_particle i) (t, 0);
        refine_daughters (domain_check_for_local_refine fuel') 8 i 0
                         (mkTopState t ntop (MaxTopNodes st))
  end.

(** The limits [domain_determineTopTree] passes to the local refinement. *)
Definition refine_limit (total : Q) (DomainOverDecompositionFactor NTask : Z) : Q :=
  (total / (TOPNODEFACTOR * inject_Z DomainOverDecompositionFactor * inject_Z NTask))%Q.

End Refine.

(** The head of [domain_determineTopTree]: the root node covers all keys and
    all local particles, and is refined against the two limits.  [mp] is the
    array of keys as [qsort_openmp] leaves it. *)
Definition domain_determineTopTree_local (TIMEBASE TOPNODEFACTOR : Q)
  (P : list particle_data) (mp : list peano_hilbert_data)
  (PEANOCELLS NumPart : Z) (gravcost totgravcost totpartcount : Q)
  (DomainOverDecompositionFactor NTask : Z) (fuel : nat) (st : top_state)
  : outcome (Z * top_state) :=
  n0 ← rd (topNodes st) 0;
  t ← wr (topNodes st) 0 (mkTop PEANOCELLS 0 NumPart gravcost (-1) (Leaf n0) (-1) 0);
  let costlimit := refine_limit TOPNODEFACTOR totgravcost DomainOverDecompositionFactor NTask in
  let countlimit := refine_limit TOPNODEFACTOR totpartcount DomainOverDecompositionFactor NTask in
  domain_check_for_local_refine TIMEBASE P mp countlimit costlimit fuel 0
    (mkTopState t 1 (MaxTopNodes st)).

(** The condition of the specification, in its words: the key range holds
    at least 8 cells, and the node is over the count limit, or over the cost
    limit, or has a parent and holds more than 80% of the parent's count or
    cost. *)
Definition must_refine (countlimit costlimit : Q) (ni : local_topnode_data)
  (parent : option local_topnode_data) : Prop :=
  8 <= Size ni /\
  ((countlimit < inject_Z (Count ni))%Q \/
   (costlimit < Cost ni)%Q \/
   exists np, parent = Some np /\
     (((8 # 10) * inject_Z (Count np) < inject_Z (Count ni))%Q \/
      ((8 # 10) * Cost np < Cost ni)%Q)).

Definition parent_of (t : list local_topnode_data) (ni : local_topnode_data)
  : option local_topnode_data :=
  if Parent ni <? 0 then None
  else match rd t (Parent ni) with Ok np => Some np | _ => None end.

Lemma Qle_bool_false (x y : Q) : Qle_bool x y = false <-> (y < x)%Q.
Proof.
  split; intros H.
  - apply Qnot_le_lt. intros Hle. apply Qle_bool_iff in Hle. congruence.
  - destruct (Qle_bool x y) eqn:E; [| reflexivity].
    apply Qle_bool_iff in E. apply Qle_not_lt in E. contradiction.
Qed.

Lemma refine_not_needed_spec (countlimit costlimit : Q)
  (t : list local_topnode_data) (ni : local_topnode_data) :
  (0 <= Parent ni -> exists np, rd t (Parent ni) = Ok np) ->
  exists b, refine_not_needed countlimit costlimit t ni = Ok b /\
            (b = false <-> must_refine countlimit costlimit ni (parent_of t ni)).
Proof.
  intros Hpar. unfold refine_not_needed, must_refine, parent_of.
  destruct (Z.ltb_spec (Size ni) 8) as [Hs | Hs].
  { exists true. split; [reflexivity |]. split; [discriminate | lia]. }
  destruct (Qle_bool (inject_Z (Count ni)) countlimit) eqn:Ec.
  2: { exists false. split; [reflexivity |]. split; [| reflexivity].
       intros _. split; [lia |]. left. apply Qle_bool_false. exact Ec. }
  destruct (Qle_bool (Cost ni) costlimit) eqn:Eq.
  2: { exists false. split; [reflexivity |]. split; [| reflexivity].
       intros _. split; [lia |]. right. left. apply Qle_bool_false. exact Eq. }
  cbn [andb].
  apply Qle_bool_iff in Ec. apply Qle_bool_iff in Eq.
  destruct (Z.ltb_spec (Parent ni) 0) as [Hp | Hp].
  { exists true. split; [reflexivity |]. split; [discriminate |].
    intros [_ [H | [H | (np & Hn & _)]]].
    - apply Qle_not_lt in Ec. contradiction.
    - apply Qle_not_lt in Eq. contradiction.
    - discriminate. }
  destruct (Hpar Hp) as [np Hnp]. unfold mbind, outcome_bind. rewrite Hnp. cbn [obind].
  eexists. split; [reflexivity |].
  rewrite andb_false_iff, !Qle_bool_false. split.
  - intros H. split; [lia |]. right. right. exists np. split; [reflexivity | exact H].
  - intros [_ [H | [H | (np' & Hn & H)]]].
    + apply Qle_not_lt in Ec. contradiction.
    + apply Qle_not_lt in Eq. contradiction.
    + injection Hn as <-. exact H.
Qed.

(** The fields of a daughter that the split fixes once and for all. *)
Definition fresh_daughter (ni : local_topnode_data) (i m : Z) (nd : local_topnode_data)
  : Prop :=
  Size nd = Z.shiftr (Size ni) 3 /\
  StartKey nd = wrap64 (StartKey ni + wrap64 (m * Z.shiftr (Size ni) 3)) /\
  Parent nd = i.

(** The state of the particle loop of node [i] before particle [p] is
    counted; [j] is the daughter the previous particle went to. *)
Record counting (ni : local_topnode_data) (i d p : Z)
  (t2 t : list local_topnode_data) (j : Z) : Prop := {
  cnt_len : zlen t = zlen t2;
  cnt_j : 0 <= j <= 7;
  cnt_frame : forall k, ~ (d <= k < d + 8) -> rd t k = rd t2 k;
  cnt_nodes : forall m, 0 <= m < 8 -> exists nd,
     rd t (d + m) = Ok nd /\ fresh_daughter ni i m nd /\ Daughter nd = -1 /\
     PIndex ni <= PIndex nd /\ 0 <= Count nd /\ PIndex nd + Count nd <= p /\
     (j < m -> Count nd = 0)
}.

Section RefineLoops.

Variable TIMEBASE : Q.
Variable P : list particle_data.
Variable mp : list peano_hilbert_data.
Hypothesis mp_ok : forall p m, rd mp p = Ok m -> 0 <= index m < zlen P.

Variable t2 : list local_topnode_data.
Variables (i d : Z).
Variable ni : local_topnode_data.
Hypothesis Hi : 0 <= i < d.
Hypothesis Hd : d + 8 <= zlen t2.
Hypothesis Hni : rd t2 i = Ok ni.
Hypothesis Hdau : Daughter ni = d.

Lemma init_daughters :
  exists t, for_range 8 0 (init_daughter i) t2 = Ok t /\
    zlen t = zlen t2 /\
    (forall k, ~ (d <= k < d + 8) -> rd t k = rd t2 k) /\
    (forall m, 0 <= m < 8 -> exists nd,
       rd t (d + m) = Ok nd /\ fresh_daughter ni i m nd /\ Daughter nd = -1 /\
       Count nd = 0 /\ PIndex nd = PIndex ni).
Proof.
  destruct (for_range_inv
    (fun k t => zlen t = zlen t2 /\
       (forall x, ~ (d <= x < d + k) -> rd t x = rd t2 x) /\
       (forall m, 0 <= m < k -> exists nd,
          rd t (d + m) = Ok nd /\ fresh_daughter ni i m nd /\ Daughter nd = -1 /\
          Count nd = 0 /\ PIndex nd = PIndex ni))
    (init_daughter i) 8 0 t2) as (t & Hrun & Hl & Hf & Hn).
  - split; [reflexivity |]. split; [reflexivity |]. intros; lia.
  - intros k t Hk (Hl & Hf & Hn).
    unfold init_daughter, mbind, outcome_bind.
    rewrite (Hf i) by lia. rewrite Hni. cbn [obind]. rewrite Hdau.
    destruct (rd_in_range t (d + k) ltac:(lia)) as [ns Hns].
    rewrite Hns. cbn [obind].
    destruct (wr t (d + k) _) as [t' | | |] eqn:Ew;
      try (rewrite wr_in_range in Ew by lia; discriminate).
    exists t'. split; [reflexivity |].
    split; [rewrite (zlen_wr _ _ _ _ Ew); exact Hl |].
    split.
    + intros x Hx. rewrite (rd_wr_ne _ _ _ _ _ Ew) by lia. apply Hf. lia.
    + intros m Hm. destruct (Z.eq_dec m k) as [-> | Hne].
      * eexists. split; [apply (rd_wr_eq _ _ _ _ Ew) |].
        unfold fresh_daughter. cbn. auto.
      * destruct (Hn m ltac:(lia)) as (nd & Hnd & Hrest).
        exists nd. split; [| exact Hrest].
        rewrite (rd_wr_ne _ _ _ _ _ Ew) by lia. exact Hnd.
  - exists t. change (0 + Z.of_nat 8) with 8 in *. auto.
Qed.

Lemma advance_counting (k p : Z) (fuel : nat) :
  forall (t : list local_topnode_data) (j : Z),
    PIndex ni <= p -> 0 <= j < 7 -> (Z.to_nat (7 - j) <= fuel)%nat ->
    counting ni i d p t2 t j ->
    exists t' j', advance fuel d p k t j = Ok (t', j') /\
                  counting ni i d p t2 t' j'.
Proof.
  induction fuel as [| fuel IH]; intros t j Hp Hj Hfuel [Hl Hj' Hf Hn]; [lia |].
  cbn [advance]. unfold mbind, outcome_bind.
  destruct (Hn (j + 1) ltac:(lia)) as (ns & Hns & Hfresh & Hdn & Hpi & Hc0 & Hcp & Hz).
  replace (d + (j + 1)) with (d + j + 1) in Hns by lia.
  rewrite Hns. cbn [obind].
  destruct (Z.leb_spec (StartKey ns) k).
  2: { exists t, j. split; [reflexivity |]. constructor; assumption. }
  destruct (wr t (d + j + 1) (set_PIndex ns p)) as [t' | | |] eqn:Ew;
    try (rewrite wr_in_range in Ew by lia; discriminate).
  cbn [obind].
  assert (Hc : counting ni i d p t2 t' (j + 1)).
  { constructor.
    - rewrite (zlen_wr _ _ _ _ Ew). exact Hl.
    - lia.
    - intros x Hx. rewrite (rd_wr_ne _ _ _ _ _ Ew) by lia. apply Hf. exact Hx.
    - intros m Hm. destruct (Z.eq_dec m (j + 1)) as [-> | Hne].
      + exists (set_PIndex ns p).
        replace (d + (j + 1)) with (d + j + 1) by lia.
        split; [apply (rd_wr_eq _ _ _ _ Ew) |].
        specialize (Hz ltac:(lia)).
        cbn [set_PIndex PIndex Count Daughter]. unfold fresh_daughter in *. cbn.
        repeat split; try tauto; try lia.
      + destruct (Hn m Hm) as (nd & Hnd & H1 & H2 & H3 & H4 & H5 & H6).
        exists nd. rewrite (rd_wr_ne _ _ _ _ _ Ew) by lia.
        split; [exact Hnd |]. split; [exact H1 |]. split; [exact H2 |].
        split; [exact H3 |]. split; [exact H4 |]. split; [exact H5 |].
        intros Hlt. apply H6. lia. }
  destruct (Z.geb_spec (j + 1) 7).
  - exists t', (j + 1). split; [reflexivity | exact Hc].
  - apply IH; try lia. exact Hc.
Qed.

Lemma count_particle_counting (p : Z) (t : list local_topnode_data) (j : Z) :
  PIndex ni <= p -> 0 <= p < zlen mp ->
  counting ni i d p t2 t j ->
  exists t' j', count_particle TIMEBASE P mp i p (t, j) = Ok (t', j') /\
                counting ni i d (p + 1) t2 t' j'.
Proof.
  intros Hp Hpm Hc. unfold count_particle, mbind, outcome_bind.
  rewrite (cnt_frame _ _ _ _ _ _ _ Hc i) by lia. rewrite Hni. cbn [obind]. rewrite Hdau.
  destruct (rd_in_range mp p Hpm) as [m Hm]. rewrite Hm. cbn [obind].
  assert (Hadv : exists t1 j1,
            (if j <? 7 then advance 7 d p (key m) t j else Ok (t, j)) = Ok (t1, j1) /\
            counting ni i d p t2 t1 j1).
  { destruct (Z.ltb_spec j 7).
    - apply advance_counting; try assumption.
      + pose proof (cnt_j _ _ _ _ _ _ _ Hc). lia.
      + pose proof (cnt_j _ _ _ _ _ _ _ Hc). lia.
    - exists t, j. split; [reflexivity | exact Hc]. }
  destruct Hadv as (t1 & j1 & -> & [Hl Hj Hf Hn]). cbn [obind].
  unfold domain_particle_costfactor, mbind, outcome_bind.
  destruct (rd_in_range P (index m) (mp_ok p m Hm)) as [pp Hpp].
  rewrite Hpp. cbn [obind].
  set (c := if TimeBin pp =? 0 then _ else _).
  assert (Hcq : exists q, c = Ok q) by (subst c; destruct (TimeBin pp =? 0); eauto).
  destruct Hcq as [q ->]. cbn [obind].
  destruct (Hn j1 ltac:(lia)) as (ns & Hns & Hfresh & Hdn & Hpi & Hc0 & Hcp & Hz).
  rewrite Hns. cbn [obind].
  destruct (wr t1 (d + j1) (add_to ns 1 q)) as [t' | | |] eqn:Ew;
    try (rewrite wr_in_range in Ew by lia; discriminate).
  cbn [obind]. exists t', j1. split; [reflexivity |].
  constructor.
  - rewrite (zlen_wr _ _ _ _ Ew). exact Hl.
  - exact Hj.
  - intros x Hx. rewrite (rd_wr_ne _ _ _ _ _ Ew) by lia. apply Hf. exact Hx.
  - intros m' Hm'. destruct (Z.eq_dec m' j1) as [-> | Hne].
    + exists (add_to ns 1 q). split; [apply (rd_wr_eq _ _ _ _ Ew) |].
      unfold fresh_daughter in *. cbn. repeat split; try tauto; try lia.
    + destruct (Hn m' Hm') as (nd & Hnd & H1 & H2 & H3 & H4 & H5 & H6).
      exists nd. rewrite (rd_wr_ne _ _ _ _ _ Ew) by lia.
      split; [exact Hnd |]. split; [exact H1 |]. split; [exact H2 |].
      split; [exact H3 |]. split; [exact H4 |]. split; [lia | exact H6].
Qed.

Lemma count_particles (t : list local_topnode_data) :
  0 <= PIndex ni -> 0 <= Count ni -> PIndex ni + Count ni <= zlen mp ->
  counting ni i d (PIndex ni) t2 t 0 ->
  exists t' j',
    for_range (Z.to_nat (Count ni)) (PIndex ni) (count_particle TIMEBASE P mp i) (t, 0)
    = Ok (t', j') /\
    counting ni i d (PIndex ni + Count ni) t2 t' j'.
Proof.
  intros Hp0 Hc0 Hfit Hc.
  destruct (for_range_inv
    (fun p (tj : list local_topnode_data * Z) =>
       counting ni i d p t2 (fst tj) (snd tj))
    (count_particle TIMEBASE P mp i) (Z.to_nat (Count ni)) (PIndex ni) (t, 0))
    as ([t' j'] & Hrun & Hfin).
  - exact Hc.
  - intros p [t0 j0] Hp Hc'. cbn [fst snd] in Hc'.
    destruct (count_particle_counting p t0 j0 ltac:(lia) ltac:(lia) Hc')
      as (t1 & j1 & Hr & Hc1).
    exists (t1, j1). split; [exact Hr | exact Hc1].
  - exists t', j'. split; [exact Hrun |].
    replace (PIndex ni + Z.of_nat (Z.to_nat (Count ni))) with (PIndex ni + Count ni)
      in Hfin by lia.
    exact Hfin.
Qed.

End RefineLoops.

(** A node whose particle range lies inside [mp] and whose parent, if any,
    is a node in use. *)
Record node_ok (nmp ntop : Z) (n : local_topnode_data) : Prop := {
  ok_pindex : 0 <= PIndex n;
  ok_count : 0 <= Count n;
  ok_range : PIndex n + Count n <= nmp;
  ok_parent : Parent n < ntop
}.

Record refine_inv (nmp : Z) (st : top_state) : Prop := {
  inv_ntop : 0 <= NTopnodes st <= MaxTopNodes st;
  inv_max : MaxTopNodes st <= zlen (topNodes st);
  inv_nodes : forall k n, 0 <= k < NTopnodes st -> rd (topNodes st) k = Ok n ->
                node_ok nmp (NTopnodes st) n
}.

(** What a refinement may change: of the nodes in use before, only the
    [Daughter] field of the nodes in [touched]. *)
Record frame_post (nmp : Z) (touched : Z -> Prop) (st st' : top_state) : Prop := {
  fp_inv : refine_inv nmp st';
  fp_max : MaxTopNodes st' = MaxTopNodes st;
  fp_ntop : NTopnodes st <= NTopnodes st';
  fp_len : zlen (topNodes st') = zlen (topNodes st);
  fp_nodes : forall k n, 0 <= k < NTopnodes st -> rd (topNodes st) k = Ok n ->
     exists n', rd (topNodes st') k = Ok n' /\
                set_Daughter n (Daughter n') = n' /\
                (~ touched k -> n' = n)
}.

Lemma set_Daughter_same (n : local_topnode_data) : set_Daughter n (Daughter n) = n.
Proof. destruct n. reflexivity. Qed.

Lemma frame_post_refl (nmp : Z) (touched : Z -> Prop) (st : top_state) :
  refine_inv nmp st -> frame_post nmp touched st st.
Proof.
  intros Hinv. constructor; try reflexivity; try assumption.
  intros k n _ Hn. exists n. split; [exact Hn |]. split; [apply set_Daughter_same | auto].
Qed.

Lemma frame_post_trans (nmp : Z) (T1 T2 T : Z -> Prop) (st st1 st2 : top_state) :
  frame_post nmp T1 st st1 -> frame_post nmp T2 st1 st2 ->
  (forall k, T1 k -> T k) -> (forall k, T2 k -> T k) ->
  frame_post nmp T st st2.
Proof.
  intros [I1 M1 N1 L1 F1] [I2 M2 N2 L2 F2] H1 H2. constructor.
  - exact I2.
  - congruence.
  - lia.
  - congruence.
  - intros k n Hk Hn.
    destruct (F1 k n Hk Hn) as (n1 & Hn1 & Hs1 & Hu1).
    destruct (F2 k n1 ltac:(lia) Hn1) as (n2 & Hn2 & Hs2 & Hu2).
    exists n2. split; [exact Hn2 |]. split.
    + rewrite <- Hs2 at 2. rewrite <- Hs1. reflexivity.
    + intros HT. rewrite Hu2 by auto. apply Hu1. auto.
Qed.

Definition need (size : Z) : nat := S (Z.to_nat (Z.log2 size)).

Lemma need_shift (size : Z) (fuel : nat) :
  8 <= size -> (need size <= S fuel)%nat -> (need (Z.shiftr size 3) <= fuel)%nat.
Proof.
  unfold need. intros Hs Hf.
  rewrite Z.log2_shiftr by lia.
  assert (3 <= Z.log2 size) by (apply Z.log2_le_pow2; lia).
  lia.
Qed.

Section RefineRun.

Variable TIMEBASE : Q.
Variable P : list particle_data.
Variable mp : list peano_hilbert_data.
Variables (countlimit costlimit : Q).
Hypothesis mp_ok : forall p m, rd mp p = Ok m -> 0 <= index m < zlen P.

Abbreviation inv := (refine_inv (zlen mp)).
Abbreviation post := (frame_post (zlen mp)).

Lemma refine_daughters_run
  (recurse : Z -> top_state -> outcome (Z * top_state)) (i d size : Z)
  (ni : local_topnode_data) (n : nat) :
  (forall sub st ns, inv st -> 0 <= sub < NTopnodes st ->
     rd (topNodes st) sub = Ok ns -> Size ns = size ->
     exists r st', recurse sub st = Ok (r, st') /\
                   post (fun k => k = sub) st st' /\ (r = 0 \/ r = 1)) ->
  Daughter ni = d -> 0 <= i < d ->
  forall (j : Z) (st0 : top_state),
    inv st0 -> 0 <= j -> j + Z.of_nat n = 8 -> d + 8 <= NTopnodes st0 ->
    rd (topNodes st0) i = Ok ni ->
    (forall m, j <= m < 8 -> exists nd,
       rd (topNodes st0) (d + m) = Ok nd /\ Size nd = size) ->
    exists r st',
      refine_daughters recurse n i j st0 = Ok (r, st') /\
      post (fun k => d + j <= k < d + 8) st0 st' /\ (r = 0 \/ r = 1).
Proof.
  intros Hrec Hdau Hi.
  induction n as [| n IH]; intros j st0 Hinv Hj Hjn Hntop Hni Hsub.
  - exists 0, st0. split; [reflexivity |]. split; [| auto].
    apply frame_post_refl. exact Hinv.
  - cbn [refine_daughters]. unfold mbind, outcome_bind.
    rewrite Hni. cbn [obind]. rewrite Hdau.
    destruct (Hsub j ltac:(lia)) as (nd & Hnd & Hsz).
    destruct (Hrec (d + j) st0 nd Hinv ltac:(lia) Hnd Hsz)
      as (r & st1 & Hrun & Hpost & Hr).
    rewrite Hrun. cbn [obind].
    destruct (Z.eqb_spec r 0) as [-> | Hr0].
    + destruct (IH (j + 1) st1) as (r' & st' & Hrun' & Hpost' & Hr').
      * apply (fp_inv _ _ _ _ Hpost).
      * lia.
      * lia.
      * pose proof (fp_ntop _ _ _ _ Hpost). lia.
      * destruct (fp_nodes _ _ _ _ Hpost i ni ltac:(lia) Hni) as (n' & Hn' & _ & Hu).
        rewrite Hn', Hu by lia. reflexivity.
      * intros m Hm. destruct (Hsub m ltac:(lia)) as (nm & Hnm & Hszm).
        destruct (fp_nodes _ _ _ _ Hpost (d + m) nm ltac:(lia) Hnm) as (n' & Hn' & _ & Hu).
        exists nm. rewrite Hn', Hu by lia. auto.
      * exists r', st'. split; [exact Hrun' |]. split; [| exact Hr'].
        eapply frame_post_trans; [exact Hpost | exact Hpost' | |];
          cbn beta; intros; lia.
    + exists 1, st1. split; [reflexivity |]. split; [| auto].
      eapply frame_post_trans;
        [exact Hpost | apply frame_post_refl, (fp_inv _ _ _ _ Hpost) | |];
        cbn beta; intros k Hk; try lia. exact Hk.
Qed.

(** What one call does to the node it is called on. *)
Definition refine_outcome (i : Z) (ni : local_topnode_data) (st : top_state)
  (r : Z) (st' : top_state) : Prop :=
  exists keep, refine_not_needed countlimit costlimit (topNodes st) ni = Ok keep /\
    if (keep : bool) then r = 0 /\ st' = st
    else if NTopnodes st + 8 >? MaxTopNodes st then r = 1 /\ st' = st
    else
      NTopnodes st + 8 <= NTopnodes st' /\
      rd (topNodes st') i = Ok (set_Daughter ni (NTopnodes st)) /\
      forall m, 0 <= m < 8 -> exists nd,
        rd (topNodes st') (NTopnodes st + m) = Ok nd /\ fresh_daughter ni i m nd.

Lemma refine_run (fuel : nat) :
  forall (i : Z) (st : top_state) (ni : local_topnode_data),
    inv st -> 0 <= i < NTopnodes st -> rd (topNodes st) i = Ok ni ->
    (need (Size ni) <= fuel)%nat ->
    exists r st',
      domain_check_for_local_refine TIMEBASE P mp countlimit costlimit fuel i st
      = Ok (r, st') /\
      post (fun k => k = i) st st' /\ (r = 0 \/ r = 1) /\
      refine_outcome i ni st r st'.
Proof.
  induction fuel as [| fuel IH]; intros i st ni Hinv Hi Hni Hfuel;
    [unfold need in Hfuel; lia |].
  cbn [domain_check_for_local_refine]. unfold mbind, outcome_bind.
  rewrite Hni. cbn [obind].
  pose proof (inv_nodes _ _ Hinv i ni Hi Hni) as [Hp0 Hc0 Hfit Hpar].
  pose proof (inv_ntop _ _ Hinv) as Hnt. pose proof (inv_max _ _ Hinv) as Hmx.
  destruct (refine_not_needed_spec countlimit costlimit (topNodes st) ni)
    as (keep & Hkeep & Hiff).
  { intros H0. apply rd_in_range. lia. }
  unfold refine_outcome. rewrite Hkeep. cbn [obind].
  destruct keep.
  { exists 0, st. split; [reflexivity |]. split; [apply frame_post_refl, Hinv |].
    split; [auto |]. exists true. auto. }
  destruct (Z.gtb_spec (NTopnodes st + 8) (MaxTopNodes st)) as [Hfull | Hroom].
  { exists 1, st. split; [reflexivity |]. split; [apply frame_post_refl, Hinv |].
    split; [auto |]. exists false. split; [reflexivity |].
    destruct (Z.gtb_spec (NTopnodes st + 8) (MaxTopNodes st)); [auto | lia]. }
  assert (Hsize : 8 <= Size ni).
  { destruct (proj1 Hiff eq_refl) as [H _]. exact H. }
  set (d := NTopnodes st) in *. set (ni1 := set_Daughter ni d).
  destruct (wr (topNodes st) i ni1) as [t1 | | |] eqn:Ew;
    try (rewrite wr_in_range in Ew by lia; discriminate).
  cbn [obind].
  pose proof (zlen_wr _ _ _ _ Ew) as Hl1.
  pose proof (rd_wr_eq _ _ _ _ Ew) as Hni1.
  destruct (init_daughters t1 i d ni1 ltac:(lia) ltac:(lia) Hni1 eq_refl)
    as (t2 & Hinit & Hl2 & Hf2 & Hn2).
  rewrite Hinit. cbn [obind].
  assert (Hni2 : rd t2 i = Ok ni1) by (rewrite Hf2 by lia; exact Hni1).
  rewrite Hni2. cbn [obind].
  destruct (count_particles TIMEBASE P mp mp_ok t2 i d ni1 ltac:(lia) ltac:(lia)
              Hni2 eq_refl t2 Hp0 Hc0 Hfit) as (t3 & j3 & Hcount & [Hl3 _ Hf3 Hn3]).
  { constructor; try reflexivity; try lia.
    intros m Hm. destruct (Hn2 m Hm) as (nd & Hnd & Hfr & Hdn & Hcn & Hpn).
    exists nd. rewrite Hcn, Hpn. repeat split; try assumption; try lia;
      apply Hfr. }
  change (Count ni1) with (Count ni). change (PIndex ni1) with (PIndex ni).
  change (Count ni1) with (Count ni) in Hcount.
  change (PIndex ni1) with (PIndex ni) in Hcount.
  rewrite Hcount. cbn [obind].
  set (st0 := mkTopState t3 (d + 8) (MaxTopNodes st)).
  assert (Hold : forall k n, 0 <= k < d -> rd (topNodes st) k = Ok n ->
            rd t3 k = Ok (if Z.eq_dec k i then ni1 else n)).
  { intros k n Hk Hn. rewrite Hf3, Hf2 by lia.
    destruct (Z.eq_dec k i) as [-> | Hne]; [exact Hni1 |].
    rewrite (rd_wr_ne _ _ _ _ _ Ew) by lia. exact Hn. }
  assert (Hinv0 : inv st0).
  { constructor; cbn [NTopnodes MaxTopNodes topNodes st0].
    - lia.
    - lia.
    - intros k n Hk Hn. destruct (Z_lt_ge_dec k d) as [Hlt | Hge].
      + destruct (rd_in_range (topNodes st) k ltac:(lia)) as [n0 Hn0].
        rewrite (Hold k n0 ltac:(lia) Hn0) in Hn. injection Hn as <-.
        destruct (Z.eq_dec k i) as [-> | Hne].
        * constructor; cbn; lia.
        * destruct (inv_nodes _ _ Hinv k n0 ltac:(lia) Hn0). constructor; lia.
      + destruct (Hn3 (k - d) ltac:(lia)) as (nd & Hnd & (_ & _ & Hpa) & _ & H1 & H2 & H3 & _).
        replace (d + (k - d)) with k in Hnd by lia.
        rewrite Hnd in Hn. injection Hn as <-.
        cbn [PIndex Count ni1 set_Daughter] in *. constructor; lia. }
  assert (Hrec : forall sub st1 ns, inv st1 -> 0 <= sub < NTopnodes st1 ->
            rd (topNodes st1) sub = Ok ns -> Size ns = Z.shiftr (Size ni) 3 ->
            exists r st',
              domain_check_for_local_refine TIMEBASE P mp countlimit costlimit fuel sub st1
              = Ok (r, st') /\
              post (fun k => k = sub) st1 st' /\ (r = 0 \/ r = 1)).
  { intros sub st1 ns Hinv1 Hsub Hns Hsz.
    destruct (IH sub st1 ns Hinv1 Hsub Hns) as (r & st' & H1 & H2 & H3 & _).
    - rewrite Hsz. apply need_shift; assumption.
    - eauto. }
  assert (Hni0 : rd (topNodes st0) i = Ok ni1).
  { cbn [topNodes st0]. rewrite (Hold i ni ltac:(lia) Hni).
    destruct (Z.eq_dec i i); [reflexivity | lia]. }
  assert (Hsub0 : forall m, 0 <= m < 8 -> exists nd,
            rd (topNodes st0) (d + m) = Ok nd /\ Size nd = Z.shiftr (Size ni) 3).
  { intros m Hm. destruct (Hn3 m ltac:(lia)) as (nd & Hnd & (Hsz & _) & _).
    exists nd. split; [exact Hnd | exact Hsz]. }
  destruct (refine_daughters_run
              (domain_check_for_local_refine TIMEBASE P mp countlimit costlimit fuel)
              i d (Z.shiftr (Size ni) 3) ni1 8 Hrec eq_refl ltac:(lia) 0 st0 Hinv0
              ltac:(lia) ltac:(lia) ltac:(cbn; lia) Hni0 Hsub0)
    as (r & st' & Hrun & Hpost & Hr).
  exists r, st'. split; [exact Hrun |].
  destruct Hpost as [I' M' N' L' F'].
  cbn [NTopnodes MaxTopNodes topNodes st0] in *.
  split; [| split; [exact Hr |]].
  - constructor; [exact I' | exact M' | lia | lia |].
    + intros k n Hk Hn.
      destruct (F' k (if Z.eq_dec k i then ni1 else n) ltac:(lia) (Hold k n Hk Hn))
        as (n' & Hn' & _ & Hu).
      specialize (Hu ltac:(lia)). subst n'. eexists. split; [exact Hn' |].
      destruct (Z.eq_dec k i) as [-> | Hne].
      * rewrite Hni in Hn. injection Hn as <-. split; [reflexivity | tauto].
      * split; [apply set_Daughter_same | auto].
  - exists false. split; [reflexivity |].
    destruct (Z.gtb_spec (d + 8) (MaxTopNodes st)); [lia |].
    split; [lia |]. split.
    + destruct (F' i ni1 ltac:(lia)) as (n' & Hn' & _ & Hu).
      * rewrite (Hold i ni ltac:(lia) Hni). destruct (Z.eq_dec i i); [reflexivity | lia].
      * rewrite Hn', Hu by lia. reflexivity.
    + intros m Hm. destruct (Hn3 m Hm) as (nd & Hnd & Hfr & _).
      destruct (F' (d + m) nd ltac:(lia) Hnd) as (n' & Hn' & Hs & _).
      exists n'. split; [exact Hn' |]. rewrite <- Hs.
      unfold fresh_daughter in *. cbn. exact Hfr.
Qed.

End RefineRun.

(** Node [i] has been given daughters among the nodes allocated between the
    states [st] and [st']. *)
Definition refined (st st' : top_state) (i : Z) : Prop :=
  exists ni', rd (topNodes st') i = Ok ni' /\
              NTopnodes st <= Daughter ni' /\ Daughter ni' + 8 <= NTopnodes st'.


Definition sample_particle (k : Z) : particle_data :=
  mkP (0, 0, 0)%Q (0, 0, 0)%Q 1%Q k 1 1 0 0 false false k 0%Q 0%Q.

Definition sample_P : list particle_data :=
  [sample_particle 5; sample_particle 20; sample_particle 60].

Definition sample_mp : list peano_hilbert_data :=
  [mkMp 5 0; mkMp 20 1; mkMp 60 2].

Definition sample_top : top_state :=
  mkTopState (mkTop 64 0 3 (3 # 2) (-1) 0 (-1) 0 :: repeat (mkTop 0 0 0 0 0 0 0 0) 16)
             1 17.

Lemma sample_mp_ok (p : Z) (m : peano_hilbert_data) :
  rd sample_mp p = Ok m -> 0 <= index m < zlen sample_P.
Proof.
  intros H. pose proof (rd_range _ _ _ H) as Hp. change (zlen sample_mp) with 3 in Hp.
  assert (Hc : p = 0 \/ p = 1 \/ p = 2) by lia.
  destruct Hc as [-> | [-> | ->]]; vm_compute in H; injection H as <-;
    vm_compute; intuition congruence.
Qed.

Lemma sample_top_inv : refine_inv (zlen sample_mp) sample_top.
Proof.
  constructor; try (vm_compute; intuition congruence).
  intros k n Hk Hn. cbn in Hk. assert (k = 0) as -> by lia.
  vm_compute in Hn. injection Hn as <-.
  constructor; vm_compute; congruence.
Qed.

Example sample_refinement :
  (fun r => match r with
            | Ok (r, st') => (r, NTopnodes st', map Count (firstn 9 (topNodes st')),
                              map PIndex (firstn 9 (topNodes st')))
            | _ => (-1, 0, [], [])
            end)
    (domain_check_for_local_refine (2 ^ 29) sample_P sample_mp 1 100 2 0 sample_top)
  = (0, 9, [3; 1; 0; 1; 0; 0; 0; 0; 1], [0; 0; 1; 1; 2; 2; 2; 2; 2]).
Proof. vm_compute. reflexivity. Qed.


End TopTree.

(** ** The balance step of [domain_decompose]: split, fold, check the
       memory ceiling, fall back *)

Module Decompose.

Record decomp_state : Type := mkDecomp {
  NTask : Z;
  DomainOverDecompositionFactor : Z;     (* All.DomainOverDecompositionFactor *)
  NTopleaves : Z;
  maxLoad : Z;
  maxLoadsph : Z;
  domainWork : list Q;
  domainCount : list Z;
  domainCountSph : list Z;
  DomainStartList : list Z;
  DomainEndList : list Z;
  DomainTask : list Z
}.

Definition with_lists (st : decomp_state) (sl el task : list Z) : decomp_state :=
  mkDecomp (NTask st) (DomainOverDecompositionFactor st) (NTopleaves st)
           (maxLoad st) (maxLoadsph st) (domainWork st) (domainCount st)
           (domainCountSph st) sl el task.

(** [struct domain_loadorigin_data] and [struct domain_segments_data] *)
Record domain_loadorigin_data : Type := mkLoad { load : Q; origin : Z }.
Record domain_segments_data : Type := mkSeg { task : Z; start : Z; end_ : Z }.

Definition domain_sort_loadorigin (a b : domain_loadorigin_data) : Z :=
  if Split.Qltb (load a) (load b) then -1
  else if Split.Qltb (load b) (load a) then 1 else 0.

Definition domain_sort_segments (a b : domain_segments_data) : Z :=
  if task a <? task b then -1 else if task a >? task b then 1 else 0.

(** *** [domain_check_memory_bound] *)

(** The three sums of one process [ta] over its segments. *)
Definition task_load (st : decomp_state) (ta : Z) : outcome (Z * Z * Q) :=
  for_range (Z.to_nat (DomainOverDecompositionFactor st)) 0
    (fun m acc =>
       s ← rd (DomainStartList st) (ta * DomainOverDecompositionFactor st + m);
       e ← rd (DomainEndList st) (ta * DomainOverDecompositionFactor st + m);
       for_range (Z.to_nat (e - s + 1)) s
         (fun i '(ld, sph, work) =>
            c ← rd (domainCount st) i;
            cs ← rd (domainCountSph st) i;
            w ← rd (domainWork st) i;
            Ok (ld + c, sph + cs, (work + w)%Q))
         acc)
    (0, 0, 0%Q).

(** The loop over the processes keeps the largest particle load and the
    largest SPH load seen; the messages it prints are left out. *)
Definition domain_check_memory_bound (st : decomp_state) : outcome Z :=
  '(max_load, max_sphload) ←
    for_range (Z.to_nat (NTask st)) 0
      (fun ta '(max_load, max_sphload) =>
         '(ld, sph, _) ← task_load st ta;
         Ok (if ld >? max_load then ld else max_load,
             if sph >? max_sphload then sph else max_sphload))
      (0, 0);
  if max_load >? maxLoad st then Ok 1
  else if max_sphload >? maxLoadsph st then Ok 1
  else Ok 0.

(** Some process is assigned more particles, or more SPH particles, than
    its ceiling. *)
Definition over_ceiling (st : decomp_state) : Prop :=
  exists ta ld sph w, 0 <= ta < NTask st /\ task_load st ta = Ok (ld, sph, w) /\
    (maxLoad st < ld \/ maxLoadsph st < sph).

(** *** [domain_assign_load_or_work_balanced] and [domain_decompose] *)

Section Balance.

(** [qsort] is the C library's; the order it leaves equal elements in is not
    specified, so it is a parameter.  [domain_exchange] is modelled on its
    own below; here it is the continuation of the balance step. *)
Variable qsort : forall A : Type, (A -> A -> Z) -> list A -> list A.
Variable domain_exchange : decomp_state -> outcome unit.

(** qsort(base, n, ...) sorts the first [n] elements in place. *)
Definition qsort_first {A : Type} (cmp : A -> A -> Z) (n : Z) (l : list A) : list A :=
  qsort A cmp (firstn (Z.to_nat n) l) ++ skipn (Z.to_nat n) l.

Definition segments_total (st : decomp_state) : Z :=
  DomainOverDecompositionFactor st * NTask st.

(** One turn of the [while(ndomains > NTask)] loop: sum the load of every
    group, sort the groups by load, pair the lightest with the heaviest. *)
Definition fold_round (mode : Z) (st : decomp_state) (ndomains : Z)
  (domainAssign : list domain_segments_data) (domain : list domain_loadorigin_data)
  (target : list Z)
  : outcome (list domain_segments_data * list domain_loadorigin_data * list Z) :=
  domain ← for_range (Z.to_nat ndomains) 0 (fun i dom => wr dom i (mkLoad 0 i)) domain;
  domain ← for_range (Z.to_nat (segments_total st)) 0
    (fun n dom =>
       s ← rd (DomainStartList st) n;
       e ← rd (DomainEndList st) n;
       for_range (Z.to_nat (e - s + 1)) s
         (fun i dom =>
            a ← rd domainAssign n;
            g ← rd dom (task a);
            if mode =? 1 then
              c ← rd (domainCount st) i;
              wr dom (task a) (mkLoad (load g + inject_Z c) (origin g))
            else
              w ← rd (domainWork st) i;
              wr dom (task a) (mkLoad (load g + w) (origin g)))
         dom)
    domain;
  let domain := qsort_first domain_sort_loadorigin ndomains domain in
  target ← for_range (Z.to_nat (ndomains ÷ 2)) 0
    (fun i tg =>
       lo ← rd domain i;
       tg ← wr tg (origin lo) i;
       hi ← rd domain (ndomains - 1 - i);
       wr tg (origin hi) i)
    target;
  domainAssign ← for_range (Z.to_nat (segments_total st)) 0
    (fun n da =>
       a ← rd da n;
       tk ← rd target (task a);
       wr da n (mkSeg tk (start a) (end_ a)))
    domainAssign;
  Ok (domainAssign, domain, target).

Fixpoint fold_rounds (fuel : nat) (mode : Z) (st : decomp_state) (ndomains : Z)
  (domainAssign : list domain_segments_data) (domain : list domain_loadorigin_data)
  (target : list Z) : outcome (list domain_segments_data) :=
  if ndomains >? NTask st then
    match fuel with
    | O => Hang
    | S fuel' =>
        '(da, dom, tg) ← fold_round mode st ndomains domainAssign domain target;
        fold_rounds fuel' mode st (ndomains ÷ 2) da dom tg
    end
  else Ok domainAssign.

Definition domain_assign_load_or_work_balanced (mode : Z) (st : decomp_state)
  : outcome decomp_state :=
  let n := Z.to_nat (segments_total st) in
  let domainAssign := repeat (mkSeg 0 0 0) n in
  let domain := repeat (mkLoad 0 0) n in
  let target := repeat 0 n in
  domainAssign ← for_range n 0
    (fun k da => a ← rd da k; wr da k (mkSeg k (start a) (end_ a))) domainAssign;
  domainAssign ← fold_rounds n mode st (segments_total st) domainAssign domain target;
  domainAssign ← for_range n 0
    (fun k da =>
       a ← rd da k;
       s ← rd (DomainStartList st) k;
       e ← rd (DomainEndList st) k;
       wr da k (mkSeg (task a) s e))
    domainAssign;
  let domainAssign := qsort_first domain_sort_segments (segments_total st) domainAssign in
  '(sl, el, tk) ← for_range n 0
    (fun k '(sl, el, tk) =>
       a ← rd domainAssign k;
       sl ← wr sl k (start a);
       el ← wr el k (end_ a);
       tk ← for_range (Z.to_nat (end_ a - start a + 1)) (start a)
               (fun i tk => wr tk i (task a)) tk;
       Ok (sl, el, tk))
    (DomainStartList st, DomainEndList st, DomainTask st);
  Ok (with_lists st sl el tk).

(** The work-balanced partition, and the count-balanced one it falls back
    to. *)
Definition work_balanced_partition (st : decomp_state) : outcome decomp_state :=
  '(sl, el) ← Split.domain_findSplit_work_balanced (domainWork st)
                 (segments_total st) (NTopleaves st)
                 (DomainStartList st) (DomainEndList st);
  domain_assign_load_or_work_balanced 1 (with_lists st sl el (DomainTask st)).

Definition load_balanced_partition (st : decomp_state) : outcome decomp_state :=
  '(sl, el) ← Split.domain_findSplit_load_balanced (domainCount st)
                 (segments_total st) (NTopleaves st)
                 (DomainStartList st) (DomainEndList st);
  domain_assign_load_or_work_balanced 0 (with_lists st sl el (DomainTask st)).

(** [domain_decompose], from the point where [domain_determineTopTree] has
    returned 0. *)
Definition domain_decompose (st : decomp_state) : outcome Z :=
  st ← work_balanced_partition st;
  status ← domain_check_memory_bound st;
  st ← (if negb (status =? 0) then
          st ← load_balanced_partition st;
          status ← domain_check_memory_bound st;
          if negb (status =? 0) then Endrun 0 else Ok st
        else Ok st);
  _ ← domain_exchange st;
  Ok 0.

End Balance.

(** The segments of every process lie inside the three leaf arrays. *)
Record checkable (st : decomp_state) : Prop := {
  ck_factor : 0 <= DomainOverDecompositionFactor st;
  ck_tasks : 0 <= NTask st;
  ck_maxload : 0 <= maxLoad st;
  ck_maxloadsph : 0 <= maxLoadsph st;
  ck_segments : forall n, 0 <= n < DomainOverDecompositionFactor st * NTask st ->
     exists s e, rd (DomainStartList st) n = Ok s /\ rd (DomainEndList st) n = Ok e /\
       0 <= s /\ e < zlen (domainCount st) /\ e < zlen (domainCountSph st) /\
       e < zlen (domainWork st)
}.

Lemma task_load_total (st : decomp_state) (ta : Z) :
  checkable st -> 0 <= ta < NTask st -> exists r, task_load st ta = Ok r.
Proof.
  intros [Hf Ht _ _ Hseg] Hta. unfold task_load.
  destruct (for_range_inv (fun _ (_ : Z * Z * Q) => True)
    (fun m acc =>
       s ← rd (DomainStartList st) (ta * DomainOverDecompositionFactor st + m);
       e ← rd (DomainEndList st) (ta * DomainOverDecompositionFactor st + m);
       for_range (Z.to_nat (e - s + 1)) s
         (fun i '(ld, sph, work) =>
            c ← rd (domainCount st) i;
            cs ← rd (domainCountSph st) i;
            w ← rd (domainWork st) i;
            Ok (ld + c, sph + cs, (work + w)%Q))
         acc)
    (Z.to_nat (DomainOverDecompositionFactor st)) 0 (0, 0, 0%Q) I) as (r & Hr & _).
  - intros m acc Hm _.
    destruct (Hseg (ta * DomainOverDecompositionFactor st + m) ltac:(nia))
      as (s & e & Hs & He & Hs0 & H1 & H2 & H3).
    unfold mbind, outcome_bind. rewrite Hs, He. cbn [obind].
    destruct (for_range_inv (fun _ (_ : Z * Z * Q) => True)
      (fun i '(ld, sph, work) =>
         c ← rd (domainCount st) i;
         cs ← rd (domainCountSph st) i;
         w ← rd (domainWork st) i;
         Ok (ld + c, sph + cs, (work + w)%Q))
      (Z.to_nat (e - s + 1)) s acc I) as (r & Hr & _).
    + intros i [[ld sph] work] Hi _.
      destruct (rd_in_range (domainCount st) i ltac:(lia)) as [c Hc].
      destruct (rd_in_range (domainCountSph st) i ltac:(lia)) as [cs Hcs].
      destruct (rd_in_range (domainWork st) i ltac:(lia)) as [w Hw].
      unfold mbind, outcome_bind. rewrite Hc, Hcs, Hw. cbn [obind]. eauto.
    + exists r. split; [exact Hr | exact I].
  - exists r. exact Hr.
Qed.

Lemma check_memory_bound_spec (st : decomp_state) :
  checkable st ->
  (domain_check_memory_bound st = Ok 1 /\ over_ceiling st) \/
  (domain_check_memory_bound st = Ok 0 /\ ~ over_ceiling st).
Proof.
  intros Hck. pose proof (ck_maxload _ Hck) as Hm. pose proof (ck_maxloadsph _ Hck) as Hms.
  pose proof (ck_tasks _ Hck) as Hnt.
  unfold domain_check_memory_bound.
  destruct (for_range_inv
    (fun k (acc : Z * Z) =>
       0 <= fst acc /\ 0 <= snd acc /\
       (forall ta ld sph w, 0 <= ta < k -> task_load st ta = Ok (ld, sph, w) ->
          ld <= fst acc /\ sph <= snd acc) /\
       (fst acc = 0 \/ exists ta sph w, 0 <= ta < k /\
          task_load st ta = Ok (fst acc, sph, w)) /\
       (snd acc = 0 \/ exists ta ld w, 0 <= ta < k /\
          task_load st ta = Ok (ld, snd acc, w)))
    (fun ta '(max_load, max_sphload) =>
       '(ld, sph, _) ← task_load st ta;
       Ok (if ld >? max_load then ld else max_load,
           if sph >? max_sphload then sph else max_sphload))
    (Z.to_nat (NTask st)) 0 (0, 0)) as ([ml ms] & Hrun & H0 & H1 & Hall & Hml & Hms').
  - cbn [fst snd]. repeat split; try lia; try (left; reflexivity).
  - intros ta [ml ms] Hta (H0 & H1 & Hall & Hml & Hms'). cbn [fst snd] in *.
    destruct (task_load_total st ta Hck ltac:(lia)) as [[[ld sph] w] Hld].
    unfold mbind, outcome_bind. rewrite Hld. cbn [obind].
    eexists. split; [reflexivity |]. cbn [fst snd].
    destruct (Z.gtb_spec ld ml); destruct (Z.gtb_spec sph ms);
      (split; [lia |]; split; [lia |]; split; [| split]);
      try (intros ta' ld' sph' w' Hta' Hl';
           destruct (Z.eq_dec ta' ta) as [-> | Hne];
           [rewrite Hld in Hl'; injection Hl' as <- <- _; lia
           | destruct (Hall ta' ld' sph' w' ltac:(lia) Hl'); lia]);
      try (right; exists ta; eexists; eexists; split; [lia | exact Hld]);
      try (destruct Hml as [-> | (t0 & s0 & w0 & Ht0 & Hl0)];
           [left; reflexivity
           | right; exists t0, s0, w0; split; [lia | exact Hl0]]);
      try (destruct Hms' as [-> | (t0 & l0 & w0 & Ht0 & Hl0)];
           [left; reflexivity
           | right; exists t0, l0, w0; split; [lia | exact Hl0]]).
  - rewrite Hrun. unfold mbind, outcome_bind. cbn [obind fst snd] in *.
    replace (0 + Z.of_nat (Z.to_nat (NTask st))) with (NTask st) in * by lia.
    destruct (Z.gtb_spec ml (maxLoad st)) as [Hover | Hfit].
    { left. split; [reflexivity |].
      destruct Hml as [-> | (ta & sph & w & Hta & Hl)]; [lia |].
      exists ta, ml, sph, w. auto. }
    destruct (Z.gtb_spec ms (maxLoadsph st)) as [Hover | Hfits].
    { left. split; [reflexivity |].
      destruct Hms' as [-> | (ta & ld & w & Hta & Hl)]; [lia |].
      exists ta, ld, ms, w. auto. }
    right. split; [reflexivity |].
    intros (ta & ld & sph & w & Hta & Hl & Hbad).
    destruct (Hall ta ld sph w Hta Hl). lia.
Qed.

Lemma assign_keeps (qsort : forall A : Type, (A -> A -> Z) -> list A -> list A)
  (mode : Z) (st st' : decomp_state) :
  domain_assign_load_or_work_balanced qsort mode st = Ok st' ->
  exists sl el tk, st' = with_lists st sl el tk.
Proof.
  unfold domain_assign_load_or_work_balanced, mbind, outcome_bind.
  destruct (for_range _ _ _ _) as [da | | |]; try discriminate. cbn [obind].
  destruct (fold_rounds _ _ _ _ _ _ _ _) as [da1 | | |]; try discriminate. cbn [obind].
  destruct (for_range _ _ _ _) as [da2 | | |]; try discriminate. cbn [obind].
  destruct (for_range _ _ _ _) as [[[sl el] tk] | | |]; try discriminate. cbn [obind].
  intros H. injection H as <-. eauto.
Qed.


Fixpoint insert_by {A : Type} (cmp : A -> A -> Z) (x : A) (l : list A) : list A :=
  match l with
  | [] => [x]
  | y :: l' => if cmp x y <=? 0 then x :: l else y :: insert_by cmp x l'
  end.

Definition insertion_sort (A : Type) (cmp : A -> A -> Z) (l : list A) : list A :=
  foldr (insert_by cmp) [] l.

Definition sample_decomp : decomp_state :=
  mkDecomp 2 2 6 5 5 [1; 1; 1; 1; 1; 9]%Q [3; 1; 1; 3; 1; 1] [0; 0; 0; 0; 0; 0]
           [0; 0; 0; 0] [0; 0; 0; 0] [0; 0; 0; 0; 0; 0].

Definition sample_st1 : decomp_state :=
  with_lists sample_decomp [0; 4; 3; 5] [2; 4; 3; 5] [0; 0; 0; 1; 0; 1].

Definition sample_st2 : decomp_state :=
  with_lists sample_decomp [0; 4; 1; 3] [0; 5; 2; 3] [0; 1; 1; 1; 0; 0].

Lemma sample_checkable (sl el tk : list Z) :
  (forall n, 0 <= n < 4 -> exists s e, rd sl n = Ok s /\ rd el n = Ok e /\ 0 <= s /\ e < 6) ->
  checkable (with_lists sample_decomp sl el tk).
Proof.
  intros H. constructor; try (vm_compute; congruence).
  intros n Hn. destruct (H n Hn) as (s & e & Hs & He & H0 & H6).
  exists s, e. repeat split; assumption.
Qed.

Lemma sample_st1_checkable : checkable sample_st1.
Proof.
  apply sample_checkable. intros n Hn.
  assert (Hc : n = 0 \/ n = 1 \/ n = 2 \/ n = 3) by lia.
  destruct Hc as [-> | [-> | [-> | ->]]]; eexists; eexists;
    (split; [reflexivity |]; split; [reflexivity |]; lia).
Qed.

Lemma sample_st2_checkable : checkable sample_st2.
Proof.
  apply sample_checkable. intros n Hn.
  assert (Hc : n = 0 \/ n = 1 \/ n = 2 \/ n = 3) by lia.
  destruct Hc as [-> | [-> | [-> | ->]]]; eexists; eexists;
    (split; [reflexivity |]; split; [reflexivity |]; lia).
Qed.




End Decompose.

(** ** The exchange engine: [domain_countToGo], [domain_exchange_once] and
       the garbage collection *)

Module Exchange.

(** The payload records of gas and black-hole particles; of their fields
    only those the routines below read are kept. *)
Record sph_particle_data : Type := mkSph { DivVel : Q; Entropy : Q }.

Module Bh.
Record bh_particle_data : Type := mk { ReverseLink : Z; ID : Z; Mdot : Q }.
End Bh.

(** The state of one process. *)
Record task : Type := mkTask {
  P : list particle_data;
  SphP : list sph_particle_data;
  BhP : list Bh.bh_particle_data;
  NumPart : Z;
  N_sph : Z;
  N_bh : Z;
  N_dm : Z;
  N_star : Z;
  toGo : list Z;
  toGoSph : list Z;
  toGoBh : list Z;
  toGet : list Z;
  toGetSph : list Z;
  toGetBh : list Z
}.

(** [All.MaxPart], [All.MaxPartSph], [All.MaxPartBh], and the sizes in bytes
    of the three records. *)
Record config : Type := mkConfig {
  MaxPart : Z;
  MaxPartSph : Z;
  MaxPartBh : Z;
  size_particle : Z;
  size_sph : Z;
  size_bh : Z
}.

Definition with_P (t : task) (p : list particle_data) : task :=
  mkTask p (SphP t) (BhP t) (NumPart t) (N_sph t) (N_bh t) (N_dm t) (N_star t)
         (toGo t) (toGoSph t) (toGoBh t) (toGet t) (toGetSph t) (toGetBh t).

Definition with_toGo (t : task) (g gs gb : list Z) : task :=
  mkTask (P t) (SphP t) (BhP t) (NumPart t) (N_sph t) (N_bh t) (N_dm t) (N_star t)
         g gs gb (toGet t) (toGetSph t) (toGetBh t).

Definition with_toGet (t : task) (g gs gb : list Z) : task :=
  mkTask (P t) (SphP t) (BhP t) (NumPart t) (N_sph t) (N_bh t) (N_dm t) (N_star t)
         (toGo t) (toGoSph t) (toGoBh t) g gs gb.

Definition zsum (l : list Z) : Z := foldr Z.add 0 l.

(** The three transfer plans are repaired by three copies of one loop. *)
Inductive plan : Type := General | Gas | BlackHole.

Definition plan_of (k : plan) (t : task) : list Z :=
  match k with General => toGo t | Gas => toGoSph t | BlackHole => toGoBh t end.

Definition with_plan (k : plan) (t : task) (l : list Z) : task :=
  match k with
  | General => with_toGo t l (toGoSph t) (toGoBh t)
  | Gas => with_toGo t (toGo t) l (toGoBh t)
  | BlackHole => with_toGo t (toGo t) (toGoSph t) l
  end.

(** MPI_Alltoall of one [int] per pair: process [a] receives in slot [b]
    what process [b] holds in slot [a]. *)
Definition MPI_Alltoall (send : list (list Z)) : list (list Z) :=
  map (fun a => map (fun b => nth a (nth b send []) 0) (seq 0 (length send)))
      (seq 0 (length send)).

Section CountToGo.

Variable All : config.
Variable layoutfunc : particle_data -> Z.

Definition package : Z := size_particle All + size_sph All + size_bh All.

(** One turn of the loop that flags the particles to export.  After the
    [break] no turn changes anything, so the remaining turns are idle. *)
Definition count_turn (ThisTask n : Z)
  (s : list particle_data * list Z * list Z * list Z * Z)
  : outcome (list particle_data * list Z * list Z * list Z * Z) :=
  let '(p, g, gs, gb, nlimit) := s in
  if package >=? wrap64 nlimit then Ok s
  else
    pn ← rd p n;
    if negb (OnAnotherDomain pn) then Ok s
    else
      let target := layoutfunc pn in
      if target =? ThisTask then Ok s
      else
        x ← rd g target;
        g ← wr g target (x + 1);
        let nlimit := nlimit - size_particle All in
        '(gs, nlimit) ← (if PType pn =? 0
                         then x ← rd gs target; gs ← wr gs target (x + 1);
                              Ok (gs, nlimit - size_sph All)
                         else Ok (gs, nlimit));
        '(gb, nlimit) ← (if PType pn =? 5
                         then x ← rd gb target; gb ← wr gb target (x + 1);
                              Ok (gb, nlimit - size_bh All)
                         else Ok (gb, nlimit));
        p ← wr p n (set_flags pn (OnAnotherDomain pn) true);
        Ok (p, g, gs, gb, nlimit).

(** The local part of [domain_countToGo]: the plan of one process and
    whether it ran out of scratch memory. *)
Definition count_local (NTask ThisTask nlimit : Z) (t : task) : outcome (task * Z) :=
  let zero := repeat 0 (Z.to_nat NTask) in
  if package >=? wrap64 nlimit then Endrun 212
  else
    '(p, g, gs, gb, nlimit) ←
      for_range (Z.to_nat (NumPart t)) 0 (count_turn ThisTask)
                (P t, zero, zero, zero, nlimit);
    Ok (with_toGo (with_P t p) g gs gb, if package >=? wrap64 nlimit then 1 else 0).

(** The three [MPI_Alltoall] calls. *)
Definition exchange_plans (G : list task) : list task :=
  let get := MPI_Alltoall (map toGo G) in
  let getsph := MPI_Alltoall (map toGoSph G) in
  let getbh := MPI_Alltoall (map toGoBh G) in
  imap (fun a t => with_toGet t (nth a get []) (nth a getsph []) (nth a getbh [])) G.

Definition next_task (NTask i : Z) : Z := if i + 1 >=? NTask then 0 else i + 1.

(** [while(ntoomany)]: the processes take turns, starting with [i], to take
    one unit off their plan for destination [ta].  Returns the number of
    units taken off. *)
Fixpoint drain (fuel : nat) (k : plan) (NTask ta i ntoomany taken : Z) (G : list task)
  : outcome (list task * Z) :=
  if ntoomany =? 0 then Ok (G, taken)
  else
    match fuel with
    | O => Hang
    | S fuel' =>
        ti ← rd G i;
        x ← rd (plan_of k ti) ta;
        if x >? 0 then
          l ← wr (plan_of k ti) ta (x - 1);
          G ← wr G i (with_plan k ti l);
          drain fuel' k NTask ta (next_task NTask i) (ntoomany - 1) (taken + 1) G
        else drain fuel' k NTask ta (next_task NTask i) ntoomany taken G
    end.

(** The body of the loop over the destinations [ta]. *)
Definition repair_destination (fuel : nat) (NTask flagsum ta : Z) (s : list task * Z)
  : outcome (list task * Z) :=
  let '(G, flag) := s in
  t ← rd G ta;
  let count_togo := zsum (toGo t) in
  let count_toget := zsum (toGet t) in
  let count_togo_sph := zsum (toGoSph t) in
  let count_toget_sph := zsum (toGetSph t) in
  let count_togo_bh := zsum (toGoBh t) in
  let count_toget_bh := zsum (toGetBh t) in
  let ntoomany := N_sph t + count_toget_sph - count_togo_sph - MaxPartSph All in
  '(G, flag, count_toget) ←
    (if ntoomany >? 0 then
       '(G, taken) ← drain fuel Gas NTask ta (Z.rem flagsum NTask) ntoomany 0 G;
       Ok (G, 1, count_toget - taken)
     else Ok (G, flag, count_toget));
  let ntoomany := N_bh t + count_toget_bh - count_togo_bh - MaxPartBh All in
  '(G, flag, count_toget) ←
    (if ntoomany >? 0 then
       '(G, taken) ← drain fuel BlackHole NTask ta (Z.rem flagsum NTask) ntoomany 0 G;
       Ok (G, 1, count_toget - taken)
     else Ok (G, flag, count_toget));
  let ntoomany := NumPart t + count_toget - count_togo - MaxPart All in
  if ntoomany >? 0 then
    '(G, _) ← drain fuel General NTask ta (Z.rem flagsum NTask) ntoomany 0 G;
    Ok (G, 1)
  else Ok (G, flag).

(** do { ... } while(flag): the passes over all destinations. *)
Fixpoint repair_passes (fuel wait : nat) (NTask flagsum : Z) (G : list task)
  : outcome (list task * Z) :=
  match wait with
  | O => Hang
  | S wait' =>
      '(G, flag) ← for_range (Z.to_nat NTask) 0 (repair_destination fuel NTask flagsum)
                      (G, 0);
      let flagsum := flagsum + flag in
      if flagsum >? 100 then Endrun 1013
      else if flag =? 0 then Ok (G, flagsum)
      else repair_passes fuel wait' NTask flagsum G
  end.

(** The recount after a repair: flag again, in particle order, as many
    particles per destination as the repaired plan allows. *)
Definition recount_turn (n : Z) (s : list particle_data * list Z * list Z * list Z)
  (t : task) : outcome (list particle_data * list Z * list Z * list Z) :=
  let '(p, lg, lgs, lgb) := s in
  pn ← rd p n;
  if negb (OnAnotherDomain pn) then Ok s
  else
    let pn := set_flags pn (OnAnotherDomain pn) false in
    p ← wr p n pn;
    let target := layoutfunc pn in
    c ← rd lg target;
    lim ← rd (toGo t) target;
    if PType pn =? 0 then
      cs ← rd lgs target;
      lims ← rd (toGoSph t) target;
      if (cs <? lims) && (c <? lim) then
        lg ← wr lg target (c + 1);
        lgs ← wr lgs target (cs + 1);
        p ← wr p n (set_flags pn (OnAnotherDomain pn) true);
        Ok (p, lg, lgs, lgb)
      else Ok (p, lg, lgs, lgb)
    else if PType pn =? 5 then
      cb ← rd lgb target;
      limb ← rd (toGoBh t) target;
      if (cb <? limb) && (c <? lim) then
        lg ← wr lg target (c + 1);
        lgb ← wr lgb target (cb + 1);
        p ← wr p n (set_flags pn (OnAnotherDomain pn) true);
        Ok (p, lg, lgs, lgb)
      else Ok (p, lg, lgs, lgb)
    else
      if c <? lim then
        lg ← wr lg target (c + 1);
        p ← wr p n (set_flags pn (OnAnotherDomain pn) true);
        Ok (p, lg, lgs, lgb)
      else Ok (p, lg, lgs, lgb).

Definition recount_local (NTask : Z) (t : task) : outcome task :=
  let zero := repeat 0 (Z.to_nat NTask) in
  '(p, lg, lgs, lgb) ←
    for_range (Z.to_nat (NumPart t)) 0 (fun n s => recount_turn n s t)
              (P t, zero, zero, zero);
  Ok (with_toGo (with_P t p) lg lgs lgb).

Fixpoint map_tasks (f : Z -> task -> outcome task) (i : Z) (G : list task)
  : outcome (list task) :=
  match G with
  | [] => Ok []
  | t :: G' => t' ← f i t; G'' ← map_tasks f (i + 1) G'; Ok (t' :: G'')
  end.

(** do { ... } while(flagsum): repair, recount, exchange the plans again. *)
Fixpoint repair (fuel wait : nat) (NTask : Z) (G : list task) : outcome (list task) :=
  match wait with
  | O => Hang
  | S wait' =>
      '(G, flagsum) ← repair_passes fuel fuel NTask 0 G;
      if flagsum =? 0 then Ok G
      else
        G ← map_tasks (fun _ t => recount_local NTask t) 0 G;
        repair fuel wait' NTask (exchange_plans G)
  end.

Fixpoint count_tasks (NTask : Z) (i : Z) (nlimits : list Z) (G : list task)
  : outcome (list task * Z) :=
  match G, nlimits with
  | [], _ => Ok ([], 0)
  | t :: G', nl :: nls =>
      '(t', ret) ← count_local NTask i nl t;
      '(G'', retsum) ← count_tasks NTask (i + 1) nls G';
      Ok (t' :: G'', ret + retsum)
  | _ :: _, [] => Fault
  end.

(** [domain_countToGo] on all processes at once; [nlimits] holds the
    [nlimit] argument of each. *)
Definition domain_countToGo (fuel : nat) (nlimits : list Z) (G : list task)
  : outcome (Z * list task) :=
  let NTask := zlen G in
  '(G, retsum) ← count_tasks NTask 0 nlimits G;
  let G := exchange_plans G in
  if negb (retsum =? 0) then
    G ← repair fuel fuel NTask G;
    Ok (1, G)
  else Ok (0, G).

End CountToGo.

(** *** Garbage collection *)

Section Garbage.

Variable All : config.
Variable qsort : forall A : Type, (A -> A -> Z) -> list A -> list A.

Definition bh_cmp_reverse_link (b1 b2 : Bh.bh_particle_data) : Z :=
  if (Bh.ReverseLink b1 =? -1) && (Bh.ReverseLink b2 =? -1) then 0
  else if Bh.ReverseLink b1 =? -1 then 1
  else if Bh.ReverseLink b2 =? -1 then -1
  else (if Bh.ReverseLink b1 >? Bh.ReverseLink b2 then 1 else 0)
       - (if Bh.ReverseLink b1 <? Bh.ReverseLink b2 then 1 else 0).

Definition set_ReverseLink (b : Bh.bh_particle_data) (l : Z) : Bh.bh_particle_data :=
  Bh.mk l (Bh.ID b) (Bh.Mdot b).

Definition with_bh (t : task) (p : list particle_data) (b : list Bh.bh_particle_data)
  (nbh : Z) : task :=
  mkTask p (SphP t) b (NumPart t) (N_sph t) nbh (N_dm t) (N_star t)
         (toGo t) (toGoSph t) (toGoBh t) (toGet t) (toGetSph t) (toGetBh t).

Definition with_counts (t : task) (nsph nbh ndm nstar : Z) : task :=
  mkTask (P t) (SphP t) (BhP t) (NumPart t) nsph nbh ndm nstar
         (toGo t) (toGoSph t) (toGoBh t) (toGet t) (toGetSph t) (toGetBh t).

(** The first loop over the particles: every black hole marks its record,
    and its link is checked. *)
Definition link_turn (p : list particle_data) (nbh : Z) (i : Z)
  (b : list Bh.bh_particle_data) : outcome (list Bh.bh_particle_data) :=
  pi ← rd p i;
  if PType pi =? 5 then
    r ← rd b (PI pi);
    b ← wr b (PI pi) (set_ReverseLink r i);
    if PI pi >=? nbh then Endrun 1
    else
      r ← rd b (PI pi);
      if negb (Bh.ID r =? ID pi) then Endrun 1 else Ok b
  else Ok b.

(** while(N_bh > 0 && BhP[N_bh - 1].ReverseLink == -1) N_bh--; *)
Fixpoint trim (n : nat) (b : list Bh.bh_particle_data) (nbh : Z) : outcome Z :=
  match n with
  | O => Ok nbh
  | S n' =>
      if nbh >? 0 then
        r ← rd b (nbh - 1);
        if Bh.ReverseLink r =? -1 then trim n' b (nbh - 1) else Ok nbh
      else Ok nbh
  end.

(** The last loop over the particles: the links are checked again and the
    black holes counted. *)
Definition check_turn (b : list Bh.bh_particle_data) (nbh : Z)
  (p : list particle_data) (i j : Z) : outcome Z :=
  pi ← rd p i;
  if negb (PType pi =? 5) then Ok j
  else if PI pi >=? nbh then Endrun 1
  else
    r ← rd b (PI pi);
    if negb (Bh.ID r =? ID pi) then Endrun 1 else Ok (j + 1).

(** [domain_bh_garbage_collection] on one process; [total0] is the number of
    black holes of all processes. *)
Definition domain_bh_garbage_collection (total0 : Z) (t : task) : outcome task :=
  if total0 =? 0 then Ok t
  else
    b ← for_range (Z.to_nat (MaxPartBh All)) 0
          (fun i b => r ← rd b i; wr b i (set_ReverseLink r (-1))) (BhP t);
    b ← for_range (Z.to_nat (NumPart t)) 0 (link_turn (P t) (N_bh t)) b;
    let b := Decompose.qsort_first qsort bh_cmp_reverse_link (N_bh t) b in
    nbh ← trim (Z.to_nat (N_bh t)) b (N_bh t);
    p ← for_range (Z.to_nat nbh) 0
          (fun i p => r ← rd b i;
                      pi ← rd p (Bh.ReverseLink r);
                      wr p (Bh.ReverseLink r) (set_PI pi i)) (P t);
    b ← for_range (Z.to_nat nbh) 0
          (fun i b => r ← rd b i; wr b i (set_ReverseLink r (-1))) b;
    j ← for_range (Z.to_nat (NumPart t)) 0 (check_turn b nbh p) 0;
    if negb (j =? nbh) then Endrun 1
    else Ok (with_bh t p b nbh).

(** The recount of the species in [domain_garbage_collection]. *)
Definition count_species (p : list particle_data) (i : Z) (c : Z * Z * Z * Z)
  : outcome (Z * Z * Z * Z) :=
  let '(nsph, ndm, nstar, nbh) := c in
  pi ← rd p i;
  Ok (if PType pi =? 0 then nsph + 1 else nsph,
      if PType pi =? 1 then ndm + 1 else ndm,
      if PType pi =? 4 then nstar + 1 else nstar,
      if PType pi =? 5 then nbh + 1 else nbh).

Definition garbage_collection_local (total0 : Z) (t : task) : outcome task :=
  t ← domain_bh_garbage_collection total0 t;
  '(nsph, ndm, nstar, nbh) ←
    for_range (Z.to_nat (NumPart t)) 0 (count_species (P t)) (0, 0, 0, 0);
  Ok (with_counts t nsph nbh ndm nstar).

(** [domain_garbage_collection] on all processes; the sums
    [All.TotNumPart], ... it leaves in [All] are not kept. *)
Definition domain_garbage_collection (G : list task) : outcome (list task) :=
  let total0 := zsum (map N_bh G) in
  map_tasks (fun _ t => garbage_collection_local total0 t) 0 G.

End Garbage.

(** *** [domain_exchange_once] *)

(** [abort()] *)
Definition abort {A : Type} : outcome A := Endrun 134.

(** What one process hands to the four [MPI_Alltoallv_sparse] calls. *)
Record outbox : Type := mkOut {
  partBuf : list particle_data;
  sphBuf : list sph_particle_data;
  bhBuf : list Bh.bh_particle_data;
  count : list Z;
  count_sph : list Z;
  count_bh : list Z;
  offset : list Z;
  offset_sph : list Z;
  offset_bh : list Z
}.

(** offsets[0] = first; offsets[i] = offsets[i - 1] + counts[i - 1] *)
Fixpoint offsets_from (first : Z) (counts : list Z) : list Z :=
  match counts with
  | [] => []
  | c :: counts' => first :: offsets_from (first + c) counts'
  end.

Definition zip_sub (a b : list Z) : list Z := zip_with Z.sub a b.

Definition flagged (p : particle_data) : bool := OnAnotherDomain p && WillExport p.

Section ExchangeOnce.

Variable All : config.
Variable layoutfunc : particle_data -> Z.
Variable qsort : forall A : Type, (A -> A -> Z) -> list A -> list A.

(** The state of the export loop of one process. *)
Record export_state : Type := mkExport {
  ex_n : Z;
  ex_P : list particle_data;
  ex_SphP : list sph_particle_data;
  ex_NumPart : Z;
  ex_N_sph : Z;
  ex_out : outbox
}.

Definition put_particle (o : outbox) (at_ : Z) (p : particle_data) : outcome outbox :=
  b ← wr (partBuf o) at_ p;
  Ok (mkOut b (sphBuf o) (bhBuf o) (count o) (count_sph o) (count_bh o)
            (offset o) (offset_sph o) (offset_bh o)).

(** Pack particle [pn], whose flags are cleared already, for [target]. *)
Definition pack (bhp : list Bh.bh_particle_data) (sphn : outcome sph_particle_data)
  (target : Z) (pn : particle_data) (o : outbox) : outcome (particle_data * outbox) :=
  if PType pn =? 0 then
    os ← rd (offset_sph o) target;
    cs ← rd (count_sph o) target;
    o ← put_particle o (os + cs) pn;
    s ← sphn;
    sb ← wr (sphBuf o) (os + cs) s;
    csl ← wr (count_sph o) target (cs + 1);
    Ok (pn, mkOut (partBuf o) sb (bhBuf o) (count o) csl (count_bh o)
                  (offset o) (offset_sph o) (offset_bh o))
  else if PType pn =? 5 then
    ob ← rd (offset_bh o) target;
    cb ← rd (count_bh o) target;
    r ← rd bhp (PI pn);
    bb ← wr (bhBuf o) (ob + cb) r;
    let pn := set_PI pn cb in
    og ← rd (offset o) target;
    cg ← rd (count o) target;
    o ← put_particle o (og + cg) pn;
    cbl ← wr (count_bh o) target (cb + 1);
    cgl ← wr (count o) target (cg + 1);
    Ok (pn, mkOut (partBuf o) (sphBuf o) bb cgl (count_sph o) cbl
                  (offset o) (offset_sph o) (offset_bh o))
  else
    og ← rd (offset o) target;
    cg ← rd (count o) target;
    o ← put_particle o (og + cg) pn;
    cgl ← wr (count o) target (cg + 1);
    Ok (pn, mkOut (partBuf o) (sphBuf o) (bhBuf o) cgl (count_sph o) (count_bh o)
                  (offset o) (offset_sph o) (offset_bh o)).

(** One turn of [for(n = 0; n < NumPart; n++)]. *)
Definition export_turn (bhp : list Bh.bh_particle_data) (s : export_state)
  : outcome export_state :=
  let n := ex_n s in
  pn ← rd (ex_P s) n;
  if negb (flagged pn) then
    Ok (mkExport (n + 1) (ex_P s) (ex_SphP s) (ex_NumPart s) (ex_N_sph s) (ex_out s))
  else
    let pn := set_flags pn false false in
    p ← wr (ex_P s) n pn;
    let target := layoutfunc pn in
    '(pn, o) ← pack bhp (rd (ex_SphP s) n) target pn (ex_out s);
    p ← wr p n pn;
    if PType pn =? 0 then
      x ← rd p (ex_N_sph s - 1);
      p ← wr p n x;
      y ← rd p (ex_NumPart s - 1);
      p ← wr p (ex_N_sph s - 1) y;
      sx ← rd (ex_SphP s) (ex_N_sph s - 1);
      sp ← wr (ex_SphP s) n sx;
      Ok (mkExport n p sp (ex_NumPart s - 1) (ex_N_sph s - 1) o)
    else
      y ← rd p (ex_NumPart s - 1);
      p ← wr p n y;
      Ok (mkExport n p (ex_SphP s) (ex_NumPart s - 1) (ex_N_sph s) o).

Fixpoint export_loop (fuel : nat) (bhp : list Bh.bh_particle_data) (s : export_state)
  : outcome export_state :=
  if ex_n s <? ex_NumPart s then
    match fuel with
    | O => Hang
    | S fuel' => s ← export_turn bhp s; export_loop fuel' bhp s
    end
  else Ok s.

(** The local first half of [domain_exchange_once]: fill the buffers, close
    the gaps, compare the counts with the plan. *)
Definition export_local (t : task) : outcome (task * outbox) :=
  let off_sph := offsets_from 0 (toGoSph t) in
  let off_bh := offsets_from 0 (toGoBh t) in
  let off := offsets_from (zsum (toGoSph t)) (zip_sub (toGo t) (toGoSph t)) in
  let zero := map (fun _ => 0) (toGo t) in
  let o := mkOut (repeat blank_particle (Z.to_nat (zsum (toGo t))))
                 (repeat (mkSph 0 0) (Z.to_nat (zsum (toGoSph t))))
                 (repeat (Bh.mk 0 0 0) (Z.to_nat (zsum (toGoBh t))))
                 zero zero zero off off_sph off_bh in
  s ← export_loop (Z.to_nat (NumPart t)) (BhP t)
        (mkExport 0 (P t) (SphP t) (NumPart t) (N_sph t) o);
  let o := ex_out s in
  _ ← for_range (length (toGo t)) 0
        (fun i _ =>
           cs ← rd (count_sph o) i; gs ← rd (toGoSph t) i;
           if negb (cs =? gs) then abort
           else
             cb ← rd (count_bh o) i; gb ← rd (toGoBh t) i;
             if negb (cb =? gb) then abort else Ok tt) tt;
  Ok (mkTask (ex_P s) (ex_SphP s) (BhP t) (ex_NumPart s) (ex_N_sph s) (N_bh t)
             (N_dm t) (N_star t)
             (toGo t) (toGoSph t) (toGoBh t) (toGet t) (toGetSph t) (toGetBh t), o).

(** The second half on process [d]: make room for the incoming gas
    particles, receive, re-thread the black-hole links, add up. *)
Definition memmove_up {A : Type} (l : list A) (from len by_ : Z) : outcome (list A) :=
  if (len <? 0) || (from <? 0) || (by_ <? 0) || (zlen l <? from + by_ + len) then Fault
  else Ok (take (Z.to_nat (from + by_)) l
           ++ take (Z.to_nat len) (drop (Z.to_nat from) l)
           ++ drop (Z.to_nat (from + by_ + len)) l).

(** Modelled from the spec: [MPI_Alltoallv_sparse] is not among the sources.
    The exchange is a sparse all-to-all: process [d] receives from every
    process [s] the [counts_s[d]] records that start at [offsets_s[d]] in the
    buffer of [s], and stores them from [offset_recv[s]] on; a message longer
    than the [count_recv[s]] records announced is an MPI error, which ends
    the run. *)
Definition MPI_Alltoallv_sparse {A : Type} (d : Z)
  (send : list (list A * list Z * list Z)) (recvbuf : list A)
  (count_recv offset_recv : list Z) : outcome (list A) :=
  for_range (length send) 0
    (fun s recvbuf =>
       '(buf, counts, offsets) ← rd send s;
       cnt ← rd counts d;
       off ← rd offsets d;
       room ← rd count_recv s;
       to ← rd offset_recv s;
       if cnt >? room then Endrun 15
       else for_range (Z.to_nat cnt) 0
              (fun k recvbuf => x ← rd buf (off + k); wr recvbuf (to + k) x) recvbuf)
    recvbuf.

(** The loop that gives the black holes received from [target] their new
    [PI]. *)
Definition rethread (count_recv offset_recv count_recv_bh offset_recv_bh : list Z)
  (target : Z) (p : list particle_data) : outcome (list particle_data) :=
  cr ← rd count_recv target;
  i0 ← rd offset_recv target;
  j0 ← rd offset_recv_bh target;
  '(p, j) ← for_range (Z.to_nat cr) i0
    (fun i '(p, j) =>
       pi ← rd p i;
       if negb (PType pi =? 5) then Ok (p, j)
       else p ← wr p i (set_PI pi j); Ok (p, j + 1))
    (p, j0);
  cb ← rd count_recv_bh target;
  if negb (j =? cb + j0) then Endrun 1 else Ok p.

Definition import_local (d : Z) (boxes : list (task * outbox)) (t : task)
  : outcome task :=
  let count_get := zsum (toGet t) in
  let count_get_sph := zsum (toGetSph t) in
  let count_get_bh := zsum (toGetBh t) in
  p ← (if negb (count_get_sph =? 0)
       then memmove_up (P t) (N_sph t) (NumPart t - N_sph t) count_get_sph
       else Ok (P t));
  let count_recv_sph := toGetSph t in
  let count_recv_bh := toGetBh t in
  let count_recv := zip_sub (toGet t) (toGetSph t) in
  let offset_recv_sph := offsets_from (N_sph t) count_recv_sph in
  let offset_recv_bh := offsets_from (N_bh t) count_recv_bh in
  let offset_recv := offsets_from (NumPart t + count_get_sph) count_recv in
  p ← MPI_Alltoallv_sparse d
        (map (fun b => (partBuf (snd b), count_sph (snd b), offset_sph (snd b))) boxes)
        p count_recv_sph offset_recv_sph;
  sp ← MPI_Alltoallv_sparse d
         (map (fun b => (sphBuf (snd b), count_sph (snd b), offset_sph (snd b))) boxes)
         (SphP t) count_recv_sph offset_recv_sph;
  p ← MPI_Alltoallv_sparse d
        (map (fun b => (partBuf (snd b), count (snd b), offset (snd b))) boxes)
        p count_recv offset_recv;
  bh ← MPI_Alltoallv_sparse d
         (map (fun b => (bhBuf (snd b), count_bh (snd b), offset_bh (snd b))) boxes)
         (BhP t) count_recv_bh offset_recv_bh;
  p ← (if count_get_bh >? 0
       then for_range (length (toGet t)) 0
              (rethread count_recv offset_recv count_recv_bh offset_recv_bh) p
       else Ok p);
  let numpart := NumPart t + count_get in
  let nsph := N_sph t + count_get_sph in
  let nbh := N_bh t + count_get_bh in
  if numpart >? MaxPart All then Endrun 787878
  else if nsph >? MaxPartSph All then Endrun 787878
  else if nbh >? MaxPartBh All then Endrun 787878
  else Ok (mkTask p sp bh numpart nsph nbh (N_dm t) (N_star t)
                  (toGo t) (toGoSph t) (toGoBh t) (toGet t) (toGetSph t) (toGetBh t)).

Fixpoint export_tasks (G : list task) : outcome (list (task * outbox)) :=
  match G with
  | [] => Ok []
  | t :: G' => b ← export_local t; bs ← export_tasks G'; Ok (b :: bs)
  end.

(** [domain_exchange_once] on all processes. *)
Definition domain_exchange_once (G : list task) : outcome (list task) :=
  boxes ← export_tasks G;
  G ← map_tasks (fun d t => import_local d boxes t) 0 (map fst boxes);
  domain_garbage_collection All qsort G.

End ExchangeOnce.

(** *** Conservation of the particle number in one exchange cycle *)

Definition flz (p : particle_data) : Z := if flagged p then 1 else 0.

Definition fl (p : list particle_data) (i : Z) : Z :=
  match rd p i with Ok x => flz x | _ => 0 end.

Fixpoint rsum (f : Z -> Z) (n : nat) (i : Z) : Z :=
  match n with
  | O => 0
  | S n' => f i + rsum f n' (i + 1)
  end.

(** The number of flagged particles among those of index [lo .. hi - 1]. *)
Definition pending (p : list particle_data) (lo hi : Z) : Z :=
  rsum (fl p) (Z.to_nat (hi - lo)) lo.

Lemma rsum_ext (f g : Z -> Z) (n : nat) (i : Z) :
  (forall k, i <= k < i + Z.of_nat n -> f k = g k) -> rsum f n i = rsum g n i.
Proof.
  revert i. induction n as [| n IH]; intros i H; [reflexivity |].
  cbn [rsum]. rewrite (H i) by lia. f_equal. apply IH. intros k Hk. apply H. lia.
Qed.

Lemma rsum_last (f : Z -> Z) (n : nat) (i : Z) :
  rsum f (S n) i = rsum f n i + f (i + Z.of_nat n).
Proof.
  revert i. induction n as [| n IH]; intros i.
  - cbn [rsum]. replace (i + Z.of_nat 0) with i by lia. lia.
  - change (rsum f (S (S n)) i) with (f i + rsum f (S n) (i + 1)).
    rewrite IH. cbn [rsum]. replace (i + 1 + Z.of_nat n) with (i + Z.of_nat (S n)) by lia.
    lia.
Qed.

Lemma pending_empty (p : list particle_data) (lo hi : Z) :
  hi <= lo -> pending p lo hi = 0.
Proof. intros H. unfold pending. replace (Z.to_nat (hi - lo)) with 0%nat by lia. reflexivity. Qed.

Lemma pending_first (p : list particle_data) (lo hi : Z) :
  lo < hi -> pending p lo hi = fl p lo + pending p (lo + 1) hi.
Proof.
  intros H. unfold pending.
  replace (Z.to_nat (hi - lo)) with (S (Z.to_nat (hi - (lo + 1)))) by lia. reflexivity.
Qed.

Lemma pending_last (p : list particle_data) (lo hi : Z) :
  lo <= hi -> pending p lo (hi + 1) = pending p lo hi + fl p hi.
Proof.
  intros H. unfold pending.
  replace (Z.to_nat (hi + 1 - lo)) with (S (Z.to_nat (hi - lo))) by lia.
  rewrite rsum_last. do 2 f_equal. lia.
Qed.

Lemma fl_wr (p p' : list particle_data) (i j : Z) (v : particle_data) :
  wr p i v = Ok p' -> fl p' j = if j =? i then flz v else fl p j.
Proof.
  intros H. unfold fl. destruct (Z.eqb_spec j i) as [-> | Hne].
  - rewrite (rd_wr_eq _ _ _ _ H). reflexivity.
  - rewrite (rd_wr_ne _ _ _ _ _ H) by lia. reflexivity.
Qed.

Lemma pending_wr (p p' : list particle_data) (i lo hi : Z) (v : particle_data) :
  wr p i v = Ok p' ->
  pending p' lo hi
  = pending p lo hi + (if (lo <=? i) && (i <? hi) then flz v - fl p i else 0).
Proof.
  intros H. unfold pending.
  remember (Z.to_nat (hi - lo)) as n eqn:Hn.
  assert (Hhi : hi <= lo /\ n = 0%nat \/ hi = lo + Z.of_nat n) by lia.
  clear Hn. revert lo hi Hhi. induction n as [| n IH]; intros lo hi Hhi.
  - cbn. destruct (Z.leb_spec lo i); destruct (Z.ltb_spec i hi); cbn; lia.
  - destruct Hhi as [[_ Hn] | ->]; [discriminate |].
    cbn [rsum]. rewrite (IH (lo + 1) (lo + Z.of_nat (S n))) by lia.
    rewrite (fl_wr _ _ _ lo _ H).
    destruct (Z.eqb_spec lo i) as [Heq | Hne];
      repeat match goal with
             | |- context [Z.leb ?a ?b] => destruct (Z.leb_spec a b)
             | |- context [Z.ltb ?a ?b] => destruct (Z.ltb_spec a b)
             end; cbn [andb]; try lia.
    subst lo. lia.
Qed.

Lemma zsum_wr (l l' : list Z) (i x v : Z) :
  rd l i = Ok x -> wr l i v = Ok l' -> zsum l' = zsum l - x + v.
Proof.
  intros Hr Hw. apply rd_Ok in Hr as [Hi Hr]. apply wr_Ok in Hw as [_ ->].
  remember (Z.to_nat i) as k eqn:Hk. clear Hk Hi i. revert k Hr.
  induction l as [| y l IH]; intros k Hr; [discriminate |].
  destruct k as [| k].
  - cbn in Hr. injection Hr as ->. unfold zsum. cbn. lia.
  - change (l !! k = Some x) in Hr. specialize (IH k Hr). unfold zsum in *.
    change (<[S k := v]> (y :: l)) with (y :: <[k := v]> l).
    cbn [foldr]. rewrite IH. ring.
Qed.

(** Gas first: among the particles in use, exactly those below [nsph] are
    gas. *)
Definition packed (p : list particle_data) (m nsph : Z) : Prop :=
  forall i x, 0 <= i < m -> rd p i = Ok x -> (PType x = 0 <-> i < nsph).

Definition shaped (t : task) : Prop :=
  0 <= N_sph t <= NumPart t /\ packed (P t) (NumPart t) (N_sph t).

(** What [domain_exchange] establishes before it counts: no particle in use
    is marked for export. *)
Definition clean (t : task) : Prop :=
  shaped t /\
  forall i x, 0 <= i < NumPart t -> rd (P t) i = Ok x -> WillExport x = false.

(** A process whose plan agrees with its flags. *)
Definition settled (N : nat) (t : task) : Prop :=
  shaped t /\
  zsum (toGo t) = pending (P t) 0 (NumPart t) /\
  length (toGo t) = N.

Lemma packed_wr (p p' : list particle_data) (m nsph n : Z) (pn v : particle_data) :
  packed p m nsph -> rd p n = Ok pn -> PType v = PType pn -> wr p n v = Ok p' ->
  packed p' m nsph.
Proof.
  intros Hp Hr Ht Hw i x Hi Hx. destruct (Z.eq_dec n i) as [-> | Hne].
  - rewrite (rd_wr_eq _ _ _ _ Hw) in Hx. injection Hx as <-. rewrite Ht.
    exact (Hp i pn Hi Hr).
  - rewrite (rd_wr_ne _ _ _ _ _ Hw Hne) in Hx. exact (Hp i x Hi Hx).
Qed.

Lemma length_wr {A : Type} (l l' : list A) (i : Z) (x : A) :
  wr l i x = Ok l' -> length l' = length l.
Proof. intros H. apply wr_Ok in H as [_ ->]. apply length_insert. Qed.

Lemma fl_rd (p : list particle_data) (i : Z) (x : particle_data) :
  rd p i = Ok x -> fl p i = flz x.
Proof. intros H. unfold fl. now rewrite H. Qed.

Lemma pending_wr_last (p p' : list particle_data) (n : Z) (v : particle_data) :
  0 <= n -> wr p n v = Ok p' -> pending p' 0 (n + 1) = pending p 0 n + flz v.
Proof.
  intros Hn Hw. rewrite pending_last by lia. rewrite (pending_wr _ _ _ _ _ _ Hw).
  rewrite (fl_wr _ _ _ n _ Hw). rewrite Z.eqb_refl.
  destruct (Z.leb_spec 0 n); destruct (Z.ltb_spec n n); cbn [andb]; lia.
Qed.

Section Counting.

Variable All : config.
Variable layoutfunc : particle_data -> Z.

(** The invariant of the flagging loop of [domain_countToGo], before turn
    [n], on a process with [m] particles. *)
Definition count_inv (N : nat) (m nsph n : Z)
  (s : list particle_data * list Z * list Z * list Z * Z) : Prop :=
  let '(p, g, _, _, _) := s in
  packed p m nsph /\ zsum g = pending p 0 n /\ length g = N /\
  forall i, n <= i < m -> fl p i = 0.

Lemma count_turn_inv (N : nat) (ThisTask m nsph n : Z)
  (s s' : list particle_data * list Z * list Z * list Z * Z) :
  0 <= n < m ->
  count_inv N m nsph n s ->
  count_turn All layoutfunc ThisTask n s = Ok s' ->
  count_inv N m nsph (n + 1) s'.
Proof.
  intros Hn Hinv Hrun. destruct s as [[[[p g] gs] gb] nl].
  destruct Hinv as (Hp & Hsum & Hlen & Hfl).
  assert (Hidle : count_inv N m nsph (n + 1) (p, g, gs, gb, nl)).
  { cbn. split; [exact Hp |]. split; [| split; [exact Hlen |]].
    - rewrite pending_last by lia. rewrite (Hfl n) by lia. lia.
    - intros i Hi. apply Hfl. lia. }
  unfold count_turn in Hrun.
  destruct (package All >=? wrap64 nl); [injection Hrun as <-; exact Hidle |].
  unfold mbind, outcome_bind in Hrun. bind_inv Hrun. rename a into pn.
  destruct (OnAnotherDomain pn) eqn:Hoad; cbn [negb] in Hrun;
    [| injection Hrun as <-; exact Hidle].
  destruct (layoutfunc pn =? ThisTask); [injection Hrun as <-; exact Hidle |].
  bind_inv Hrun. rename a into x. bind_inv Hrun. rename a into g'.
  bind_inv Hrun. destruct a as [gs' nl1]. bind_inv Hrun. destruct a as [gb' nl2].
  bind_inv Hrun. rename a into p'. injection Hrun as <-.
  cbn. split; [| split; [| split]].
  - eapply packed_wr; [exact Hp | exact E | | exact E4]. reflexivity.
  - rewrite (zsum_wr _ _ _ _ _ E0 E1).
    rewrite (pending_wr_last p p' n _ ltac:(lia) E4).
    unfold flz, flagged. cbn. lia.
  - rewrite (length_wr _ _ _ _ E1). exact Hlen.
  - intros i Hi. rewrite (fl_wr _ _ _ i _ E4).
    destruct (Z.eqb_spec i n); [lia |]. apply Hfl. lia.
Qed.

Lemma length_repeat_zero (n : nat) : length (repeat 0 n) = n.
Proof. apply repeat_length. Qed.

Lemma zsum_repeat_zero (n : nat) : zsum (repeat 0 n) = 0.
Proof. induction n as [| n IH]; [reflexivity |]. unfold zsum in *. cbn. rewrite IH. reflexivity. Qed.

Lemma count_local_settled (NTask ThisTask nlimit : Z) (t t' : task) (r : Z) :
  clean t ->
  count_local All layoutfunc NTask ThisTask nlimit t = Ok (t', r) ->
  settled (Z.to_nat NTask) t'.
Proof.
  intros [[Hb Hp] Hc] Hrun. unfold count_local in Hrun.
  destruct (package All >=? wrap64 nlimit); [discriminate |].
  unfold mbind, outcome_bind in Hrun. bind_inv Hrun.
  destruct a as [[[[p g] gs] gb] nl]. injection Hrun as <- _.
  pose proof (for_range_Ok
                (fun n s => 0 <= n <= NumPart t ->
                            count_inv (Z.to_nat NTask) (NumPart t) (N_sph t) n s)
                _ _ _ _ _ E) as H.
  cbn beta in H. replace (0 + Z.of_nat (Z.to_nat (NumPart t))) with (NumPart t) in H by lia.
  destruct H as (Hp' & Hsum & Hlen & _).
  - intros _. cbn. split; [exact Hp |]. split; [| split].
    + rewrite zsum_repeat_zero. now rewrite pending_empty by lia.
    + apply repeat_length.
    + intros i Hi. unfold fl. destruct (rd (P t) i) as [x | | |] eqn:Hx; try reflexivity.
      unfold flz, flagged. rewrite (Hc i x ltac:(lia) Hx). now rewrite andb_false_r.
  - intros k s0 s1 Hk H0 Hstep _.
    apply (count_turn_inv _ ThisTask _ _ k s0 s1); [lia | apply H0; lia | exact Hstep].
  - lia.
  - split; [| split]; cbn; [| exact Hsum | exact Hlen].
    split; [exact Hb | exact Hp'].
Qed.

End Counting.

Section Recounting.

Variable All : config.
Variable layoutfunc : particle_data -> Z.

Definition recount_inv (N : nat) (m nsph n : Z)
  (s : list particle_data * list Z * list Z * list Z) : Prop :=
  let '(p, lg, _, _) := s in
  packed p m nsph /\ zsum lg = pending p 0 n /\ length lg = N.

(** A particle that stays behind: its flag is cleared, the tally is kept. *)
Lemma recount_stays (N : nat) (m nsph n : Z) (p p1 : list particle_data)
  (lg lgs lgb : list Z) (pn : particle_data) :
  0 <= n ->
  recount_inv N m nsph n (p, lg, lgs, lgb) ->
  rd p n = Ok pn ->
  wr p n (set_flags pn true false) = Ok p1 ->
  recount_inv N m nsph (n + 1) (p1, lg, lgs, lgb).
Proof.
  intros Hn (Hp & Hsum & Hlen) Hr Hw. cbn. split; [| split; [| exact Hlen]].
  - eapply packed_wr; [exact Hp | exact Hr | | exact Hw]. reflexivity.
  - rewrite (pending_wr_last p p1 n _ Hn Hw). unfold flz, flagged. cbn.
    lia.
Qed.

(** A particle that is flagged again: the tally of its destination grows
    by one. *)
Lemma recount_goes (N : nat) (m nsph n c : Z) (p p1 p2 : list particle_data)
  (lg lg' lgs lgb lgs' lgb' : list Z) (pn : particle_data) (target : Z) :
  0 <= n ->
  recount_inv N m nsph n (p, lg, lgs, lgb) ->
  rd p n = Ok pn ->
  wr p n (set_flags pn true false) = Ok p1 ->
  rd lg target = Ok c ->
  wr lg target (c + 1) = Ok lg' ->
  wr p1 n (set_flags (set_flags pn true false) true true) = Ok p2 ->
  recount_inv N m nsph (n + 1) (p2, lg', lgs', lgb').
Proof.
  intros Hn Hinv Hr Hw Hc Hlg Hw2.
  pose proof (recount_stays N m nsph n p p1 lg lgs lgb pn Hn Hinv Hr Hw)
    as (Hp1 & Hsum1 & Hlen).
  destruct Hinv as (Hp & Hsum & _).
  cbn. split; [| split].
  - eapply packed_wr; [exact Hp1 | exact (rd_wr_eq _ _ _ _ Hw) | | exact Hw2]. reflexivity.
  - rewrite (zsum_wr _ _ _ _ _ Hc Hlg).
    rewrite (pending_wr_last p1 p2 n _ Hn Hw2).
    rewrite (pending_wr p p1 n 0 n _ Hw).
    destruct (Z.leb_spec 0 n); destruct (Z.ltb_spec n n); cbn [andb]; try lia.
    unfold flz, flagged. cbn. lia.
  - rewrite (length_wr _ _ _ _ Hlg). exact Hlen.
Qed.

Lemma recount_turn_inv (N : nat) (m nsph n : Z) (t : task)
  (s s' : list particle_data * list Z * list Z * list Z) :
  0 <= n ->
  recount_inv N m nsph n s ->
  recount_turn layoutfunc n s t = Ok s' ->
  recount_inv N m nsph (n + 1) s'.
Proof.
  intros Hn Hinv Hrun. destruct s as [[[p lg] lgs] lgb].
  unfold recount_turn in Hrun. unfold mbind, outcome_bind in Hrun.
  bind_inv Hrun. rename a into pn, E into Hr.
  destruct (OnAnotherDomain pn) eqn:Hoad; cbn [negb] in Hrun.
  - bind_inv Hrun. rename a into p1, E into Hw.
    bind_inv Hrun. rename a into c, E into Hc. bind_inv Hrun.
    pose proof (recount_stays N m nsph n p p1 lg lgs lgb pn Hn Hinv Hr Hw) as Hstay.
    pose proof (fun p2 lg' lgs' lgb' =>
                  recount_goes N m nsph n c p p1 p2 lg lg' lgs lgb lgs' lgb' pn
                    (layoutfunc (set_flags pn true false)) Hn Hinv Hr Hw Hc) as Hgo.
    cbn [OnAnotherDomain set_flags] in Hrun.
    destruct (PType (set_flags pn true false) =? 0).
    + do 2 bind_inv Hrun.
      destruct ((a0 <? a1) && (c <? a)); [| injection Hrun as <-; exact Hstay].
      do 3 bind_inv Hrun. injection Hrun as <-. eapply Hgo; eassumption.
    + destruct (PType (set_flags pn true false) =? 5).
      * do 2 bind_inv Hrun.
        destruct ((a0 <? a1) && (c <? a)); [| injection Hrun as <-; exact Hstay].
        do 3 bind_inv Hrun. injection Hrun as <-. eapply Hgo; eassumption.
      * destruct (c <? a); [| injection Hrun as <-; exact Hstay].
        do 2 bind_inv Hrun. injection Hrun as <-. eapply Hgo; eassumption.
  - injection Hrun as <-. destruct Hinv as (Hp & Hsum & Hlen).
    cbn. split; [exact Hp |]. split; [| exact Hlen].
    rewrite pending_last by lia. rewrite (fl_rd _ _ _ Hr).
    unfold flz, flagged. rewrite Hoad. cbn. lia.
Qed.

Lemma recount_local_settled (NTask : Z) (t t' : task) :
  shaped t ->
  recount_local layoutfunc NTask t = Ok t' ->
  settled (Z.to_nat NTask) t'.
Proof.
  intros [Hb Hp] Hrun. unfold recount_local in Hrun.
  unfold mbind, outcome_bind in Hrun. bind_inv Hrun.
  destruct a as [[[p lg] lgs] lgb]. injection Hrun as <-.
  pose proof (for_range_Ok
                (fun n s => 0 <= n -> recount_inv (Z.to_nat NTask) (NumPart t) (N_sph t) n s)
                _ _ _ _ _ E) as H.
  cbn beta in H. replace (0 + Z.of_nat (Z.to_nat (NumPart t))) with (NumPart t) in H by lia.
  destruct H as (Hp' & Hsum & Hlen).
  - intros _. cbn. split; [exact Hp |]. split; [| apply repeat_length].
    rewrite zsum_repeat_zero. now rewrite pending_empty by lia.
  - intros k s0 s1 Hk H0 Hstep _.
    apply (recount_turn_inv _ _ _ k t s0 s1); [lia | apply H0; lia | exact Hstep].
  - lia.
  - split; [| split]; cbn; [| exact Hsum | exact Hlen].
    split; [exact Hb | exact Hp'].
Qed.

End Recounting.

(** Sums over index ranges, to add up a matrix by rows or by columns. *)
Fixpoint nsum (f : nat -> Z) (n : nat) : Z :=
  match n with
  | O => 0
  | S n' => f O + nsum (fun k => f (S k)) n'
  end.

Lemma nsum_ext (f g : nat -> Z) (n : nat) :
  (forall k, (k < n)%nat -> f k = g k) -> nsum f n = nsum g n.
Proof.
  revert f g. induction n as [| n IH]; intros f g H; [reflexivity |].
  cbn [nsum]. rewrite (H O) by lia. f_equal. apply IH. intros k Hk. apply H. lia.
Qed.

Lemma nsum_add (f g : nat -> Z) (n : nat) :
  nsum (fun k => f k + g k) n = nsum f n + nsum g n.
Proof.
  revert f g. induction n as [| n IH]; intros f g; [reflexivity |].
  cbn [nsum]. rewrite (IH (fun k => f (S k)) (fun k => g (S k))). lia.
Qed.

Lemma nsum_swap (f : nat -> nat -> Z) (n m : nat) :
  nsum (fun a => nsum (fun b => f a b) m) n = nsum (fun b => nsum (fun a => f a b) n) m.
Proof.
  revert f. induction n as [| n IH]; intros f.
  - cbn [nsum]. induction m as [| m IHm]; [reflexivity |]. cbn [nsum]. now rewrite <- IHm.
  - cbn [nsum]. rewrite (IH (fun a b => f (S a) b)).
    now rewrite <- (nsum_add (fun b => f O b) (fun b => nsum (fun a => f (S a) b) n)).
Qed.

Lemma zsum_nsum (l : list Z) : zsum l = nsum (fun k => nth k l 0) (length l).
Proof.
  induction l as [| x l IH]; [reflexivity |].
  unfold zsum in *. cbn [foldr length nsum nth]. now rewrite IH.
Qed.

Lemma zsum_map_nsum {A : Type} (F : A -> Z) (l : list A) :
  zsum (map F l)
  = nsum (fun a => match l !! a with Some t => F t | None => 0 end) (length l).
Proof.
  induction l as [| x l IH]; [reflexivity |].
  unfold zsum in *. cbn [map foldr length nsum]. now rewrite IH.
Qed.

Lemma lookup_map {A B : Type} (f : A -> B) (l : list A) (i : nat) :
  map f l !! i = option_map f (l !! i).
Proof.
  revert i. induction l as [| x l IH]; intros [| i]; cbn; try reflexivity. apply IH.
Qed.

Lemma nth_map_seq {B : Type} (f : nat -> B) (n i : nat) (d : B) :
  (i < n)%nat -> nth i (map f (seq 0 n)) d = f i.
Proof.
  intros Hi. rewrite (nth_indep _ d (f O)) by (rewrite length_map, length_seq; lia).
  rewrite map_nth. now rewrite seq_nth by lia.
Qed.

(** The plans after the three [MPI_Alltoall] calls: what [a] expects of [b]
    is what [b] sends to [a]. *)
Definition transposed (G : list task) : Prop :=
  (forall a b ta tb, G !! a = Some ta -> G !! b = Some tb ->
                     nth b (toGet ta) 0 = nth a (toGo tb) 0) /\
  (forall a ta, G !! a = Some ta -> length (toGet ta) = length G).

Lemma exchange_plans_lookup (G : list task) (a : nat) (ta : task) :
  exchange_plans G !! a = Some ta ->
  exists t, G !! a = Some t /\
            P ta = P t /\ NumPart ta = NumPart t /\ N_sph ta = N_sph t /\
            toGo ta = toGo t /\
            toGet ta = map (fun b => nth a (nth b (map toGo G) []) 0) (seq 0 (length G)).
Proof.
  unfold exchange_plans. rewrite list_lookup_imap.
  destruct (G !! a) as [t |] eqn:Ht; cbn; [| discriminate].
  intros H. injection H as <-. exists t. repeat split.
  unfold with_toGet, MPI_Alltoall. cbn. rewrite length_map.
  apply lookup_lt_Some in Ht. now rewrite nth_map_seq by exact Ht.
Qed.

Lemma length_exchange_plans (G : list task) : length (exchange_plans G) = length G.
Proof. unfold exchange_plans. apply length_imap. Qed.

Lemma exchange_plans_transposed (G : list task) : transposed (exchange_plans G).
Proof.
  split.
  - intros a b ta tb Ha Hb.
    apply exchange_plans_lookup in Ha as (t & Ht & _ & _ & _ & _ & ->).
    apply exchange_plans_lookup in Hb as (u & Hu & _ & _ & _ & -> & _).
    rewrite nth_map_seq by (apply lookup_lt_Some in Hu; exact Hu).
    rewrite (nth_lookup (map toGo G)), lookup_map, Hu. reflexivity.
  - intros a ta Ha. rewrite length_exchange_plans.
    apply exchange_plans_lookup in Ha as (t & _ & _ & _ & _ & _ & ->).
    now rewrite length_map, length_seq.
Qed.

Lemma exchange_plans_settled (N : nat) (G : list task) :
  Forall (settled N) G -> Forall (settled N) (exchange_plans G).
Proof.
  intros H. apply Forall_lookup. intros a ta Ha.
  apply exchange_plans_lookup in Ha as (t & Ht & HP & Hn & Hs & Hg & _).
  pose proof (proj1 (Forall_lookup _ _) H a t Ht) as ([Hb Hp] & Hsum & Hlen).
  unfold settled, shaped. rewrite HP, Hn, Hs, Hg.
  split; [split; [exact Hb | exact Hp] | split; [exact Hsum | exact Hlen]].
Qed.

(** In a transposed plan of square shape as much is sent as is expected. *)
Lemma transposed_sums (G : list task) :
  transposed G ->
  Forall (fun t => length (toGo t) = length G) G ->
  zsum (map (fun t => zsum (toGet t)) G) = zsum (map (fun t => zsum (toGo t)) G).
Proof.
  intros [Ht Hl] Hgo. rewrite !zsum_map_nsum.
  set (M := fun b a : nat => match G !! b with Some tb => nth a (toGo tb) 0 | None => 0 end).
  rewrite (nsum_ext _ (fun a => nsum (fun b => M b a) (length G))).
  - rewrite nsum_swap. apply nsum_ext. intros b Hb.
    destruct (lookup_lt_is_Some_2 G b Hb) as [tb Htb]. rewrite Htb.
    rewrite zsum_nsum. rewrite (proj1 (Forall_lookup _ _) Hgo b tb Htb).
    apply nsum_ext. intros a _. unfold M. now rewrite Htb.
  - intros a Ha. destruct (lookup_lt_is_Some_2 G a Ha) as [ta Hta]. rewrite Hta.
    rewrite zsum_nsum. rewrite (Hl a ta Hta).
    apply nsum_ext. intros b Hb.
    destruct (lookup_lt_is_Some_2 G b Hb) as [tb Htb]. unfold M. rewrite Htb.
    exact (Ht a b ta tb Hta Htb).
Qed.

(** The repair of a plan touches the plans only. *)
Definition same_particles (t t' : task) : Prop :=
  P t' = P t /\ NumPart t' = NumPart t /\ N_sph t' = N_sph t.

Lemma same_particles_all (G : list task) : Forall2 same_particles G G.
Proof. induction G; constructor; [repeat split | assumption]. Qed.

Lemma same_particles_chain (G1 G2 G3 : list task) :
  Forall2 same_particles G1 G2 -> Forall2 same_particles G2 G3 ->
  Forall2 same_particles G1 G3.
Proof.
  intros H. revert G3. induction H as [| t1 t2 G1 G2 (Ha & Hb & Hc) _ IH]; intros G3 H23.
  - inversion H23. constructor.
  - inversion H23 as [| ? t3 ? G3' (Ha' & Hb' & Hc') Hrest]; subst.
    constructor; [| exact (IH _ Hrest)].
    repeat split; congruence.
Qed.

Lemma same_particles_shaped (G G' : list task) :
  Forall2 same_particles G G' -> Forall shaped G -> Forall shaped G'.
Proof.
  induction 1 as [| t t' G G' (Ha & Hb & Hc) _ IH]; intros HG; [constructor |].
  inversion HG as [| ? ? Ht Hrest]; subst. constructor; [| exact (IH Hrest)].
  unfold shaped in *. now rewrite Ha, Hb, Hc.
Qed.

Lemma with_plan_same (k : plan) (t : task) (l : list Z) :
  same_particles t (with_plan k t l).
Proof. destruct k; repeat split. Qed.

Lemma wr_same (G G' : list task) (i : Z) (t t' : task) :
  rd G i = Ok t -> wr G i t' = Ok G' -> same_particles t t' ->
  Forall2 same_particles G G'.
Proof.
  intros Hr Hw Hs. apply rd_Ok in Hr as [_ Hr]. apply wr_Ok in Hw as [_ ->].
  remember (Z.to_nat i) as k eqn:Hk. clear Hk i. revert k Hr.
  induction G as [| u G IH]; intros k Hr; [discriminate |].
  destruct k as [| k].
  - cbn in Hr. injection Hr as ->. constructor; [exact Hs | apply same_particles_all].
  - constructor; [repeat split |]. apply IH. exact Hr.
Qed.

Section Repairing.

Variable All : config.
Variable layoutfunc : particle_data -> Z.

Lemma drain_same (fuel : nat) (k : plan) (NTask ta i ntoomany taken r : Z)
  (G G' : list task) :
  drain fuel k NTask ta i ntoomany taken G = Ok (G', r) ->
  Forall2 same_particles G G'.
Proof.
  revert i ntoomany taken G. induction fuel as [| fuel IH]; intros i ntoomany taken G Hrun.
  - cbn [drain] in Hrun. destruct (ntoomany =? 0); [| discriminate].
    injection Hrun as <- _. apply same_particles_all.
  - cbn [drain] in Hrun. destruct (ntoomany =? 0).
    { injection Hrun as <- _. apply same_particles_all. }
    unfold mbind, outcome_bind in Hrun. bind_inv Hrun. rename a into ti.
    bind_inv Hrun. rename a into x.
    destruct (x >? 0); [| exact (IH _ _ _ _ Hrun)].
    bind_inv Hrun. rename a into l. bind_inv Hrun. rename a into G1.
    apply (same_particles_chain G G1 G').
    + exact (wr_same _ _ _ _ _ E E2 (with_plan_same k ti l)).
    + exact (IH _ _ _ _ Hrun).
Qed.

(** One stage of the repair of a destination either leaves everything as it
    is or raises the flag. *)
Lemma repair_stage (fuel : nat) (k : plan) (NTask ta i ntoomany flag cnt : Z)
  (G G' : list task) (flag' cnt' : Z) :
  (if ntoomany >? 0
   then obind (drain fuel k NTask ta i ntoomany 0 G)
              (fun '(G, taken) => Ok (G, 1, cnt - taken))
   else Ok (G, flag, cnt)) = Ok (G', flag', cnt') ->
  Forall2 same_particles G G' /\ (flag' = 1 \/ flag' = flag /\ G' = G).
Proof.
  intros H. destruct (ntoomany >? 0).
  - bind_inv H. destruct a as [G1 taken]. injection H as <- <- _.
    split; [exact (drain_same _ _ _ _ _ _ _ _ _ _ E) | now left].
  - injection H as <- <- _. split; [apply same_particles_all | now right].
Qed.

Lemma repair_destination_same (fuel : nat) (NTask flagsum ta flag flag' : Z)
  (G G' : list task) :
  repair_destination All fuel NTask flagsum ta (G, flag) = Ok (G', flag') ->
  Forall2 same_particles G G' /\ (flag' = 1 \/ flag' = flag /\ G' = G).
Proof.
  intros Hrun. unfold repair_destination in Hrun.
  unfold mbind, outcome_bind in Hrun. cbv zeta in Hrun.
  bind_inv Hrun. rename a into t.
  bind_inv Hrun. destruct a as [[G1 f1] c1]. apply repair_stage in E0 as [Hs1 Hf1].
  bind_inv Hrun. destruct a as [[G2 f2] c2]. apply repair_stage in E0 as [Hs2 Hf2].
  destruct (_ >? 0) in Hrun.
  - bind_inv Hrun. destruct a as [G3 taken]. injection Hrun as <- <-.
    split; [| now left].
    apply (same_particles_chain G G1 G3 Hs1). apply (same_particles_chain G1 G2 G3 Hs2).
    exact (drain_same _ _ _ _ _ _ _ _ _ _ E0).
  - injection Hrun as <- <-. split; [exact (same_particles_chain G G1 G2 Hs1 Hs2) |].
    destruct Hf2 as [-> | [-> ->]]; [now left |].
    destruct Hf1 as [-> | [-> ->]]; [now left | now right].
Qed.

Lemma repair_passes_same (fuel wait : nat) (NTask flagsum flagsum' : Z)
  (G G' : list task) :
  repair_passes All fuel wait NTask flagsum G = Ok (G', flagsum') ->
  Forall2 same_particles G G' /\ flagsum <= flagsum' /\ (flagsum' = flagsum -> G' = G).
Proof.
  revert flagsum G. induction wait as [| wait IH]; intros flagsum G Hrun; [discriminate |].
  cbn [repair_passes] in Hrun. unfold mbind, outcome_bind in Hrun.
  bind_inv Hrun. destruct a as [Ga flag].
  pose proof (for_range_Ok
                (fun (_ : Z) (s : list task * Z) =>
                   Forall2 same_particles G (fst s) /\
                   (snd s = 1 \/ snd s = 0 /\ fst s = G))
                _ _ _ _ _ E) as Hpass.
  destruct Hpass as [Hs Hf].
  { split; [apply same_particles_all | now right]. }
  { intros k [G0 f0] [G1 f1] _ [Hs0 Hf0] Hstep. cbn [fst snd] in *.
    apply repair_destination_same in Hstep as [Hs1 Hf1].
    split; [exact (same_particles_chain _ _ _ Hs0 Hs1) |].
    destruct Hf1 as [-> | [-> ->]]; [now left | exact Hf0]. }
  cbn [fst snd] in Hs, Hf.
  destruct (flagsum + flag >? 100); [discriminate |].
  destruct (Z.eqb_spec flag 0) as [-> | Hne].
  - injection Hrun as <- <-. destruct Hf as [Hf | [_ ->]]; [discriminate |].
    split; [apply same_particles_all |]. split; [lia | reflexivity].
  - destruct Hf as [-> | [-> _]]; [| contradiction].
    apply IH in Hrun as (Hs' & Hle & _).
    split; [exact (same_particles_chain _ _ _ Hs Hs') |]. split; lia.
Qed.

End Repairing.

Lemma map_tasks_each (f : Z -> task -> outcome task) (i : Z) (G G' : list task) :
  map_tasks f i G = Ok G' -> Forall2 (fun t t' => exists j, f j t = Ok t') G G'.
Proof.
  revert i G'. induction G as [| t G IH]; intros i G' Hrun.
  - injection Hrun as <-. constructor.
  - cbn [map_tasks] in Hrun. unfold mbind, outcome_bind in Hrun.
    bind_inv Hrun. bind_inv Hrun. injection Hrun as <-.
    constructor; [now exists i | exact (IH _ _ E0)].
Qed.

(** The processes after [domain_countToGo]: every plan agrees with the flags
    of its process, and the plans are transposed. *)
Definition agreed (G : list task) : Prop :=
  Forall (settled (length G)) G /\ transposed G.

Lemma exchange_plans_agreed (G : list task) :
  Forall (settled (length G)) G -> agreed (exchange_plans G).
Proof.
  intros H. split; [| apply exchange_plans_transposed].
  rewrite length_exchange_plans. now apply exchange_plans_settled.
Qed.

Section Agreement.

Variable All : config.
Variable layoutfunc : particle_data -> Z.

Lemma count_tasks_settled (NTask i : Z) (nlimits : list Z) (G G' : list task) (r : Z) :
  Forall clean G ->
  count_tasks All layoutfunc NTask i nlimits G = Ok (G', r) ->
  length G' = length G /\ Forall (settled (Z.to_nat NTask)) G'.
Proof.
  revert i nlimits G' r. induction G as [| t G IH]; intros i nlimits G' r Hc Hrun.
  - destruct nlimits; cbn in Hrun; injection Hrun as <- _; (split; [reflexivity | constructor]).
  - destruct nlimits as [| nl nls]; [discriminate |].
    cbn [count_tasks] in Hrun. unfold mbind, outcome_bind in Hrun.
    bind_inv Hrun. destruct a as [t' ret]. bind_inv Hrun. destruct a as [G'' retsum].
    injection Hrun as <- _. inversion Hc as [| ? ? Ht Hrest]; subst.
    destruct (IH _ _ _ _ Hrest E0) as [Hlen Hall].
    split; [cbn; now rewrite Hlen |].
    constructor; [exact (count_local_settled _ _ _ _ _ _ _ _ Ht E) | exact Hall].
Qed.

Lemma recount_tasks_settled (NTask i : Z) (G G' : list task) :
  Forall shaped G ->
  map_tasks (fun _ t => recount_local layoutfunc NTask t) i G = Ok G' ->
  length G' = length G /\ Forall (settled (Z.to_nat NTask)) G'.
Proof.
  intros Hs Hrun. apply map_tasks_each in Hrun.
  induction Hrun as [| t t' G G' [_ Ht] _ IH]; [split; [reflexivity | constructor] |].
  inversion Hs as [| ? ? Hshape Hrest]; subst. destruct (IH Hrest) as [Hlen Hall].
  split; [cbn; now rewrite Hlen |].
  constructor; [exact (recount_local_settled _ _ _ _ Hshape Ht) | exact Hall].
Qed.

Lemma settled_shaped (N : nat) (G : list task) : Forall (settled N) G -> Forall shaped G.
Proof. intros H. apply (Forall_impl _ _ _ H). intros t Ht. exact (proj1 Ht). Qed.

Lemma repair_agreed (fuel wait : nat) (G G' : list task) :
  agreed G ->
  repair All layoutfunc fuel wait (zlen G) G = Ok G' ->
  length G' = length G /\ agreed G'.
Proof.
  remember (length G) as N eqn:HN. revert G HN.
  induction wait as [| wait IH]; intros G HN Hok Hrun; [discriminate |].
  cbn [repair] in Hrun. unfold mbind, outcome_bind in Hrun.
  bind_inv Hrun. destruct a as [G1 flagsum].
  apply repair_passes_same in E as (Hsame & _ & Hquiet).
  destruct (Z.eqb_spec flagsum 0) as [-> | Hne].
  - injection Hrun as <-. rewrite (Hquiet eq_refl). split; [now symmetry | exact Hok].
  - bind_inv Hrun. rename a into G2.
    assert (Hshape : Forall shaped G1).
    { apply (same_particles_shaped G G1 Hsame). apply (settled_shaped (length G)).
      exact (proj1 Hok). }
    destruct (recount_tasks_settled _ _ _ _ Hshape E) as [Hlen2 Hall2].
    assert (Hlen1 : length G1 = length G) by (symmetry; exact (Forall2_length _ _ _ Hsame)).
    assert (Hz : zlen G = zlen (exchange_plans G2)).
    { unfold zlen. rewrite length_exchange_plans. lia. }
    rewrite Hz in Hrun. apply IH in Hrun; [exact Hrun | |].
    + rewrite length_exchange_plans. lia.
    + apply exchange_plans_agreed.
      replace (length G2) with (Z.to_nat (zlen G)) by (unfold zlen; lia). exact Hall2.
Qed.

Lemma countToGo_agreed (fuel : nat) (nlimits : list Z) (G G' : list task) (ret : Z) :
  Forall clean G ->
  domain_countToGo All layoutfunc fuel nlimits G = Ok (ret, G') ->
  length G' = length G /\ agreed G'.
Proof.
  intros Hc Hrun. unfold domain_countToGo in Hrun. unfold mbind, outcome_bind in Hrun.
  bind_inv Hrun. destruct a as [G1 retsum].
  destruct (count_tasks_settled _ _ _ _ _ _ Hc E) as [Hlen Hall].
  assert (Hok : agreed (exchange_plans G1)).
  { apply exchange_plans_agreed.
    replace (length G1) with (Z.to_nat (zlen G)) by (unfold zlen; lia). exact Hall. }
  destruct (negb (retsum =? 0)).
  - bind_inv Hrun. injection Hrun as _ <-.
    replace (zlen G) with (zlen (exchange_plans G1)) in E0
      by (unfold zlen; rewrite length_exchange_plans; lia).
    destruct (repair_agreed _ _ _ _ Hok E0) as [Hl Ha].
    rewrite length_exchange_plans in Hl. split; [lia | exact Ha].
  - injection Hrun as _ <-. rewrite length_exchange_plans. split; [lia | exact Hok].
Qed.

End Agreement.

Lemma rd_wr {A : Type} (l l' : list A) (i j : Z) (x : A) :
  wr l i x = Ok l' -> rd l' j = if j =? i then Ok x else rd l j.
Proof.
  intros H. destruct (Z.eqb_spec j i) as [-> | Hne].
  - exact (rd_wr_eq _ _ _ _ H).
  - apply (rd_wr_ne _ _ _ _ _ H). lia.
Qed.

(** Take the comparisons of a goal and its hypotheses apart. *)
Ltac split_tests :=
  repeat match goal with
         | H : context [Z.eqb ?a ?b] |- _ => destruct (Z.eqb_spec a b)
         | H : context [Z.leb ?a ?b] |- _ => destruct (Z.leb_spec a b)
         | H : context [Z.ltb ?a ?b] |- _ => destruct (Z.ltb_spec a b)
         | |- context [Z.eqb ?a ?b] => destruct (Z.eqb_spec a b)
         | |- context [Z.leb ?a ?b] => destruct (Z.leb_spec a b)
         | |- context [Z.ltb ?a ?b] => destruct (Z.ltb_spec a b)
         end.

Section Exporting.

Variable All : config.
Variable layoutfunc : particle_data -> Z.

Lemma pack_keeps (bhp : list Bh.bh_particle_data) (sphn : outcome sph_particle_data)
  (target : Z) (pn pn' : particle_data) (o o' : outbox) :
  pack bhp sphn target pn o = Ok (pn', o') ->
  PType pn' = PType pn /\ flz pn' = flz pn.
Proof.
  intros H. unfold pack, put_particle in H. unfold mbind, outcome_bind in H.
  destruct (PType pn =? 0); [| destruct (PType pn =? 5)];
    repeat bind_inv H; injection H as <- _; split; reflexivity.
Qed.

Definition export_inv (s : export_state) : Prop :=
  0 <= ex_n s /\ 0 <= ex_N_sph s <= ex_NumPart s /\
  packed (ex_P s) (ex_NumPart s) (ex_N_sph s).

(** The particles of a process that stay or are still to be looked at, less
    those of them that are marked. *)
Definition staying (s : export_state) : Z :=
  ex_NumPart s - pending (ex_P s) (ex_n s) (ex_NumPart s).

Lemma export_turn_inv (bhp : list Bh.bh_particle_data) (s s' : export_state) :
  export_inv s -> ex_n s < ex_NumPart s ->
  export_turn layoutfunc bhp s = Ok s' ->
  export_inv s' /\ staying s' = staying s.
Proof.
  destruct s as [n p sp m nsph o]. unfold export_inv, staying. cbn [ex_n ex_P ex_NumPart ex_N_sph].
  intros (Hn & Hb & Hp) Hlt Hrun.
  unfold export_turn in Hrun. cbv zeta in Hrun.
  cbn [ex_n ex_P ex_NumPart ex_N_sph ex_SphP ex_out] in Hrun.
  unfold mbind, outcome_bind in Hrun. bind_inv Hrun. rename a into pn, E into Hr.
  assert (Hfirst := pending_first p n m Hlt). rewrite (fl_rd _ _ _ Hr) in Hfirst.
  destruct (flagged pn) eqn:Hflag; cbn [negb] in Hrun.
  2:{ injection Hrun as <-. cbn [ex_n ex_P ex_NumPart ex_N_sph].
      unfold flz in Hfirst. rewrite Hflag in Hfirst.
      split; [split; [lia | split; [lia | exact Hp]] | lia]. }
  assert (Hfpn : flz pn = 1) by (unfold flz; now rewrite Hflag).
  assert (Hf0 : flz (set_flags pn false false) = 0) by reflexivity.
  bind_inv Hrun. rename a into p1, E into Hw1.
  bind_inv Hrun. destruct a as [pn1 o1]. apply pack_keeps in E as [Hty Hf1].
  cbn [PType set_flags] in Hty. rewrite Hf0 in Hf1.
  bind_inv Hrun. rename a into p2, E into Hw2.
  pose proof (Hp n pn ltac:(lia) Hr) as Hgas.
  assert (Hlast := pending_last p n (m - 1) ltac:(lia)).
  replace (m - 1 + 1) with m in Hlast by lia.
  assert (Hrd1 := fun j => rd_wr _ _ _ j _ Hw1).
  assert (Hrd2 := fun j => rd_wr _ _ _ j _ Hw2).
  assert (Hfl1 := fun j => fl_wr _ _ _ j _ Hw1).
  assert (Hfl2 := fun j => fl_wr _ _ _ j _ Hw2).
  assert (Hpe1 := pending_wr _ _ _ n (m - 1) _ Hw1).
  assert (Hpe2 := pending_wr _ _ _ n (m - 1) _ Hw2).
  rewrite Hf0, (fl_rd _ _ _ Hr), Hfpn in Hpe1.
  rewrite Hf1, (Hfl1 n), Z.eqb_refl, Hf0 in Hpe2.
  assert (Hsame : nsph - 1 = m - 1 -> fl p (nsph - 1) = fl p (m - 1)) by (now intros ->).
  assert (Hend : m - 1 = n -> fl p (m - 1) = 1 /\ pending p n (m - 1) = 0).
  { intros ->. split; [now rewrite (fl_rd _ _ _ Hr) | apply pending_empty; lia]. }
  destruct (Z.eqb_spec (PType pn1) 0) as [Hg | Hng].
  - bind_inv Hrun. rename a into x, E into Hx.
    bind_inv Hrun. rename a into p3, E into Hw3.
    bind_inv Hrun. rename a into y, E into Hy.
    bind_inv Hrun. rename a into p4, E into Hw4.
    do 2 bind_inv Hrun. injection Hrun as <-. cbn [ex_n ex_P ex_NumPart ex_N_sph].
    assert (Hrd3 := fun j => rd_wr _ _ _ j _ Hw3).
    assert (Hrd4 := fun j => rd_wr _ _ _ j _ Hw4).
    assert (Hfl3 := fun j => fl_wr _ _ _ j _ Hw3).
    assert (Hpe3 := pending_wr _ _ _ n (m - 1) _ Hw3).
    assert (Hpe4 := pending_wr _ _ _ n (m - 1) _ Hw4).
    assert (Hfx := fl_rd _ _ _ Hx). assert (Hfy := fl_rd _ _ _ Hy).
    rewrite Hfl2, Hfl1, Hf1, Hf0 in Hfx.
    rewrite Hfl3, Hfl2, Hfl1, Hf1, Hf0 in Hfy.
    rewrite Hfl3, Hfl2, Hfl1, Hf1, Hf0 in Hpe4.
    rewrite (Hfl2 n), Z.eqb_refl, Hf1 in Hpe3.
    assert (Hin : n < nsph) by lia.
    split; [split; [lia | split; [lia |]] |].
    + intros i z Hi Hz. rewrite Hrd4 in Hz.
      destruct (Z.eqb_spec i (nsph - 1)) as [-> | Hia].
      * injection Hz as <-. rewrite Hrd3 in Hy.
        destruct (Z.eqb_spec (m - 1) n); [lia |].
        rewrite Hrd2, Hrd1 in Hy. destruct (Z.eqb_spec (m - 1) n); [lia |].
        pose proof (Hp (m - 1) y ltac:(lia) Hy). lia.
      * rewrite Hrd3 in Hz. destruct (Z.eqb_spec i n) as [-> | Hin'].
        -- injection Hz as <-. rewrite Hrd2, Hrd1 in Hx.
           destruct (Z.eqb_spec (nsph - 1) n); [lia |].
           pose proof (Hp (nsph - 1) x ltac:(lia) Hx). lia.
        -- rewrite Hrd2, Hrd1 in Hz. destruct (Z.eqb_spec i n); [lia |].
           pose proof (Hp i z ltac:(lia) Hz). lia.
    + clear Hrd1 Hrd2 Hrd3 Hrd4 Hfl1 Hfl2 Hfl3 Hp.
      split_tests; cbn [andb] in *; lia.
  - bind_inv Hrun. rename a into y, E into Hy.
    bind_inv Hrun. rename a into p3, E into Hw3.
    injection Hrun as <-. cbn [ex_n ex_P ex_NumPart ex_N_sph].
    assert (Hrd3 := fun j => rd_wr _ _ _ j _ Hw3).
    assert (Hpe3 := pending_wr _ _ _ n (m - 1) _ Hw3).
    assert (Hfy := fl_rd _ _ _ Hy).
    rewrite Hfl2, Hfl1, Hf1, Hf0 in Hfy.
    rewrite (Hfl2 n), Z.eqb_refl, Hf1 in Hpe3.
    assert (Hout : nsph <= n) by lia.
    split; [split; [lia | split; [lia |]] |].
    + intros i z Hi Hz. rewrite Hrd3 in Hz.
      destruct (Z.eqb_spec i n) as [-> | Hin'].
      * injection Hz as <-. rewrite Hrd2, Hrd1 in Hy.
        destruct (Z.eqb_spec (m - 1) n); [lia |].
        pose proof (Hp (m - 1) y ltac:(lia) Hy). lia.
      * rewrite Hrd2, Hrd1 in Hz. destruct (Z.eqb_spec i n); [lia |].
        pose proof (Hp i z ltac:(lia) Hz). lia.
    + clear Hrd1 Hrd2 Hrd3 Hfl1 Hfl2 Hp.
      split_tests; cbn [andb] in *; lia.
Qed.

End Exporting.

Section Moving.

Variable All : config.
Variable layoutfunc : particle_data -> Z.
Variable qsort : forall A : Type, (A -> A -> Z) -> list A -> list A.

Lemma export_loop_count (fuel : nat) (bhp : list Bh.bh_particle_data)
  (s s' : export_state) :
  export_inv s ->
  export_loop layoutfunc fuel bhp s = Ok s' ->
  ex_NumPart s' = staying s.
Proof.
  revert s. induction fuel as [| fuel IH]; intros s Hinv Hrun.
  - cbn [export_loop] in Hrun. destruct (Z.ltb_spec (ex_n s) (ex_NumPart s)); [discriminate |].
    injection Hrun as <-. unfold staying. rewrite pending_empty by lia. lia.
  - cbn [export_loop] in Hrun. destruct (Z.ltb_spec (ex_n s) (ex_NumPart s)) as [Hlt | Hge].
    + unfold mbind, outcome_bind in Hrun. bind_inv Hrun.
      destruct (export_turn_inv layoutfunc bhp s a Hinv Hlt E) as [Hinv' <-].
      exact (IH a Hinv' Hrun).
    + injection Hrun as <-. unfold staying. rewrite pending_empty by lia. lia.
Qed.

Lemma export_local_count (t t' : task) (o : outbox) :
  shaped t ->
  export_local layoutfunc t = Ok (t', o) ->
  NumPart t' = NumPart t - pending (P t) 0 (NumPart t) /\ toGet t' = toGet t.
Proof.
  intros [Hb Hp] Hrun. unfold export_local in Hrun. cbv zeta in Hrun.
  unfold mbind, outcome_bind in Hrun. bind_inv Hrun. rename a into s.
  bind_inv Hrun. injection Hrun as <- _. cbn [NumPart toGet]. split; [| reflexivity].
  apply export_loop_count in E; [exact E |].
  split; [cbn; lia | split; [exact Hb | exact Hp]].
Qed.

Lemma import_local_count (d : Z) (boxes : list (task * outbox)) (t t' : task) :
  import_local All d boxes t = Ok t' ->
  NumPart t' = NumPart t + zsum (toGet t).
Proof.
  intros Hrun. unfold import_local in Hrun. cbv zeta in Hrun.
  unfold mbind, outcome_bind in Hrun. do 6 bind_inv Hrun.
  destruct (_ >? MaxPart All) in Hrun; [discriminate |].
  destruct (_ >? MaxPartSph All) in Hrun; [discriminate |].
  destruct (_ >? MaxPartBh All) in Hrun; [discriminate |].
  injection Hrun as <-. reflexivity.
Qed.

Lemma bh_garbage_collection_count (total0 : Z) (t t' : task) :
  domain_bh_garbage_collection All qsort total0 t = Ok t' -> NumPart t' = NumPart t.
Proof.
  intros Hrun. unfold domain_bh_garbage_collection in Hrun.
  destruct (total0 =? 0); [now injection Hrun as <- |].
  unfold mbind, outcome_bind in Hrun. cbv zeta in Hrun. do 6 bind_inv Hrun.
  destruct (negb _) in Hrun; [discriminate |]. injection Hrun as <-. reflexivity.
Qed.

Lemma garbage_collection_count (total0 : Z) (t t' : task) :
  garbage_collection_local All qsort total0 t = Ok t' -> NumPart t' = NumPart t.
Proof.
  intros Hrun. unfold garbage_collection_local in Hrun.
  unfold mbind, outcome_bind in Hrun. bind_inv Hrun.
  apply bh_garbage_collection_count in E. bind_inv Hrun.
  destruct a0 as [[[nsph ndm] nstar] nbh]. injection Hrun as <-. exact E.
Qed.

Lemma export_tasks_each (G : list task) (boxes : list (task * outbox)) :
  export_tasks layoutfunc G = Ok boxes ->
  Forall2 (fun t t' => exists o, export_local layoutfunc t = Ok (t', o)) G (map fst boxes).
Proof.
  revert boxes. induction G as [| t G IH]; intros boxes Hrun.
  - injection Hrun as <-. constructor.
  - cbn [export_tasks] in Hrun. unfold mbind, outcome_bind in Hrun.
    bind_inv Hrun. bind_inv Hrun. injection Hrun as <-. destruct a as [t' o].
    cbn [map fst]. constructor; [now exists o | exact (IH _ E0)].
Qed.

(** One process through [domain_exchange_once]. *)
Definition moved (t1 t2 : task) : Prop :=
  NumPart t2 = NumPart t1 - zsum (toGo t1) + zsum (toGet t1).

Lemma exchange_once_each (N : nat) (G1 G2 : list task) :
  Forall (settled N) G1 ->
  domain_exchange_once All layoutfunc qsort G1 = Ok G2 ->
  Forall2 moved G1 G2.
Proof.
  intros Hall Hrun. unfold domain_exchange_once in Hrun.
  unfold mbind, outcome_bind in Hrun. bind_inv Hrun. rename a into boxes.
  bind_inv Hrun. rename a into G'. unfold domain_garbage_collection in Hrun.
  apply export_tasks_each in E. apply map_tasks_each in E0. apply map_tasks_each in Hrun.
  remember (zsum (map N_bh G')) as total0 eqn:Htot. clear Htot.
  remember (map fst boxes) as Ga eqn:HGa. clear HGa.
  revert G' G2 E0 Hrun.
  induction E as [| t ta G Ga [o Hex] _ IH]; intros G' G2 Him Hgc.
  - inversion Him; subst. inversion Hgc; subst. constructor.
  - inversion Him as [| ? tb ? Gb [d Hi] Him']; subst.
    inversion Hgc as [| ? tc ? Gc [j Hg] Hgc']; subst.
    inversion Hall as [| ? ? (Hs & Hsum & _) Hall']; subst.
    constructor; [| exact (IH Hall' _ _ Him' Hgc')].
    apply export_local_count in Hex as [Hex Hget]; [| exact Hs].
    apply import_local_count in Hi. apply garbage_collection_count in Hg.
    unfold moved. rewrite Hg, Hi, Hex, Hget, Hsum. reflexivity.
Qed.

Lemma moved_total (G1 G2 : list task) :
  Forall2 moved G1 G2 ->
  zsum (map NumPart G2)
  = zsum (map NumPart G1) - zsum (map (fun t => zsum (toGo t)) G1)
    + zsum (map (fun t => zsum (toGet t)) G1).
Proof.
  induction 1 as [| t1 t2 G1 G2 Hm _ IH]; [reflexivity |].
  unfold zsum in *. cbn [map foldr]. rewrite IH. unfold moved in Hm. unfold zsum in Hm.
  rewrite Hm. ring.
Qed.

End Moving.

(** *** Two processes trading particles *)

Definition pt (id ty target : Z) (leaving : bool) : particle_data :=
  mkP (0, 0, 0)%Q (0, 0, 0)%Q 1%Q id ty 0 0 0 leaving false target 0%Q 0%Q.

Definition roomy : config := mkConfig 8 4 2 1 1 1.

(** Process 0 holds two gas particles, a dark-matter particle and a black
    hole, and is to give away all but the first; process 1 holds a gas
    particle, which is to go, and a dark-matter particle. *)
Definition trader0 : task :=
  mkTask ([pt 10 0 0 false; pt 11 0 1 true; pt 12 1 1 true; pt 13 5 1 true]
          ++ repeat blank_particle 4)
         [mkSph 10 0; mkSph 11 0; mkSph 0 0; mkSph 0 0]
         [Bh.mk (-1) 13 1; Bh.mk (-1) 0 0] 4 2 1 1 0 [] [] [] [] [] [].

Definition trader1 : task :=
  mkTask ([pt 20 0 0 true; pt 21 1 1 false] ++ repeat blank_particle 6)
         [mkSph 20 0; mkSph 0 0; mkSph 0 0; mkSph 0 0]
         [Bh.mk (-1) 0 0; Bh.mk (-1) 0 0] 2 1 0 1 0 [] [] [] [] [] [].

Definition traders : list task := [trader0; trader1].

Definition traders_planned : list task :=
  Eval vm_compute in
    match domain_countToGo roomy Key 10 [100; 100] traders with
    | Ok (_, G) => G
    | _ => []
    end.

Definition traders_moved : list task :=
  Eval vm_compute in
    match domain_exchange_once roomy Key Decompose.insertion_sort traders_planned with
    | Ok G => G
    | _ => []
    end.

Lemma traders_clean : Forall clean traders.
Proof.
  constructor; [| constructor; [| constructor]].
  - split; [split; [cbn; lia |] |].
    + intros i x Hi Hx. cbn [NumPart trader0] in Hi.
      assert (Hc : i = 0 \/ i = 1 \/ i = 2 \/ i = 3) by lia.
      destruct Hc as [-> | [-> | [-> | ->]]]; vm_compute in Hx; injection Hx as <-;
        cbn [PType N_sph trader0]; lia.
    + intros i x Hi Hx. cbn [NumPart trader0] in Hi.
      assert (Hc : i = 0 \/ i = 1 \/ i = 2 \/ i = 3) by lia.
      destruct Hc as [-> | [-> | [-> | ->]]]; vm_compute in Hx; injection Hx as <-;
        reflexivity.
  - split; [split; [cbn; lia |] |].
    + intros i x Hi Hx. cbn [NumPart trader1] in Hi.
      assert (Hc : i = 0 \/ i = 1) by lia.
      destruct Hc as [-> | ->]; vm_compute in Hx; injection Hx as <-;
        cbn [PType N_sph trader1]; lia.
    + intros i x Hi Hx. cbn [NumPart trader1] in Hi.
      assert (Hc : i = 0 \/ i = 1) by lia.
      destruct Hc as [-> | ->]; vm_compute in Hx; injection Hx as <-; reflexivity.
Qed.

Lemma traders_counted :
  domain_countToGo roomy Key 10 [100; 100] traders = Ok (0, traders_planned).
Proof. vm_compute. reflexivity. Qed.

Lemma traders_exchanged :
  domain_exchange_once roomy Key Decompose.insertion_sort traders_planned
  = Ok traders_moved.
Proof. vm_compute. reflexivity. Qed.

(** C2: after [domain_countToGo] has returned, the expectations [toGet] are
    the transposition of the plans [toGo], so that as much is sent as is
    expected over all processes; and after [domain_exchange_once] every
    process holds what it held, less what it planned to send, plus what it
    expected, so that the number of particles of all processes together is
    what it was.  The processes start as [domain_exchange] leaves them: gas
    first, and no particle marked for export. *)
Theorem exchange_conserves (All : config) (layoutfunc : particle_data -> Z)
  (qsort : forall A : Type, (A -> A -> Z) -> list A -> list A)
  (fuel : nat) (nlimits : list Z) (G0 G1 G2 : list task) (ret : Z) :
  Forall clean G0 ->
  domain_countToGo All layoutfunc fuel nlimits G0 = Ok (ret, G1) ->
  domain_exchange_once All layoutfunc qsort G1 = Ok G2 ->
  transposed G1 /\
  zsum (map (fun t => zsum (toGo t)) G1) = zsum (map (fun t => zsum (toGet t)) G1) /\
  Forall2 (fun t1 t2 => NumPart t2 = NumPart t1 - zsum (toGo t1) + zsum (toGet t1)) G1 G2 /\
  zsum (map NumPart G2) = zsum (map NumPart G1).
Proof.
  intros Hclean Hcount Hmove.
  destruct (countToGo_agreed _ _ _ _ _ _ _ Hclean Hcount) as [_ [Hall Htr]].
  assert (Hsums : zsum (map (fun t => zsum (toGet t)) G1)
                  = zsum (map (fun t => zsum (toGo t)) G1)).
  { apply (transposed_sums G1 Htr). apply (Forall_impl _ _ _ Hall).
    intros t Ht. exact (proj2 (proj2 Ht)). }
  pose proof (exchange_once_each _ _ _ _ _ _ Hall Hmove) as Heach.
  split; [exact Htr |]. split; [now symmetry |]. split; [exact Heach |].
  rewrite (moved_total _ _ Heach). lia.
Qed.

Lemma exchange_conserves_witness :
  transposed traders_planned /\
  zsum (map (fun t => zsum (toGo t)) traders_planned)
  = zsum (map (fun t => zsum (toGet t)) traders_planned) /\
  Forall2 (fun t1 t2 => NumPart t2 = NumPart t1 - zsum (toGo t1) + zsum (toGet t1))
          traders_planned traders_moved /\
  zsum (map NumPart traders_moved) = zsum (map NumPart traders_planned).
Proof.
  exact (exchange_conserves roomy Key Decompose.insertion_sort 10 [100; 100]
           traders traders_planned traders_moved 0
           traders_clean traders_counted traders_exchanged).
Defined.

(** *** The species packing after a garbage collection *)

(** The number of black holes among the particles [0 .. k - 1]. *)
Definition is_bh (p : list particle_data) (i : Z) : Z :=
  match rd p i with Ok x => if PType x =? 5 then 1 else 0 | _ => 0 end.

Definition tally_bh (p : list particle_data) (k : Z) : Z := rsum (is_bh p) (Z.to_nat k) 0.

Lemma tally_bh_next (p : list particle_data) (k : Z) :
  0 <= k -> tally_bh p (k + 1) = tally_bh p k + is_bh p k.
Proof.
  intros Hk. unfold tally_bh. replace (Z.to_nat (k + 1)) with (S (Z.to_nat k)) by lia.
  rewrite rsum_last. do 2 f_equal. lia.
Qed.

(** Gas comes first on a process, whatever its [N_sph] says. *)
Definition gas_first (t : task) : Prop :=
  exists k, 0 <= k <= NumPart t /\ packed (P t) (NumPart t) k.

(** The black-hole records in use cover the black holes of the process. *)
Definition bh_counted (t : task) : Prop :=
  0 <= N_bh t /\
  forall i x, 0 <= i < NumPart t -> rd (P t) i = Ok x -> PType x = 5 -> 0 < N_bh t.

(** Every black hole of [p] points to a record of [b] in use that carries
    its ID. *)
Definition links (p : list particle_data) (m : Z) (b : list Bh.bh_particle_data)
  (nbh : Z) : Prop :=
  forall i x, 0 <= i < m -> rd p i = Ok x -> PType x = 5 ->
              0 <= PI x < nbh /\ exists r, rd b (PI x) = Ok r /\ Bh.ID r = ID x.

Definition linked (t : task) : Prop := links (P t) (NumPart t) (BhP t) (N_bh t).

Definition types_kept (p0 p : list particle_data) : Prop :=
  forall i x, rd p i = Ok x -> exists x0, rd p0 i = Ok x0 /\ PType x0 = PType x.

Definition ids_kept (b0 b : list Bh.bh_particle_data) : Prop :=
  forall j r, rd b j = Ok r -> exists r0, rd b0 j = Ok r0 /\ Bh.ID r0 = Bh.ID r.

Lemma types_kept_packed (p0 p : list particle_data) (m k : Z) :
  types_kept p0 p -> packed p0 m k -> packed p m k.
Proof.
  intros Hk Hp i x Hi Hx. destruct (Hk i x Hx) as (x0 & Hx0 & <-). exact (Hp i x0 Hi Hx0).
Qed.

Lemma ids_kept_wr (b0 b b' : list Bh.bh_particle_data) (j l : Z) (r : Bh.bh_particle_data) :
  ids_kept b0 b -> rd b j = Ok r -> wr b j (set_ReverseLink r l) = Ok b' ->
  ids_kept b0 b'.
Proof.
  intros Hk Hr Hw i r' Hr'. rewrite (rd_wr _ _ _ i _ Hw) in Hr'.
  destruct (Z.eqb_spec i j) as [-> | Hne].
  - injection Hr' as <-. exact (Hk j r Hr).
  - exact (Hk i r' Hr').
Qed.

Lemma reset_links_ids (n : nat) (b0 b : list Bh.bh_particle_data) :
  for_range n 0 (fun i b => r ← rd b i; wr b i (set_ReverseLink r (-1))) b0 = Ok b ->
  ids_kept b0 b.
Proof.
  intros Hrun.
  apply (for_range_Ok (fun _ b => ids_kept b0 b) _ _ _ _ _ Hrun).
  - intros j r Hr. now exists r.
  - intros k s0 s1 _ Hk Hstep. unfold mbind, outcome_bind in Hstep. bind_inv Hstep.
    exact (ids_kept_wr _ _ _ _ _ _ Hk E Hstep).
Qed.

Lemma ids_kept_chain (b0 b1 b2 : list Bh.bh_particle_data) :
  ids_kept b0 b1 -> ids_kept b1 b2 -> ids_kept b0 b2.
Proof.
  intros H01 H12 j r Hr. destruct (H12 j r Hr) as (r1 & Hr1 & <-). exact (H01 j r1 Hr1).
Qed.

Section Collecting.

Variable All : config.
Variable qsort : forall A : Type, (A -> A -> Z) -> list A -> list A.

(** The first pass over the particles returns only if every link is in
    order. *)
Lemma link_loop_links (p : list particle_data) (m nbh : Z)
  (b0 b : list Bh.bh_particle_data) :
  0 <= m ->
  for_range (Z.to_nat m) 0 (link_turn p nbh) b0 = Ok b ->
  ids_kept b0 b /\ links p m b0 nbh.
Proof.
  intros Hm Hrun.
  pose proof (for_range_Ok (fun k b => ids_kept b0 b /\ links p k b0 nbh) _ _ _ _ _ Hrun) as H.
  replace (0 + Z.of_nat (Z.to_nat m)) with m in H by lia. apply H; clear H.
  - split; [intros j r Hr; now exists r | intros i x Hi; lia].
  - intros k s0 s1 Hk [Hids Hl] Hstep. unfold link_turn in Hstep.
    unfold mbind, outcome_bind in Hstep. bind_inv Hstep. rename a into pk.
    destruct (Z.eqb_spec (PType pk) 5) as [Hbh | Hno].
    + bind_inv Hstep. rename a into r. bind_inv Hstep. rename a into b2.
      destruct (Z.geb_spec (PI pk) nbh) as [| Hlt]; [discriminate |].
      bind_inv Hstep. rename a into r'.
      destruct (Z.eqb_spec (Bh.ID r') (ID pk)) as [Hid | ]; [| discriminate].
      injection Hstep as <-. split; [exact (ids_kept_wr _ _ _ _ _ _ Hids E0 E1) |].
      intros i x Hi Hx Hty. destruct (Z.eq_dec i k) as [-> | Hne].
      * rewrite E in Hx. injection Hx as <-.
        rewrite (rd_wr_eq _ _ _ _ E1) in E2. injection E2 as <-.
        destruct (Hids _ _ E0) as (r0 & Hr0 & Hid0).
        split; [pose proof (rd_range _ _ _ E0); lia |].
        exists r0. split; [exact Hr0 |]. cbn in Hid. congruence.
      * apply (Hl i x); [lia | exact Hx | exact Hty].
    + injection Hstep as <-. split; [exact Hids |].
      intros i x Hi Hx Hty. destruct (Z.eq_dec i k) as [-> | Hne].
      * rewrite E in Hx. injection Hx as <-. contradiction.
      * apply (Hl i x); [lia | exact Hx | exact Hty].
Qed.

(** The last pass returns only if every link is in order, and counts the
    black holes. *)
Lemma check_loop_links (p : list particle_data) (m nbh j : Z)
  (b : list Bh.bh_particle_data) :
  0 <= m ->
  for_range (Z.to_nat m) 0 (check_turn b nbh p) 0 = Ok j ->
  j = tally_bh p m /\ links p m b nbh.
Proof.
  intros Hm Hrun.
  pose proof (for_range_Ok (fun k j => 0 <= k -> j = tally_bh p k /\ links p k b nbh)
                _ _ _ _ _ Hrun) as H.
  replace (0 + Z.of_nat (Z.to_nat m)) with m in H by lia. apply H; clear H; [| | exact Hm].
  - intros _. split; [reflexivity | intros i x Hi; lia].
  - intros k s0 s1 Hk H0 Hstep _. destruct (H0 ltac:(lia)) as [-> Hl].
    unfold check_turn in Hstep.
    unfold mbind, outcome_bind in Hstep. bind_inv Hstep. rename a into pk.
    rewrite tally_bh_next by lia. unfold is_bh. rewrite E.
    destruct (Z.eqb_spec (PType pk) 5) as [Hbh | Hno]; cbn [negb] in Hstep.
    + destruct (Z.geb_spec (PI pk) nbh) as [| Hlt]; [discriminate |].
      bind_inv Hstep. rename a into r.
      destruct (Z.eqb_spec (Bh.ID r) (ID pk)) as [Hid | ]; [| discriminate].
      injection Hstep as <-. split; [reflexivity |].
      intros i x Hi Hx Hty. destruct (Z.eq_dec i k) as [-> | Hne].
      * rewrite E in Hx. injection Hx as <-.
        split; [pose proof (rd_range _ _ _ E0); lia |]. now exists r.
      * apply (Hl i x); [lia | exact Hx | exact Hty].
    + injection Hstep as <-. split; [lia |].
      intros i x Hi Hx Hty. destruct (Z.eq_dec i k) as [-> | Hne].
      * rewrite E in Hx. injection Hx as <-. contradiction.
      * apply (Hl i x); [lia | exact Hx | exact Hty].
Qed.

End Collecting.

Lemma links_ids (p : list particle_data) (m nbh : Z) (b0 b : list Bh.bh_particle_data) :
  ids_kept b0 b -> links p m b nbh -> links p m b0 nbh.
Proof.
  intros Hids Hl i x Hi Hx Hty. destruct (Hl i x Hi Hx Hty) as (Hpi & r & Hr & Hid).
  split; [exact Hpi |]. destruct (Hids _ _ Hr) as (r0 & Hr0 & Hid0).
  exists r0. split; [exact Hr0 | congruence].
Qed.

Lemma relink_types (n : nat) (b : list Bh.bh_particle_data) (p0 p : list particle_data) :
  for_range n 0
    (fun i p => r ← rd b i;
                pi ← rd p (Bh.ReverseLink r);
                wr p (Bh.ReverseLink r) (set_PI pi i)) p0 = Ok p ->
  types_kept p0 p.
Proof.
  intros Hrun.
  apply (for_range_Ok (fun _ p => types_kept p0 p) _ _ _ _ _ Hrun).
  - intros i x Hx. now exists x.
  - intros k s0 s1 _ Hk Hstep. unfold mbind, outcome_bind in Hstep.
    bind_inv Hstep. rename a into r. bind_inv Hstep. rename a into pi.
    intros i x Hx. rewrite (rd_wr _ _ _ i _ Hstep) in Hx.
    destruct (Z.eqb_spec i (Bh.ReverseLink r)) as [-> | Hne].
    + injection Hx as <-. exact (Hk _ _ E0).
    + exact (Hk i x Hx).
Qed.

Lemma count_species_run (p : list particle_data) (m k nsph ndm nstar nbh : Z) :
  0 <= k <= m -> packed p m k ->
  for_range (Z.to_nat m) 0 (count_species p) (0, 0, 0, 0) = Ok (nsph, ndm, nstar, nbh) ->
  nsph = k /\ nbh = tally_bh p m.
Proof.
  intros Hk Hp Hrun.
  pose proof (for_range_Ok
                (fun i (c : Z * Z * Z * Z) =>
                   0 <= i <= m ->
                   let '(a, _, _, d) := c in a = Z.min i k /\ d = tally_bh p i)
                _ _ _ _ _ Hrun) as H.
  cbn beta iota in H. replace (0 + Z.of_nat (Z.to_nat m)) with m in H by lia.
  rewrite (Z.min_r m k) in H by lia. apply H; clear H; [| | lia].
  - intros _. split; [lia | reflexivity].
  - intros i [[[a b] c] d] [[[a' b'] c'] d'] Hi H0 Hstep _.
    destruct (H0 ltac:(lia)) as [-> ->].
    unfold count_species in Hstep. unfold mbind, outcome_bind in Hstep.
    bind_inv Hstep. rename a into x. injection Hstep as <- _ _ <-.
    rewrite tally_bh_next by lia. unfold is_bh. rewrite E.
    pose proof (Hp i x ltac:(lia) E) as Hgas.
    split; [destruct (Z.eqb_spec (PType x) 0); lia |].
    destruct (PType x =? 5); lia.
Qed.

Section Packing.

Variable All : config.
Variable qsort : forall A : Type, (A -> A -> Z) -> list A -> list A.

Lemma bh_garbage_collection_spec (total0 : Z) (t t' : task) :
  0 <= NumPart t ->
  domain_bh_garbage_collection All qsort total0 t = Ok t' ->
  NumPart t' = NumPart t /\ types_kept (P t) (P t') /\
  (total0 = 0 -> t' = t) /\
  (total0 <> 0 -> linked t /\ linked t' /\ N_bh t' = tally_bh (P t') (NumPart t')).
Proof.
  intros Hm Hrun. unfold domain_bh_garbage_collection in Hrun.
  destruct (Z.eqb_spec total0 0) as [Hz | Hnz].
  { injection Hrun as <-. split; [reflexivity |]. split; [intros i x Hx; now exists x |].
    split; [reflexivity | contradiction]. }
  unfold mbind, outcome_bind in Hrun. cbv zeta in Hrun.
  bind_inv Hrun. rename a into b0, E into Hreset.
  bind_inv Hrun. rename a into b1, E into Hlink.
  bind_inv Hrun. rename a into nbh, E into Htrim.
  bind_inv Hrun. rename a into p, E into Hrelink.
  bind_inv Hrun. rename a into b, E into Hreset2.
  bind_inv Hrun. rename a into j, E into Hcheck.
  destruct (Z.eqb_spec j nbh) as [-> | ]; [| discriminate]. cbn [negb] in Hrun.
  injection Hrun as <-. cbn [NumPart P BhP N_bh with_bh].
  apply reset_links_ids in Hreset. apply relink_types in Hrelink.
  apply (link_loop_links _ _ _ _ _ Hm) in Hlink as [_ Hpre].
  apply (check_loop_links _ _ _ _ _ Hm) in Hcheck as [Hcount Hpost].
  split; [reflexivity |]. split; [exact Hrelink |]. split; [contradiction |].
  intros _. split; [exact (links_ids _ _ _ _ _ Hreset Hpre) |]. split; [exact Hpost | exact Hcount].
Qed.

Lemma garbage_collection_local_spec (total0 : Z) (t t' : task) :
  gas_first t -> bh_counted t -> (total0 = 0 -> N_bh t = 0) ->
  garbage_collection_local All qsort total0 t = Ok t' ->
  linked t /\ packed (P t') (NumPart t') (N_sph t') /\ linked t'.
Proof.
  intros (k & Hk & Hp) [_ Hbh] Hnone Hrun. unfold garbage_collection_local in Hrun.
  unfold mbind, outcome_bind in Hrun. bind_inv Hrun. rename a into t1.
  bind_inv Hrun. destruct a as [[[nsph ndm] nstar] nbh]. injection Hrun as <-.
  cbn [NumPart P BhP N_bh N_sph with_counts]. unfold linked.
  cbn [NumPart P BhP N_bh N_sph with_counts].
  destruct (bh_garbage_collection_spec total0 t t1 ltac:(lia) E) as (Hm & Hty & Hsame & Hchk).
  rewrite Hm in *.
  pose proof (types_kept_packed _ _ _ _ Hty Hp) as Hp1.
  destruct (count_species_run _ _ _ _ _ _ _ Hk Hp1 E0) as [-> ->].
  split; [| split; [exact Hp1 |]].
  - destruct (Z.eq_dec total0 0) as [Hz | Hnz].
    + intros i x Hi Hx Hbhx. pose proof (Hbh i x Hi Hx Hbhx). specialize (Hnone Hz). lia.
    + exact (proj1 (Hchk Hnz)).
  - destruct (Z.eq_dec total0 0) as [Hz | Hnz].
    + rewrite (Hsame Hz).
      intros i x Hi Hx Hbhx. pose proof (Hbh i x Hi Hx Hbhx). specialize (Hnone Hz). lia.
    + destruct (Hchk Hnz) as (_ & Hpost & Hcount). unfold linked in Hpost.
      rewrite Hm in Hpost. rewrite <- Hcount. exact Hpost.
Qed.

Lemma no_black_holes (G : list task) :
  Forall bh_counted G -> zsum (map N_bh G) = 0 -> Forall (fun t => N_bh t = 0) G.
Proof.
  intros H. assert (Hboth : 0 <= zsum (map N_bh G) /\
                            (zsum (map N_bh G) = 0 -> Forall (fun t => N_bh t = 0) G)).
  { induction H as [| t G [Ht _] _ [IH0 IH]]; [split; [cbn; lia | constructor] |].
    unfold zsum in *. cbn [map foldr]. split; [lia |].
    intros Hsum. constructor; [lia | apply IH; lia]. }
  exact (proj2 Hboth).
Qed.

End Packing.

(** A process with two gas particles, a black hole and a dark-matter
    particle; its first black-hole record is free, and its [N_sph] is
    stale. *)
Definition keeper : task :=
  mkTask [pt 1 0 0 false; pt 2 0 0 false;
          set_PI (pt 3 5 0 false) 1; pt 4 1 0 false]
         [mkSph 1 0; mkSph 2 0; mkSph 0 0; mkSph 0 0]
         [Bh.mk (-1) 9 0; Bh.mk (-1) 3 1] 4 0 2 0 0 [] [] [] [] [] [].

Definition keeper_collected : list task :=
  Eval vm_compute in
    match domain_garbage_collection roomy Decompose.insertion_sort [keeper] with
    | Ok G => G
    | _ => []
    end.

Lemma keeper_gas_first : Forall gas_first [keeper].
Proof.
  constructor; [| constructor]. exists 2. split; [cbn; lia |].
  intros i x Hi Hx. cbn [NumPart keeper] in Hi.
  assert (Hc : i = 0 \/ i = 1 \/ i = 2 \/ i = 3) by lia.
  destruct Hc as [-> | [-> | [-> | ->]]]; vm_compute in Hx; injection Hx as <-;
    cbn [PType]; lia.
Qed.

Lemma keeper_bh_counted : Forall bh_counted [keeper].
Proof. constructor; [| constructor]. split; [cbn; lia | intros; cbn; lia]. Qed.

Lemma keeper_run :
  domain_garbage_collection roomy Decompose.insertion_sort [keeper] = Ok keeper_collected.
Proof. vm_compute. reflexivity. Qed.



(** The same process with a black-hole record that carries another ID: the
    first pass over the particles ends the run. *)
Definition broken_keeper : task :=
  mkTask (P keeper) (SphP keeper) [Bh.mk (-1) 9 0; Bh.mk (-1) 7 1] 4 0 2 0 0
         [] [] [] [] [] [].

Example broken_link_ends_run :
  domain_garbage_collection roomy Decompose.insertion_sort [broken_keeper] = Endrun 1.
Proof. vm_compute. reflexivity. Qed.

Example keeper_after :
  map (fun t => (N_sph t, N_bh t, map PI (P t), map Bh.ID (BhP t))) keeper_collected
  = [(2, 1, [0; 0; 0; 0], [3; 9])].
Proof. vm_compute. reflexivity. Qed.

(** *** A plan that overflows a destination *)

(** Two processes with room for 4 gas particles each ([All.MaxPartSph = 4]).
    Process 0 holds two gas particles, both bound for process 1.  Process 1
    holds four, three of them bound for process 0, but has scratch memory to
    export one only.  When the exchange is complete each process holds three
    gas particles; the first, partial exchange would leave process 1 with
    five. *)
Definition tight : config := mkConfig 6 4 1 1 1 1.

Definition gas_particle (target : Z) (leaving : bool) : particle_data :=
  mkP (0, 0, 0)%Q (0, 0, 0)%Q 1%Q 7 0 0 0 0 leaving false target 0%Q 0%Q.

Definition house (p : list particle_data) (n : Z) : task :=
  mkTask (p ++ repeat (gas_particle 0 false) (6 - length p))
         (repeat (mkSph 0 0) 4) [] n n 0 0 0
         [0; 0] [0; 0] [0; 0] [0; 0] [0; 0] [0; 0].

Definition full_house : list task :=
  [house [gas_particle 1 true; gas_particle 1 true] 2;
   house [gas_particle 0 true; gas_particle 0 true; gas_particle 0 true;
          gas_particle 1 false] 4].

Definition full_house_limits : list Z := [100; 5].

(** The plans after the local count and the first [MPI_Alltoall]. *)
Definition planned_house : list task :=
  Eval vm_compute in
    match count_tasks tight Key 2 0 full_house_limits full_house with
    | Ok (G, _) => exchange_plans G
    | _ => []
    end.

(** The state after the first pass, and after the second: process 0 has
    taken both its gas particles off the plan, one per pass, and process 1
    still holds its first [toGetSph]. *)
Definition eased_house : list task :=
  Eval vm_compute in
    match for_range 2 0 (repair_destination tight 2 2 0) (planned_house, 0) with
    | Ok (G, _) => G
    | _ => []
    end.

Definition stuck_house : list task :=
  Eval vm_compute in
    match for_range 2 0 (repair_destination tight 2 2 1) (eased_house, 0) with
    | Ok (G, _) => G
    | _ => []
    end.

Example stuck_house_plans :
  map toGoSph stuck_house = [[0; 0]; [1; 0]] /\
  map toGetSph stuck_house = [[0; 1]; [2; 0]] /\
  map N_sph stuck_house = [2; 4].
Proof. repeat split. Qed.

Lemma count_full_house :
  count_tasks tight Key 2 0 full_house_limits full_house
  = Ok (map (fun t => with_toGet t [0; 0] [0; 0] [0; 0]) planned_house, 1).
Proof. vm_compute. reflexivity. Qed.

Lemma planned_full_house :
  exchange_plans (map (fun t => with_toGet t [0; 0] [0; 0] [0; 0]) planned_house)
  = planned_house.
Proof. vm_compute. reflexivity. Qed.

Lemma first_pass (fuel : nat) :
  for_range 2 0 (repair_destination tight (S (S fuel)) 2 0) (planned_house, 0)
  = Ok (eased_house, 1).
Proof. vm_compute. reflexivity. Qed.

Lemma second_pass (fuel : nat) :
  for_range 2 0 (repair_destination tight (S (S (S fuel))) 2 1) (eased_house, 0)
  = Ok (stuck_house, 1).
Proof. vm_compute. reflexivity. Qed.

Lemma drain_stuck (fuel : nat) :
  forall i taken, i = 0 \/ i = 1 ->
    drain fuel Gas 2 1 i 1 taken stuck_house = Hang.
Proof.
  induction fuel as [| fuel IH]; intros i taken Hi; [reflexivity |].
  destruct Hi as [-> | ->]; cbn [drain]; cbn -[drain]; apply IH; auto.
Qed.

Lemma third_pass (fuel : nat) :
  for_range 2 0 (repair_destination tight fuel 2 2) (stuck_house, 0) = Hang.
Proof.
  cbn [for_range]. unfold mbind, outcome_bind.
  assert (H0 : repair_destination tight fuel 2 2 0 (stuck_house, 0) = Ok (stuck_house, 0))
    by (vm_compute; reflexivity).
  rewrite H0. cbn [obind].
  unfold repair_destination, mbind, outcome_bind.
  destruct (rd stuck_house (0 + 1)) as [t | | |] eqn:E; try discriminate E.
  vm_compute in E. injection E as <-.
  cbn -[drain stuck_house]. rewrite drain_stuck by auto. reflexivity.
Qed.

(** C7. On the plan [full_house] the repair takes one gas particle off the
    plan of process 0 in its first pass.  Every later pass reads the
    [toGetSph] of process 1 as the first [MPI_Alltoall] left it, finds the
    same excess of one, and takes one more unit off; in the third pass no
    process has a unit left for destination 1 and the inner loop turns for
    ever: whatever the fuel, [domain_countToGo] does not return, neither
    with a plan that fits nor through [endrun(1013)]. *)
Theorem repair_never_returns (fuel : nat) :
  domain_countToGo tight Key fuel full_house_limits full_house = Hang.
Proof.
  unfold domain_countToGo, mbind, outcome_bind.
  change (zlen full_house) with 2.
  rewrite count_full_house. cbn [obind]. rewrite planned_full_house.
  change (negb (1 =? 0)) with true. cbv iota.
  destruct fuel as [| [| [| fuel]]]; [reflexivity | reflexivity | reflexivity |].
  cbn [repair repair_passes]. unfold mbind, outcome_bind.
  change (Z.to_nat 2) with 2%nat.
  rewrite (first_pass (S fuel)). cbn [obind].
  change (0 + 1 >? 100) with false. change (1 =? 0) with false. cbv iota.
  rewrite second_pass. cbn [obind].
  change (0 + 1 + 1 >? 100) with false. change (1 =? 0) with false. cbv iota.
  rewrite third_pass. reflexivity.
Qed.

End Exchange.

(** ** The gravitational oct-tree: [force_treebuild] and
       [force_update_node_recursive] *)

Module ForceTree.

(** [(int) x] for a double [x]: the fraction is cut off. *)
Definition Qtrunc (x : Q) : Z := Z.quot (Qnum x) (Z.pos (Qden x)).

Definition vadd (a b : vec3) : vec3 :=
  let '(a0, a1, a2) := a in let '(b0, b1, b2) := b in (a0 + b0, a1 + b1, a2 + b2)%Q.

Definition vscale (m : Q) (a : vec3) : vec3 :=
  let '(a0, a1, a2) := a in (m * a0, m * a1, m * a2)%Q.

Definition vdiv (a : vec3) (m : Q) : vec3 :=
  let '(a0, a1, a2) := a in (a0 / m, a1 / m, a2 / m)%Q.

Definition Qmaxb (a b : Q) : Q := if Split.Qltb a b then b else a.

(** The member [u.d] of a node: the moments and the links of the tree
    walk. *)
Module d.
Record t : Type := mk {
  s : vec3;
  mass : Q;
  bitflags : Z;
  sibling : Z;
  nextnode : Z;
  father : Z
}.
End d.

(** The union [u] of a node: the eight daughter slots while the tree is
    built, the moments afterwards. *)
Inductive node_u : Type :=
| Suns (suns : list Z)
| Moments (m : d.t).

Record NODE : Type := mkNode {
  len : Q;
  center : vec3;
  u : node_u;
  Ti_current : Z
}.

Record extNODE : Type := mkExt {
  hmax : Q;
  vmax : Q;
  divVmax : Q;
  vs : vec3;
  dp : vec3;
  Ti_lastkicked : Z;
  Flag : Z
}.

(** [struct topnode_data], the fields read here. *)
Record topnode_data : Type := mkTopnode {
  Size : Z;
  StartKey : Z;
  Daughter : Z;
  Leaf : Z
}.

(** What the tree is built from on one process: the globals of [allvars.h]
    and [domain.h] that the build reads and does not change. *)
Record domain : Type := mkDomain {
  MaxPart : Z;
  MaxTopNodes : Z;
  NTopnodes : Z;
  NTopleaves : Z;
  TopNodes : list topnode_data;
  DomainTask : list Z;
  ThisTask : Z;
  DomainLen : Q;
  DomainCenter : vec3;
  DomainCorner : vec3;
  DomainFac : Q;
  NoTreeType : Z;
  ForceSoftening : list Q;
  All_Ti_Current : Z;
  GlobFlag : Z;
  NumPart : Z;
  P : list particle_data;
  SphP : list Exchange.sph_particle_data
}.

(** The tree storage of one process.  Node number [no] is entry
    [no - MaxPart] of [Nodes] and of [Extnodes], as the shifted pointers of
    the source have it. *)
Record tree : Type := mkTree {
  Nodes : list NODE;
  Extnodes : list extNODE;
  Nextnode : list Z;
  Father : list Z;
  DomainNodeIndex : list Z;
  MaxNodes : Z;
  last : Z
}.

Definition with_Nodes (t : tree) (n : list NODE) : tree :=
  mkTree n (Extnodes t) (Nextnode t) (Father t) (DomainNodeIndex t) (MaxNodes t) (last t).

Definition with_Extnodes (t : tree) (e : list extNODE) : tree :=
  mkTree (Nodes t) e (Nextnode t) (Father t) (DomainNodeIndex t) (MaxNodes t) (last t).

Definition with_Nextnode (t : tree) (n : list Z) : tree :=
  mkTree (Nodes t) (Extnodes t) n (Father t) (DomainNodeIndex t) (MaxNodes t) (last t).

Definition with_Father (t : tree) (f : list Z) : tree :=
  mkTree (Nodes t) (Extnodes t) (Nextnode t) f (DomainNodeIndex t) (MaxNodes t) (last t).

Definition with_DomainNodeIndex (t : tree) (l : list Z) : tree :=
  mkTree (Nodes t) (Extnodes t) (Nextnode t) (Father t) l (MaxNodes t) (last t).

Definition with_last (t : tree) (l : Z) : tree :=
  mkTree (Nodes t) (Extnodes t) (Nextnode t) (Father t) (DomainNodeIndex t) (MaxNodes t) l.

Definition with_u (n : NODE) (v : node_u) : NODE :=
  mkNode (len n) (center n) v (Ti_current n).

Definition no_suns : list Z := repeat (-1) 8.

Definition blank_node : NODE := mkNode 0%Q (0, 0, 0)%Q (Suns no_suns) 0.

Definition blank_ext : extNODE := mkExt 0%Q 0%Q 0%Q (0, 0, 0)%Q (0, 0, 0)%Q 0 0.

(** One process of the build: its domain, [All.TreeAllocFactor], its tree
    storage, [Numnodestree], and the arguments with which it calls
    [force_treebuild]. *)
Record proc : Type := mkProc {
  dom : domain;
  TreeAllocFactor : Q;
  Tree : tree;
  Numnodestree : Z;
  npart : Z;
  mp : option (list Z)
}.

(** MPI_Allreduce(..., MPI_MIN, ...) *)
Definition MPI_MIN (l : list Z) : Z :=
  match l with
  | [] => 0
  | x :: l' => foldr Z.min x l'
  end.

Fixpoint for_each {A St : Type} (l : list A) (body : A -> St -> outcome St) (s : St)
  : outcome St :=
  match l with
  | [] => Ok s
  | x :: l' => s ← body x s; for_each l' body s
  end.

Lemma for_each_Ok {A St : Type} (I : St -> Prop) (l : list A)
  (body : A -> St -> outcome St) (s s' : St) :
  for_each l body s = Ok s' ->
  I s ->
  (forall x s0 s1, In x l -> I s0 -> body x s0 = Ok s1 -> I s1) ->
  I s'.
Proof.
  revert s. induction l as [| x l IH]; intros s Hrun Hs Hstep.
  - injection Hrun as <-. exact Hs.
  - cbn [for_each] in Hrun. unfold mbind, outcome_bind in Hrun. bind_inv Hrun.
    apply (IH a Hrun).
    + apply (Hstep x s a); [now left | exact Hs | exact E].
    + intros y s0 s1 Hy. apply Hstep. now right.
Qed.

(** The codes with which a routine can end the run. *)
Definition only {A : Type} (S : Z -> Prop) (m : outcome A) : Prop :=
  forall c, m = Endrun c -> S c.

Lemma only_bind {A B : Type} (S : Z -> Prop) (m : outcome A) (f : A -> outcome B) :
  only S m -> (forall a, m = Ok a -> only S (f a)) -> only S (obind m f).
Proof.
  intros Hm Hf c H. destruct m as [a | c' | |]; cbn in H; try discriminate.
  - exact (Hf a eq_refl c H).
  - apply Hm. injection H as ->. reflexivity.
Qed.

Lemma only_Ok {A : Type} (S : Z -> Prop) (a : A) : only S (Ok a).
Proof. intros c H. discriminate. Qed.

Lemma only_Fault {A : Type} (S : Z -> Prop) : only S (@Fault A).
Proof. intros c H. discriminate. Qed.

Lemma only_Hang {A : Type} (S : Z -> Prop) : only S (@Hang A).
Proof. intros c H. discriminate. Qed.

Lemma only_Endrun {A : Type} (S : Z -> Prop) (c : Z) : S c -> only S (@Endrun A c).
Proof. intros Hc c' H. injection H as <-. exact Hc. Qed.

Lemma only_rd {A : Type} (S : Z -> Prop) (l : list A) (i : Z) : only S (rd l i).
Proof.
  intros c H. unfold rd in H. destruct (i <? 0); [discriminate |].
  destruct (l !! Z.to_nat i); discriminate.
Qed.

Lemma only_wr {A : Type} (S : Z -> Prop) (l : list A) (i : Z) (x : A) : only S (wr l i x).
Proof. intros c H. unfold wr in H. destruct ((0 <=? i) && (i <? Z.of_nat (length l))); discriminate. Qed.

Lemma only_for_range {St : Type} (S : Z -> Prop) (n : nat) (i : Z)
  (body : Z -> St -> outcome St) (s : St) :
  (forall k s0, only S (body k s0)) -> only S (for_range n i body s).
Proof.
  intros Hb. revert i s. induction n as [| n IH]; intros i s; [apply only_Ok |].
  cbn [for_range]. apply only_bind; [apply Hb | intros a _; apply IH].
Qed.

Lemma only_for_each {A St : Type} (S : Z -> Prop) (l : list A)
  (body : A -> St -> outcome St) (s : St) :
  (forall x s0, only S (body x s0)) -> only S (for_each l body s).
Proof.
  intros Hb. revert s. induction l as [| x l IH]; intros s; [apply only_Ok |].
  cbn [for_each]. apply only_bind; [apply Hb | intros a _; apply IH].
Qed.

(** Take a routine apart to see that it ends the run with the codes of [S]
    only. *)
Ltac only_step :=
  first
    [ apply only_Ok | apply only_Fault | apply only_Hang | apply only_rd | apply only_wr
    | assumption
    | apply only_bind; [| intros ? _]
    | match goal with
      | |- only _ (if ?c then _ else _) => destruct c eqn:?
      | |- only _ (match ?x with _ => _ end) => destruct x
      end ].

Ltac only_run := unfold mbind, outcome_bind; repeat only_step.

Section Params.

(** [peano.c], [forcetree.h] and [allvars.h] are not among the sources.  The
    two key functions, the table of random numbers, the bit positions and
    the two macros of [forcetree.h] that work on [bitflags] are parameters
    of the development; so is the layout of the union [u], that is, what the
    eight daughter slots read as when taken for moments and the other way
    round. *)
Variable peano_and_morton_key : Z -> Z -> Z -> Z -> Z * Z.
Variable peano_hilbert_key : Z -> Z -> Z -> Z -> Z.
Variable get_random_number : Z -> Q.
Variable BITS_PER_DIMENSION : Z.
Variable RNDTABLE : Z.
Variable BITFLAG_MULTIPLEPARTICLES : Z.
Variable BITFLAG_MIXED_SOFTENINGS_IN_NODE : Z.
Variable BITFLAG_MAX_SOFTENING_TYPE : Z.
Variable extract_max_softening_type : Z -> Z.
Variable maskout_different_softening_flag : Z -> Z.
Variable as_moments : list Z -> d.t.
Variable as_suns : d.t -> list Z.

Section Build.

Variable E : domain.

Definition node_at (t : tree) (no : Z) : outcome NODE := rd (Nodes t) (no - MaxPart E).

Definition set_node (t : tree) (no : Z) (n : NODE) : outcome tree :=
  l ← wr (Nodes t) (no - MaxPart E) n; Ok (with_Nodes t l).

Definition ext_at (t : tree) (no : Z) : outcome extNODE := rd (Extnodes t) (no - MaxPart E).

Definition set_ext (t : tree) (no : Z) (e : extNODE) : outcome tree :=
  l ← wr (Extnodes t) (no - MaxPart E) e; Ok (with_Extnodes t l).

Definition suns_of (v : node_u) : list Z :=
  match v with Suns l => l | Moments m => as_suns m end.

Definition moments_of (v : node_u) : d.t :=
  match v with Suns l => as_moments l | Moments m => m end.

(** Nodes[no].u.suns[j] = v *)
Definition set_sun (t : tree) (no j v : Z) : outcome tree :=
  n ← node_at t no;
  l ← wr (suns_of (u n)) j v;
  set_node t no (with_u n (Suns l)).

(** [force_treeallocate]; [last] is a static variable of the file and keeps
    its value.  Fresh memory is taken to hold blank records. *)
Definition force_treeallocate (maxnodes maxpart : Z) (last0 : Z) : tree :=
  mkTree (repeat blank_node (Z.to_nat (maxnodes + 1)))
         (repeat blank_ext (Z.to_nat (maxnodes + 1)))
         (repeat 0 (Z.to_nat (maxpart + NTopnodes E)))
         (repeat 0 (Z.to_nat maxpart))
         (repeat 0 (Z.to_nat (NTopleaves E)))
         maxnodes last0.

(** The centre of the daughter cube of [n] on the side given by the three
    signs. *)
Definition daughter_center (n : NODE) (sx sy sz : Q) : vec3 :=
  let lenhalf := ((1 # 4) * len n)%Q in
  let '(c0, c1, c2) := center n in
  (c0 + sx * lenhalf, c1 + sy * lenhalf, c2 + sz * lenhalf)%Q.

(** for(i = 0; i < 2; i++) for(j = 0; j < 2; j++) for(k = 0; k < 2; k++) *)
Definition octants : list (Z * Z * Z) :=
  [(0, 0, 0); (0, 0, 1); (0, 1, 0); (0, 1, 1); (1, 0, 0); (1, 0, 1); (1, 1, 0); (1, 1, 1)].

(** [force_create_empty_nodes]; the state is the tree, [*nodecount] and
    [*nextfree]. *)
Fixpoint force_create_empty_nodes (fuel : nat) (no topnode bits x y z : Z)
  (s : tree * Z * Z) : outcome (tree * Z * Z) :=
  match fuel with
  | O => Hang
  | S fuel' =>
      top ← rd (TopNodes E) topnode;
      if Daughter top >=? 0 then
        for_each octants
          (fun '(i, j, k) '(t, nodecount, nextfree) =>
             let sub := Z.land 7 (peano_hilbert_key (2 * x + i) (2 * y + j) (2 * z + k) bits) in
             let count := i + 2 * j + 4 * k in
             t ← set_sun t no count nextfree;
             n ← node_at t no;
             fresh ← node_at t nextfree;
             t ← set_node t nextfree
                   (mkNode ((1 # 2) * len n)
                           (daughter_center n (inject_Z (2 * i - 1)) (inject_Z (2 * j - 1))
                                            (inject_Z (2 * k - 1)))
                           (Suns no_suns) (Ti_current fresh));
             dtop ← rd (TopNodes E) (Daughter top + sub);
             t ← (if Daughter dtop =? -1
                  then l ← wr (DomainNodeIndex t) (Leaf dtop) nextfree;
                       Ok (with_DomainNodeIndex t l)
                  else Ok t);
             let nextfree := nextfree + 1 in
             let nodecount := nodecount + 1 in
             if (nodecount >=? MaxNodes t) || (nodecount >=? MaxTopNodes E) then Endrun 11
             else force_create_empty_nodes fuel' (nextfree - 1) (Daughter top + sub)
                    (bits + 1) (2 * x + i) (2 * y + j) (2 * z + k) (t, nodecount, nextfree))
          s
      else Ok s
  end.

(** The locals of [force_treebuild_single] that live across the particles. *)
Record build : Type := mkBuild {
  b_tree : tree;
  morton_list : list Z;
  numnodes : Z;
  nfree : Z;
  parent : Z;
  subnode : Z
}.

(** How a turn of [while(1)] ends: with another turn, with the particle in
    its place ([break]), or with [return -1]. *)
Inductive flow : Type :=
| Again (b : build) (th shift rep : Z)
| Placed (b : build)
| Sentinel (b : build).

(** subnode = 0; if(Pos[0] > center[0]) subnode += 1; ... *)
Definition octant_of (pos c : vec3) : Z :=
  let '(p0, p1, p2) := pos in
  let '(c0, c1, c2) := c in
  (if Split.Qltb c0 p0 then 1 else 0) + (if Split.Qltb c1 p1 then 2 else 0)
  + (if Split.Qltb c2 p2 then 4 else 0).

(** The randomised subnode of particles that lie closer than the softening
    resolves ([NOTREERND] is not defined). *)
Definition randomize (l : Q) (pa : particle_data) (sub rep : Z) : outcome (Z * Z) :=
  soft ← rd (ForceSoftening E) (PType pa);
  if Split.Qltb l ((1 # 1000) * soft)%Q then
    let r := Qtrunc (8 * get_random_number (wrap64 (ID pa + rep) mod (RNDTABLE + Z.land rep 3)))%Q in
    Ok (if r >=? 8 then 7 else r, rep + 1)
  else Ok (sub, rep).

Definition insert_turn (TreeAllocFactor : Q) (i : Z) (pa : particle_data) (morton : Z)
  (b : build) (th shift rep : Z) : outcome flow :=
  let t := b_tree b in
  if th >=? MaxPart E then
    nth ← node_at t th;
    let sub := if shift >=? 0 then Z.land (Z.shiftr morton shift) 7
               else octant_of (Pos pa) (center nth) in
    '(sub, rep) ← randomize (len nth) pa sub rep;
    nn ← rd (suns_of (u nth)) sub;
    let shift := shift - 3 in
    if nn >=? 0 then
      Ok (Again (mkBuild t (morton_list b) (numnodes b) (nfree b) th sub) nn shift rep)
    else
      t ← set_sun t th sub i;
      Ok (Placed (mkBuild t (morton_list b) (numnodes b) (nfree b) (parent b) sub))
  else
    t ← set_sun t (parent b) (subnode b) (nfree b);
    np ← node_at t (parent b);
    fresh ← node_at t (nfree b);
    let c := daughter_center np (if Z.land (subnode b) 1 =? 0 then -1 else 1)%Q
                                (if Z.land (subnode b) 2 =? 0 then -1 else 1)%Q
                                (if Z.land (subnode b) 4 =? 0 then -1 else 1)%Q in
    let l := ((1 # 2) * len np)%Q in
    pth ← rd (P E) th;
    sub ← (if shift >=? 0
           then th_key ← rd (morton_list b) th; Ok (Z.land (Z.shiftr th_key shift) 7)
           else Ok (octant_of (Pos pth) c));
    '(sub, rep) ← randomize l pth sub rep;
    s ← wr no_suns sub th;
    t ← set_node t (nfree b) (mkNode l c (Suns s) (Ti_current fresh));
    let numnodes' := numnodes b + 1 in
    let b' := mkBuild t (morton_list b) numnodes' (nfree b + 1) (parent b) sub in
    if numnodes' >=? MaxNodes t then
      if Split.Qltb 5 TreeAllocFactor then Endrun 1 else Ok (Sentinel b')
    else Ok (Again b' (nfree b) shift rep).

(** while(TopNodes[no].Daughter >= 0): down the top-level tree to the leaf
    of [key]. *)
Fixpoint top_walk (fuel : nat) (key no shift : Z) : outcome (Z * Z) :=
  match fuel with
  | O => Hang
  | S fuel' =>
      top ← rd (TopNodes E) no;
      if Daughter top >=? 0 then
        top_walk fuel' key
                 (Daughter top + Z.quot (key - StartKey top) (Z.quot (Size top) 8))
                 (shift - 3)
      else Ok (no, shift)
  end.

(** while(1) *)
Fixpoint insert_loop (fuel : nat) (TreeAllocFactor : Q) (i : Z) (pa : particle_data)
  (morton : Z) (b : build) (th shift rep : Z) : outcome (bool * build) :=
  match fuel with
  | O => Hang
  | S fuel' =>
      f ← insert_turn TreeAllocFactor i pa morton b th shift rep;
      match f with
      | Again b th shift rep => insert_loop fuel' TreeAllocFactor i pa morton b th shift rep
      | Placed b => Ok (false, b)
      | Sentinel b => Ok (true, b)
      end
  end.

(** One turn of [for(k = 0; k < npart; k++)]; the flag of the result tells
    whether the routine is to return -1. *)
Definition insert_particle (fuel : nat) (TreeAllocFactor : Q) (mp : option (list Z))
  (k : Z) (b : build) : outcome (bool * build) :=
  i ← (match mp with Some l => rd l k | None => Ok k end);
  pa ← rd (P E) i;
  if PType pa =? NoTreeType E then Ok (false, b)
  else
    let '(p0, p1, p2) := Pos pa in
    let '(c0, c1, c2) := DomainCorner E in
    let '(key, morton) :=
      peano_and_morton_key (Qtrunc ((p0 - c0) * DomainFac E)) (Qtrunc ((p1 - c1) * DomainFac E))
                           (Qtrunc ((p2 - c2) * DomainFac E)) BITS_PER_DIMENSION in
    ml ← wr (morton_list b) i morton;
    let b := mkBuild (b_tree b) ml (numnodes b) (nfree b) (parent b) (subnode b) in
    '(no, shift) ← top_walk fuel key 0 (3 * (BITS_PER_DIMENSION - 1));
    top ← rd (TopNodes E) no;
    th ← rd (DomainNodeIndex (b_tree b)) (Leaf top);
    insert_loop fuel TreeAllocFactor i pa morton b th shift 0.

Fixpoint insert_all (fuel : nat) (TreeAllocFactor : Q) (mp : option (list Z))
  (n : nat) (k : Z) (b : build) : outcome (bool * build) :=
  match n with
  | O => Ok (false, b)
  | S n' =>
      '(full, b) ← insert_particle fuel TreeAllocFactor mp k b;
      if full : bool then Ok (true, b)
      else insert_all fuel TreeAllocFactor mp n' (k + 1) b
  end.

(** [force_insert_pseudo_particles] *)
Definition force_insert_pseudo_particles (t : tree) : outcome tree :=
  for_range (Z.to_nat (NTopleaves E)) 0
    (fun i t =>
       index ← rd (DomainNodeIndex t) i;
       task ← rd (DomainTask E) i;
       if negb (task =? ThisTask E)
       then set_sun t index 0 (MaxPart E + MaxNodes t + i)
       else Ok t) t.

(** The link from the node visited last to [no], and [last = no]. *)
Definition set_nextnode (m : d.t) (no : Z) : d.t :=
  d.mk (d.s m) (d.mass m) (d.bitflags m) (d.sibling m) no (d.father m).

Definition link_last (no : Z) (t : tree) : outcome tree :=
  t ← (if last t >=? 0 then
         if last t >=? MaxPart E then
           if last t >=? MaxPart E + MaxNodes t then
             l ← wr (Nextnode t) (last t - MaxNodes t) no; Ok (with_Nextnode t l)
           else
             n ← node_at t (last t);
             set_node t (last t) (with_u n (Moments (set_nextnode (moments_of (u n)) no)))
         else l ← wr (Nextnode t) (last t) no; Ok (with_Nextnode t l)
       else Ok t);
  Ok (with_last t no).

(** The locals of one call of [force_update_node_recursive]. *)
Record sums : Type := mkSums {
  a_mass : Q;
  a_s : vec3;
  a_vs : vec3;
  a_hmax : Q;
  a_vmax : Q;
  a_divVmax : Q;
  count_particles : Z;
  maxsofttype : Z;
  diffsoftflag : Z
}.

Definition no_sums : sums := mkSums 0 (0, 0, 0)%Q (0, 0, 0)%Q 0 0 0 0 7 0.

Definition mixed : Z := Z.shiftl 1 BITFLAG_MIXED_SOFTENINGS_IN_NODE.

(** The softening type [cur] against the largest one met so far
    ([ADAPTIVE_GRAVSOFT_FORGAS] is not defined). *)
Definition softening (cur most diff : Z) : outcome (Z * Z) :=
  fc ← rd (ForceSoftening E) cur;
  fm ← rd (ForceSoftening E) most;
  if Split.Qltb fm fc then Ok (cur, mixed)
  else if Split.Qltb fc fm then Ok (most, mixed)
  else Ok (most, diff).

(** What daughter [p], an internal node, adds to the sums. *)
Definition add_node (p : Z) (t : tree) (a : sums) : outcome sums :=
  n ← node_at t p;
  e ← ext_at t p;
  let m := moments_of (u n) in
  let count :=
    if Split.Qltb 0 (d.mass m)
    then if negb (Z.land (d.bitflags m) (Z.shiftl 1 BITFLAG_MULTIPLEPARTICLES) =? 0)
         then count_particles a + 2 else count_particles a + 1
    else count_particles a in
  let diff := Z.lor (diffsoftflag a) (maskout_different_softening_flag (d.bitflags m)) in
  '(most, diff) ←
    (if maxsofttype a =? 7 then Ok (extract_max_softening_type (d.bitflags m), diff)
     else
       let cur := extract_max_softening_type (d.bitflags m) in
       if negb (cur =? 7) then softening cur (maxsofttype a) diff
       else Ok (maxsofttype a, diff));
  Ok (mkSums (a_mass a + d.mass m)
             (vadd (a_s a) (vscale (d.mass m) (d.s m)))
             (vadd (a_vs a) (vscale (d.mass m) (vs e)))
             (Qmaxb (a_hmax a) (hmax e)) (Qmaxb (a_vmax a) (vmax e))
             (Qmaxb (a_divVmax a) (divVmax e)) count most diff).

(** What daughter [p], a particle, adds to the sums. *)
Definition add_particle (p : Z) (a : sums) : outcome sums :=
  pa ← rd (P E) p;
  '(h, dv) ←
    (if PType pa =? 0
     then sp ← rd (SphP E) p;
          Ok (Qmaxb (a_hmax a) (Hsml pa), Qmaxb (a_divVmax a) (Exchange.DivVel sp))
     else Ok (a_hmax a, a_divVmax a));
  let '(v0, v1, v2) := Vel pa in
  let v := Qmaxb (Qmaxb (Qmaxb (a_vmax a) (Qabs v0)) (Qabs v1)) (Qabs v2) in
  '(most, diff) ←
    (if maxsofttype a =? 7 then Ok (PType pa, diffsoftflag a)
     else softening (PType pa) (maxsofttype a) (diffsoftflag a));
  Ok (mkSums (a_mass a + Mass pa)
             (vadd (a_s a) (vscale (Mass pa) (Pos pa)))
             (vadd (a_vs a) (vscale (Mass pa) (Vel pa)))
             h v dv (count_particles a + 1) most diff).

(** for(j = 0; j < 8; j++) over the saved daughter slots; [rec] is the
    routine itself. *)
Fixpoint visit_suns (rec : Z -> Z -> Z -> tree -> outcome tree) (no sib : Z)
  (suns : list Z) (s : tree * sums) : outcome (tree * sums) :=
  match suns with
  | [] => Ok s
  | p :: rest =>
      if p >=? 0 then
        let nextsib := match List.find (fun pp => pp >=? 0) rest with
                       | Some pp => pp
                       | None => sib
                       end in
        let '(t, a) := s in
        t ← rec p nextsib no t;
        a ← (if p >=? MaxPart E then
               if p >=? MaxPart E + MaxNodes t then Ok a else add_node p t a
             else add_particle p a);
        visit_suns rec no sib rest (t, a)
      else visit_suns rec no sib rest s
  end.

(** The eight saved slots of a node. *)
Definition read_suns (v : node_u) : outcome (list Z) :=
  if Z.of_nat (length (suns_of v)) <? 8 then Fault else Ok (take 8 (suns_of v)).

(** The end of the routine for an internal node: the moments are stored. *)
Definition store_moments (no sib father : Z) (t : tree) (a : sums) : outcome tree :=
  n ← node_at t no;
  let '(s, v) := if negb (Qeq_bool (a_mass a) 0)
                 then (vdiv (a_s a) (a_mass a), vdiv (a_vs a) (a_mass a))
                 else (center n, (0, 0, 0)%Q) in
  let multiple_flag := if count_particles a >? 1
                       then Z.shiftl 1 BITFLAG_MULTIPLEPARTICLES else 0 in
  let bits := Z.lor multiple_flag
                    (diffsoftflag a + Z.shiftl (maxsofttype a) BITFLAG_MAX_SOFTENING_TYPE) in
  t ← set_node t no
        (mkNode (len n) (center n)
                (Moments (d.mk s (a_mass a) bits sib (d.nextnode (moments_of (u n))) father))
                (All_Ti_Current E));
  e ← ext_at t no;
  set_ext t no (mkExt (a_hmax a) (a_vmax a) (a_divVmax a) v (0, 0, 0)%Q
                      (All_Ti_Current E) (GlobFlag E)).

Fixpoint force_update_node_recursive (fuel : nat) (no sib father : Z) (t : tree)
  : outcome tree :=
  match fuel with
  | O => Hang
  | S fuel' =>
      if (no >=? MaxPart E) && (no <? MaxPart E + MaxNodes t) then
        n ← node_at t no;
        suns ← read_suns (u n);
        t ← link_last no t;
        '(t, a) ← visit_suns (force_update_node_recursive fuel') no sib suns (t, no_sums);
        store_moments no sib father t a
      else
        t ← link_last no t;
        if no <? MaxPart E
        then l ← wr (Father t) no father; Ok (with_Father t l)
        else Ok t
  end.

(** The first part of [force_treebuild_single]: the root node, the empty
    nodes of the top-level tree, and the particles.  The flag of the result
    tells whether the routine is to return -1. *)
Definition insert_particles (fuel : nat) (TreeAllocFactor : Q) (npart : Z)
  (mp : option (list Z)) (t : tree) : outcome (bool * build) :=
  root ← node_at t (MaxPart E);
  t ← set_node t (MaxPart E)
        (mkNode (DomainLen E) (DomainCenter E) (Suns no_suns) (Ti_current root));
  '(t, nodes, free) ← force_create_empty_nodes fuel (MaxPart E) 0 1 0 0 0
                         (t, 1, MaxPart E + 1);
  insert_all fuel TreeAllocFactor mp (Z.to_nat npart) 0
             (mkBuild t (repeat 0 (Z.to_nat (NumPart E))) nodes free (-1) 0).

(** [force_treebuild_single]; the second component of the result is the
    tree storage the routine leaves. *)
Definition force_treebuild_single (fuel : nat) (TreeAllocFactor : Q) (npart : Z)
  (mp : option (list Z)) (t : tree) : outcome (Z * tree) :=
  '(full, b) ← insert_particles fuel TreeAllocFactor npart mp t;
  if full : bool then Ok (-1, b_tree b)
  else
    t ← force_insert_pseudo_particles (b_tree b);
    t ← force_update_node_recursive fuel (MaxPart E) (-1) (-1) (with_last t (-1));
    t ← (if last t >=? MaxPart E then
           if last t >=? MaxPart E + MaxNodes t then
             l ← wr (Nextnode t) (last t - MaxNodes t) (-1); Ok (with_Nextnode t l)
           else
             n ← node_at t (last t);
             set_node t (last t) (with_u n (Moments (set_nextnode (moments_of (u n)) (-1))))
         else l ← wr (Nextnode t) (last t) (-1); Ok (with_Nextnode t l));
    Ok (numnodes b, t).

(** *** How the build ends *)

Ltac only_tree :=
  unfold set_sun, set_node, node_at, ext_at, set_ext, link_last, randomize, softening,
    read_suns; only_run.

Lemma only_create_empty_nodes (fuel : nat) (no topnode bits x y z : Z) (s : tree * Z * Z) :
  only (eq 11) (force_create_empty_nodes fuel no topnode bits x y z s).
Proof.
  revert no topnode bits x y z s. induction fuel as [| fuel IH]; intros; [apply only_Hang |].
  cbn [force_create_empty_nodes]. unfold mbind, outcome_bind.
  apply only_bind; [apply only_rd | intros top _].
  destruct (Daughter top >=? 0); [| apply only_Ok].
  apply only_for_each. intros [[i j] k] [[t nodecount] nextfree].
  only_tree; [apply only_Endrun; reflexivity | apply IH].
Qed.

Lemma only_insert_turn (f : Q) (i : Z) (pa : particle_data) (morton : Z) (b : build)
  (th shift rep : Z) :
  only (fun c => c = 1 /\ Split.Qltb 5 f = true)
       (insert_turn f i pa morton b th shift rep).
Proof.
  unfold insert_turn. cbv zeta. only_tree.
  apply only_Endrun. split; reflexivity.
Qed.

Lemma only_top_walk (S : Z -> Prop) (fuel : nat) (key no shift : Z) :
  only S (top_walk fuel key no shift).
Proof.
  revert no shift. induction fuel as [| fuel IH]; intros; [apply only_Hang |].
  cbn [top_walk]. only_tree. apply IH.
Qed.

Lemma only_insert_loop (fuel : nat) (f : Q) (i : Z) (pa : particle_data) (morton : Z)
  (b : build) (th shift rep : Z) :
  only (fun c => c = 1 /\ Split.Qltb 5 f = true)
       (insert_loop fuel f i pa morton b th shift rep).
Proof.
  revert b th shift rep. induction fuel as [| fuel IH]; intros; [apply only_Hang |].
  cbn [insert_loop]. unfold mbind, outcome_bind.
  apply only_bind; [apply only_insert_turn | intros fl _].
  destruct fl; [apply IH | apply only_Ok | apply only_Ok].
Qed.

Lemma only_insert_particle (fuel : nat) (f : Q) (mp : option (list Z)) (k : Z) (b : build) :
  only (fun c => c = 1 /\ Split.Qltb 5 f = true) (insert_particle fuel f mp k b).
Proof.
  unfold insert_particle. unfold mbind, outcome_bind.
  apply only_bind; [destruct mp; [apply only_rd | apply only_Ok] | intros i _].
  apply only_bind; [apply only_rd | intros pa _].
  destruct (PType pa =? NoTreeType E); [apply only_Ok |].
  destruct (Pos pa) as [[p0 p1] p2]. destruct (DomainCorner E) as [[c0 c1] c2].
  destruct (peano_and_morton_key _ _ _ _) as [key morton].
  apply only_bind; [apply only_wr | intros ml _].
  apply only_bind; [apply only_top_walk | intros [no shift] _].
  apply only_bind; [apply only_rd | intros top _].
  apply only_bind; [apply only_rd | intros th _].
  apply only_insert_loop.
Qed.

Lemma only_insert_all (fuel : nat) (f : Q) (mp : option (list Z)) (n : nat) (k : Z)
  (b : build) :
  only (fun c => c = 1 /\ Split.Qltb 5 f = true) (insert_all fuel f mp n k b).
Proof.
  revert k b. induction n as [| n IH]; intros; [apply only_Ok |].
  cbn [insert_all]. unfold mbind, outcome_bind.
  apply only_bind; [apply only_insert_particle | intros [full b'] _].
  destruct full; [apply only_Ok | apply IH].
Qed.

Lemma only_visit_suns (S : Z -> Prop) (rec : Z -> Z -> Z -> tree -> outcome tree)
  (no sib : Z) (suns : list Z) (s : tree * sums) :
  (forall p nextsib father t, only S (rec p nextsib father t)) ->
  only S (visit_suns rec no sib suns s).
Proof.
  intros Hrec. revert s. induction suns as [| p rest IH]; intros s; [apply only_Ok |].
  cbn [visit_suns]. destruct (p >=? 0); [| apply IH].
  destruct s as [t a]. unfold mbind, outcome_bind.
  apply only_bind; [apply Hrec | intros t' _].
  apply only_bind; [| intros a' _; apply IH].
  unfold add_node, add_particle. only_tree.
Qed.

Lemma only_update_node (S : Z -> Prop) (fuel : nat) (no sib father : Z) (t : tree) :
  only S (force_update_node_recursive fuel no sib father t).
Proof.
  revert no sib father t. induction fuel as [| fuel IH]; intros; [apply only_Hang |].
  cbn [force_update_node_recursive].
  destruct ((no >=? MaxPart E) && (no <? MaxPart E + MaxNodes t)).
  - unfold mbind, outcome_bind.
    apply only_bind; [apply only_rd | intros n _].
    apply only_bind; [only_tree | intros suns _].
    apply only_bind; [only_tree | intros t1 _].
    apply only_bind; [apply only_visit_suns; intros; apply IH | intros [t2 a] _].
    unfold store_moments. only_tree.
  - only_tree.
Qed.

Lemma only_weaken {A : Type} (S S' : Z -> Prop) (m : outcome A) :
  only S m -> (forall c, S c -> S' c) -> only S' m.
Proof. intros Hm Hs c H. apply Hs. exact (Hm c H). Qed.

Lemma create_empty_nodes_count (fuel : nat) (no topnode bits x y z : Z)
  (t t' : tree) (c c' n n' : Z) :
  force_create_empty_nodes fuel no topnode bits x y z (t, c, n) = Ok (t', c', n') ->
  c <= c'.
Proof.
  revert no topnode bits x y z t c n t' c' n'.
  induction fuel as [| fuel IH]; intros no topnode bits x y z t c n t' c' n' Hrun;
    [discriminate |].
  cbn [force_create_empty_nodes] in Hrun. unfold mbind, outcome_bind in Hrun.
  bind_inv Hrun. rename a into top.
  destruct (Daughter top >=? 0); [| injection Hrun as _ <- _; lia].
  apply (for_each_Ok (fun s : tree * Z * Z => c <= snd (fst s)) _ _ _ _ Hrun); [cbn; lia |].
  intros [[i j] k] [[t0 c0] n0] [[t1 c1] n1] _ H0 Hstep. cbn [fst snd] in *.
  do 6 bind_inv Hstep.
  destruct ((c0 + 1 >=? MaxNodes a4) || (c0 + 1 >=? MaxTopNodes E)); [discriminate |].
  apply IH in Hstep. lia.
Qed.

(** One turn of the insertion: when it goes on, it has made no node or the
    nodes are fewer than [MaxNodes]; it returns -1 only with the nodes
    used up and [All.TreeAllocFactor] at most 5.0. *)
Definition turn_ok (f : Q) (b : build) (fl : flow) : Prop :=
  match fl with
  | Again b' _ _ _ | Placed b' =>
      numnodes b <= numnodes b' /\
      (numnodes b' = numnodes b \/ numnodes b' < MaxNodes (b_tree b'))
  | Sentinel b' =>
      numnodes b <= numnodes b' /\ MaxNodes (b_tree b') <= numnodes b' /\
      Split.Qltb 5 f = false
  end.

Lemma insert_turn_flow (f : Q) (i : Z) (pa : particle_data) (morton : Z) (b : build)
  (th shift rep : Z) (fl : flow) :
  insert_turn f i pa morton b th shift rep = Ok fl -> turn_ok f b fl.
Proof.
  intros Hrun. unfold insert_turn in Hrun. cbv zeta in Hrun.
  unfold mbind, outcome_bind in Hrun.
  destruct (th >=? MaxPart E).
  - bind_inv Hrun. bind_inv Hrun. destruct a0 as [sub rep']. bind_inv Hrun.
    destruct (a0 >=? 0).
    + injection Hrun as <-. cbn. lia.
    + bind_inv Hrun. injection Hrun as <-. cbn. lia.
  - do 6 bind_inv Hrun.
    match type of Hrun with
    | context [let '(_, _) := ?x in _] => destruct x as [sub rep']
    end.
    do 2 bind_inv Hrun.
    match type of Hrun with
    | context [numnodes b + 1 >=? MaxNodes ?t] =>
        destruct (Z.geb_spec (numnodes b + 1) (MaxNodes t))
    end.
    + destruct (Split.Qltb 5 f) eqn:Hf; [discriminate |].
      injection Hrun as <-. cbn. repeat split; lia || assumption.
    + injection Hrun as <-. cbn. lia.
Qed.

Lemma insert_loop_flow (fuel : nat) (f : Q) (i : Z) (pa : particle_data) (morton : Z)
  (b b' : build) (th shift rep : Z) (full : bool) :
  insert_loop fuel f i pa morton b th shift rep = Ok (full, b') ->
  numnodes b <= numnodes b' /\ (full = true -> Split.Qltb 5 f = false).
Proof.
  revert b th shift rep. induction fuel as [| fuel IH]; intros b th shift rep Hrun;
    [discriminate |].
  cbn [insert_loop] in Hrun. unfold mbind, outcome_bind in Hrun. bind_inv Hrun.
  apply insert_turn_flow in E0. destruct a as [b1 th1 shift1 rep1 | b1 | b1]; cbn in E0.
  - apply IH in Hrun. split; [lia | tauto].
  - injection Hrun as <- <-. split; [lia | discriminate].
  - injection Hrun as <- <-. split; [lia | tauto].
Qed.

Lemma insert_particle_flow (fuel : nat) (f : Q) (mp : option (list Z)) (k : Z)
  (b b' : build) (full : bool) :
  insert_particle fuel f mp k b = Ok (full, b') ->
  numnodes b <= numnodes b' /\ (full = true -> Split.Qltb 5 f = false).
Proof.
  intros Hrun. unfold insert_particle in Hrun. unfold mbind, outcome_bind in Hrun.
  bind_inv Hrun. bind_inv Hrun.
  destruct (PType a0 =? NoTreeType E); [injection Hrun as <- <-; split; [lia | discriminate] |].
  destruct (Pos a0) as [[p0 p1] p2]. destruct (DomainCorner E) as [[c0 c1] c2].
  destruct (peano_and_morton_key _ _ _ _) as [key morton].
  bind_inv Hrun. bind_inv Hrun. destruct a2 as [no shift]. do 2 bind_inv Hrun.
  apply insert_loop_flow in Hrun. exact Hrun.
Qed.

Lemma insert_all_flow (fuel : nat) (f : Q) (mp : option (list Z)) (n : nat) (k : Z)
  (b b' : build) (full : bool) :
  insert_all fuel f mp n k b = Ok (full, b') ->
  numnodes b <= numnodes b' /\ (full = true -> Split.Qltb 5 f = false).
Proof.
  revert k b. induction n as [| n IH]; intros k b Hrun.
  - injection Hrun as <- <-. split; [lia | discriminate].
  - cbn [insert_all] in Hrun. unfold mbind, outcome_bind in Hrun. bind_inv Hrun.
    destruct a as [full1 b1]. apply insert_particle_flow in E0.
    destruct full1.
    + injection Hrun as <- <-. exact E0.
    + apply IH in Hrun. split; [lia | tauto].
Qed.

(** [force_treebuild_single] returns -1 only with [All.TreeAllocFactor] at
    most 5.0, and a number of nodes otherwise. *)
Lemma treebuild_single_result (fuel : nat) (f : Q) (npart : Z) (mp : option (list Z))
  (t t' : tree) (r : Z) :
  force_treebuild_single fuel f npart mp t = Ok (r, t') ->
  r = -1 /\ Split.Qltb 5 f = false \/ 1 <= r.
Proof.
  intros Hrun. unfold force_treebuild_single in Hrun. unfold mbind, outcome_bind in Hrun.
  bind_inv Hrun. destruct a as [full b]. rename E0 into Hins.
  unfold insert_particles in Hins. unfold mbind, outcome_bind in Hins.
  do 3 bind_inv Hins. destruct a1 as [[t1 nodes] free].
  apply create_empty_nodes_count in E2.
  apply insert_all_flow in Hins as [Hcount Hfull]. cbn [numnodes] in Hcount.
  destruct full.
  - injection Hrun as <- _. left. split; [reflexivity | now apply Hfull].
  - do 3 bind_inv Hrun. injection Hrun as <- _. right. lia.
Qed.

Lemma only_treebuild_single (fuel : nat) (f : Q) (npart : Z) (mp : option (list Z))
  (t : tree) :
  only (fun c => c = 11 \/ c = 1 /\ Split.Qltb 5 f = true)
       (force_treebuild_single fuel f npart mp t).
Proof.
  unfold force_treebuild_single, insert_particles. unfold mbind, outcome_bind.
  apply only_bind; [| intros [full b] _].
  { apply only_bind; [only_tree | intros root _].
    apply only_bind; [only_tree | intros t0 _].
    apply only_bind; [| intros [[t1 nodes] free] _].
    { apply (only_weaken (eq 11)); [apply only_create_empty_nodes | intros c <-; now left]. }
    apply (only_weaken _ _ _ (only_insert_all _ _ _ _ _ _)). intros c Hc. now right. }
  destruct full; [apply only_Ok |].
  apply only_bind; [| intros t2 _].
  { unfold force_insert_pseudo_particles. apply only_for_range. intros k s0. only_tree. }
  apply only_bind; [apply only_update_node | intros t3 _].
  only_tree.
Qed.

(** *** The moments of the tree *)

(** The tree that the daughter slots describe before the moments are
    computed: particles, pseudo-particles, and internal nodes with their
    daughters in the order of the slots. *)
#[warnings="-register-all"]
Inductive otree : Type :=
| Body (i : Z)
| Pseudo (i : Z)
| Cell (no : Z) (kids : list otree).

Lemma otree_rect' (Q : otree -> Prop) :
  (forall i, Q (Body i)) ->
  (forall i, Q (Pseudo i)) ->
  (forall no kids, Forall Q kids -> Q (Cell no kids)) ->
  forall T, Q T.
Proof.
  intros Hb Hp Hc. fix IH 1. intros [i | i | no kids]; [apply Hb | apply Hp |].
  apply Hc. induction kids as [| T kids IHk]; constructor; [apply IH | exact IHk].
Qed.

Definition root (T : otree) : Z :=
  match T with Body i => i | Pseudo i => i | Cell no _ => no end.

Fixpoint cells (T : otree) : list Z :=
  match T with
  | Cell no kids => no :: List.flat_map cells kids
  | _ => []
  end.

Fixpoint bodies (T : otree) : list Z :=
  match T with
  | Body i => [i]
  | Pseudo _ => []
  | Cell _ kids => List.flat_map bodies kids
  end.

Definition internal (t : tree) (n : Z) : Prop :=
  MaxPart E <= n < MaxPart E + MaxNodes t.

Definition nonneg (p : Z) : bool := p >=? 0.

#[warnings="-register-all"]
Inductive shape (t : tree) : otree -> Prop :=
| shape_body (i : Z) : 0 <= i < MaxPart E -> shape t (Body i)
| shape_pseudo (i : Z) : MaxPart E + MaxNodes t <= i -> shape t (Pseudo i)
| shape_cell (no : Z) (kids : list otree) (n : NODE) (l : list Z) :
    internal t no ->
    node_at t no = Ok n ->
    read_suns (u n) = Ok l ->
    List.filter nonneg l = map root kids ->
    Forall (shape t) kids ->
    shape t (Cell no kids).

Definition qsum (l : list Q) : Q := fold_right Qplus 0%Q l.

Definition vsum (l : list vec3) : vec3 := fold_right vadd (0, 0, 0)%Q l.

Definition veq (a b : vec3) : Prop :=
  let '(a0, a1, a2) := a in
  let '(b0, b1, b2) := b in
  a0 == b0 /\ a1 == b1 /\ a2 == b2.

Definition mass_of (i : Z) : Q :=
  match rd (P E) i with Ok pa => Mass pa | _ => 0%Q end.

Definition moment_of (i : Z) : vec3 :=
  match rd (P E) i with Ok pa => vscale (Mass pa) (Pos pa) | _ => (0, 0, 0)%Q end.

Definition momentum_of (i : Z) : vec3 :=
  match rd (P E) i with Ok pa => vscale (Mass pa) (Vel pa) | _ => (0, 0, 0)%Q end.

(** The mass of a list of particles, and the sums of mass times position
    and of mass times velocity. *)
Definition total_mass (l : list Z) : Q := qsum (map mass_of l).
Definition total_moment (l : list Z) : vec3 := vsum (map moment_of l).
Definition total_momentum (l : list Z) : vec3 := vsum (map momentum_of l).

Lemma veq_refl (a : vec3) : veq a a.
Proof. destruct a as [[a0 a1] a2]. cbn [veq]. repeat split; reflexivity. Qed.

Lemma veq_sym (a b : vec3) : veq a b -> veq b a.
Proof.
  destruct a as [[a0 a1] a2], b as [[b0 b1] b2]. cbn [veq]. intros (H0 & H1 & H2).
  repeat split; symmetry; assumption.
Qed.

Lemma veq_trans (a b c : vec3) : veq a b -> veq b c -> veq a c.
Proof.
  destruct a as [[a0 a1] a2], b as [[b0 b1] b2], c as [[c0 c1] c2]. cbn [veq].
  intros (H0 & H1 & H2) (K0 & K1 & K2).
  repeat split; etransitivity; eassumption.
Qed.

Lemma vadd_veq (a a' b b' : vec3) : veq a a' -> veq b b' -> veq (vadd a b) (vadd a' b').
Proof.
  destruct a as [[a0 a1] a2], b as [[b0 b1] b2], a' as [[c0 c1] c2], b' as [[e0 e1] e2].
  cbn [veq vadd]. intros (H0 & H1 & H2) (K0 & K1 & K2).
  repeat split; [rewrite H0, K0 | rewrite H1, K1 | rewrite H2, K2]; reflexivity.
Qed.

Lemma vadd_assoc (a b c : vec3) : veq (vadd (vadd a b) c) (vadd a (vadd b c)).
Proof.
  destruct a as [[a0 a1] a2], b as [[b0 b1] b2], c as [[c0 c1] c2]. cbn [veq vadd].
  repeat split; ring.
Qed.

Lemma vadd_zero_r (a : vec3) : veq (vadd a (0, 0, 0)%Q) a.
Proof. destruct a as [[a0 a1] a2]. cbn [veq vadd]. repeat split; ring. Qed.

Lemma qsum_app (l1 l2 : list Q) : qsum (l1 ++ l2) == qsum l1 + qsum l2.
Proof.
  unfold qsum. induction l1 as [| x l1 IH]; cbn [app fold_right]; [ring |].
  rewrite IH. ring.
Qed.

Lemma vsum_app (l1 l2 : list vec3) : veq (vsum (l1 ++ l2)) (vadd (vsum l1) (vsum l2)).
Proof.
  unfold vsum. induction l1 as [| x l1 IH]; cbn [app fold_right].
  - destruct (fold_right vadd (0, 0, 0)%Q l2) as [[a0 a1] a2].
    unfold veq, vadd. repeat split; ring.
  - apply veq_trans with (vadd x (vadd (fold_right vadd (0, 0, 0)%Q l1)
                                       (fold_right vadd (0, 0, 0)%Q l2))).
    + apply vadd_veq; [apply veq_refl | exact IH].
    + apply veq_sym. apply vadd_assoc.
Qed.

Lemma total_mass_app (l1 l2 : list Z) :
  total_mass (l1 ++ l2) == total_mass l1 + total_mass l2.
Proof. unfold total_mass. rewrite map_app. apply qsum_app. Qed.

Lemma total_moment_app (l1 l2 : list Z) :
  veq (total_moment (l1 ++ l2)) (vadd (total_moment l1) (total_moment l2)).
Proof. unfold total_moment. rewrite map_app. apply vsum_app. Qed.

Lemma total_momentum_app (l1 l2 : list Z) :
  veq (total_momentum (l1 ++ l2)) (vadd (total_momentum l1) (total_momentum l2)).
Proof. unfold total_momentum. rewrite map_app. apply vsum_app. Qed.

(** Node [no] holds the moments of the particles [l]. *)
Definition summary (t : tree) (no : Z) (l : list Z) : Prop :=
  exists nd e m,
    node_at t no = Ok nd /\ ext_at t no = Ok e /\ u nd = Moments m /\
    d.mass m == total_mass l /\
    veq (vscale (d.mass m) (d.s m)) (total_moment l) /\
    veq (vscale (d.mass m) (vs e)) (total_momentum l) /\
    (total_mass l == 0 -> d.s m = center nd /\ vs e = (0, 0, 0)%Q).

(** What a part of the walk leaves of node [n]: all of it, unless [n] was
    visited last and gets its link; its centre and its moments at least. *)
Definition kept (t t' : tree) (n : Z) : Prop :=
  ext_at t' n = ext_at t n /\
  (~ (n = last t /\ internal t n) -> node_at t' n = node_at t n) /\
  forall nd, node_at t n = Ok nd ->
    exists nd', node_at t' n = Ok nd' /\ center nd' = center nd /\
      forall m, u nd = Moments m ->
        exists m', u nd' = Moments m' /\ d.mass m' = d.mass m /\ d.s m' = d.s m.

Definition frame (t t' : tree) (S : list Z) : Prop :=
  MaxNodes t' = MaxNodes t /\ forall n, ~ In n S -> kept t t' n.

Lemma kept_same (t t' : tree) (n : Z) :
  node_at t' n = node_at t n -> ext_at t' n = ext_at t n -> kept t t' n.
Proof.
  intros Hn He. split; [exact He |]. split; [intros _; exact Hn |].
  intros nd Hnd. exists nd. rewrite Hn. split; [exact Hnd |]. split; [reflexivity |].
  intros m Hm. now exists m.
Qed.

Lemma frame_chain (t t1 t2 : tree) (S1 S2 : list Z) :
  frame t t1 S1 -> frame t1 t2 S2 ->
  (In (last t1) S1 \/ ~ internal t (last t1) \/ last t1 = last t) ->
  frame t t2 (S1 ++ S2).
Proof.
  intros [Hm1 H1] [Hm2 H2] Hlast. split; [congruence |].
  intros n Hn. rewrite in_app_iff in Hn.
  destruct (H1 n ltac:(tauto)) as (He1 & Hn1 & Hk1).
  destruct (H2 n ltac:(tauto)) as (He2 & Hn2 & Hk2).
  split; [congruence |]. split.
  - intros Hnot. rewrite Hn2; [exact (Hn1 Hnot) |].
    intros [-> Hint]. unfold internal in *. rewrite Hm1 in Hint.
    destruct Hlast as [Hin | [Hout | Heq]]; [tauto | tauto |].
    apply Hnot. split; [exact Heq | exact Hint].
  - intros nd Hnd. destruct (Hk1 nd Hnd) as (nd1 & Hnd1 & Hc1 & Hu1).
    destruct (Hk2 nd1 Hnd1) as (nd2 & Hnd2 & Hc2 & Hu2).
    exists nd2. split; [exact Hnd2 |]. split; [congruence |].
    intros m Hm. destruct (Hu1 m Hm) as (m1 & Hmo1 & Ha & Hb).
    destruct (Hu2 m1 Hmo1) as (m2 & Hmo2 & Ha' & Hb').
    exists m2. split; [exact Hmo2 |]. split; congruence.
Qed.

Lemma frame_weaken (t t' : tree) (S S' : list Z) :
  frame t t' S -> (forall n, In n S -> In n S') -> frame t t' S'.
Proof. intros [Hm H] Hsub. split; [exact Hm |]. intros n Hn. apply H. auto. Qed.

Lemma node_at_set_node (t t' : tree) (no n : Z) (x : NODE) :
  set_node t no x = Ok t' ->
  node_at t' n = (if n =? no then Ok x else node_at t n) /\
  ext_at t' n = ext_at t n /\ MaxNodes t' = MaxNodes t /\ last t' = last t.
Proof.
  intros H. unfold set_node in H. unfold mbind, outcome_bind in H. bind_inv H.
  injection H as <-. unfold node_at, ext_at. cbn [Nodes Extnodes MaxNodes last with_Nodes].
  repeat split. rewrite (Exchange.rd_wr _ _ _ (n - MaxPart E) _ E0).
  destruct (Z.eqb_spec (n - MaxPart E) (no - MaxPart E)); destruct (Z.eqb_spec n no);
    try reflexivity; lia.
Qed.

Lemma link_last_frame (no : Z) (t t' : tree) :
  link_last no t = Ok t' -> last t' = no /\ frame t t' [].
Proof.
  intros H. unfold link_last in H. unfold mbind, outcome_bind in H. bind_inv H.
  injection H as <-. cbn [last with_last]. split; [reflexivity |].
  assert (Hsame : forall l, frame t (with_last (with_Nextnode t l) no) []).
  { intros l. split; [reflexivity |]. intros n _. now apply kept_same. }
  destruct (Z.geb_spec (last t) 0) as [H0 |]; [| injection E0 as <-; split;
    [reflexivity | intros n _; now apply kept_same]].
  destruct (Z.geb_spec (last t) (MaxPart E)) as [H1 |];
    [| bind_inv E0; injection E0 as <-; apply Hsame].
  destruct (Z.geb_spec (last t) (MaxPart E + MaxNodes t)) as [| H2];
    [bind_inv E0; injection E0 as <-; apply Hsame |].
  bind_inv E0. rename a0 into nd.
  split.
  - cbn [MaxNodes with_last]. exact (proj1 (proj2 (proj2 (node_at_set_node _ _ _ 0 _ E0)))).
  - intros n _. unfold kept.
    assert (Hn := fun k => proj1 (node_at_set_node _ _ _ k _ E0)).
    assert (He := proj1 (proj2 (node_at_set_node _ _ _ n _ E0))).
    change (node_at (with_last a no) n) with (node_at a n).
    change (ext_at (with_last a no) n) with (ext_at a n).
    rewrite Hn. split; [exact He |]. split.
    + intros Hnot. destruct (Z.eqb_spec n (last t)) as [-> |]; [| reflexivity].
      exfalso. apply Hnot. split; [reflexivity | unfold internal; lia].
    + intros nd0 Hnd0. destruct (Z.eqb_spec n (last t)) as [-> |]; [| now exists nd0; split;
        [exact Hnd0 | split; [reflexivity | intros m Hm; now exists m]]].
      rewrite E1 in Hnd0. injection Hnd0 as <-. eexists. split; [reflexivity |].
      split; [reflexivity |]. intros m Hm. cbn [u with_u]. rewrite Hm. cbn [moments_of].
      eexists. split; [reflexivity |]. split; reflexivity.
Qed.

Lemma shape_agree (t t1 : tree) (T : otree) :
  MaxNodes t1 = MaxNodes t ->
  (forall n, In n (cells T) -> node_at t1 n = node_at t n) ->
  shape t T -> shape t1 T.
Proof.
  intros Hm. induction T as [i | i | no kids IH] using otree_rect'; intros Hsame Hs.
  - inversion Hs; subst. now constructor.
  - inversion Hs; subst. constructor. lia.
  - inversion Hs as [| | ? ? n l Hint Hn Hl Hf Hk]; subst.
    apply (shape_cell t1 no kids n l); [unfold internal in *; lia | | exact Hl | exact Hf |].
    + rewrite Hsame; [exact Hn | now left].
    + clear Hf Hs. induction kids as [| T kids IHk]; constructor.
      * inversion IH as [| ? ? IHT _]; subst. inversion Hk as [| ? ? HT _]; subst.
        apply IHT; [| exact HT]. intros m Hin. apply Hsame. cbn [cells flat_map].
        right. apply in_or_app. now left.
      * inversion IH as [| ? ? _ IHrest]; subst. inversion Hk as [| ? ? _ Hrest]; subst.
        apply IHk; [exact IHrest | | exact Hrest].
        intros m Hin. apply Hsame. cbn [cells flat_map] in *.
        destruct Hin as [-> | Hin]; [now left | right]. apply in_or_app. now right.
Qed.

Lemma shape_cells_internal (t : tree) (T : otree) (n : Z) :
  shape t T -> In n (cells T) -> internal t n.
Proof.
  induction T as [i | i | no kids IH] using otree_rect'; intros Hs Hin; try contradiction.
  inversion Hs as [| | ? ? nd l Hint _ _ _ Hk]; subst. cbn [cells] in Hin.
  destruct Hin as [<- | Hin]; [exact Hint |].
  apply in_flat_map in Hin as (T & HT & Hn).
  assert (HQ := proj1 (List.Forall_forall _ _) IH T HT).
  assert (HsT := proj1 (List.Forall_forall _ _) Hk T HT).
  exact (HQ HsT Hn).
Qed.

Lemma total_mass_cons (i : Z) (l : list Z) : total_mass (i :: l) = (mass_of i + total_mass l)%Q.
Proof. reflexivity. Qed.

Lemma total_mass_nonneg (l : list Z) :
  (forall i, In i l -> 0 <= mass_of i)%Q -> (0 <= total_mass l)%Q.
Proof.
  induction l as [| i l IH]; intros H; [unfold total_mass; cbn; lra |].
  rewrite total_mass_cons. assert (0 <= mass_of i)%Q by (apply H; now left).
  assert (0 <= total_mass l)%Q by (apply IH; intros j Hj; apply H; now right). lra.
Qed.

Lemma vscale_zero (m : Q) (a : vec3) : m == 0 -> veq (vscale m a) (0, 0, 0)%Q.
Proof.
  intros H. destruct a as [[a0 a1] a2]. unfold veq, vscale.
  repeat split; rewrite H; ring.
Qed.

(** Particles of no mass, none of them negative, have no moment. *)
Lemma weightless (l : list Z) :
  (forall i, In i l -> 0 <= mass_of i)%Q -> total_mass l == 0 ->
  veq (total_moment l) (0, 0, 0)%Q /\ veq (total_momentum l) (0, 0, 0)%Q.
Proof.
  induction l as [| i l IH]; intros H Hz; [split; apply veq_refl |].
  rewrite total_mass_cons in Hz.
  assert (Hi : (0 <= mass_of i)%Q) by (apply H; now left).
  assert (Hl : (0 <= total_mass l)%Q).
  { apply total_mass_nonneg. intros j Hj. apply H. now right. }
  assert (Hi0 : mass_of i == 0) by lra. assert (Hl0 : total_mass l == 0) by lra.
  destruct (IH (fun j Hj => H j (or_intror Hj)) Hl0) as [IHa IHb].
  unfold total_moment, total_momentum, moment_of, momentum_of, mass_of in *.
  cbn [map vsum fold_right]. destruct (rd (P E) i) as [pa | | |].
  - split.
    + apply veq_trans with (vadd (0, 0, 0)%Q (0, 0, 0)%Q);
        [apply vadd_veq; [now apply vscale_zero | exact IHa] | apply vadd_zero_r].
    + apply veq_trans with (vadd (0, 0, 0)%Q (0, 0, 0)%Q);
        [apply vadd_veq; [now apply vscale_zero | exact IHb] | apply vadd_zero_r].
  - split; (apply veq_trans with (vadd (0, 0, 0)%Q (0, 0, 0)%Q);
            [apply vadd_veq; [apply veq_refl | assumption] | apply vadd_zero_r]).
  - split; (apply veq_trans with (vadd (0, 0, 0)%Q (0, 0, 0)%Q);
            [apply vadd_veq; [apply veq_refl | assumption] | apply vadd_zero_r]).
  - split; (apply veq_trans with (vadd (0, 0, 0)%Q (0, 0, 0)%Q);
            [apply vadd_veq; [apply veq_refl | assumption] | apply vadd_zero_r]).
Qed.

Lemma shape_by_root (t : tree) (T : otree) :
  0 <= MaxNodes t -> shape t T ->
  (internal t (root T) -> exists kids, T = Cell (root T) kids) /\
  (root T < MaxPart E -> T = Body (root T)) /\
  (MaxPart E + MaxNodes t <= root T -> T = Pseudo (root T)).
Proof.
  intros Hm Hs. unfold internal.
  inversion Hs as [i Hi | i Hi | no kids n l Hint]; subst; cbn [root]; unfold internal in *.
  - split; [lia |]. split; [reflexivity | lia].
  - split; [lia |]. split; [lia | reflexivity].
  - split; [now exists kids |]. split; lia.
Qed.

Lemma add_particle_sum (p : Z) (a a' : sums) :
  add_particle p a = Ok a' ->
  a_mass a' = (a_mass a + mass_of p)%Q /\
  a_s a' = vadd (a_s a) (moment_of p) /\
  a_vs a' = vadd (a_vs a) (momentum_of p).
Proof.
  intros H. unfold add_particle in H. unfold mbind, outcome_bind in H.
  bind_inv H. rename a0 into pa. bind_inv H. destruct a0 as [h dv].
  destruct (Vel pa) as [[v0 v1] v2] eqn:Hv. bind_inv H. destruct a0 as [most diff].
  injection H as <-. unfold mass_of, moment_of, momentum_of. rewrite E0, Hv.
  cbn [a_mass a_s a_vs]. repeat split.
Qed.

Lemma add_node_sum (p : Z) (t : tree) (a a' : sums) :
  add_node p t a = Ok a' ->
  exists nd e,
    node_at t p = Ok nd /\ ext_at t p = Ok e /\
    a_mass a' = (a_mass a + d.mass (moments_of (u nd)))%Q /\
    a_s a' = vadd (a_s a) (vscale (d.mass (moments_of (u nd))) (d.s (moments_of (u nd)))) /\
    a_vs a' = vadd (a_vs a) (vscale (d.mass (moments_of (u nd))) (vs e)).
Proof.
  intros H. unfold add_node in H. unfold mbind, outcome_bind in H. cbv zeta in H.
  bind_inv H. rename a0 into nd. bind_inv H. rename a0 into e.
  bind_inv H. destruct a0 as [most diff]. injection H as <-.
  exists nd, e. cbn [a_mass a_s a_vs]. repeat split; assumption.
Qed.

Lemma ext_at_set_ext (t t' : tree) (no n : Z) (x : extNODE) :
  set_ext t no x = Ok t' ->
  ext_at t' n = (if n =? no then Ok x else ext_at t n) /\
  node_at t' n = node_at t n /\ MaxNodes t' = MaxNodes t /\ last t' = last t.
Proof.
  intros H. unfold set_ext in H. unfold mbind, outcome_bind in H. bind_inv H.
  injection H as <-. unfold node_at, ext_at. cbn [Nodes Extnodes MaxNodes last with_Extnodes].
  repeat split. rewrite (Exchange.rd_wr _ _ _ (n - MaxPart E) _ E0).
  destruct (Z.eqb_spec (n - MaxPart E) (no - MaxPart E)); destruct (Z.eqb_spec n no);
    try reflexivity; lia.
Qed.

(** What [store_moments] leaves: the other nodes as they were, and in node
    [no] the mass summed up and the sums divided by it, or the centre of the
    node and no velocity when the mass is zero. *)
Lemma store_moments_spec (no sib father : Z) (t t' : tree) (a : sums) :
  store_moments no sib father t a = Ok t' ->
  MaxNodes t' = MaxNodes t /\ last t' = last t /\
  (forall n, n <> no -> node_at t' n = node_at t n /\ ext_at t' n = ext_at t n) /\
  exists nd nd' e' m',
    node_at t no = Ok nd /\
    node_at t' no = Ok nd' /\ ext_at t' no = Ok e' /\ u nd' = Moments m' /\
    center nd' = center nd /\ d.mass m' = a_mass a /\
    (if Qeq_bool (a_mass a) 0
     then d.s m' = center nd /\ vs e' = (0, 0, 0)%Q
     else d.s m' = vdiv (a_s a) (a_mass a) /\ vs e' = vdiv (a_vs a) (a_mass a)).
Proof.
  intros H. unfold store_moments in H. unfold mbind, outcome_bind in H. cbv zeta in H.
  bind_inv H. rename a0 into nd, E0 into Hnd.
  destruct (if negb (Qeq_bool (a_mass a) 0)
            then (vdiv (a_s a) (a_mass a), vdiv (a_vs a) (a_mass a))
            else (center nd, (0, 0, 0)%Q)) as [s v] eqn:Hsv.
  bind_inv H. rename a0 into t1, E0 into Hset. bind_inv H. rename a0 into e.
  pose proof (fun n => node_at_set_node _ _ _ n _ Hset) as H1.
  pose proof (fun n => ext_at_set_ext _ _ _ n _ H) as H2.
  split; [rewrite (proj1 (proj2 (proj2 (H2 0)))); exact (proj1 (proj2 (proj2 (H1 0)))) |].
  split; [rewrite (proj2 (proj2 (proj2 (H2 0)))); exact (proj2 (proj2 (proj2 (H1 0)))) |].
  split.
  - intros n Hn. destruct (H1 n) as (Ha & Hb & _). destruct (H2 n) as (Hc & Hd & _).
    destruct (Z.eqb_spec n no); [contradiction |]. split; congruence.
  - destruct (H1 no) as (Ha & _). destruct (H2 no) as (Hc & Hd & _).
    rewrite Z.eqb_refl in Ha, Hc.
    eexists nd, _, _, _. split; [exact Hnd |]. split; [rewrite Hd; exact Ha |].
    split; [exact Hc |]. split; [reflexivity |]. split; [reflexivity |].
    split; [reflexivity |]. cbn [d.s vs].
    destruct (Qeq_bool (a_mass a) 0); cbn [negb] in Hsv; injection Hsv as <- <-;
      split; reflexivity.
Qed.

Lemma veq_step (a a1 a' x y xy : vec3) :
  veq a1 (vadd a x) -> veq a' (vadd a1 y) -> veq xy (vadd x y) -> veq a' (vadd a xy).
Proof.
  destruct a as [[a0 b0] c0], a1 as [[a1 b1] c1], a' as [[a2 b2] c2],
           x as [[x0 x1] x2], y as [[y0 y1] y2], xy as [[z0 z1] z2].
  unfold veq, vadd. intros (H0 & H1 & H2) (K0 & K1 & K2) (L0 & L1 & L2).
  repeat split; lra.
Qed.

(** What a call of the routine on the root of [T] is to achieve; [rec] is
    the routine with some fuel. *)
Definition walk_ok (rec : Z -> Z -> Z -> tree -> outcome tree) : Prop :=
  forall T no sib father t t',
    0 <= MaxNodes t -> shape t T -> root T = no -> NoDup (cells T) ->
    ~ In (last t) (cells T) ->
    (forall i, In i (bodies T) -> 0 <= mass_of i)%Q ->
    rec no sib father t = Ok t' ->
    frame t t' (cells T) /\
    (In (last t') (cells T) \/ ~ internal t (last t')) /\
    match T with Cell _ _ => summary t' no (bodies T) | _ => True end.

Lemma visit_suns_spec (rec : Z -> Z -> Z -> tree -> outcome tree) (no sib : Z) :
  walk_ok rec ->
  forall rest kids t a t' a',
    0 <= MaxNodes t ->
    List.filter nonneg rest = map root kids ->
    Forall (shape t) kids ->
    NoDup (List.flat_map cells kids) ->
    ~ In (last t) (List.flat_map cells kids) ->
    (forall i, In i (List.flat_map bodies kids) -> 0 <= mass_of i)%Q ->
    visit_suns rec no sib rest (t, a) = Ok (t', a') ->
    frame t t' (List.flat_map cells kids) /\
    (In (last t') (List.flat_map cells kids) \/ ~ internal t (last t') \/ last t' = last t) /\
    a_mass a' == a_mass a + total_mass (List.flat_map bodies kids) /\
    veq (a_s a') (vadd (a_s a) (total_moment (List.flat_map bodies kids))) /\
    veq (a_vs a') (vadd (a_vs a) (total_momentum (List.flat_map bodies kids))).
Proof.
  intros Hrec rest. induction rest as [| p rest IH];
    intros kids t a t' a' Hmax Hf Hshape Hnd Hlast Hpos Hrun.
  - cbn in Hf. destruct kids; [| discriminate]. injection Hrun as <- <-.
    cbn [flat_map]. split; [split; [reflexivity | intros n _; now apply kept_same] |].
    split; [now right; right |]. unfold total_mass, total_moment, total_momentum.
    cbn [map qsum vsum fold_right]. split; [ring |].
    split; apply veq_sym; apply vadd_zero_r.
  - cbn [visit_suns] in Hrun. cbn [List.filter] in Hf. unfold nonneg at 1 in Hf.
    destruct (Z.geb_spec p 0) as [Hp | Hp];
      [| exact (IH kids t a t' a' Hmax Hf Hshape Hnd Hlast Hpos Hrun)].
    destruct kids as [| T1 kids]; [discriminate |]. cbn [map] in Hf.
    injection Hf as Hroot Hf. cbn [flat_map] in *.
    unfold mbind, outcome_bind in Hrun. bind_inv Hrun. rename a0 into t1, E0 into Hcall.
    bind_inv Hrun. rename a0 into a1, E0 into Hadd.
    inversion Hshape as [| ? ? Hs1 Hsk]; subst.
    apply NoDup_app in Hnd as (Hnd1 & Hdisj & Hndk).
    destruct (Hrec T1 (root T1) _ no t t1 Hmax Hs1 eq_refl
                   Hnd1
                   ltac:(intros Hin; apply Hlast; apply in_or_app; now left)
                   ltac:(intros i Hi; apply Hpos; apply in_or_app; now left) Hcall)
      as (Hfr1 & Hvis1 & Hsum1).
    destruct Hfr1 as [Hm1 Hk1].
    assert (Hcells : forall n, In n (List.flat_map cells kids) -> internal t n).
    { intros n Hn. apply in_flat_map in Hn as (T & HT & Hn).
      exact (shape_cells_internal t T n (proj1 (List.Forall_forall _ _) Hsk T HT) Hn). }
    assert (Hshape1 : Forall (shape t1) kids).
    { apply Forall_forall. intros T HT. apply list_elem_of_In in HT.
      apply (shape_agree t t1 T Hm1); [| exact (proj1 (List.Forall_forall _ _) Hsk T HT)].
      intros n Hn. assert (Hin : In n (List.flat_map cells kids)).
      { apply in_flat_map. now exists T. }
      apply (proj1 (proj2 (Hk1 n ltac:(intros Hc; apply (Hdisj n);
               [apply list_elem_of_In; exact Hc | apply list_elem_of_In; exact Hin])))).
      intros [-> _]. apply Hlast. apply in_or_app. now right. }
    assert (Hlast1 : ~ In (last t1) (List.flat_map cells kids)).
    { intros Hin. destruct Hvis1 as [Hv | Hv].
      - apply (Hdisj (last t1)); apply list_elem_of_In; assumption.
      - apply Hv. now apply Hcells. }
    destruct (IH kids t1 a1 t' a' ltac:(lia) Hf Hshape1
                 Hndk Hlast1
                 ltac:(intros i Hi; apply Hpos; apply in_or_app; now right) Hrun)
      as (Hfr2 & Hvis2 & Hmass2 & Hs2 & Hv2).
    assert (Hstep : a_mass a1 == a_mass a + total_mass (bodies T1) /\
                    veq (a_s a1) (vadd (a_s a) (total_moment (bodies T1))) /\
                    veq (a_vs a1) (vadd (a_vs a) (total_momentum (bodies T1)))).
    { destruct (shape_by_root t T1 Hmax Hs1) as (Hcell & Hbody & Hpseudo).
      destruct (Z.geb_spec (root T1) (MaxPart E)) as [Hge | Hlt].
      - destruct (Z.geb_spec (root T1) (MaxPart E + MaxNodes t1)) as [Hge2 | Hlt2].
        + injection Hadd as <-. pose proof (Hpseudo ltac:(lia)) as HT.
          destruct T1 as [i | i | no1 ks]; try discriminate HT. cbn [bodies].
          unfold total_mass, total_moment, total_momentum. cbn [map qsum vsum fold_right].
          split; [ring |]. split; apply veq_sym; apply vadd_zero_r.
        + destruct (Hcell ltac:(unfold internal; lia)) as [ks' HT].
          destruct T1 as [i | i | no1 ks]; try discriminate HT. cbn [root] in *.
          destruct Hsum1 as (nd & e & m & Hnd' & He & Hu & Hma & Hmo & Hmv & _).
          apply add_node_sum in Hadd as (nd2 & e2 & Hnd2 & He2 & Ha & Hb & Hc).
          rewrite Hnd' in Hnd2. injection Hnd2 as <-. rewrite He in He2. injection He2 as <-.
          rewrite Hu in Ha, Hb, Hc. cbn [moments_of] in Ha, Hb, Hc.
          rewrite Ha, Hb, Hc.
          split; [rewrite Hma; reflexivity |].
          split; (apply vadd_veq; [apply veq_refl | assumption]).
      - apply add_particle_sum in Hadd as (Ha & Hb & Hc).
        pose proof (Hbody Hlt) as HT.
        destruct T1 as [i | i | no1 ks]; try discriminate HT. cbn [bodies root] in *.
        rewrite Ha, Hb, Hc.
        unfold total_mass, total_moment, total_momentum. cbn [map qsum vsum fold_right].
        split; [ring |].
        split; (apply vadd_veq; [apply veq_refl | apply veq_sym; apply vadd_zero_r]). }
    destruct Hstep as (Hmass1 & Hs1' & Hv1).
    split; [| split; [| split; [| split]]].
    + apply (frame_chain t t1 t' _ _ (conj Hm1 Hk1) Hfr2). tauto.
    + destruct Hvis2 as [Hv | [Hv | Hv]].
      * left. apply in_or_app. now right.
      * right. left. unfold internal in *. rewrite Hm1 in Hv. exact Hv.
      * rewrite Hv. destruct Hvis1 as [Hw | Hw]; [left; apply in_or_app; now left | now right; left].
    + rewrite total_mass_app. lra.
    + exact (veq_step _ _ _ _ _ _ Hs1' Hs2 (total_moment_app _ _)).
    + exact (veq_step _ _ _ _ _ _ Hv1 Hv2 (total_momentum_app _ _)).
Qed.

Lemma vscale_vdiv (m : Q) (a : vec3) : ~ m == 0 -> veq (vscale m (vdiv a m)) a.
Proof.
  intros Hm. destruct a as [[a0 a1] a2]. unfold veq, vscale, vdiv.
  repeat split; field; exact Hm.
Qed.

Lemma veq_zero_l (a b : vec3) : veq a (vadd (0, 0, 0)%Q b) -> veq a b.
Proof.
  destruct a as [[a0 a1] a2], b as [[b0 b1] b2]. unfold veq, vadd.
  intros (H0 & H1 & H2). repeat split; lra.
Qed.

Lemma update_node_walk (fuel : nat) : walk_ok (force_update_node_recursive fuel).
Proof.
  induction fuel as [| fuel IH]; intros T no sib father t t' Hmax Hs Hroot Hnd Hlast Hpos Hrun;
    [discriminate |].
  cbn [force_update_node_recursive] in Hrun. subst no.
  destruct (shape_by_root t T Hmax Hs) as (Hcell & Hbody & Hpseudo).
  destruct (Z.geb_spec (root T) (MaxPart E)) as [Hge | Hlt];
    [destruct (Z.ltb_spec (root T) (MaxPart E + MaxNodes t)) as [Hin | Hout] |];
    cbn [andb] in Hrun.
  - destruct (Hcell ltac:(unfold internal; lia)) as [ks HT].
    destruct T as [i | i | no kids]; try discriminate HT. clear HT ks. cbn [root cells bodies] in *.
    inversion Hs as [| | ? ? n l Hint Hn Hl Hf Hk]; subst.
    unfold mbind, outcome_bind in Hrun. rewrite Hn in Hrun. cbn [obind] in Hrun.
    rewrite Hl in Hrun. cbn [obind] in Hrun.
    bind_inv Hrun. rename a into t1, E0 into Hlink.
    bind_inv Hrun. destruct a as [t2 a]. rename E0 into Hvisit.
    apply link_last_frame in Hlink as [Hlast1 Hfr1]. destruct Hfr1 as [Hm1 Hk1].
    apply NoDup_cons in Hnd as [Hno Hndk].
    assert (Hshape1 : Forall (shape t1) kids).
    { apply Forall_forall. intros T HT. apply list_elem_of_In in HT.
      apply (shape_agree t t1 T Hm1); [| exact (proj1 (List.Forall_forall _ _) Hk T HT)].
      intros m Hmc. apply (proj1 (proj2 (Hk1 m ltac:(intros [])))).
      intros [-> _]. apply Hlast. right. apply in_flat_map. now exists T. }
    destruct (visit_suns_spec _ no sib IH l kids t1 no_sums t2 a ltac:(lia) Hf Hshape1 Hndk
                ltac:(rewrite Hlast1; intros Hc; apply Hno; apply list_elem_of_In; exact Hc)
                Hpos Hvisit)
      as (Hfr2 & Hvis2 & Hmass & Hmom & Hvel).
    cbn [a_mass a_s a_vs no_sums] in Hmass, Hmom, Hvel.
    apply veq_zero_l in Hmom. apply veq_zero_l in Hvel. rewrite Qplus_0_l in Hmass.
    apply store_moments_spec in Hrun
      as (Hm3 & Hlast3 & Hrest & nd2 & nd' & e' & m' & Hnd2 & Hnd' & He' & Hu' & Hc' & Hma & Hif).
    assert (Hfr12 : frame t t2 (no :: List.flat_map cells kids)).
    { apply (frame_chain t t1 t2 [no] _ (frame_weaken _ _ [] [no] (conj Hm1 Hk1) ltac:(intros ? []))
               Hfr2). left. rewrite Hlast1. now left. }
    assert (Hvis : In (last t2) (no :: List.flat_map cells kids) \/ ~ internal t (last t2)).
    { destruct Hvis2 as [Hv | [Hv | Hv]].
      - left. now right.
      - right. unfold internal in *. rewrite Hm1 in Hv. exact Hv.
      - left. left. congruence. }
    assert (Hcenter : center nd2 = center n).
    { destruct (Hk1 no ltac:(intros [])) as (_ & _ & Hc1).
      destruct (Hc1 n Hn) as (n1 & Hn1 & Hcen1 & _).
      destruct (proj2 Hfr2 no ltac:(intros Hc; apply Hno; apply list_elem_of_In; exact Hc))
        as (_ & _ & Hc2).
      destruct (Hc2 n1 Hn1) as (n2 & Hn2 & Hcen2 & _).
      rewrite Hnd2 in Hn2. injection Hn2 as <-. congruence. }
    split; [| split].
    + apply (frame_weaken t t' ((no :: List.flat_map cells kids) ++ [no])).
      * apply (frame_chain t t2 t' _ [no] Hfr12).
        -- split; [exact Hm3 |]. intros m Hmn.
           assert (Hne : m <> no) by (intros Heq; apply Hmn; left; symmetry; exact Heq).
           apply kept_same; apply (Hrest m Hne).
        -- tauto.
      * intros m Hmn. apply in_app_or in Hmn as [Hmn | [<- | []]]; [exact Hmn | now left].
    + rewrite Hlast3. exact Hvis.
    + exists nd', e', m'. split; [exact Hnd' |]. split; [exact He' |]. split; [exact Hu' |].
      rewrite Hma.
      destruct (Qeq_bool (a_mass a) 0) eqn:Hz; destruct Hif as [Hs' Hv'].
      * apply Qeq_bool_eq in Hz.
        assert (Hzero : total_mass (List.flat_map bodies kids) == 0) by lra.
        destruct (weightless _ Hpos Hzero) as [Hw1 Hw2].
        split; [exact Hmass |].
        split; [apply veq_trans with (0, 0, 0)%Q;
                [now apply vscale_zero | now apply veq_sym] |].
        split; [apply veq_trans with (0, 0, 0)%Q;
                [now apply vscale_zero | now apply veq_sym] |].
        intros _. split; [congruence | exact Hv'].
      * apply Qeq_bool_neq in Hz.
        split; [exact Hmass |].
        split; [rewrite Hs'; apply veq_trans with (a_s a);
                [now apply vscale_vdiv | exact Hmom] |].
        split; [rewrite Hv'; apply veq_trans with (a_vs a);
                [now apply vscale_vdiv | exact Hvel] |].
        intros Hzero. exfalso. apply Hz. lra.
  - unfold mbind, outcome_bind in Hrun. bind_inv Hrun. rename a into t1, E0 into Hlink.
    apply link_last_frame in Hlink as [Hlast1 Hfr1].
    assert (HT : cells T = [] /\ match T with Cell _ _ => False | _ => True end).
    { rewrite (Hpseudo Hout). now split. }
    destruct HT as [Hcells Hleaf]. rewrite Hcells.
    destruct (Z.ltb_spec (root T) (MaxPart E)); [lia |]. injection Hrun as <-.
    split; [exact Hfr1 |]. split; [right; rewrite Hlast1; unfold internal; lia |].
    destruct T; [exact I | exact I | contradiction].
  - unfold mbind, outcome_bind in Hrun. bind_inv Hrun. rename a into t1, E0 into Hlink.
    apply link_last_frame in Hlink as [Hlast1 Hfr1].
    assert (HT : cells T = [] /\ match T with Cell _ _ => False | _ => True end).
    { rewrite (Hbody Hlt). now split. }
    destruct HT as [Hcells Hleaf]. rewrite Hcells.
    destruct (Z.ltb_spec (root T) (MaxPart E)); [| lia]. bind_inv Hrun. injection Hrun as <-.
    split; [exact Hfr1 |]. split; [right; cbn [last with_Father]; rewrite Hlast1; unfold internal; lia |].
    destruct T; [exact I | exact I | contradiction].
Qed.

Lemma veq_quotient (m tot : Q) (a x : vec3) :
  ~ tot == 0 -> m == tot -> veq (vscale m a) x -> veq a (vdiv x tot).
Proof.
  intros Hne Hm. destruct a as [[a0 a1] a2], x as [[x0 x1] x2]. unfold veq, vscale, vdiv.
  intros (H0 & H1 & H2). rewrite <- H0, <- H1, <- H2, <- Hm.
  assert (Hm0 : ~ m == 0) by (rewrite Hm; exact Hne).
  repeat split; field; exact Hm0.
Qed.

(** C4: the moments of the root.  When the walk [force_update_node_recursive]
    that [force_treebuild_single] starts at the root node [All.MaxPart], with
    no node visited yet, returns, the root holds as its mass the sum of the
    masses of the particles of the tree; when that sum is not zero, its [s]
    is the sum of mass times position divided by it and its [vs] the sum of
    mass times velocity divided by it; when the sum is zero, [s] is the
    centre of the node and [vs] is zero.  Pseudo-particles add nothing.
    Numbers are exact rationals, and no particle has a negative mass. *)
Theorem root_moments (fuel : nat) (kids : list otree) (t t' : tree) :
  0 <= MaxPart E -> 0 <= MaxNodes t -> last t = -1 ->
  shape t (Cell (MaxPart E) kids) ->
  NoDup (cells (Cell (MaxPart E) kids)) ->
  (forall i, In i (bodies (Cell (MaxPart E) kids)) -> 0 <= mass_of i)%Q ->
  force_update_node_recursive fuel (MaxPart E) (-1) (-1) t = Ok t' ->
  exists nd e m,
    node_at t' (MaxPart E) = Ok nd /\ ext_at t' (MaxPart E) = Ok e /\
    u nd = Moments m /\
    d.mass m == total_mass (bodies (Cell (MaxPart E) kids)) /\
    (~ total_mass (bodies (Cell (MaxPart E) kids)) == 0 ->
     veq (d.s m) (vdiv (total_moment (bodies (Cell (MaxPart E) kids)))
                       (total_mass (bodies (Cell (MaxPart E) kids)))) /\
     veq (vs e) (vdiv (total_momentum (bodies (Cell (MaxPart E) kids)))
                      (total_mass (bodies (Cell (MaxPart E) kids))))) /\
    (total_mass (bodies (Cell (MaxPart E) kids)) == 0 ->
     d.s m = center nd /\ vs e = (0, 0, 0)%Q).
Proof.
  intros Hpart Hmax Hlast Hs Hnd Hmass Hrun.
  assert (Hout : ~ In (last t) (cells (Cell (MaxPart E) kids))).
  { intros Hin. apply (shape_cells_internal _ _ _ Hs) in Hin.
    unfold internal in Hin. lia. }
  destruct (update_node_walk fuel (Cell (MaxPart E) kids) (MaxPart E) (-1) (-1) t t'
              Hmax Hs eq_refl Hnd Hout Hmass Hrun) as (_ & _ & Hsum).
  destruct Hsum as (nd & e & m & Hn & He & Hu & Hm & Hmom & Hvel & Hzero).
  exists nd, e, m. repeat split; try assumption.
  - eapply veq_quotient; eassumption.
  - eapply veq_quotient; eassumption.
  - now apply Hzero.
  - now apply Hzero.
Qed.

End Build.

(** Numnodestree = force_treebuild_single(npart, mp) on one process. *)
Definition build_local (fuel : nat) (p : proc) : outcome proc :=
  '(n, t) ← force_treebuild_single (dom p) fuel (TreeAllocFactor p) (npart p) (mp p) (Tree p);
  Ok (mkProc (dom p) (TreeAllocFactor p) t n (npart p) (mp p)).

Fixpoint build_all (fuel : nat) (G : list proc) : outcome (list proc) :=
  match G with
  | [] => Ok []
  | p :: G' => p' ← build_local fuel p; G'' ← build_all fuel G'; Ok (p' :: G'')
  end.

(** force_treefree(); All.TreeAllocFactor *= 1.15;
    force_treeallocate((int) (All.TreeAllocFactor * All.MaxPart) + NTopnodes, All.MaxPart); *)
Definition regrow (p : proc) : proc :=
  let f := (TreeAllocFactor p * (115 # 100))%Q in
  mkProc (dom p) f
         (force_treeallocate (dom p)
            (Qtrunc (f * inject_Z (MaxPart (dom p))) + NTopnodes (dom p))
            (MaxPart (dom p)) (last (Tree p)))
         (Numnodestree p) (npart p) (mp p).

(** The loop do { ... } while(flag == -1) of [force_treebuild] on all
    processes; [attempts] bounds its turns.  The three calls that follow the
    loop in the source exchange the moments of the top-level nodes and are
    not part of this development. *)
Fixpoint force_treebuild (attempts fuel : nat) (G : list proc) : outcome (list proc) :=
  match attempts with
  | O => Hang
  | S attempts' =>
      G ← build_all fuel G;
      let flag := MPI_MIN (map Numnodestree G) in
      if flag =? -1 then force_treebuild attempts' fuel (map regrow G)
      else Ok G
  end.

(** *** The retries of [force_treebuild] *)

Lemma Qltb_true (x y : Q) : Split.Qltb x y = true <-> (x < y)%Q.
Proof.
  unfold Split.Qltb. rewrite Qlt_alt. destruct (x ?= y)%Q; split; intros H; congruence.
Qed.

Lemma Qltb_false (x y : Q) : Split.Qltb x y = false <-> (y <= x)%Q.
Proof.
  split; intros H.
  - apply Qnot_lt_le. intros Hlt. apply Qltb_true in Hlt. congruence.
  - destruct (Split.Qltb x y) eqn:Hb; [| reflexivity].
    apply Qltb_true in Hb. exfalso. exact (Qlt_not_le _ _ Hb H).
Qed.

(** [All.TreeAllocFactor] after [k] growths. *)
Fixpoint grown (k : nat) (f : Q) : Q :=
  match k with
  | O => f
  | S k' => grown k' (f * (115 # 100))%Q
  end.

Lemma build_all_each (fuel : nat) (G G1 : list proc) :
  build_all fuel G = Ok G1 -> Forall2 (fun p p1 => build_local fuel p = Ok p1) G G1.
Proof.
  revert G1. induction G as [| p G IH]; intros G1 Hrun.
  - injection Hrun as <-. constructor.
  - cbn [build_all] in Hrun. unfold mbind, outcome_bind in Hrun.
    bind_inv Hrun. bind_inv Hrun. injection Hrun as <-.
    constructor; [exact E | exact (IH _ E0)].
Qed.

Lemma build_local_result (fuel : nat) (p p1 : proc) :
  build_local fuel p = Ok p1 ->
  TreeAllocFactor p1 = TreeAllocFactor p /\
  (Numnodestree p1 = -1 -> (TreeAllocFactor p <= 5)%Q).
Proof.
  intros Hrun. unfold build_local in Hrun. unfold mbind, outcome_bind in Hrun.
  bind_inv Hrun. destruct a as [n t]. injection Hrun as <-. cbn.
  split; [reflexivity |]. intros ->.
  apply treebuild_single_result in E as [[_ Hf] | Hr]; [| lia].
  now apply Qltb_false.
Qed.

Lemma MPI_MIN_In (l : list Z) : l <> [] -> In (MPI_MIN l) l.
Proof.
  destruct l as [| x l]; [congruence | intros _]. cbn [MPI_MIN].
  induction l as [| y l IH]; [now left |].
  cbn [foldr]. destruct (Z.min_spec y (foldr Z.min x l)) as [[_ ->] | [_ ->]].
  - right. now left.
  - destruct IH as [IH | IH]; [now left | right; now right].
Qed.

(** When some process has returned -1, the factor they share is at most
    5.0. *)
Lemma sentinel_below_limit (fuel : nat) (G G1 : list proc) (f : Q) :
  build_all fuel G = Ok G1 ->
  Forall (fun p => TreeAllocFactor p == f) G ->
  MPI_MIN (map Numnodestree G1) = -1 ->
  (f <= 5)%Q /\ Forall (fun p => TreeAllocFactor p == f) G1.
Proof.
  intros Hrun Hf Hmin. apply build_all_each in Hrun.
  assert (Hall : Forall (fun p1 => TreeAllocFactor p1 == f /\
                                   (Numnodestree p1 = -1 -> (f <= 5)%Q)) G1).
  { clear Hmin. induction Hrun as [| p p1 G G1 Hp _ IH]; [constructor |].
    inversion Hf as [| ? ? Hpf Hrest]; subst.
    apply build_local_result in Hp as [Hsame Hlim].
    constructor; [| exact (IH Hrest)].
    rewrite Hsame. split; [exact Hpf |]. intros Hs. rewrite <- Hpf. exact (Hlim Hs). }
  split.
  - assert (Hne : map Numnodestree G1 <> []).
    { intros Hnil. rewrite Hnil in Hmin. discriminate. }
    apply MPI_MIN_In in Hne. rewrite Hmin in Hne. apply in_map_iff in Hne as (p1 & Hp1 & Hin).
    apply (proj1 (Forall_forall _ _) Hall p1); [| exact Hp1].
    apply list_elem_of_In. exact Hin.
  - apply (Forall_impl _ _ _ Hall). intros p1 [Hp1 _]. exact Hp1.
Qed.

Lemma treebuild_bounded (k a fuel : nat) (G : list proc) (f : Q) :
  (k < a)%nat ->
  Forall (fun p => TreeAllocFactor p == f) G ->
  (5 < grown k f)%Q ->
  force_treebuild a fuel G = force_treebuild (S k) fuel G.
Proof.
  revert a G f. induction k as [| k IH]; intros a G f Hk Hf Hlim.
  - destruct a as [| a]; [lia |]. cbn [force_treebuild grown] in *.
    unfold mbind, outcome_bind. destruct (build_all fuel G) as [G1 | | |] eqn:Hrun;
      cbn [obind]; try reflexivity.
    destruct (Z.eqb_spec (MPI_MIN (map Numnodestree G1)) (-1)) as [Hmin |]; [| reflexivity].
    destruct (sentinel_below_limit fuel G G1 f Hrun Hf Hmin) as [Hle _].
    exfalso. exact (Qlt_not_le _ _ Hlim Hle).
  - destruct a as [| a]; [lia |].
    change (force_treebuild (S a) fuel G)
      with (G ← build_all fuel G;
            if MPI_MIN (map Numnodestree G) =? -1
            then force_treebuild a fuel (map regrow G) else Ok G).
    change (force_treebuild (S (S k)) fuel G)
      with (G ← build_all fuel G;
            if MPI_MIN (map Numnodestree G) =? -1
            then force_treebuild (S k) fuel (map regrow G) else Ok G).
    unfold mbind, outcome_bind. destruct (build_all fuel G) as [G1 | | |] eqn:Hrun;
      cbn [obind]; try reflexivity.
    destruct (Z.eqb_spec (MPI_MIN (map Numnodestree G1)) (-1)) as [Hmin |]; [| reflexivity].
    destruct (sentinel_below_limit fuel G G1 f Hrun Hf Hmin) as [_ Hf1].
    apply (IH a (map regrow G1) (f * (115 # 100))%Q); [lia | | exact Hlim].
    apply Forall_forall. intros p Hp. apply list_elem_of_In in Hp.
    apply in_map_iff in Hp as (p1 & <- & Hin). cbn [TreeAllocFactor regrow].
    apply list_elem_of_In in Hin.
    rewrite (proj1 (Forall_forall _ _) Hf1 p1 Hin). reflexivity.
Qed.

Lemma build_all_results (fuel : nat) (G G1 : list proc) :
  build_all fuel G = Ok G1 ->
  Forall (fun p1 => Numnodestree p1 = -1 \/ 1 <= Numnodestree p1) G1.
Proof.
  intros Hrun. apply build_all_each in Hrun.
  induction Hrun as [| p p1 G G1 Hp _ IH]; constructor; [| exact IH].
  unfold build_local in Hp. unfold mbind, outcome_bind in Hp. bind_inv Hp.
  destruct a as [n t]. injection Hp as <-. cbn.
  apply treebuild_single_result in E as [[-> _] | Hr]; [now left | now right].
Qed.


End Params.

(** *** A small box *)

(** Keys for the examples: the bits of the three coordinates interleaved,
    the highest bits first; the daughters of a top-level node are numbered
    by the same three bits. *)
Fixpoint interleave (n : nat) (x y z : Z) : Z :=
  match n with
  | O => 0
  | S n' => x mod 2 + 2 * (y mod 2) + 4 * (z mod 2) + 8 * interleave n' (x / 2) (y / 2) (z / 2)
  end.

Definition sample_key (x y z bits : Z) : Z := interleave (Z.to_nat bits) x y z.

Definition sample_moments : d.t := d.mk (0, 0, 0)%Q 0 0 0 0 0.

Definition sample_treebuild : nat -> nat -> list proc -> outcome (list proc) :=
  force_treebuild (fun x y z bits => (sample_key x y z bits, sample_key x y z bits))
                  sample_key (fun _ => 0%Q) 4 1 0 1 2 (fun _ => 7) (fun _ => 0)
                  (fun _ => sample_moments) (fun _ => no_suns).

Definition body (id : Z) (x y z m : Q) : particle_data :=
  mkP (x, y, z) (1, 0, 0)%Q m id 1 0 0 0 false false 0 0%Q 0%Q.

(** A box of side 16 whose top-level tree is the root with its eight
    leaves, all on process 0, with room for four particles. *)
Definition box (n : Z) (bodies : list particle_data) : domain :=
  mkDomain 4 100 9 8
           (mkTopnode 4096 0 1 (-1)
            :: map (fun i => mkTopnode 512 (512 * i) (-1) i) [0; 1; 2; 3; 4; 5; 6; 7])
           [0; 0; 0; 0; 0; 0; 0; 0] 0 16 (8, 8, 8)%Q (0, 0, 0)%Q 1 (-1)
           [0; 0; 0; 0; 0; 0]%Q 0 0 n bodies [].

Definition on_box (E : domain) (f : Q) : proc :=
  mkProc E f (force_treeallocate E (Qtrunc (f * 4) + 9) 4 (-1)) 0 (NumPart E) None.

(** Three bodies, two of them in one cell of side 4: the tree takes ten
    nodes. *)
Definition three : domain :=
  box 3 [body 1 1 1 1 2; body 2 2 1 1 3; body 3 9 9 9 5; blank_particle].

(** Two bodies closer than 2^-40: no tree that is allowed holds them. *)
Definition pair : domain :=
  box 2 [body 1 1 1 1 2; body 2 (1 + (1 # 1099511627776)) 1 1 3;
         blank_particle; blank_particle].

(** With the factor 0.25 there is room for ten nodes less one: the build
    returns -1 five times, and fits at the sixth turn. *)
Example three_fit :
  match sample_treebuild 6 50 [on_box three (1 # 4)] with
  | Ok [p] => Numnodestree p = 10 /\ MaxNodes (Tree p) = 11 /\
              TreeAllocFactor p = grown 5 (1 # 4)
  | _ => False
  end.
Proof. vm_compute. repeat split. Qed.

Example three_retry : sample_treebuild 5 50 [on_box three (1 # 4)] = Hang.
Proof. vm_compute. reflexivity. Qed.

Example pair_fatal : sample_treebuild 1 100 [on_box pair 6] = Endrun 1.
Proof. vm_compute. reflexivity. Qed.



(** The tree of [three] as [force_treebuild_single] hands it to the walk:
    the particles inserted, the pseudo-particles inserted (there are none,
    every top-level leaf is on this process), and no node visited yet. *)
Definition planted (E : domain) (f : Q) : outcome tree :=
  '(_, b) ← insert_particles
              (fun x y z bits => (sample_key x y z bits, sample_key x y z bits))
              sample_key (fun _ => 0%Q) 4 1 (fun _ => no_suns) E 50 f (NumPart E) None
              (Tree (on_box E f));
  t ← force_insert_pseudo_particles (fun _ => no_suns) E (b_tree b);
  Ok (with_last t (-1)).

Definition three_planted : tree :=
  Eval vm_compute in
    match planted three 1 with Ok t => t | _ => Tree (on_box three 1) end.

Example three_is_planted : planted three 1 = Ok three_planted.
Proof. vm_compute. reflexivity. Qed.

(** Its nodes: the root 4 with the eight top-level leaves as daughters, the
    first two bodies in node 13 below leaf 5, the third body in leaf 12. *)
Definition three_kids : list otree :=
  [Cell 5 [Cell 13 [Body 0; Body 1]]; Cell 9 []; Cell 7 []; Cell 11 [];
   Cell 6 []; Cell 10 []; Cell 8 []; Cell 12 [Body 2]].

Ltac grow :=
  lazymatch goal with
  | |- shape _ _ _ (Body _) =>
      apply shape_body; vm_compute; split; [discriminate | reflexivity]
  | |- shape _ _ _ (Cell _ _) =>
      eapply shape_cell;
      [ unfold internal; vm_compute; split; [discriminate | reflexivity]
      | vm_compute; reflexivity
      | vm_compute; reflexivity
      | reflexivity
      | repeat (constructor; [grow |]); constructor ]
  end.

Lemma three_shape : shape (fun _ => no_suns) three three_planted (Cell 4 three_kids).
Proof. unfold three_kids. grow. Qed.

Lemma root_moments_witness :
  exists t' nd e m,
    force_update_node_recursive 0 1 2 (fun _ => 7) (fun _ => 0) (fun _ => sample_moments)
      (fun _ => no_suns) three 50 4 (-1) (-1) three_planted = Ok t' /\
    node_at three t' 4 = Ok nd /\ ext_at three t' 4 = Ok e /\ u nd = Moments m /\
    d.mass m == 10 /\ veq (d.s m) (53 # 10, 5, 5)%Q /\ veq (vs e) (1, 0, 0)%Q.
Proof.
  destruct (force_update_node_recursive 0 1 2 (fun _ => 7) (fun _ => 0)
              (fun _ => sample_moments) (fun _ => no_suns) three 50 4 (-1) (-1)
              three_planted) as [t' | | |] eqn:Hrun;
    [| vm_compute in Hrun; discriminate Hrun ..].
  assert (Hmass : forall i, In i (bodies (Cell (MaxPart three) three_kids)) ->
                            (0 <= mass_of three i)%Q).
  { intros i Hi. cbn in Hi.
    destruct Hi as [<- | [<- | [<- | []]]]; vm_compute; discriminate. }
  assert (Hnd : NoDup (cells (Cell (MaxPart three) three_kids))).
  { apply (bool_decide_unpack _). vm_compute. exact I. }
  destruct (root_moments
              (fun x y z bits => (sample_key x y z bits, sample_key x y z bits))
              sample_key (fun _ => 0%Q) 4 0 1 2 (fun _ => 7) (fun _ => 0)
              (fun _ => sample_moments) (fun _ => no_suns)
              three 50 three_kids three_planted t'
              ltac:(discriminate) ltac:(discriminate) eq_refl three_shape Hnd Hmass Hrun)
    as (nd & e & m & Hn & He & Hu & Hm & Hquot & _).
  exists t', nd, e, m.
  assert (Htot : total_mass three (bodies (Cell (MaxPart three) three_kids)) == 10)
    by reflexivity.
  assert (Hne : ~ total_mass three (bodies (Cell (MaxPart three) three_kids)) == 0).
  { intros H0. rewrite Htot in H0. discriminate H0. }
  destruct (Hquot Hne) as [Hs Hv].
  split; [reflexivity |]. split; [exact Hn |]. split; [exact He |].
  split; [exact Hu |]. split; [exact (Qeq_trans _ _ _ Hm Htot) |].
  split; (eapply veq_trans; [eassumption |]); vm_compute; repeat split.
Defined.

End ForceTree.

(** ** The extent of the particles: [domain_findExtent] *)

Module Extent.

(** The particles of one process. *)
Record proc : Type := mkProc { NumPart : Z; P : list particle_data }.

(** What the routine leaves in [DomainCorner], [DomainCenter], [DomainLen]
    and [DomainFac]. *)
Record extent : Type := mkExtent {
  DomainCorner : vec3;
  DomainCenter : vec3;
  DomainLen : Q;
  DomainFac : Q
}.

(** if(xmin > x) xmin = x; and if(xmax < x) xmax = x; *)
Definition lower (xmin x : Q) : Q := if Split.Qltb x xmin then x else xmin.
Definition upper (xmax x : Q) : Q := if Split.Qltb xmax x then x else xmax.

Definition lower3 (a x : vec3) : vec3 :=
  let '(a0, a1, a2) := a in let '(x0, x1, x2) := x in (lower a0 x0, lower a1 x1, lower a2 x2).

Definition upper3 (a x : vec3) : vec3 :=
  let '(a0, a1, a2) := a in let '(x0, x1, x2) := x in (upper a0 x0, upper a1 x1, upper a2 x2).

(** MPI_Allreduce of three doubles with MPI_MIN and with MPI_MAX. *)
Definition MPI_MIN3 (l : list vec3) : vec3 :=
  match l with [] => (0, 0, 0)%Q | x :: l' => foldr (fun y m => lower3 m y) x l' end.

Definition MPI_MAX3 (l : list vec3) : vec3 :=
  match l with [] => (0, 0, 0)%Q | x :: l' => foldr (fun y m => upper3 m y) x l' end.

Section FindExtent.

(** [MAX_REAL_NUMBER] and [BITS_PER_DIMENSION] are macros of [allvars.h] and
    [peano.h], which are not among the sources at hand. *)
Variable MAX_REAL_NUMBER : Q.
Variable BITS_PER_DIMENSION : Z.

Definition unbounded : vec3 * vec3 :=
  ((MAX_REAL_NUMBER, MAX_REAL_NUMBER, MAX_REAL_NUMBER),
   (- MAX_REAL_NUMBER, - MAX_REAL_NUMBER, - MAX_REAL_NUMBER))%Q.

(** The share of thread [tid] in the loop over the particles: [sched]
    tells which thread runs which turn. *)
Definition thread_extent (sched : Z -> Z) (p : proc) (tid : Z) : outcome (vec3 * vec3) :=
  for_range (Z.to_nat (NumPart p)) 0
    (fun i '(lo, hi) =>
       if sched i =? tid then x ← rd (P p) i; Ok (lower3 lo (Pos x), upper3 hi (Pos x))
       else Ok (lo, hi))
    unbounded.

(** The parallel region of one process: every thread of [order] runs its
    share and then, in that order, merges it in the critical section. *)
Definition local_extent (sched : Z -> Z) (order : list Z) (p : proc)
  : outcome (vec3 * vec3) :=
  ForceTree.for_each order
    (fun tid '(lo, hi) =>
       '(loT, hiT) ← thread_extent sched p tid;
       Ok (lower3 lo loT, upper3 hi hiT))
    unbounded.

Fixpoint local_extents (sched : Z -> Z -> Z) (order : Z -> list Z) (t : Z) (G : list proc)
  : outcome (list (vec3 * vec3)) :=
  match G with
  | [] => Ok []
  | p :: G' =>
      b ← local_extent (sched t) (order t) p;
      bs ← local_extents sched order (t + 1) G';
      Ok (b :: bs)
  end.

(** if(xmax_glob[j] - xmin_glob[j] > len) len = xmax_glob[j] - xmin_glob[j]; *)
Definition widen (len lo hi : Q) : Q :=
  if Split.Qltb len (hi - lo) then (hi - lo)%Q else len.

(** [domain_findExtent] on all processes; the result is the same on each. *)
Definition domain_findExtent (sched : Z -> Z -> Z) (order : Z -> list Z) (G : list proc)
  : outcome extent :=
  boxes ← local_extents sched order 0 G;
  let '(m0, m1, m2) := MPI_MIN3 (map fst boxes) in
  let '(M0, M1, M2) := MPI_MAX3 (map snd boxes) in
  let len := widen (widen (widen 0 m0 M0) m1 M1) m2 M2 in
  let len := (len * (1001 # 1000))%Q in
  Ok (mkExtent
        (((1 # 2) * (m0 + M0) - (1 # 2) * len,
          (1 # 2) * (m1 + M1) - (1 # 2) * len,
          (1 # 2) * (m2 + M2) - (1 # 2) * len)%Q)
        (((1 # 2) * (m0 + M0), (1 # 2) * (m1 + M1), (1 # 2) * (m2 + M2))%Q)
        len
        (1 / len * inject_Z (Z.shiftl 1 BITS_PER_DIMENSION))%Q).

Definition le3 (a b : vec3) : Prop :=
  let '(a0, a1, a2) := a in let '(b0, b1, b2) := b in (a0 <= b0 /\ a1 <= b1 /\ a2 <= b2)%Q.

(** [x] lies between [lo] and [hi] in every dimension. *)
Definition between (b : vec3 * vec3) (x : vec3) : Prop := le3 (fst b) x /\ le3 x (snd b).

Lemma lower_le (a x : Q) : (lower a x <= a /\ lower a x <= x)%Q.
Proof.
  unfold lower. destruct (Split.Qltb x a) eqn:H.
  - apply ForceTree.Qltb_true in H. split; lra.
  - apply ForceTree.Qltb_false in H. split; lra.
Qed.

Lemma upper_ge (a x : Q) : (a <= upper a x /\ x <= upper a x)%Q.
Proof.
  unfold upper. destruct (Split.Qltb a x) eqn:H.
  - apply ForceTree.Qltb_true in H. split; lra.
  - apply ForceTree.Qltb_false in H. split; lra.
Qed.

Lemma le3_refl (a : vec3) : le3 a a.
Proof. destruct a as [[a0 a1] a2]. cbn. repeat split; lra. Qed.

Lemma le3_trans (a b c : vec3) : le3 a b -> le3 b c -> le3 a c.
Proof.
  destruct a as [[a0 a1] a2], b as [[b0 b1] b2], c as [[c0 c1] c2]. cbn.
  intros (H0 & H1 & H2) (K0 & K1 & K2). repeat split; lra.
Qed.

Lemma lower3_le (a x : vec3) : le3 (lower3 a x) a /\ le3 (lower3 a x) x.
Proof.
  destruct a as [[a0 a1] a2], x as [[x0 x1] x2]. cbn.
  pose proof (lower_le a0 x0). pose proof (lower_le a1 x1). pose proof (lower_le a2 x2).
  tauto.
Qed.

Lemma upper3_ge (a x : vec3) : le3 a (upper3 a x) /\ le3 x (upper3 a x).
Proof.
  destruct a as [[a0 a1] a2], x as [[x0 x1] x2]. cbn.
  pose proof (upper_ge a0 x0). pose proof (upper_ge a1 x1). pose proof (upper_ge a2 x2).
  tauto.
Qed.

(** A box that holds [x] still holds it when it grows. *)
Lemma between_grow (lo hi lo' hi' x : vec3) :
  le3 lo' lo -> le3 hi hi' -> between (lo, hi) x -> between (lo', hi') x.
Proof.
  intros Hl Hh [H1 H2]. split; cbn [fst snd] in *; eapply le3_trans; eassumption.
Qed.

Lemma thread_extent_holds (sched : Z -> Z) (p : proc) (tid : Z) (b : vec3 * vec3) :
  thread_extent sched p tid = Ok b ->
  forall i x, 0 <= i < NumPart p -> sched i = tid -> rd (P p) i = Ok x ->
              between b (Pos x).
Proof.
  intros Hrun. unfold thread_extent in Hrun.
  pose proof (for_range_Ok
    (fun k (b : vec3 * vec3) =>
       forall i x, 0 <= i < k -> sched i = tid -> rd (P p) i = Ok x -> between b (Pos x))
    _ _ _ _ _ Hrun) as H.
  cbn beta in H.
  intros i x Hi. apply H; [intros; lia | | lia].
  clear. intros k [lo hi] b1 Hk IH Hb j y Hj Hs Hy.
  destruct (Z.eqb_spec (sched k) tid) as [Hk' | Hk'].
  - unfold mbind, outcome_bind in Hb. bind_inv Hb. injection Hb as <-.
    destruct (Z.eq_dec j k) as [-> | Hne].
    + rewrite E in Hy. injection Hy as <-. split; cbn [fst snd].
      * apply lower3_le. * apply upper3_ge.
    + apply (between_grow lo hi);
        [apply lower3_le | apply upper3_ge | apply (IH j); [lia | assumption | assumption]].
  - injection Hb as <-. apply (IH j); try assumption.
    assert (j <> k) by congruence. lia.
Qed.

Lemma local_extent_holds (sched : Z -> Z) (order : list Z) (p : proc) (b : vec3 * vec3) :
  local_extent sched order p = Ok b ->
  forall i x, 0 <= i < NumPart p -> In (sched i) order -> rd (P p) i = Ok x ->
              between b (Pos x).
Proof.
  unfold local_extent. generalize unbounded as b0.
  assert (Hgen : forall b0 : vec3 * vec3,
    ForceTree.for_each order
      (fun tid '(lo, hi) =>
         '(loT, hiT) ← thread_extent sched p tid; Ok (lower3 lo loT, upper3 hi hiT)) b0
    = Ok b ->
    forall i x, 0 <= i < NumPart p ->
      (In (sched i) order \/ between b0 (Pos x)) -> rd (P p) i = Ok x -> between b (Pos x)).
  { induction order as [| tid order IH]; intros b0 Hrun i x Hi Hin Hx.
    - injection Hrun as <-. destruct Hin as [[] | H]; exact H.
    - cbn [ForceTree.for_each] in Hrun. unfold mbind, outcome_bind in Hrun.
      bind_inv Hrun. destruct b0 as [lo hi]. bind_inv E. destruct a0 as [loT hiT].
      injection E as <-.
      apply (IH _ Hrun i x Hi); [| exact Hx].
      destruct Hin as [[Heq | Hin] | Hb].
      + right. apply (between_grow loT hiT);
          [apply lower3_le | apply upper3_ge
          | apply (thread_extent_holds sched p tid (loT, hiT) E0 i x Hi (eq_sym Heq) Hx)].
      + left. exact Hin.
      + right. apply (between_grow lo hi); [apply lower3_le | apply upper3_ge | exact Hb]. }
  intros b0 Hrun i x Hi Hin Hx. apply (Hgen b0 Hrun i x Hi); [now left | exact Hx].
Qed.

Lemma local_extents_each (sched : Z -> Z -> Z) (order : Z -> list Z) (G : list proc) :
  forall t0 boxes, local_extents sched order t0 G = Ok boxes ->
  forall t p, rd G t = Ok p ->
    exists b, rd boxes t = Ok b /\ local_extent (sched (t0 + t)) (order (t0 + t)) p = Ok b.
Proof.
  induction G as [| q G IH]; intros t0 boxes Hrun t p Hp.
  - apply rd_range in Hp. unfold zlen in Hp. cbn in Hp. lia.
  - cbn [local_extents] in Hrun. unfold mbind, outcome_bind in Hrun.
    bind_inv Hrun. bind_inv Hrun. injection Hrun as <-.
    apply rd_Ok in Hp as [Ht Hp].
    destruct (Z.eq_dec t 0) as [-> | Hne].
    + cbn in Hp. injection Hp as <-. exists a. split; [reflexivity |].
      rewrite Z.add_0_r. exact E.
    + assert (Hp' : rd G (t - 1) = Ok p).
      { apply rd_Ok. split; [lia |].
        replace (Z.to_nat t) with (S (Z.to_nat (t - 1))) in Hp by lia. exact Hp. }
      destruct (IH _ _ E0 _ _ Hp') as (b & Hb & Hl).
      exists b. split.
      * apply rd_Ok in Hb as [_ Hb]. apply rd_Ok. split; [lia |].
        replace (Z.to_nat t) with (S (Z.to_nat (t - 1))) by lia. exact Hb.
      * replace (t0 + t) with (t0 + 1 + (t - 1)) by lia. exact Hl.
Qed.

Lemma MPI_MIN3_le (l : list vec3) (x : vec3) : In x l -> le3 (MPI_MIN3 l) x.
Proof.
  destruct l as [| y l]; [intros [] |]. cbn [MPI_MIN3].
  induction l as [| z l IH]; intros Hin.
  - destruct Hin as [<- | []]. apply le3_refl.
  - cbn [foldr]. destruct Hin as [<- | [<- | Hin]].
    + eapply le3_trans; [apply (proj1 (lower3_le _ _)) | apply IH; now left].
    + apply (proj2 (lower3_le _ _)).
    + eapply le3_trans; [apply (proj1 (lower3_le _ _)) | apply IH; now right].
Qed.

Lemma MPI_MAX3_ge (l : list vec3) (x : vec3) : In x l -> le3 x (MPI_MAX3 l).
Proof.
  destruct l as [| y l]; [intros [] |]. cbn [MPI_MAX3].
  induction l as [| z l IH]; intros Hin.
  - destruct Hin as [<- | []]. apply le3_refl.
  - cbn [foldr]. destruct Hin as [<- | [<- | Hin]].
    + eapply le3_trans; [apply IH; now left | apply (proj1 (upper3_ge _ _))].
    + apply (proj2 (upper3_ge _ _)).
    + eapply le3_trans; [apply IH; now right | apply (proj1 (upper3_ge _ _))].
Qed.

Lemma widen_ge (len lo hi : Q) : (len <= widen len lo hi /\ hi - lo <= widen len lo hi)%Q.
Proof.
  unfold widen. destruct (Split.Qltb len (hi - lo)) eqn:H.
  - apply ForceTree.Qltb_true in H. split; lra.
  - apply ForceTree.Qltb_false in H. split; lra.
Qed.

(** [x] lies in the cube of side [DomainLen] at [DomainCorner]. *)
Definition inside (e : extent) (x : vec3) : Prop :=
  let '(c0, c1, c2) := DomainCorner e in
  let '(x0, x1, x2) := x in
  (c0 <= x0 <= c0 + DomainLen e /\ c1 <= x1 <= c1 + DomainLen e /\
   c2 <= x2 <= c2 + DomainLen e)%Q.

(** The centre is the middle of the cube. *)
Definition centred (e : extent) : Prop :=
  let '(c0, c1, c2) := DomainCorner e in
  let '(m0, m1, m2) := DomainCenter e in
  (m0 == c0 + DomainLen e / 2 /\ m1 == c1 + DomainLen e / 2 /\ m2 == c2 + DomainLen e / 2)%Q.


End FindExtent.
(** Three particles on two processes, two threads each: the odd turns are
    run by thread 1, which merges first. *)
Definition sample_procs : list proc :=
  [mkProc 2 [ForceTree.body 1 1 2 3 1; ForceTree.body 2 4 0 3 1];
   mkProc 1 [ForceTree.body 3 (-1) 5 5 1]].


End Extent.

(** ** Drifting and kicking the nodes of the force tree:
       [real_force_drift_node] and [force_kick_node] *)

Module Kick.

Import ForceTree.

Definition set_bitflags (m : d.t) (b : Z) : d.t :=
  d.mk (d.s m) (d.mass m) b (d.sibling m) (d.nextnode m) (d.father m).

Definition set_s (m : d.t) (s : vec3) : d.t :=
  d.mk s (d.mass m) (d.bitflags m) (d.sibling m) (d.nextnode m) (d.father m).

Definition set_momentum (e : extNODE) (vs dp : vec3) : extNODE :=
  mkExt (hmax e) (vmax e) (divVmax e) vs dp (Ti_lastkicked e) (Flag e).

Definition set_kick (e : extNODE) (vmax : Q) (dp : vec3) (ti : Z) : extNODE :=
  mkExt (hmax e) vmax (divVmax e) (vs e) dp ti (Flag e).

Definition set_Flag (e : extNODE) (f : Z) : extNODE :=
  mkExt (hmax e) (vmax e) (divVmax e) (vs e) (dp e) (Ti_lastkicked e) f.

(** bitflags & (1 << k) *)
Definition has_flag (b k : Z) : bool := negb (Z.land b (Z.shiftl 1 k) =? 0).

(** bitflags |= (1 << k) and bitflags &= ~(1 << k) *)
Definition raise_flag (b k : Z) : Z := Z.lor b (Z.shiftl 1 k).
Definition clear_flag (b k : Z) : Z := Z.land b (Z.lnot (Z.shiftl 1 k)).

(** What [force_kick_node] works on besides the tree: the list of the
    top-level nodes changed and its length. *)
Record kicks : Type := mkKicks {
  k_tree : tree;
  DomainList : list Z;
  DomainNumChanged : Z
}.

Lemma has_flag_testbit (b k : Z) : 0 <= k -> has_flag b k = Z.testbit b k.
Proof.
  intros Hk. unfold has_flag. rewrite Z.shiftl_1_l.
  destruct (Z.testbit b k) eqn:Hb.
  - destruct (Z.eqb_spec (Z.land b (2 ^ k)) 0) as [H0 | _]; [| reflexivity].
    assert (H : Z.testbit (Z.land b (2 ^ k)) k = true).
    { rewrite Z.land_spec, Hb, Z.pow2_bits_true by lia. reflexivity. }
    rewrite H0, Z.bits_0 in H. discriminate.
  - destruct (Z.eqb_spec (Z.land b (2 ^ k)) 0) as [_ | Hne]; [reflexivity |].
    exfalso. apply Hne. apply Z.bits_inj'. intros n Hn.
    rewrite Z.land_spec, Z.bits_0, Z.pow2_bits_eqb by lia.
    destruct (Z.eqb_spec k n) as [<- | _]; [rewrite Hb |]; apply andb_false_r || reflexivity.
Qed.

Lemma has_raise_flag (b k : Z) : 0 <= k -> has_flag (raise_flag b k) k = true.
Proof.
  intros Hk. rewrite has_flag_testbit by exact Hk. unfold raise_flag.
  rewrite Z.lor_spec, Z.shiftl_1_l, Z.pow2_bits_true by lia. apply orb_true_r.
Qed.

Lemma has_clear_flag (b k : Z) : 0 <= k -> has_flag (clear_flag b k) k = false.
Proof.
  intros Hk. rewrite has_flag_testbit by exact Hk. unfold clear_flag.
  rewrite Z.land_spec, Z.lnot_spec, Z.shiftl_1_l, Z.pow2_bits_true by lia.
  apply andb_false_r.
Qed.

Section Nodes.

(** [get_drift_factor] and the bit positions of [forcetree.h] are not among
    the sources at hand; so is the layout of the union [u] of a node. *)
Variable get_drift_factor : Z -> Z -> Q.
Variable BITFLAG_NODEHASBEENKICKED : Z.
Variable BITFLAG_TOPLEVEL : Z.
Variable as_moments : list Z -> d.t.

Variable E : domain.

Definition u_d (n : NODE) : d.t := moments_of as_moments (u n).

Definition real_force_drift_node (no time1 : Z) (t : tree) : outcome tree :=
  n ← node_at E t no;
  if time1 =? Ti_current n then Ok t
  else
    e ← ext_at E t no;
    let m := u_d n in
    '(m, e) ←
      (if has_flag (d.bitflags m) BITFLAG_NODEHASBEENKICKED then
         if negb (Ti_lastkicked e =? Ti_current n) then Endrun 1
         else
           let fac := if Qeq_bool (d.mass m) 0 then 0%Q else (1 / d.mass m)%Q in
           Ok (set_bitflags m (clear_flag (d.bitflags m) BITFLAG_NODEHASBEENKICKED),
               set_momentum e (vadd (vs e) (vscale fac (dp e))) (0, 0, 0)%Q)
       else Ok (m, e));
    let dt_drift := get_drift_factor (Ti_current n) time1 in
    let m := set_s m (vadd (d.s m) (vscale dt_drift (vs e))) in
    t ← set_node E t no (mkNode (len n + 2 * vmax e * dt_drift)%Q (center n) (Moments m) time1);
    set_ext E t no e.

(** for(j = 0, vmax = 0; j < 3; j++) if((v = fabs(P[i].Vel[j])) > vmax) vmax = v; *)
Definition largest_speed (v : vec3) : Q :=
  let '(v0, v1, v2) := v in Qmaxb (Qmaxb (Qmaxb 0 (Qabs v0)) (Qabs v1)) (Qabs v2).

(** The walk of [force_kick_node] up the tree, from node [no] on. *)
Fixpoint kick_walk (fuel : nat) (dpv : vec3) (vmx : Q) (no : Z) (s : kicks)
  : outcome kicks :=
  if no <? 0 then Ok s
  else
    match fuel with
    | O => Hang
    | S fuel' =>
        t ← real_force_drift_node no (All_Ti_Current E) (k_tree s);
        e ← ext_at E t no;
        n ← node_at E t no;
        let m := u_d n in
        let e := set_kick e (Qmaxb (vmax e) vmx) (vadd (dp e) dpv) (All_Ti_Current E) in
        let m := set_bitflags m (raise_flag (d.bitflags m) BITFLAG_NODEHASBEENKICKED) in
        t ← set_node E t no (with_u n (Moments m));
        if has_flag (d.bitflags m) BITFLAG_TOPLEVEL then
          if negb (Flag e =? GlobFlag E) then
            t ← set_ext E t no (set_Flag e (GlobFlag E));
            l ← wr (DomainList s) (DomainNumChanged s) no;
            Ok (mkKicks t l (DomainNumChanged s + 1))
          else
            t ← set_ext E t no e;
            Ok (mkKicks t (DomainList s) (DomainNumChanged s))
        else
          t ← set_ext E t no e;
          kick_walk fuel' dpv vmx (d.father m) (mkKicks t (DomainList s) (DomainNumChanged s))
    end.

Definition force_kick_node (fuel : nat) (i : Z) (dv : vec3) (s : kicks) : outcome kicks :=
  p ← rd (P E) i;
  if PType p =? NoTreeType E then Ok s
  else
    f ← rd (Father (k_tree s)) i;
    kick_walk fuel (vscale (Mass p) dv) (largest_speed (Vel p)) f s.

Hypothesis kicked_bit : 0 <= BITFLAG_NODEHASBEENKICKED.

Definition kicked (n : NODE) : bool := has_flag (d.bitflags (u_d n)) BITFLAG_NODEHASBEENKICKED.

Lemma set_node_keeps (t t' : tree) (no : Z) (x : NODE) :
  set_node E t no x = Ok t' ->
  Father t' = Father t /\ Extnodes t' = Extnodes t.
Proof.
  unfold set_node, mbind, outcome_bind. intros H. bind_inv H. injection H as <-.
  split; reflexivity.
Qed.

Lemma set_ext_keeps (t t' : tree) (no : Z) (x : extNODE) :
  set_ext E t no x = Ok t' ->
  Father t' = Father t /\ Nodes t' = Nodes t.
Proof.
  unfold set_ext, mbind, outcome_bind. intros H. bind_inv H. injection H as <-.
  split; reflexivity.
Qed.

(** What a drift that does something leaves of node [no]. *)
Record drifted (time1 : Z) (n : NODE) (e : extNODE) (n' : NODE) (e' : extNODE) : Prop := {
  dr_time : Ti_current n' = time1;
  dr_flag : kicked n' = false;
  dr_mass : d.mass (u_d n') = d.mass (u_d n);
  dr_father : d.father (u_d n') = d.father (u_d n);
  dr_center : center n' = center n;
  dr_ext : hmax e' = hmax e /\ vmax e' = vmax e /\ divVmax e' = divVmax e /\
           Flag e' = Flag e /\ Ti_lastkicked e' = Ti_lastkicked e;
  dr_kicked : kicked n = true ->
              dp e' = (0, 0, 0)%Q /\
              (~ d.mass (u_d n) == 0 ->
               veq (vscale (d.mass (u_d n)) (vs e'))
                   (vadd (vscale (d.mass (u_d n)) (vs e)) (dp e)))%Q /\
              (d.mass (u_d n) == 0 -> veq (vs e') (vs e))%Q;
  dr_free : kicked n = false -> vs e' = vs e /\ dp e' = dp e;
  dr_s : d.s (u_d n') =
         vadd (d.s (u_d n)) (vscale (get_drift_factor (Ti_current n) time1) (vs e'));
  dr_len : len n' = (len n + 2 * vmax e * get_drift_factor (Ti_current n) time1)%Q
}.

Lemma drift_node_run (no time1 : Z) (t t' : tree) :
  real_force_drift_node no time1 t = Ok t' ->
  exists n, node_at E t no = Ok n /\
    ((Ti_current n = time1 /\ t' = t) \/
     (Ti_current n <> time1 /\
      exists e n' e', ext_at E t no = Ok e /\
        (kicked n = true -> Ti_lastkicked e = Ti_current n) /\
        node_at E t' no = Ok n' /\ ext_at E t' no = Ok e' /\
        drifted time1 n e n' e' /\
        (forall x, x <> no -> node_at E t' x = node_at E t x /\ ext_at E t' x = ext_at E t x) /\
        Father t' = Father t)).
Proof.
  intros Hrun. unfold real_force_drift_node in Hrun. unfold mbind, outcome_bind in Hrun.
  bind_inv Hrun. rename a into n, E0 into Hn.
  exists n. split; [exact Hn |].
  destruct (Z.eqb_spec time1 (Ti_current n)) as [Heq | Hne].
  { injection Hrun as <-. left. split; congruence. }
  bind_inv Hrun. rename a into e, E0 into He.
  right. split; [congruence |].
  bind_inv Hrun. destruct a as [m1 e1]. rename E0 into Hme.
  bind_inv Hrun. rename a into t1, E0 into Ht1.
  destruct (node_at_set_node E _ _ _ no _ Ht1) as (Hn1 & He1 & _).
  destruct (ext_at_set_ext E _ _ _ no _ Hrun) as (He2 & Hn2 & _).
  rewrite Z.eqb_refl in Hn1, He2. rewrite Hn1 in Hn2.
  exists e. eexists. exists e1.
  split; [exact He |].
  assert (Hflag : kicked n = true -> Ti_lastkicked e = Ti_current n).
  { unfold kicked. intros Hk. rewrite Hk in Hme.
    destruct (Z.eqb_spec (Ti_lastkicked e) (Ti_current n)) as [H | H]; [exact H |].
    discriminate Hme. }
  split; [exact Hflag |].
  split; [exact Hn2 |]. split; [exact He2 |].
  split.
  - destruct (kicked n) eqn:Hk.
    + specialize (Hflag eq_refl). unfold kicked in Hk.
      rewrite Hk, Hflag, Z.eqb_refl in Hme. cbn [negb] in Hme.
      injection Hme as <- <-.
      assert (Hkn : kicked n = true) by exact Hk.
      constructor; try (intros H; congruence); try reflexivity.
      * apply has_clear_flag. exact kicked_bit.
      * repeat split; reflexivity.
      * intros _. split; [reflexivity |]. cbn [vs set_momentum]. split.
        -- intros Hm. destruct (Qeq_bool (d.mass (u_d n)) 0) eqn:Hz.
           { apply Qeq_bool_eq in Hz. contradiction. }
           destruct (vs e) as [[v0 v1] v2], (dp e) as [[p0 p1] p2].
           unfold veq, vscale, vadd. repeat split; field; exact Hm.
        -- intros Hm. destruct (Qeq_bool (d.mass (u_d n)) 0) eqn:Hz.
           2:{ apply Qeq_bool_neq in Hz. contradiction. }
           destruct (vs e) as [[v0 v1] v2], (dp e) as [[p0 p1] p2].
           unfold veq, vscale, vadd. repeat split; ring.
    + unfold kicked in Hk. rewrite Hk in Hme. injection Hme as <- <-.
      assert (Hkn : kicked n = false) by exact Hk.
      constructor; try (intros H; congruence); try reflexivity.
      * exact Hk.
      * repeat split; reflexivity.
      * intros _. split; reflexivity.
  - split.
    + intros x Hx.
      destruct (node_at_set_node E _ _ _ x _ Ht1) as (Hx1 & Hx2 & _).
      destruct (ext_at_set_ext E _ _ _ x _ Hrun) as (Hx3 & Hx4 & _).
      destruct (Z.eqb_spec x no); [contradiction |].
      split; congruence.
    + destruct (set_node_keeps _ _ _ _ Ht1) as [Hf1 _].
      destruct (set_ext_keeps _ _ _ _ Hrun) as [Hf2 _]. congruence.
Qed.

(** X4: the effect of a drift.  When [real_force_drift_node] returns, the
    node is at time [time1]; drifting it to [time1] again changes nothing; no
    other node is touched; and when the node was at another time, a pending
    kick has been folded in, once: the flag is cleared, [dp] is zero, and the
    mass times [vs] has grown by [dp] (a node without mass keeps its [vs]),
    after which [s] has moved by [vs] times the drift factor. *)
Theorem drift_node_spec (no time1 : Z) (t t' : tree) :
  real_force_drift_node no time1 t = Ok t' ->
  real_force_drift_node no time1 t' = Ok t' /\
  (exists n', node_at E t' no = Ok n' /\ Ti_current n' = time1) /\
  (forall n e, node_at E t no = Ok n -> ext_at E t no = Ok e -> Ti_current n <> time1 ->
     exists n' e', node_at E t' no = Ok n' /\ ext_at E t' no = Ok e' /\
                   drifted time1 n e n' e') /\
  (forall x, x <> no -> node_at E t' x = node_at E t x /\ ext_at E t' x = ext_at E t x).
Proof.
  intros Hrun.
  destruct (drift_node_run _ _ _ _ Hrun) as (n & Hn & [[Ht ->] | (Hne & e & n' & e' & He & _ & Hn' & He' & Hd & Hfr & _)]).
  - split; [exact Hrun |]. split; [eauto |]. split; [| auto].
    intros n0 e0 Hn0 _ Hne. congruence.
  - split; [| split; [| split]].
    + unfold real_force_drift_node, mbind, outcome_bind. rewrite Hn'. cbn [obind].
      rewrite (dr_time _ _ _ _ _ Hd), Z.eqb_refl. reflexivity.
    + exists n'. split; [exact Hn' | exact (dr_time _ _ _ _ _ Hd)].
    + intros n0 e0 Hn0 He0 _. rewrite Hn in Hn0. rewrite He in He0.
      injection Hn0 as <-. injection He0 as <-. eauto.
    + exact Hfr.
Qed.

(** The check of [real_force_drift_node] holds everywhere: a node that has
    been kicked was kicked at its own time. *)
Definition consistent (t : tree) : Prop :=
  forall no n e, node_at E t no = Ok n -> ext_at E t no = Ok e ->
                 kicked n = true -> Ti_lastkicked e = Ti_current n.

Lemma drift_consistent (no time1 : Z) (t t' : tree) :
  consistent t -> real_force_drift_node no time1 t = Ok t' -> consistent t'.
Proof.
  intros Hc Hrun.
  destruct (drift_node_run _ _ _ _ Hrun) as (n & Hn & [[Ht ->] | (Hne & e & n' & e' & He & _ & Hn' & He' & Hd & Hfr & _)]);
    [exact Hc |].
  intros x nx ex Hnx Hex Hk. destruct (Z.eq_dec x no) as [-> | Hx].
  - rewrite Hn' in Hnx. injection Hnx as <-. rewrite (dr_flag _ _ _ _ _ Hd) in Hk. discriminate.
  - destruct (Hfr x Hx) as [H1 H2]. rewrite H1 in Hnx. rewrite H2 in Hex.
    exact (Hc x nx ex Hnx Hex Hk).
Qed.

Lemma drift_no_endrun (no time1 : Z) (t : tree) :
  consistent t -> only (fun _ => False) (real_force_drift_node no time1 t).
Proof.
  intros Hc. unfold real_force_drift_node, mbind, outcome_bind.
  apply only_bind; [apply only_rd |]. intros n Hn.
  destruct (time1 =? Ti_current n); [apply only_Ok |].
  apply only_bind; [apply only_rd |]. intros e He.
  apply only_bind.
  - destruct (has_flag (d.bitflags (u_d n)) BITFLAG_NODEHASBEENKICKED) eqn:Hk; [| apply only_Ok].
    rewrite (Hc no n e Hn He Hk), Z.eqb_refl. apply only_Ok.
  - intros [m1 e1] _. only_run.
Qed.

(** One turn of the walk of a kick, taken apart. *)
Lemma kick_walk_turn (fuel : nat) (dpv : vec3) (vmx : Q) (no : Z) (s s' : kicks) :
  0 <= no -> kick_walk (S fuel) dpv vmx no s = Ok s' ->
  exists t1 n e t2,
    real_force_drift_node no (All_Ti_Current E) (k_tree s) = Ok t1 /\
    ext_at E t1 no = Ok e /\ node_at E t1 no = Ok n /\
    set_node E t1 no
      (with_u n (Moments (set_bitflags (u_d n)
                   (raise_flag (d.bitflags (u_d n)) BITFLAG_NODEHASBEENKICKED)))) = Ok t2 /\
    exists e' t3, set_ext E t2 no e' = Ok t3 /\
      Ti_lastkicked e' = All_Ti_Current E /\
      dp e' = vadd (dp e) dpv /\ vmax e' = Qmaxb (vmax e) vmx /\
      ((Flag e <> GlobFlag E /\ Flag e' = GlobFlag E /\
        exists l, wr (DomainList s) (DomainNumChanged s) no = Ok l /\
                  s' = mkKicks t3 l (DomainNumChanged s + 1)) \/
       (Flag e' = Flag e /\
        (s' = mkKicks t3 (DomainList s) (DomainNumChanged s) \/
         kick_walk fuel dpv vmx (d.father (u_d n))
                   (mkKicks t3 (DomainList s) (DomainNumChanged s)) = Ok s'))).
Proof.
  intros Hno Hrun. cbn [kick_walk] in Hrun.
  destruct (Z.ltb_spec no 0) as [| _]; [lia |].
  unfold mbind, outcome_bind in Hrun.
  bind_inv Hrun. rename a into t1, E0 into Ht1.
  bind_inv Hrun. rename a into e, E0 into He.
  bind_inv Hrun. rename a into n, E0 into Hn.
  bind_inv Hrun. rename a into t2, E0 into Ht2.
  exists t1, n, e, t2. do 4 (split; [assumption |]).
  destruct (has_flag _ BITFLAG_TOPLEVEL).
  - destruct (Z.eqb_spec (Flag (set_kick e (Qmaxb (vmax e) vmx) (vadd (dp e) dpv)
                                  (All_Ti_Current E))) (GlobFlag E)) as [Hf | Hf];
      cbn [negb] in Hrun.
    + bind_inv Hrun. injection Hrun as <-.
      eexists. exists a. split; [exact E0 |]. do 3 (split; [reflexivity |]).
      right. split; [reflexivity |]. left. reflexivity.
    + bind_inv Hrun. bind_inv Hrun. injection Hrun as <-.
      eexists. exists a. split; [exact E0 |]. do 3 (split; [reflexivity |]).
      left. split; [exact Hf |]. split; [reflexivity |]. eauto.
  - bind_inv Hrun.
    eexists. exists a. split; [exact E0 |]. do 3 (split; [reflexivity |]).
    right. split; [reflexivity |]. right. exact Hrun.
Qed.

Lemma kicked_update_consistent (t1 t2 t3 : tree) (no : Z) (n : NODE) (v : node_u)
  (e' : extNODE) :
  consistent t1 -> node_at E t1 no = Ok n -> Ti_current n = All_Ti_Current E ->
  set_node E t1 no (with_u n v) = Ok t2 -> set_ext E t2 no e' = Ok t3 ->
  Ti_lastkicked e' = All_Ti_Current E ->
  consistent t3.
Proof.
  intros Hc Hn Hti Ht2 Ht3 Hlk x nx ex Hnx Hex Hk.
  destruct (node_at_set_node E _ _ _ x _ Ht2) as (Hx1 & Hx2 & _).
  destruct (ext_at_set_ext E _ _ _ x _ Ht3) as (Hx3 & Hx4 & _).
  rewrite Hx4, Hx1 in Hnx. rewrite Hx3 in Hex.
  destruct (Z.eqb_spec x no) as [-> | Hx].
  - injection Hnx as <-. injection Hex as <-. cbn [Ti_current with_u]. congruence.
  - rewrite Hx2 in Hex. exact (Hc x nx ex Hnx Hex Hk).
Qed.

Lemma drift_reaches (no time1 : Z) (t t' : tree) (n : NODE) :
  real_force_drift_node no time1 t = Ok t' -> node_at E t' no = Ok n ->
  Ti_current n = time1.
Proof.
  intros Hrun Hn. destruct (drift_node_spec _ _ _ _ Hrun) as (_ & (n' & Hn' & Ht) & _).
  congruence.
Qed.

Lemma kick_walk_consistent (dpv : vec3) (vmx : Q) (fuel : nat) :
  forall no s s', consistent (k_tree s) -> kick_walk fuel dpv vmx no s = Ok s' ->
                  consistent (k_tree s').
Proof.
  induction fuel as [| fuel IH]; intros no s s' Hc Hrun.
  - cbn in Hrun. destruct (no <? 0); [injection Hrun as <-; exact Hc | discriminate].
  - destruct (Z.ltb_spec no 0) as [Hneg | Hno].
    { cbn in Hrun. destruct (Z.ltb_spec no 0); [| lia]. injection Hrun as <-. exact Hc. }
    destruct (kick_walk_turn _ _ _ _ _ _ Hno Hrun)
      as (t1 & n & e & t2 & Ht1 & He & Hn & Ht2 & e' & t3 & Ht3 & Hlk & _ & _ & Hcase).
    assert (Hc3 : consistent t3).
    { refine (kicked_update_consistent t1 t2 t3 no n _ e' _ Hn _ Ht2 Ht3 Hlk).
      - eapply drift_consistent; eassumption.
      - eapply drift_reaches; eassumption. }
    destruct Hcase as [(_ & _ & l & _ & ->) | (_ & [-> | Hrec])]; try exact Hc3.
    exact (IH _ (mkKicks t3 (DomainList s) (DomainNumChanged s)) _ Hc3 Hrec).
Qed.

Lemma kick_walk_no_endrun (dpv : vec3) (vmx : Q) (fuel : nat) :
  forall no s, consistent (k_tree s) -> only (fun _ => False) (kick_walk fuel dpv vmx no s).
Proof.
  induction fuel as [| fuel IH]; intros no s Hc.
  - cbn. destruct (no <? 0); [apply only_Ok | apply only_Hang].
  - cbn [kick_walk]. destruct (no <? 0); [apply only_Ok |].
    unfold mbind, outcome_bind.
    apply only_bind; [apply drift_no_endrun; exact Hc | intros t1 Ht1].
    apply only_bind; [apply only_rd | intros e He].
    apply only_bind; [apply only_rd | intros n Hn].
    apply only_bind; [unfold set_node; only_run | intros t2 Ht2].
    destruct (has_flag _ BITFLAG_TOPLEVEL).
    + destruct (negb _); unfold set_ext; only_run.
    + apply only_bind; [unfold set_ext; only_run | intros t3 Ht3].
      apply IH. cbn [k_tree].
      refine (kicked_update_consistent t1 t2 t3 no n _ _ _ Hn _ Ht2 Ht3 eq_refl).
      * eapply drift_consistent; eassumption.
      * eapply drift_reaches; eassumption.
Qed.

(** X5: a kick keeps the nodes consistent, and never trips the check.  When
    every node that carries the kicked flag was kicked at its own time,
    [force_kick_node] does not end the run, and when it returns the same
    holds of the tree it leaves: the drifts that come later will not find
    the inconsistency they test for. *)
Theorem kick_keeps_consistent (fuel : nat) (i : Z) (dv : vec3) (s : kicks) :
  consistent (k_tree s) ->
  only (fun _ => False) (force_kick_node fuel i dv s) /\
  (forall s', force_kick_node fuel i dv s = Ok s' -> consistent (k_tree s')).
Proof.
  intros Hc. split.
  - unfold force_kick_node, mbind, outcome_bind.
    apply only_bind; [apply only_rd | intros p _].
    destruct (PType p =? NoTreeType E); [apply only_Ok |].
    apply only_bind; [apply only_rd | intros f _].
    apply kick_walk_no_endrun. exact Hc.
  - intros s' Hrun. unfold force_kick_node, mbind, outcome_bind in Hrun.
    bind_inv Hrun. destruct (PType a =? NoTreeType E).
    + injection Hrun as <-. exact Hc.
    + bind_inv Hrun. eapply kick_walk_consistent; eassumption.
Qed.

(** The first [DomainNumChanged] entries of [DomainList] are distinct
    nodes, and each carries the current [GlobFlag]. *)
Record listed (s : kicks) : Prop := {
  listed_count : 0 <= DomainNumChanged s <= zlen (DomainList s);
  listed_once : NoDup (take (Z.to_nat (DomainNumChanged s)) (DomainList s));
  listed_flag : forall x, x ∈ take (Z.to_nat (DomainNumChanged s)) (DomainList s) ->
                  exists e, ext_at E (k_tree s) x = Ok e /\ Flag e = GlobFlag E
}.

Lemma drift_keeps_flag (no time1 : Z) (t t' : tree) (x : Z) (e : extNODE) :
  real_force_drift_node no time1 t = Ok t' -> ext_at E t x = Ok e ->
  exists e', ext_at E t' x = Ok e' /\ Flag e' = Flag e.
Proof.
  intros Hrun He.
  destruct (drift_node_run _ _ _ _ Hrun) as (n & Hn & [[Ht ->] | (Hne & e0 & n' & e' & He0 & _ & Hn' & He' & Hd & Hfr & _)]);
    [eauto |].
  destruct (Z.eq_dec x no) as [-> | Hx].
  - exists e'. split; [exact He' |]. rewrite He0 in He. injection He as <-.
    apply (dr_ext _ _ _ _ _ Hd).
  - exists e. split; [| reflexivity]. destruct (Hfr x Hx) as [_ H]. congruence.
Qed.

Lemma kick_walk_listed (dpv : vec3) (vmx : Q) (fuel : nat) :
  forall no s s', listed s -> kick_walk fuel dpv vmx no s = Ok s' ->
    listed s' /\
    DomainNumChanged s <= DomainNumChanged s' <= DomainNumChanged s + 1 /\
    take (Z.to_nat (DomainNumChanged s)) (DomainList s') =
    take (Z.to_nat (DomainNumChanged s)) (DomainList s).
Proof.
  induction fuel as [| fuel IH]; intros no s s' Hl Hrun.
  - cbn in Hrun. destruct (no <? 0); [| discriminate]. injection Hrun as <-.
    split; [exact Hl |]. split; [lia | reflexivity].
  - destruct (Z.ltb_spec no 0) as [Hneg | Hno].
    { cbn in Hrun. destruct (Z.ltb_spec no 0); [| lia]. injection Hrun as <-.
      split; [exact Hl |]. split; [lia | reflexivity]. }
    destruct (kick_walk_turn _ _ _ _ _ _ Hno Hrun)
      as (t1 & n & e & t2 & Ht1 & He & Hn & Ht2 & e' & t3 & Ht3 & _ & _ & _ & Hcase).
    destruct Hl as [Hcount Honce Hflag].
    (* the flags of the listed nodes in [t3] *)
    assert (Hflag3 : forall x, x ∈ take (Z.to_nat (DomainNumChanged s)) (DomainList s) ->
              (x = no -> Flag e' = GlobFlag E) ->
              exists ex, ext_at E t3 x = Ok ex /\ Flag ex = GlobFlag E).
    { intros x Hx Hxno. destruct (Hflag x Hx) as (e0 & He0 & Hf0).
      destruct (drift_keeps_flag _ _ _ _ x e0 Ht1 He0) as (e1 & He1 & Hf1).
      destruct (node_at_set_node E _ _ _ x _ Ht2) as (_ & Hx2 & _).
      destruct (ext_at_set_ext E _ _ _ x _ Ht3) as (Hx3 & _).
      destruct (Z.eqb_spec x no) as [-> | Hne].
      - exists e'. split; [exact Hx3 | auto].
      - exists e1. split; [congruence | congruence]. }
    assert (Hlisted_no : no ∈ take (Z.to_nat (DomainNumChanged s)) (DomainList s) ->
                         Flag e = GlobFlag E).
    { intros Hx. destruct (Hflag no Hx) as (e0 & He0 & Hf0).
      destruct (drift_keeps_flag _ _ _ _ no e0 Ht1 He0) as (e1 & He1 & Hf1). congruence. }
    destruct Hcase as [(Hfe & Hfe' & l & Hwr & ->) | (Hfe' & [-> | Hrec])].
    + apply wr_Ok in Hwr as [Hin ->]. cbn [DomainNumChanged DomainList k_tree].
      unfold zlen in *.
      assert (Htake : take (Z.to_nat (DomainNumChanged s + 1))
                        (<[Z.to_nat (DomainNumChanged s) := no]> (DomainList s)) =
                      take (Z.to_nat (DomainNumChanged s)) (DomainList s) ++ [no]).
      { replace (Z.to_nat (DomainNumChanged s + 1)) with (S (Z.to_nat (DomainNumChanged s))) by lia.
        rewrite (take_S_r _ _ no) by (apply list_lookup_insert_eq; lia).
        rewrite take_insert_ge by lia. reflexivity. }
      split; [| split; [lia | apply take_insert_ge; lia]].
      constructor; cbn [DomainNumChanged DomainList k_tree].
      * unfold zlen. rewrite length_insert. lia.
      * rewrite Htake. apply NoDup_app. split; [exact Honce |]. split; [| apply NoDup_singleton].
        intros x Hx Hx'. apply list_elem_of_singleton in Hx'. subst x.
        apply Hfe. apply Hlisted_no. exact Hx.
      * intros x Hx. rewrite Htake in Hx. apply elem_of_app in Hx as [Hx | Hx].
        -- apply Hflag3; [exact Hx | intros _; exact Hfe'].
        -- apply list_elem_of_singleton in Hx. subst x.
           destruct (ext_at_set_ext E _ _ _ no _ Ht3) as (Hx3 & _).
           rewrite Z.eqb_refl in Hx3. eauto.
    + split; [| split; [cbn; lia | reflexivity]].
      constructor; cbn [DomainNumChanged DomainList k_tree]; try assumption.
      intros x Hx. apply Hflag3; [exact Hx |]. intros ->. rewrite Hfe'. auto.
    + assert (Hl3 : listed (mkKicks t3 (DomainList s) (DomainNumChanged s))).
      { constructor; cbn [DomainNumChanged DomainList k_tree]; try assumption.
        intros x Hx. apply Hflag3; [exact Hx |]. intros ->. rewrite Hfe'. auto. }
      exact (IH _ _ _ Hl3 Hrec).
Qed.

(** X6: no top-level node is listed twice.  When the first
    [DomainNumChanged] entries of [DomainList] are distinct nodes that carry
    the current [GlobFlag], they still are after [force_kick_node]; the kick
    appends at most one node and leaves the entries before it as they
    were. *)
Theorem kick_lists_once (fuel : nat) (i : Z) (dv : vec3) (s s' : kicks) :
  listed s ->
  force_kick_node fuel i dv s = Ok s' ->
  listed s' /\
  DomainNumChanged s <= DomainNumChanged s' <= DomainNumChanged s + 1 /\
  take (Z.to_nat (DomainNumChanged s)) (DomainList s') =
  take (Z.to_nat (DomainNumChanged s)) (DomainList s).
Proof.
  intros Hl Hrun. unfold force_kick_node, mbind, outcome_bind in Hrun.
  bind_inv Hrun. destruct (PType a =? NoTreeType E).
  - injection Hrun as <-. split; [exact Hl |]. split; [lia | reflexivity].
  - bind_inv Hrun. eapply kick_walk_listed; eassumption.
Qed.

End Nodes.

(** A root (node 4, a top-level node) and one node below it (node 5) that
    holds particle 0; the drift factor is the time elapsed; the kicked flag
    is bit 9 and the top-level flag bit 0. *)
Definition sample_domain : domain :=
  mkDomain 4 100 9 8 [] [] 0 16 (8, 8, 8)%Q (0, 0, 0)%Q 1 (-1) [] 5 1 1
           [body 1 1 1 1 2] [].

Definition sample_tree (flags5 : Z) (dp5 : vec3) : tree :=
  mkTree [mkNode 16 (8, 8, 8)%Q (Moments (d.mk (8, 8, 8)%Q 2 1 (-1) (-1) (-1))) 0;
          mkNode 8 (4, 4, 4)%Q (Moments (d.mk (1, 1, 1)%Q 2 flags5 (-1) 0 4)) 0]
         [blank_ext; mkExt 0 0 0 (1, 0, 0)%Q dp5 0 0]
         [] [5; -1; -1; -1] [] 2 (-1).

Definition elapsed (t0 t1 : Z) : Q := inject_Z (t1 - t0).

Lemma drift_node_spec_witness :
  exists t',
    real_force_drift_node elapsed 9 (fun _ => sample_moments) sample_domain 5 3
      (sample_tree 512 (4, 0, 0)%Q) = Ok t' /\
    real_force_drift_node elapsed 9 (fun _ => sample_moments) sample_domain 5 3 t' = Ok t' /\
    (exists n', node_at sample_domain t' 5 = Ok n' /\ Ti_current n' = 3) /\
    (exists e', ext_at sample_domain t' 5 = Ok e' /\ dp e' = (0, 0, 0)%Q /\
                veq (vs e') (3, 0, 0)%Q).
Proof.
  destruct (real_force_drift_node elapsed 9 (fun _ => sample_moments) sample_domain 5 3
              (sample_tree 512 (4, 0, 0)%Q)) as [t' | | |] eqn:Hrun;
    [| vm_compute in Hrun; discriminate ..].
  destruct (drift_node_spec elapsed 9 (fun _ => sample_moments) sample_domain
              ltac:(lia) 5 3 _ t' Hrun) as (Hagain & Hat & _).
  exists t'. split; [reflexivity |]. split; [exact Hagain |]. split; [exact Hat |].
  vm_compute in Hrun. injection Hrun as <-.
  eexists. split; [reflexivity |]. split; [reflexivity |]. vm_compute. repeat split.
Defined.

Lemma sample_tree_consistent :
  consistent 9 (fun _ => sample_moments) sample_domain (sample_tree 0 (0, 0, 0)%Q).
Proof.
  intros no n e Hn _ Hk. unfold node_at in Hn. apply rd_Ok in Hn as [H0 Hn].
  cbn [MaxPart sample_domain] in *.
  destruct (Z.to_nat (no - 4)) as [| [| k]]; cbn in Hn; try discriminate;
    injection Hn as <-; vm_compute in Hk; discriminate.
Qed.

Definition sample_kicks : kicks := mkKicks (sample_tree 0 (0, 0, 0)%Q) [0; 0] 0.

Lemma kick_keeps_consistent_witness :
  exists s',
    force_kick_node elapsed 9 0 (fun _ => sample_moments) sample_domain 4 0 (1, 0, 0)%Q
      sample_kicks = Ok s' /\
    consistent 9 (fun _ => sample_moments) sample_domain (k_tree s').
Proof.
  destruct (force_kick_node elapsed 9 0 (fun _ => sample_moments) sample_domain 4 0
              (1, 0, 0)%Q sample_kicks) as [s' | | |] eqn:Hrun;
    [| vm_compute in Hrun; discriminate ..].
  exists s'. split; [reflexivity |].
  exact (proj2 (kick_keeps_consistent elapsed 9 0 (fun _ => sample_moments) sample_domain
                  ltac:(lia) 4 0 (1, 0, 0)%Q sample_kicks sample_tree_consistent) s' Hrun).
Defined.

Lemma sample_kicks_listed : listed sample_domain sample_kicks.
Proof.
  constructor.
  - vm_compute. intuition congruence.
  - apply NoDup_nil_2.
  - intros x Hx. cbn in Hx. apply elem_of_nil in Hx. contradiction.
Qed.

Lemma kick_lists_once_witness :
  exists s',
    force_kick_node elapsed 9 0 (fun _ => sample_moments) sample_domain 4 0 (1, 0, 0)%Q
      sample_kicks = Ok s' /\
    listed sample_domain s' /\
    DomainNumChanged s' = 1 /\ DomainList s' = [4; 0].
Proof.
  destruct (force_kick_node elapsed 9 0 (fun _ => sample_moments) sample_domain 4 0
              (1, 0, 0)%Q sample_kicks) as [s' | | |] eqn:Hrun;
    [| vm_compute in Hrun; discriminate ..].
  destruct (kick_lists_once elapsed 9 0 (fun _ => sample_moments) sample_domain
              ltac:(lia) 4 0 (1, 0, 0)%Q sample_kicks s' sample_kicks_listed Hrun)
    as (Hl & _ & _).
  exists s'. split; [reflexivity |]. split; [exact Hl |].
  vm_compute in Hrun. injection Hrun as <-. split; reflexivity.
Defined.

End Kick.

(** ** Packing the particle array: [rearrange_particle_sequence] *)

Module Sequence.

Import Exchange.

(** The globals the routine works on; [SPHP(i)] is [SphP[i]]. *)
Record seq_state : Type := mkSeq {
  s_P : list particle_data;
  s_SphP : list sph_particle_data;
  s_NumPart : Z;
  s_N_sph : Z;
  TimeBinCount : list Z;
  TimeBinCountSph : list Z
}.

(** MPI_Allreduce(..., MPI_SUM, ...) of one [int]. *)
Definition MPI_SUM (l : list Z) : Z := zsum l.

(** Putting [b] where [a] was trades one for the other. *)
Lemma replace_perm {A : Type} (l : list A) (i : nat) (a b : A) :
  l !! i = Some a -> a :: <[i := b]> l ≡ₚ b :: l.
Proof.
  intros Hi. assert (Hlt : (i < length l)%nat) by (eapply lookup_lt_Some; exact Hi).
  rewrite insert_take_drop by exact Hlt.
  rewrite <- (take_drop_middle l i a Hi) at 3.
  rewrite <- !Permutation_middle. apply perm_swap.
Qed.

Lemma take_replace_perm {A : Type} (l : list A) (i n : nat) (a b : A) :
  l !! i = Some a -> (i < n)%nat -> a :: take n (<[i := b]> l) ≡ₚ b :: take n l.
Proof.
  intros Hi Hn. rewrite take_insert_lt by exact Hn.
  apply replace_perm. rewrite lookup_take_lt by exact Hn. exact Hi.
Qed.

(** Taking entry [i] out of the first [n] and closing the gap with the last
    of them. *)
Lemma take_swap_out {A : Type} (l : list A) (i n : nat) (x y : A) :
  (i < n)%nat -> l !! i = Some x -> l !! (n - 1)%nat = Some y ->
  take n l ≡ₚ x :: take (n - 1)%nat (<[i := y]> l).
Proof.
  intros Hn Hx Hy.
  replace n with (S (n - 1)%nat) at 1 by lia. rewrite (take_S_r _ _ y Hy).
  rewrite <- Permutation_cons_append.
  destruct (Nat.eq_dec i (n - 1)%nat) as [-> | Hne].
  - rewrite Hx in Hy. injection Hy as <-. rewrite list_insert_id by exact Hx. reflexivity.
  - symmetry. apply take_replace_perm; [exact Hx | lia].
Qed.

Lemma swap_perm {A : Type} (l : list A) (i j : nat) (a b : A) :
  l !! i = Some a -> l !! j = Some b -> <[j := a]> (<[i := b]> l) ≡ₚ l.
Proof.
  intros Hi Hj. destruct (Nat.eq_dec i j) as [<- | Hne].
  - rewrite Hi in Hj. injection Hj as <-. rewrite !list_insert_id; [reflexivity | exact Hi |].
    rewrite list_insert_id by exact Hi. exact Hi.
  - apply (Permutation_cons_inv (a := b)).
    rewrite <- (replace_perm l i a b Hi).
    apply replace_perm. rewrite list_lookup_insert_ne by exact Hne. exact Hj.
Qed.

Section Rearrange.

(** [reconstruct_timebins] is not among the sources at hand. *)
Variable reconstruct_timebins : seq_state -> outcome seq_state.

(** while(P[i].Type != 0 && i < N_sph): the particle is no gas particle any
    more; it changes places with the last gas particle, whose SPH record
    comes along. *)
Fixpoint sfr_while (fuel : nat) (i : Z) (s : seq_state * Z) : outcome (seq_state * Z) :=
  let '(st, flag) := s in
  pi ← rd (s_P st) i;
  if negb (PType pi =? 0) && (i <? s_N_sph st) then
    match fuel with
    | O => Hang
    | S fuel' =>
        let psave := pi in
        last ← rd (s_P st) (s_N_sph st - 1);
        p ← wr (s_P st) i last;
        slast ← rd (s_SphP st) (s_N_sph st - 1);
        sp ← wr (s_SphP st) i slast;
        p ← wr p (s_N_sph st - 1) psave;
        sfr_while fuel' i
          (mkSeq p sp (s_NumPart st) (s_N_sph st - 1) (TimeBinCount st) (TimeBinCountSph st), 1)
    end
  else Ok s.

(** for(i = 0; i < N_sph; i++) *)
Fixpoint sfr_for (fuel : nat) (i : Z) (s : seq_state * Z) : outcome (seq_state * Z) :=
  if i <? s_N_sph (fst s) then
    match fuel with
    | O => Hang
    | S fuel' => s ← sfr_while fuel i s; sfr_for fuel' (i + 1) s
    end
  else Ok s.

(** The body of the loop that eliminates the particles without mass, for a
    particle without mass. *)
Definition eliminate (i : Z) (st : seq_state) : outcome (seq_state * bool) :=
  pi ← rd (s_P st) i;
  c ← rd (TimeBinCount st) (TimeBin pi);
  tbc ← wr (TimeBinCount st) (TimeBin pi) (c - 1);
  if PType pi =? 0 then
    cs ← rd (TimeBinCountSph st) (TimeBin pi);
    tbcs ← wr (TimeBinCountSph st) (TimeBin pi) (cs - 1);
    last ← rd (s_P st) (s_N_sph st - 1);
    p ← wr (s_P st) i last;
    slast ← rd (s_SphP st) (s_N_sph st - 1);
    sp ← wr (s_SphP st) i slast;
    end_ ← rd p (s_NumPart st - 1);
    p ← wr p (s_N_sph st - 1) end_;
    Ok (mkSeq p sp (s_NumPart st - 1) (s_N_sph st - 1) tbc tbcs, true)
  else
    end_ ← rd (s_P st) (s_NumPart st - 1);
    p ← wr (s_P st) i end_;
    Ok (mkSeq p (s_SphP st) (s_NumPart st - 1) (s_N_sph st) tbc (TimeBinCountSph st), false).

(** for(i = 0; i < NumPart; i++) if(P[i].Mass == 0) { ...; NumPart--; i--; }
    with the two counters [count_elim] and [count_gaselim]. *)
Fixpoint eliminate_for (fuel : nat) (i : Z) (s : seq_state * Z * Z)
  : outcome (seq_state * Z * Z) :=
  let '(st, count_elim, count_gaselim) := s in
  if i <? s_NumPart st then
    match fuel with
    | O => Hang
    | S fuel' =>
        pi ← rd (s_P st) i;
        if Qeq_bool (Mass pi) 0 then
          '(st, gas) ← eliminate i st;
          eliminate_for fuel' i
            (st, count_elim + 1, if gas : bool then count_gaselim + 1 else count_gaselim)
        else eliminate_for fuel' (i + 1) s
    end
  else Ok s.

(** The local part of the routine on one process, with [SFR] and
    [BLACK_HOLES] switched on as in [Options.mk.example]: the state it
    leaves, its [flag], and the two counters. *)
Definition rearrange_local (fuel : nat) (st : seq_state) : outcome (seq_state * Z * Z * Z) :=
  '(st, flag) ← sfr_for fuel 0 (st, 0);
  '(st, count_elim, count_gaselim) ← eliminate_for fuel 0 (st, 0, 0);
  let flag := if negb (count_elim =? 0) then 1 else flag in
  Ok (st, flag, count_elim, count_gaselim).

Fixpoint each_local (fuel : nat) (G : list seq_state) : outcome (list (seq_state * Z * Z * Z)) :=
  match G with
  | [] => Ok []
  | st :: G' => r ← rearrange_local fuel st; rs ← each_local fuel G'; Ok (r :: rs)
  end.

Fixpoint each_reconstruct (G : list seq_state) : outcome (list seq_state) :=
  match G with
  | [] => Ok []
  | st :: G' => st ← reconstruct_timebins st; G'' ← each_reconstruct G'; Ok (st :: G'')
  end.

(** [rearrange_particle_sequence] on all processes: the states, and the two
    totals [tot_elim] and [tot_gaselim] of the message. *)
Definition rearrange_particle_sequence (fuel : nat) (G : list seq_state)
  : outcome (list seq_state * Z * Z) :=
  rs ← each_local fuel G;
  let tot_elim := MPI_SUM (map (fun r => snd (fst r)) rs) in
  let tot_gaselim := MPI_SUM (map snd rs) in
  let flag_sum := MPI_SUM (map (fun r => snd (fst (fst r))) rs) in
  let G := map (fun r => fst (fst (fst r))) rs in
  G ← (if negb (flag_sum =? 0) then each_reconstruct G else Ok G);
  Ok (G, tot_elim, tot_gaselim).

End Rearrange.

Definition massless (p : particle_data) : Prop := (Mass p == 0)%Q.

(** The gas particles come first: among the first [NumPart] particles
    those of type 0 are the first [N_sph]. *)
Definition gas_in_front (st : seq_state) : Prop :=
  forall k p, 0 <= k < s_NumPart st -> rd (s_P st) k = Ok p ->
              (PType p = 0 <-> k < s_N_sph st).

(** The particles of the array, and the gas particles with their SPH
    records. *)
Definition particles (st : seq_state) : list particle_data :=
  take (Z.to_nat (s_NumPart st)) (s_P st).

Definition gas (st : seq_state) : list (particle_data * sph_particle_data) :=
  zip (take (Z.to_nat (s_N_sph st)) (s_P st)) (take (Z.to_nat (s_N_sph st)) (s_SphP st)).

(** The state of the elimination loop at index [i]. *)
Record elim_inv (st0 : seq_state) (i : Z) (st : seq_state) (ce cg : Z) : Prop := {
  ei_bounds : 0 <= i <= s_NumPart st /\ 0 <= s_N_sph st <= s_NumPart st;
  ei_gas : gas_in_front st;
  ei_done : forall k p, 0 <= k < i -> rd (s_P st) k = Ok p -> ~ massless p;
  ei_all : exists gone, Forall massless gone /\ Z.of_nat (length gone) = ce /\
             particles st0 ≡ₚ gone ++ particles st;
  ei_pairs : exists gone, Forall (fun x => massless (fst x)) gone /\
               Z.of_nat (length gone) = cg /\ gas st0 ≡ₚ gone ++ gas st;
  ei_counts : s_NumPart st = s_NumPart st0 - ce /\ s_N_sph st = s_N_sph st0 - cg /\
              0 <= cg <= ce
}.

Lemma rd_lookup {A : Type} (l : list A) (i : Z) (x : A) :
  rd l i = Ok x -> l !! Z.to_nat i = Some x.
Proof. intros H. apply rd_Ok in H. tauto. Qed.

Lemma eliminate_other (st0 : seq_state) (i : Z) (st st' : seq_state) (ce cg : Z)
  (pi : particle_data) :
  elim_inv st0 i st ce cg -> i < s_NumPart st ->
  rd (s_P st) i = Ok pi -> massless pi -> PType pi <> 0 ->
  eliminate i st = Ok (st', false) ->
  elim_inv st0 i st' (ce + 1) cg.
Proof.
  intros [Hb Hgas Hdone (gone & Hgone & Hlen & Hall) Hpairs Hc] Hi Hpi Hm Hty Hrun.
  unfold eliminate, mbind, outcome_bind in Hrun.
  rewrite Hpi in Hrun. cbn [obind] in Hrun.
  bind_inv Hrun. bind_inv Hrun.
  destruct (Z.eqb_spec (PType pi) 0) as [| _]; [contradiction |].
  bind_inv Hrun. rename a1 into end_, E1 into Hend.
  bind_inv Hrun. rename a1 into p1, E1 into Hp1.
  injection Hrun as <-.
  assert (His : s_N_sph st <= i).
  { destruct (Z.lt_ge_cases i (s_N_sph st)) as [Hlt | Hge]; [| exact Hge].
    exfalso. apply Hty. apply (Hgas i pi); [lia | exact Hpi | exact Hlt]. }
  assert (Hrd : forall j, rd p1 j = if j =? i then Ok end_ else rd (s_P st) j)
    by (intros j; exact (rd_wr _ _ _ j _ Hp1)).
  apply wr_Ok in Hp1 as [Hir ->].
  constructor; unfold gas_in_front; cbn [s_P s_SphP s_NumPart s_N_sph].
  - lia.
  - intros k p Hk Hp. rewrite Hrd in Hp.
    destruct (Z.eqb_spec k i) as [-> | Hne].
    + injection Hp as <-.
      pose proof (Hgas (s_NumPart st - 1) end_ ltac:(lia) Hend) as H.
      split; intros H1; [apply H in H1 |]; lia.
    + pose proof (Hgas k p ltac:(lia) Hp) as H. split; intros H1; apply H; lia || assumption.
  - intros k p Hk Hp. apply (Hdone k p Hk).
    rewrite Hrd in Hp. destruct (Z.eqb_spec k i); [lia | exact Hp].
  - exists (pi :: gone). split; [constructor; assumption |]. split; [cbn [length]; lia |].
    rewrite Hall. unfold particles. cbn [s_P s_NumPart app].
    rewrite Permutation_middle. apply Permutation_app_head.
    replace (Z.to_nat (s_NumPart st - 1)) with (Z.to_nat (s_NumPart st) - 1)%nat by lia.
    apply take_swap_out; [lia | apply rd_lookup; exact Hpi |].
    replace (Z.to_nat (s_NumPart st) - 1)%nat with (Z.to_nat (s_NumPart st - 1)) by lia.
    apply rd_lookup; exact Hend.
  - destruct Hpairs as (gp & Hgp & Hlp & Hp). exists gp. split; [exact Hgp |].
    split; [exact Hlp |]. rewrite Hp. unfold gas. cbn [s_P s_SphP s_N_sph].
    rewrite take_insert_ge by lia. reflexivity.
  - lia.
Qed.

Lemma eliminate_gas (st0 : seq_state) (i : Z) (st st' : seq_state) (ce cg : Z)
  (pi : particle_data) :
  elim_inv st0 i st ce cg -> i < s_NumPart st ->
  rd (s_P st) i = Ok pi -> massless pi -> PType pi = 0 ->
  eliminate i st = Ok (st', true) ->
  elim_inv st0 i st' (ce + 1) (cg + 1).
Proof.
  intros [Hb Hgas Hdone (gone & Hgone & Hlen & Hall) (gp & Hgp & Hlp & Hpairs) Hc]
         Hi Hpi Hm Hty Hrun.
  unfold eliminate, mbind, outcome_bind in Hrun.
  rewrite Hpi in Hrun. cbn [obind] in Hrun.
  bind_inv Hrun. bind_inv Hrun.
  destruct (Z.eqb_spec (PType pi) 0) as [_ |]; [| contradiction].
  bind_inv Hrun. bind_inv Hrun.
  bind_inv Hrun. rename a3 into last, E3 into Hlast.
  bind_inv Hrun. rename a3 into p1, E3 into Hp1.
  bind_inv Hrun. rename a3 into slast, E3 into Hslast.
  bind_inv Hrun. rename a3 into sp, E3 into Hsp.
  bind_inv Hrun. rename a3 into end_, E3 into Hend.
  bind_inv Hrun. rename a3 into p2, E3 into Hp2.
  injection Hrun as <-.
  assert (His : i < s_N_sph st) by (apply (Hgas i pi); [lia | exact Hpi | exact Hty]).
  assert (Hr1 : forall j, rd p1 j = if j =? i then Ok last else rd (s_P st) j)
    by (intros j; exact (rd_wr _ _ _ j _ Hp1)).
  assert (Hr2 : forall j, rd p2 j = if j =? s_N_sph st - 1 then Ok end_ else rd p1 j)
    by (intros j; exact (rd_wr _ _ _ j _ Hp2)).
  assert (Hlast1 : rd p1 (s_N_sph st - 1) = Ok last).
  { rewrite Hr1. destruct (Z.eqb_spec (s_N_sph st - 1) i); [reflexivity | exact Hlast]. }
  apply wr_Ok in Hp1 as [Hir Hp1]. apply wr_Ok in Hp2 as [Hsr Hp2].
  apply wr_Ok in Hsp as [Hisr Hsp].
  destruct (rd_in_range (s_SphP st) i Hisr) as [si Hsi].
  constructor; unfold gas_in_front; cbn [s_P s_SphP s_NumPart s_N_sph].
  - lia.
  - intros k p Hk Hp. rewrite Hr2 in Hp.
    destruct (Z.eqb_spec k (s_N_sph st - 1)) as [-> | Hne].
    + injection Hp as <-. rewrite Hr1 in Hend.
      destruct (Z.eqb_spec (s_NumPart st - 1) i); [lia |].
      pose proof (Hgas (s_NumPart st - 1) end_ ltac:(lia) Hend) as H.
      split; intros H1; [apply H in H1 |]; lia.
    + rewrite Hr1 in Hp. destruct (Z.eqb_spec k i) as [-> | Hne'].
      * injection Hp as <-.
        pose proof (Hgas (s_N_sph st - 1) last ltac:(lia) Hlast) as H.
        split; intros H1; [lia | apply H; lia].
      * pose proof (Hgas k p ltac:(lia) Hp) as H.
        split; intros H1; [apply H in H1; lia | apply H; lia].
  - intros k p Hk Hp. apply (Hdone k p Hk).
    rewrite Hr2 in Hp. destruct (Z.eqb_spec k (s_N_sph st - 1)); [lia |].
    rewrite Hr1 in Hp. destruct (Z.eqb_spec k i); [lia | exact Hp].
  - exists (pi :: gone). split; [constructor; assumption |]. split; [cbn [length]; lia |].
    rewrite Hall. unfold particles. cbn [s_P s_NumPart app].
    rewrite Permutation_middle. apply Permutation_app_head.
    apply (Permutation_cons_inv (a := last)).
    rewrite <- (take_replace_perm (s_P st) (Z.to_nat i) _ pi last) by (try apply rd_lookup; try lia; exact Hpi).
    rewrite perm_swap. apply perm_skip.
    rewrite <- Hp1, Hp2.
    replace (Z.to_nat (s_NumPart st - 1)) with (Z.to_nat (s_NumPart st) - 1)%nat by lia.
    apply take_swap_out.
    + lia.
    + apply rd_lookup. exact Hlast1.
    + replace (Z.to_nat (s_NumPart st) - 1)%nat with (Z.to_nat (s_NumPart st - 1)) by lia.
      apply rd_lookup. exact Hend.
  - exists ((pi, si) :: gp). split; [constructor; assumption |]. split; [cbn [length]; lia |].
    rewrite Hpairs. unfold gas. cbn [s_P s_SphP s_N_sph app].
    rewrite Permutation_middle. apply Permutation_app_head.
    rewrite Hp2, take_insert_ge by lia. rewrite Hp1, Hsp.
    rewrite <- !zip_with_take, <- insert_zip_with.
    replace (Z.to_nat (s_N_sph st - 1)) with (Z.to_nat (s_N_sph st) - 1)%nat by lia.
    apply take_swap_out.
    + lia.
    + apply lookup_zip_with_Some. exists pi, si.
      split; [reflexivity |]. split; apply rd_lookup; assumption.
    + apply lookup_zip_with_Some. exists last, slast.
      split; [reflexivity |].
      replace (Z.to_nat (s_N_sph st) - 1)%nat with (Z.to_nat (s_N_sph st - 1)) by lia.
      split; apply rd_lookup; assumption.
  - lia.
Qed.

Lemma eliminate_tells (i : Z) (st st' : seq_state) (g : bool) (pi : particle_data) :
  rd (s_P st) i = Ok pi -> eliminate i st = Ok (st', g) -> g = (PType pi =? 0).
Proof.
  intros Hpi Hrun. unfold eliminate, mbind, outcome_bind in Hrun.
  rewrite Hpi in Hrun. cbn [obind] in Hrun. do 2 bind_inv Hrun.
  destruct (PType pi =? 0).
  - do 8 bind_inv Hrun. injection Hrun as _ <-. reflexivity.
  - do 2 bind_inv Hrun. injection Hrun as _ <-. reflexivity.
Qed.

Lemma eliminate_for_inv (st0 : seq_state) (fuel : nat) :
  forall i st ce cg st' ce' cg',
    eliminate_for fuel i (st, ce, cg) = Ok (st', ce', cg') ->
    elim_inv st0 i st ce cg ->
    elim_inv st0 (s_NumPart st') st' ce' cg'.
Proof.
  induction fuel as [| fuel IH]; intros i st ce cg st' ce' cg' Hrun Hinv.
  - cbn in Hrun. destruct (Z.ltb_spec i (s_NumPart st)); [discriminate |].
    injection Hrun as <- <- <-.
    replace (s_NumPart st) with i by (destruct Hinv as [[? ?] _ _ _ _ _]; lia). exact Hinv.
  - cbn [eliminate_for] in Hrun. destruct (Z.ltb_spec i (s_NumPart st)) as [Hi | Hi].
    2:{ injection Hrun as <- <- <-.
        replace (s_NumPart st) with i by (destruct Hinv as [[? ?] _ _ _ _ _]; lia).
        exact Hinv. }
    unfold mbind, outcome_bind in Hrun. bind_inv Hrun. rename a into pi, E into Hpi.
    destruct (Qeq_bool (Mass pi) 0) eqn:Hm.
    + apply Qeq_bool_eq in Hm. bind_inv Hrun. destruct a as [st1 g].
      pose proof (eliminate_tells _ _ _ _ _ Hpi E) as Hg.
      apply (IH _ _ _ _ _ _ _ Hrun).
      destruct (Z.eqb_spec (PType pi) 0) as [Hty | Hty]; subst g.
      * eapply eliminate_gas; eassumption.
      * eapply eliminate_other; eassumption.
    + apply Qeq_bool_neq in Hm. apply (IH _ _ _ _ _ _ _ Hrun).
      destruct Hinv as [Hb Hgas Hdone Hall Hpairs Hc]. constructor; try assumption; [lia |].
      intros k p Hk Hp. destruct (Z.eq_dec k i) as [-> | Hne].
      * rewrite Hpi in Hp. injection Hp as <-. exact Hm.
      * apply (Hdone k p); [lia | exact Hp].
Qed.

(** X8: the loop that eliminates the particles without mass.  If the gas
    particles come first when the loop starts, then, when it ends, no
    particle of the array is without mass; the gas particles still come
    first; [NumPart] and [N_sph] are lower by the two counters; the particles
    kept, together with [count_elim] particles without mass, are the
    particles there were; and every gas particle kept has the SPH record it
    had. *)
Theorem eliminate_for_packs (fuel : nat) (st st' : seq_state) (ce cg : Z) :
  0 <= s_N_sph st <= s_NumPart st ->
  gas_in_front st ->
  eliminate_for fuel 0 (st, 0, 0) = Ok (st', ce, cg) ->
  (forall k p, 0 <= k < s_NumPart st' -> rd (s_P st') k = Ok p -> ~ massless p) /\
  gas_in_front st' /\
  s_NumPart st' = s_NumPart st - ce /\ s_N_sph st' = s_N_sph st - cg /\ 0 <= cg <= ce /\
  (exists gone, Forall massless gone /\ Z.of_nat (length gone) = ce /\
                particles st ≡ₚ gone ++ particles st') /\
  (exists gone, Forall (fun x => massless (fst x)) gone /\ Z.of_nat (length gone) = cg /\
                gas st ≡ₚ gone ++ gas st').
Proof.
  intros Hb Hgas Hrun.
  assert (Hinv : elim_inv st 0 st 0 0).
  { constructor; try assumption; try lia.
    - exists []. split; [constructor |]. split; reflexivity.
    - exists []. split; [constructor |]. split; reflexivity. }
  destruct (eliminate_for_inv st fuel _ _ _ _ _ _ _ Hrun Hinv)
    as [_ Hgas' Hdone Hall Hpairs (H1 & H2 & H3)].
  split; [exact Hdone |]. split; [exact Hgas' |]. repeat (split; [assumption || lia |]).
  exact Hpairs.
Qed.

(** The state of the loop over the gas particles at index [i]. *)
Record sfr_inv (st0 : seq_state) (i : Z) (s : seq_state * Z) : Prop := {
  si_bounds : 0 <= i /\ s_N_sph (fst s) <= s_N_sph st0 /\
              s_NumPart (fst s) = s_NumPart st0;
  si_flag : snd s = if s_N_sph (fst s) <? s_N_sph st0 then 1 else 0;
  si_prefix : forall k p, 0 <= k < i -> k < s_N_sph (fst s) -> rd (s_P (fst s)) k = Ok p ->
                PType p = 0;
  si_tail : forall k p, s_N_sph (fst s) <= k < s_N_sph st0 -> rd (s_P (fst s)) k = Ok p ->
              PType p <> 0;
  si_far : forall k, s_N_sph st0 <= k -> rd (s_P (fst s)) k = rd (s_P st0) k;
  si_perm : s_P (fst s) ≡ₚ s_P st0;
  si_pairs : exists gone, Forall (fun x => PType (fst x) <> 0) gone /\
               Z.of_nat (length gone) = s_N_sph st0 - s_N_sph (fst s) /\
               gas st0 ≡ₚ gone ++ gas (fst s);
  si_bins : TimeBinCount (fst s) = TimeBinCount st0 /\
            TimeBinCountSph (fst s) = TimeBinCountSph st0
}.

Lemma sfr_while_inv (st0 : seq_state) (fuel : nat) (i : Z) :
  forall s s', sfr_while fuel i s = Ok s' -> sfr_inv st0 i s -> sfr_inv st0 (i + 1) s'.
Proof.
  induction fuel as [| fuel IH]; intros [st flag] s' Hrun Hinv.
  - cbn [sfr_while] in Hrun. unfold mbind, outcome_bind in Hrun. bind_inv Hrun.
    destruct (negb (PType a =? 0) && (i <? s_N_sph st)) eqn:Hc; [discriminate |].
    injection Hrun as <-.
    destruct Hinv as [Hb Hf Hpre Htail Hfar Hperm Hpairs Hbins].
    constructor; try assumption; [lia |]. cbn [fst] in *.
    intros k p Hk Hks Hp. destruct (Z.eq_dec k i) as [-> | Hne]; [| apply (Hpre k p); lia || assumption].
    rewrite E in Hp. injection Hp as <-.
    apply andb_false_iff in Hc as [Hc | Hc].
    + apply negb_false_iff in Hc. lia.
    + lia.
  - cbn [sfr_while] in Hrun. unfold mbind, outcome_bind in Hrun. bind_inv Hrun.
    rename a into pi, E into Hpi.
    destruct (negb (PType pi =? 0) && (i <? s_N_sph st)) eqn:Hc.
    2:{ injection Hrun as <-.
        destruct Hinv as [Hb Hf Hpre Htail Hfar Hperm Hpairs Hbins].
        constructor; try assumption; [lia |]. cbn [fst] in *.
        intros k p Hk Hks Hp.
        destruct (Z.eq_dec k i) as [-> | Hne]; [| apply (Hpre k p); lia || assumption].
        rewrite Hpi in Hp. injection Hp as <-.
        apply andb_false_iff in Hc as [Hc | Hc].
        - apply negb_false_iff in Hc. lia.
        - lia. }
    apply andb_true_iff in Hc as [Hty His].
    apply negb_true_iff in Hty. apply Z.eqb_neq in Hty. apply Z.ltb_lt in His.
    bind_inv Hrun. rename a into last, E into Hlast.
    bind_inv Hrun. rename a into p1, E into Hp1.
    bind_inv Hrun. rename a into slast, E into Hslast.
    bind_inv Hrun. rename a into sp, E into Hsp.
    bind_inv Hrun. rename a into p2, E into Hp2.
    apply (IH _ _ Hrun). clear Hrun IH.
    destruct Hinv as [Hb Hf Hpre Htail Hfar Hperm (gone & Hgone & Hlen & Hpairs) Hbins].
    cbn [fst snd] in *.
    assert (Hr1 : forall j, rd p1 j = if j =? i then Ok last else rd (s_P st) j)
      by (intros j; exact (rd_wr _ _ _ j _ Hp1)).
    assert (Hr2 : forall j, rd p2 j = if j =? s_N_sph st - 1 then Ok pi else rd p1 j)
      by (intros j; exact (rd_wr _ _ _ j _ Hp2)).
    apply wr_Ok in Hp1 as [Hir Hp1]. apply wr_Ok in Hp2 as [Hsr Hp2].
    apply wr_Ok in Hsp as [Hisr Hsp].
    destruct (rd_in_range (s_SphP st) i Hisr) as [si Hsi].
    constructor; cbn [fst snd s_P s_SphP s_NumPart s_N_sph TimeBinCount TimeBinCountSph].
    + lia.
    + destruct (Z.ltb_spec (s_N_sph st - 1) (s_N_sph st0)); [reflexivity | lia].
    + intros k p Hk Hks Hp. rewrite Hr2 in Hp.
      destruct (Z.eqb_spec k (s_N_sph st - 1)); [lia |].
      rewrite Hr1 in Hp. destruct (Z.eqb_spec k i); [lia |].
      apply (Hpre k p); lia || assumption.
    + intros k p Hk Hp. rewrite Hr2 in Hp.
      destruct (Z.eqb_spec k (s_N_sph st - 1)) as [-> | Hne].
      * injection Hp as <-. exact Hty.
      * rewrite Hr1 in Hp. destruct (Z.eqb_spec k i); [lia |].
        apply (Htail k p); lia || assumption.
    + intros k Hk. rewrite Hr2. destruct (Z.eqb_spec k (s_N_sph st - 1)); [lia |].
      rewrite Hr1. destruct (Z.eqb_spec k i); [lia |]. apply Hfar. exact Hk.
    + rewrite <- Hperm, Hp2, Hp1.
      apply swap_perm; apply rd_lookup; assumption.
    + exists ((pi, si) :: gone). split; [constructor; assumption |].
      split; [cbn [length]; lia |].
      rewrite Hpairs. unfold gas. cbn [s_P s_SphP s_N_sph app].
      rewrite Permutation_middle. apply Permutation_app_head.
      rewrite Hp2, take_insert_ge by lia. rewrite Hp1, Hsp.
      rewrite <- !zip_with_take, <- insert_zip_with.
      replace (Z.to_nat (s_N_sph st - 1)) with (Z.to_nat (s_N_sph st) - 1)%nat by lia.
      apply take_swap_out.
      * lia.
      * apply lookup_zip_with_Some. exists pi, si.
        split; [reflexivity |]. split; apply rd_lookup; assumption.
      * apply lookup_zip_with_Some. exists last, slast.
        split; [reflexivity |].
        replace (Z.to_nat (s_N_sph st) - 1)%nat with (Z.to_nat (s_N_sph st - 1)) by lia.
        split; apply rd_lookup; assumption.
    + exact Hbins.
Qed.

Lemma sfr_for_inv (st0 : seq_state) (fuel : nat) :
  forall i s s', sfr_for fuel i s = Ok s' -> sfr_inv st0 i s ->
                 exists i', s_N_sph (fst s') <= i' /\ sfr_inv st0 i' s'.
Proof.
  induction fuel as [| fuel IH]; intros i s s' Hrun Hinv.
  - cbn in Hrun. destruct (Z.ltb_spec i (s_N_sph (fst s))); [discriminate |].
    injection Hrun as <-. exists i. split; [lia | exact Hinv].
  - cbn [sfr_for] in Hrun. destruct (Z.ltb_spec i (s_N_sph (fst s))).
    + unfold mbind, outcome_bind in Hrun. bind_inv Hrun.
      apply (IH _ _ _ Hrun). eapply sfr_while_inv; eassumption.
    + injection Hrun as <-. exists i. split; [lia | exact Hinv].
Qed.

(** X7: the loop over the gas particles ([SFR]).  When it ends, the first
    [N_sph] particles are gas particles; those it moved behind them are none;
    no other particle has changed; the array holds the same particles;
    every gas particle kept has the SPH record it had; and [flag] is set
    exactly when [N_sph] has gone down. *)
Theorem sfr_for_packs (fuel : nat) (st st' : seq_state) (flag : Z) :
  sfr_for fuel 0 (st, 0) = Ok (st', flag) ->
  (forall k p, 0 <= k < s_N_sph st' -> rd (s_P st') k = Ok p -> PType p = 0) /\
  (forall k p, s_N_sph st' <= k < s_N_sph st -> rd (s_P st') k = Ok p -> PType p <> 0) /\
  (forall k, s_N_sph st <= k -> rd (s_P st') k = rd (s_P st) k) /\
  s_P st' ≡ₚ s_P st /\
  s_N_sph st' <= s_N_sph st /\ s_NumPart st' = s_NumPart st /\
  (exists gone, Forall (fun x => PType (fst x) <> 0) gone /\
                Z.of_nat (length gone) = s_N_sph st - s_N_sph st' /\
                gas st ≡ₚ gone ++ gas st') /\
  flag = (if s_N_sph st' <? s_N_sph st then 1 else 0).
Proof.
  intros Hrun.
  assert (Hinv : sfr_inv st 0 (st, 0)).
  { constructor; cbn [fst snd]; try reflexivity; try lia.
    - rewrite Z.ltb_irrefl. reflexivity.
    - exists []. split; [constructor |]. split; [cbn; lia | reflexivity].
    - split; reflexivity. }
  destruct (sfr_for_inv st fuel _ _ _ Hrun Hinv)
    as (i' & Hi' & [Hb Hf Hpre Htail Hfar Hperm Hpairs _]).
  cbn [fst snd] in *.
  split; [intros k p Hk; apply (Hpre k p); lia |].
  split; [exact Htail |]. split; [exact Hfar |]. split; [exact Hperm |].
  split; [lia |]. split; [lia |]. split; [exact Hpairs | exact Hf].
Qed.

(** What the loops do to the counters, whatever the array holds. *)
Lemma sfr_while_counts (n : Z) (fuel : nat) (i : Z) :
  forall s s', sfr_while fuel i s = Ok s' -> 0 <= i -> s_N_sph (fst s) <= n ->
    s_N_sph (fst s') <= s_N_sph (fst s) /\ (0 <= s_N_sph (fst s) -> 0 <= s_N_sph (fst s')) /\
    s_NumPart (fst s') = s_NumPart (fst s) /\
    take (Z.to_nat n) (s_P (fst s')) ≡ₚ take (Z.to_nat n) (s_P (fst s)) /\
    (s_N_sph (fst s') = s_N_sph (fst s) -> s' = s) /\
    (s_N_sph (fst s') < s_N_sph (fst s) -> snd s' = 1).
Proof.
  induction fuel as [| fuel IH]; intros [st flag] s' Hrun Hi Hn;
    cbn [sfr_while] in Hrun; unfold mbind, outcome_bind in Hrun; bind_inv Hrun;
    (destruct (negb (PType a =? 0) && (i <? s_N_sph st)) eqn:Hc;
     [| injection Hrun as <-; repeat split; reflexivity || lia]).
  - discriminate.
  - apply andb_true_iff in Hc as [_ His]. apply Z.ltb_lt in His.
    rename a into pi, E into Hpi.
    bind_inv Hrun. rename a into last, E into Hlast.
    bind_inv Hrun. rename a into p1, E into Hp1.
    bind_inv Hrun. bind_inv Hrun.
    bind_inv Hrun. rename a1 into p2, E1 into Hp2.
    apply IH in Hrun; cbn [fst snd s_N_sph s_NumPart s_P] in *; [| lia | lia].
    destruct Hrun as (H1 & H2 & H3 & H4 & H5 & H6).
    apply wr_Ok in Hp1 as [Hir Hp1]. apply wr_Ok in Hp2 as [Hsr Hp2].
    split; [lia |]. split; [lia |]. split; [exact H3 |].
    split.
    + rewrite H4, Hp2, Hp1. rewrite !take_insert_lt by lia.
      apply swap_perm; rewrite lookup_take_lt by lia; apply rd_lookup; assumption.
    + split; [lia |]. intros Hlt.
      destruct (Z.eq_dec (s_N_sph (fst s')) (s_N_sph st - 1)) as [He | Hne].
      * rewrite (H5 He). reflexivity.
      * apply H6. lia.
Qed.

Lemma sfr_for_counts (n : Z) (fuel : nat) :
  forall i s s', sfr_for fuel i s = Ok s' -> 0 <= i -> s_N_sph (fst s) <= n ->
    s_N_sph (fst s') <= s_N_sph (fst s) /\ (0 <= s_N_sph (fst s) -> 0 <= s_N_sph (fst s')) /\
    s_NumPart (fst s') = s_NumPart (fst s) /\
    take (Z.to_nat n) (s_P (fst s')) ≡ₚ take (Z.to_nat n) (s_P (fst s)) /\
    (s_N_sph (fst s') = s_N_sph (fst s) -> s' = s) /\
    (s_N_sph (fst s') < s_N_sph (fst s) -> snd s' = 1).
Proof.
  induction fuel as [| fuel IH]; intros i s s' Hrun Hi Hn; cbn [sfr_for] in Hrun;
    (destruct (i <? s_N_sph (fst s));
     [| injection Hrun as <-; repeat split; reflexivity || lia]).
  - discriminate.
  - unfold mbind, outcome_bind in Hrun. bind_inv Hrun. rename a into s1, E into Hw.
    apply (sfr_while_counts n) in Hw; [| lia | lia].
    destruct Hw as (W1 & W2 & W3 & W4 & W5 & W6).
    apply IH in Hrun; [| lia | lia]. destruct Hrun as (H1 & H2 & H3 & H4 & H5 & H6).
    split; [lia |]. split; [lia |]. split; [lia |].
    split; [rewrite H4; exact W4 |].
    split.
    + intros He. rewrite H5 by lia. apply W5. lia.
    + intros Hlt. destruct (Z.eq_dec (s_N_sph (fst s')) (s_N_sph (fst s1))) as [He | Hne].
      * rewrite (H5 He). apply W6. lia.
      * apply H6. lia.
Qed.

Lemma eliminate_counts (i : Z) (st st' : seq_state) (g : bool) :
  eliminate i st = Ok (st', g) ->
  s_NumPart st' = s_NumPart st - 1 /\
  s_N_sph st' = s_N_sph st - (if g then 1 else 0).
Proof.
  intros Hrun. unfold eliminate, mbind, outcome_bind in Hrun. do 3 bind_inv Hrun.
  destruct (PType a =? 0).
  - do 8 bind_inv Hrun. injection Hrun as <- <-. split; reflexivity.
  - do 2 bind_inv Hrun. injection Hrun as <- <-. split; cbn; lia.
Qed.

Lemma eliminate_for_counts (fuel : nat) :
  forall i st ce cg st' ce' cg',
    eliminate_for fuel i (st, ce, cg) = Ok (st', ce', cg') ->
    s_NumPart st' = s_NumPart st - (ce' - ce) /\
    s_N_sph st' = s_N_sph st - (cg' - cg) /\
    0 <= cg' - cg <= ce' - ce /\
    (ce' = ce -> st' = st).
Proof.
  induction fuel as [| fuel IH]; intros i st ce cg st' ce' cg' Hrun;
    cbn [eliminate_for] in Hrun;
    (destruct (i <? s_NumPart st);
     [| injection Hrun as <- <- <-; repeat split; reflexivity || lia]).
  - discriminate.
  - unfold mbind, outcome_bind in Hrun. bind_inv Hrun.
    destruct (Qeq_bool (Mass a) 0).
    + bind_inv Hrun. destruct a0 as [st1 g]. apply eliminate_counts in E0 as [N1 N2].
      apply IH in Hrun. destruct Hrun as (H1 & H2 & H3 & H4).
      destruct g; repeat split; lia.
    + apply IH in Hrun. exact Hrun.
Qed.

(** What [flag] and the counters of one process say. *)
Lemma rearrange_local_counts (fuel : nat) (st st' : seq_state) (flag ce cg : Z) :
  rearrange_local fuel st = Ok (st', flag, ce, cg) ->
  s_NumPart st' = s_NumPart st - ce /\ 0 <= cg <= ce /\
  s_N_sph st' <= s_N_sph st - cg /\
  (flag = 0 /\ st' = st \/
   flag = 1 /\ (s_N_sph st' < s_N_sph st \/ s_NumPart st' < s_NumPart st)).
Proof.
  intros Hrun. unfold rearrange_local, mbind, outcome_bind in Hrun.
  bind_inv Hrun. destruct a as [st1 f1]. rename E into Hsfr.
  bind_inv Hrun. destruct a as [[st2 ce2] cg2]. rename E into Helim.
  injection Hrun as <- <- <- <-.
  apply (sfr_for_counts (s_N_sph st)) in Hsfr; [| lia | cbn [fst]; lia].
  cbn [fst snd] in Hsfr. destruct Hsfr as (S1 & _ & S3 & _ & S5 & S6).
  apply eliminate_for_counts in Helim. destruct Helim as (E1 & E2 & E3 & E4).
  split; [lia |]. split; [lia |]. split; [lia |].
  destruct (Z.eqb_spec ce2 0) as [Hz | Hz]; cbn [negb].
  - destruct (Z.eq_dec (s_N_sph st1) (s_N_sph st)) as [He | Hne].
    + left. specialize (S5 He). injection S5 as -> ->. rewrite E4 by lia. split; reflexivity.
    + right. split; [apply S6; lia |]. left. lia.
  - right. split; [reflexivity |]. right. lia.
Qed.

(** X9: one process, both loops.  If the particles from [N_sph] on are no
    gas particles when the routine starts, then afterwards no particle is
    without mass and the particles of type 0 are the first [N_sph]; the
    particles kept, together with [count_elim] particles without mass, are
    the particles there were; every gas particle kept has the SPH record it
    had; and [flag] is 0 exactly when nothing at all has changed. *)
Theorem rearrange_local_packs (fuel : nat) (st st' : seq_state) (flag ce cg : Z) :
  0 <= s_N_sph st <= s_NumPart st ->
  (forall k p, s_N_sph st <= k < s_NumPart st -> rd (s_P st) k = Ok p -> PType p <> 0) ->
  rearrange_local fuel st = Ok (st', flag, ce, cg) ->
  (forall k p, 0 <= k < s_NumPart st' -> rd (s_P st') k = Ok p -> ~ massless p) /\
  gas_in_front st' /\
  s_NumPart st' = s_NumPart st - ce /\ 0 <= cg <= ce /\
  0 <= s_N_sph st' <= s_N_sph st - cg /\
  (exists gone, Forall massless gone /\ Z.of_nat (length gone) = ce /\
                particles st ≡ₚ gone ++ particles st') /\
  (exists gone, Forall (fun x => PType (fst x) <> 0 \/ massless (fst x)) gone /\
                gas st ≡ₚ gone ++ gas st') /\
  (flag = 0 /\ st' = st \/
   flag = 1 /\ (s_N_sph st' < s_N_sph st \/ s_NumPart st' < s_NumPart st)).
Proof.
  intros Hb Hrest Hrun.
  destruct (rearrange_local_counts _ _ _ _ _ _ Hrun) as (C1 & C2 & C3 & C4).
  unfold rearrange_local, mbind, outcome_bind in Hrun.
  bind_inv Hrun. destruct a as [st1 f1]. rename E into Hsfr.
  bind_inv Hrun. destruct a as [[st2 ce2] cg2]. rename E into Helim.
  injection Hrun as <- <- <- <-.
  pose proof (sfr_for_counts (s_NumPart st) _ _ _ _ Hsfr ltac:(lia) ltac:(cbn; lia))
    as (S1 & S2 & S3 & S4 & _ & _).
  cbn [fst snd] in S1, S2, S3, S4.
  assert (Hinv0 : sfr_inv st 0 (st, 0)).
  { constructor; cbn [fst snd]; try reflexivity; try lia.
    - rewrite Z.ltb_irrefl. reflexivity.
    - exists []. split; [constructor |]. split; [cbn; lia | reflexivity].
    - split; reflexivity. }
  destruct (sfr_for_inv st fuel _ _ _ Hsfr Hinv0)
    as (i' & Hi' & [_ _ Hpre Htail Hfar _ (g1 & Hg1 & _ & Hp1) _]).
  cbn [fst snd] in *.
  assert (Hgas1 : gas_in_front st1).
  { intros k p Hk Hp. split.
    - intros Hty. destruct (Z.lt_ge_cases k (s_N_sph st1)) as [Hlt | Hge]; [exact Hlt |].
      exfalso. destruct (Z.lt_ge_cases k (s_N_sph st)) as [Hlt | Hge'].
      + apply (Htail k p); [lia | exact Hp | exact Hty].
      + rewrite Hfar in Hp by lia. apply (Hrest k p); [lia | exact Hp | exact Hty].
    - intros Hlt. apply (Hpre k p); [lia | lia | exact Hp]. }
  assert (Hinv1 : elim_inv st1 0 st1 0 0).
  { constructor; try assumption; try lia.
    - exists []. split; [constructor |]. split; reflexivity.
    - exists []. split; [constructor |]. split; reflexivity. }
  destruct (eliminate_for_inv st1 fuel _ _ _ _ _ _ _ Helim Hinv1)
    as [[_ Hb2] Hgas2 Hdone (gone & Hgone & Hlen & Hall) (g2 & Hg2 & _ & Hp2) _].
  split; [exact Hdone |]. split; [exact Hgas2 |].
  split; [exact C1 |]. split; [exact C2 |]. split; [lia |].
  split.
  - exists gone. split; [exact Hgone |]. split; [exact Hlen |].
    rewrite <- Hall. unfold particles. rewrite S3. symmetry. exact S4.
  - split; [| exact C4]. exists (g1 ++ g2). split.
    + apply Forall_app. split; (eapply Forall_impl; [eassumption |]); cbn; tauto.
    + rewrite Hp1, Hp2. rewrite app_assoc. reflexivity.
Qed.

Lemma each_local_spec (fuel : nat) :
  forall G rs, each_local fuel G = Ok rs ->
               Forall2 (fun st r => rearrange_local fuel st = Ok r) G rs.
Proof.
  induction G as [| st G IH]; intros rs Hrun; cbn [each_local] in Hrun.
  - injection Hrun as <-. constructor.
  - unfold mbind, outcome_bind in Hrun. do 2 bind_inv Hrun. injection Hrun as <-.
    constructor; [exact E | apply IH; exact E0].
Qed.

Lemma each_local_totals (fuel : nat) (G : list seq_state) (rs : list (seq_state * Z * Z * Z)) :
  Forall2 (fun st r => rearrange_local fuel st = Ok r) G rs ->
  let L := map (fun r => fst (fst (fst r))) rs in
  let flag_sum := MPI_SUM (map (fun r => snd (fst (fst r))) rs) in
  MPI_SUM (map (fun r => snd (fst r)) rs) = zsum (map s_NumPart G) - zsum (map s_NumPart L) /\
  0 <= MPI_SUM (map snd rs) <= MPI_SUM (map (fun r => snd (fst r)) rs) /\
  0 <= flag_sum /\ (flag_sum = 0 <-> L = G).
Proof.
  induction 1 as [| st [[[st' flag] ce] cg] G rs Hloc _ IH]; cbn zeta.
  - cbn. repeat split; lia || reflexivity.
  - cbn zeta in IH. destruct IH as (I1 & I2 & I3 & I4).
    apply rearrange_local_counts in Hloc as (C1 & C2 & C3 & C4).
    unfold MPI_SUM in *. cbn [map zsum foldr fst snd] in *.
    fold (zsum (map (fun r : seq_state * Z * Z * Z => snd (fst r)) rs)) in *.
    fold (zsum (map (fun r : seq_state * Z * Z * Z => snd r) rs)) in *.
    fold (zsum (map snd rs)) in *.
    fold (zsum (map (fun r : seq_state * Z * Z * Z => snd (fst (fst r))) rs)) in *.
    fold (zsum (map s_NumPart G)) in *.
    fold (zsum (map s_NumPart (map (fun r : seq_state * Z * Z * Z => fst (fst (fst r))) rs))) in *.
    split; [lia |]. split; [lia |].
    destruct C4 as [[-> ->] | [-> Hless]].
    + split; [lia |]. split.
      * intros Hz. f_equal. apply I4. lia.
      * intros Heq. injection Heq as Heq. apply I4 in Heq. lia.
    + split; [lia |]. split; [lia |].
      intros Heq. injection Heq as -> _. lia.
Qed.

(** X10: all the processes.  [tot_elim] is the number of particles that
    have left the arrays, over all processes, and [tot_gaselim] is at most
    that.  [reconstruct_timebins] is run, on every process, exactly when
    some process has changed its data; when none has, the routine leaves
    all of them as they were. *)
Theorem rearrange_reconstructs (reconstruct_timebins : seq_state -> outcome seq_state)
  (fuel : nat) (G G' : list seq_state) (tot_elim tot_gaselim : Z) :
  rearrange_particle_sequence reconstruct_timebins fuel G = Ok (G', tot_elim, tot_gaselim) ->
  exists L,
    Forall2 (fun st st' => exists flag ce cg, rearrange_local fuel st = Ok (st', flag, ce, cg))
            G L /\
    tot_elim = zsum (map s_NumPart G) - zsum (map s_NumPart L) /\
    0 <= tot_gaselim <= tot_elim /\
    (L = G -> G' = G) /\
    (L <> G -> each_reconstruct reconstruct_timebins L = Ok G').
Proof.
  intros Hrun. unfold rearrange_particle_sequence, mbind, outcome_bind in Hrun.
  bind_inv Hrun. rename a into rs, E into Hloc. apply each_local_spec in Hloc.
  destruct (each_local_totals fuel G rs Hloc) as (T1 & T2 & T3 & T4).
  bind_inv Hrun. injection Hrun as <- <- <-.
  exists (map (fun r => fst (fst (fst r))) rs).
  split.
  { clear - Hloc. induction Hloc as [| st [[[st' flag] ce] cg] G rs H _ IH]; constructor.
    - exists flag, ce, cg. exact H.
    - exact IH. }
  split; [exact T1 |]. split; [exact T2 |].
  destruct (Z.eqb_spec (MPI_SUM (map (fun r => snd (fst (fst r))) rs)) 0) as [Hz | Hz];
    cbn [negb] in E.
  - injection E as <-. split; [intros H; exact H |].
    intros Hne. exfalso. apply Hne. apply T4. exact Hz.
  - split; [| intros _; exact E]. intros Heq. exfalso. apply Hz. apply T4. exact Heq.
Qed.

(** A process with six particles in one time bin: a gas particle that has
    become a star, a gas particle and a dark-matter particle without mass. *)
Definition sample_body (type : Z) (mass : Q) (id : Z) : particle_data :=
  mkP (0, 0, 0)%Q (0, 0, 0)%Q mass id type 0 0 0 false false 0 0 0.

Definition sample_seq : seq_state :=
  mkSeq [sample_body 0 1 1; sample_body 4 1 2; sample_body 0 0 3;
         sample_body 0 1 4; sample_body 1 0 5; sample_body 1 1 6]
        [mkSph 1 0; mkSph 2 0; mkSph 3 0; mkSph 4 0] 6 4 [6] [4].

(** The same process once the star has left the gas particles. *)
Definition sample_sorted : seq_state :=
  mkSeq [sample_body 0 1 1; sample_body 0 1 4; sample_body 0 0 3;
         sample_body 4 1 2; sample_body 1 0 5; sample_body 1 1 6]
        [mkSph 1 0; mkSph 4 0; mkSph 3 0; mkSph 4 0] 6 3 [6] [4].

(** A process where nothing is to be done. *)
Definition sample_quiet : seq_state :=
  mkSeq [sample_body 0 1 7; sample_body 1 1 8] [mkSph 7 0] 2 1 [2] [1].

Lemma sfr_for_packs_witness :
  exists st' flag,
    sfr_for 6 0 (sample_seq, 0) = Ok (st', flag) /\
    s_P st' ≡ₚ s_P sample_seq /\ s_N_sph st' = 3 /\ flag = 1.
Proof.
  destruct (sfr_for 6 0 (sample_seq, 0)) as [[st' flag] | | |] eqn:Hrun;
    [| vm_compute in Hrun; discriminate ..].
  destruct (sfr_for_packs 6 sample_seq st' flag Hrun) as (_ & _ & _ & Hperm & _ & _ & _ & Hf).
  exists st', flag. split; [reflexivity |]. split; [exact Hperm |].
  vm_compute in Hrun. injection Hrun as <- <-. split; reflexivity.
Defined.

Lemma sample_sorted_in_front : gas_in_front sample_sorted.
Proof.
  intros k p Hk Hp. cbn [sample_sorted s_NumPart s_N_sph s_P] in *.
  assert (Hc : k = 0 \/ k = 1 \/ k = 2 \/ k = 3 \/ k = 4 \/ k = 5) by lia.
  destruct Hc as [-> | [-> | [-> | [-> | [-> | ->]]]]];
    vm_compute in Hp; injection Hp as <-; cbn; split; intros H; lia || reflexivity.
Qed.

Lemma eliminate_for_packs_witness :
  exists st' ce cg,
    eliminate_for 6 0 (sample_sorted, 0, 0) = Ok (st', ce, cg) /\
    gas_in_front st' /\ s_NumPart st' = 4 /\ s_N_sph st' = 2 /\ ce = 2 /\ cg = 1.
Proof.
  destruct (eliminate_for 6 0 (sample_sorted, 0, 0)) as [[[st' ce] cg] | | |] eqn:Hrun;
    [| vm_compute in Hrun; discriminate ..].
  destruct (eliminate_for_packs 6 sample_sorted st' ce cg ltac:(cbn; lia)
              sample_sorted_in_front Hrun) as (_ & Hgas & _).
  exists st', ce, cg. split; [reflexivity |]. split; [exact Hgas |].
  vm_compute in Hrun. injection Hrun as <- <- <-. repeat split.
Defined.

Lemma sample_seq_ready :
  forall k p, s_N_sph sample_seq <= k < s_NumPart sample_seq ->
              rd (s_P sample_seq) k = Ok p -> PType p <> 0.
Proof.
  intros k p Hk Hp. cbn [sample_seq s_NumPart s_N_sph s_P] in *.
  assert (Hc : k = 4 \/ k = 5) by lia.
  destruct Hc as [-> | ->]; vm_compute in Hp; injection Hp as <-; cbn; lia.
Qed.

Lemma rearrange_local_packs_witness :
  exists st' flag ce cg,
    rearrange_local 6 sample_seq = Ok (st', flag, ce, cg) /\
    gas_in_front st' /\
    map ID (particles st') = [1; 4; 6; 2] /\ s_N_sph st' = 2 /\ flag = 1 /\ ce = 2 /\ cg = 1.
Proof.
  destruct (rearrange_local 6 sample_seq) as [[[[st' flag] ce] cg] | | |] eqn:Hrun;
    [| vm_compute in Hrun; discriminate ..].
  destruct (rearrange_local_packs 6 sample_seq st' flag ce cg ltac:(cbn; lia)
              sample_seq_ready Hrun) as (_ & Hgas & _).
  exists st', flag, ce, cg. split; [reflexivity |]. split; [exact Hgas |].
  vm_compute in Hrun. injection Hrun as <- <- <- <-. repeat split.
Defined.

Lemma rearrange_reconstructs_witness :
  exists G' L,
    rearrange_particle_sequence Ok 6 [sample_seq; sample_quiet] = Ok (G', 2, 1) /\
    map s_NumPart L = [4; 2] /\ each_reconstruct Ok L = Ok G'.
Proof.
  destruct (rearrange_particle_sequence Ok 6 [sample_seq; sample_quiet])
    as [[[G' te] tg] | | |] eqn:Hrun; [| vm_compute in Hrun; discriminate ..].
  destruct (rearrange_reconstructs Ok 6 [sample_seq; sample_quiet] G' te tg Hrun)
    as (L & Hloc & _ & _ & _ & Hrec).
  assert (HL : map s_NumPart L = [4; 2]).
  { inversion Hloc as [| ? st1 ? G1 (f1 & c1 & g1 & H1) Hrest]; subst.
    inversion Hrest as [| ? st2 ? G2 (f2 & c2 & g2 & H2) Hnil]; subst.
    inversion Hnil; subst.
    vm_compute in H1. injection H1 as <- _ _ _.
    vm_compute in H2. injection H2 as <- _ _ _. reflexivity. }
  exists G', L. split; [| split; [exact HL |]].
  - vm_compute in Hrun. injection Hrun as _ <- <-. reflexivity.
  - apply Hrec. intros ->. discriminate HL.
Defined.

End Sequence.

(** ** Numbering the leaves of the top tree: [domain_walktoptree] *)

Module Leaves.

Import TopTree.

Definition set_Leaf (n : local_topnode_data) (l : Z) : local_topnode_data :=
  mkTop (Size n) (StartKey n) (Count n) (Cost n) (Daughter n) l (Parent n) (PIndex n).

(** [domain_walktoptree]; the state is [topNodes] and [NTopleaves], and the
    recursion follows the [Daughter] links on fuel. *)
Fixpoint domain_walktoptree (fuel : nat) (no : Z) (s : list local_topnode_data * Z)
  : outcome (list local_topnode_data * Z) :=
  match fuel with
  | O => Hang
  | S fuel' =>
      n ← rd (fst s) no;
      if Daughter n =? -1 then
        topNodes ← wr (fst s) no (set_Leaf n (snd s));
        Ok (topNodes, snd s + 1)
      else
        for_range 8 0
          (fun i s => n ← rd (fst s) no; domain_walktoptree fuel' (Daughter n + i) s) s
  end.

(** [x] is [a] or lies below it. *)
Definition under (t : list local_topnode_data) (a x : Z) : Prop := x = a \/ below t a x.

(** [x] is a node without daughters. *)
Definition leaf (t : list local_topnode_data) (x : Z) : Prop :=
  0 <= x < zlen t /\ dau t x = -1.

(** The number of the leaf [x]. *)
Definition lf (t : list local_topnode_data) (x : Z) : Z :=
  match rd t x with Ok n => Leaf n | _ => -1 end.

(** What a call on [no] that started with the nodes [tb] and [NTopleaves = n0]
    has done when it leaves the nodes [t'] and [NTopleaves = n1]; [t] is a
    tree with the daughters of [tb].  The leaves under [no], and no other
    nodes, have got a number; the numbers are those from [n0] to [n1 - 1],
    each given once; and of two daughters of a node the leaves under the
    first have the lower numbers. *)
Record numbered (t tb : list local_topnode_data) (no n0 : Z)
  (t' : list local_topnode_data) (n1 : Z) : Prop := {
  nb_len : zlen t' = zlen tb;
  nb_dau : forall n, dau t' n = dau tb n;
  nb_le : n0 <= n1;
  nb_frame : forall x, ~ (under t no x /\ leaf t x) -> rd t' x = rd tb x;
  nb_leaf : forall x n, under t no x -> rd tb x = Ok n -> Daughter n = -1 ->
              rd t' x = Ok (set_Leaf n (lf t' x)) /\ n0 <= lf t' x < n1;
  nb_onto : forall l, n0 <= l < n1 -> exists x, under t no x /\ leaf t x /\ lf t' x = l;
  nb_inj : forall x y, under t no x -> under t no y -> leaf t x -> leaf t y ->
             lf t' x = lf t' y -> x = y;
  nb_order : forall p c1 c2 x y,
      under t no p -> child t p c1 -> child t p c2 -> c1 < c2 ->
      under t c1 x -> under t c2 y -> leaf t x -> leaf t y -> lf t' x < lf t' y
}.

(** The state of the loop over the daughters of [no] when the daughters
    [0 .. k-1] are done. *)
Record walked (t : list local_topnode_data) (no n0 k : Z)
  (s : list local_topnode_data * Z) : Prop := {
  wk_len : zlen (fst s) = zlen t;
  wk_dau : forall n, dau (fst s) n = dau t n;
  wk_le : n0 <= snd s;
  wk_frame : forall x, (forall j, 0 <= j < k -> ~ (under t (dau t no + j) x /\ leaf t x)) ->
               rd (fst s) x = rd t x;
  wk_leaf : forall j x n, 0 <= j < k -> under t (dau t no + j) x -> rd t x = Ok n ->
              Daughter n = -1 ->
              rd (fst s) x = Ok (set_Leaf n (lf (fst s) x)) /\ n0 <= lf (fst s) x < snd s;
  wk_onto : forall l, n0 <= l < snd s ->
              exists j x, 0 <= j < k /\ under t (dau t no + j) x /\ leaf t x /\
                          lf (fst s) x = l;
  wk_inj : forall j x y, 0 <= j < k -> under t (dau t no + j) x -> under t (dau t no + j) y ->
             leaf t x -> leaf t y -> lf (fst s) x = lf (fst s) y -> x = y;
  wk_sib : forall j1 j2 x y, 0 <= j1 < j2 -> j2 < k ->
             under t (dau t no + j1) x -> under t (dau t no + j2) y ->
             leaf t x -> leaf t y -> lf (fst s) x < lf (fst s) y;
  wk_deep : forall j p c1 c2 x y, 0 <= j < k -> under t (dau t no + j) p ->
              child t p c1 -> child t p c2 -> c1 < c2 ->
              under t c1 x -> under t c2 y -> leaf t x -> leaf t y ->
              lf (fst s) x < lf (fst s) y
}.

Lemma below_trans (t : list local_topnode_data) (a p x : Z) :
  below t a p -> below t p x -> below t a x.
Proof.
  intros Ha Hp. induction Hp as [x Hc | q x _ IH Hc].
  - eapply below_step; eassumption.
  - eapply below_step; eassumption.
Qed.

Lemma under_child (t : list local_topnode_data) (a p c x : Z) :
  under t a p -> child t p c -> under t c x -> below t a x.
Proof.
  intros Hp Hc Hx.
  assert (Hac : below t a c).
  { destruct Hp as [-> | Hp]; [apply below_child; exact Hc |].
    eapply below_step; eassumption. }
  destruct Hx as [-> | Hx]; [exact Hac |]. eapply below_trans; eassumption.
Qed.

Lemma under_same_dau (t t' : list local_topnode_data) (a x : Z) :
  (forall n, dau t' n = dau t n) -> under t a x -> under t' a x.
Proof.
  intros Hd [-> | Hb]; [left; reflexivity | right; eapply below_same_dau; eassumption].
Qed.

Lemma leaf_rd (t : list local_topnode_data) (x : Z) :
  leaf t x -> exists n, rd t x = Ok n /\ Daughter n = -1.
Proof.
  intros [Hx Hd]. destruct (rd_in_range t x Hx) as [n Hn]. exists n. split; [exact Hn |].
  unfold dau in Hd. rewrite Hn in Hd. exact Hd.
Qed.

Lemma rd_leaf (t : list local_topnode_data) (x : Z) (n : local_topnode_data) :
  rd t x = Ok n -> Daughter n = -1 -> leaf t x.
Proof.
  intros Hn Hd. split; [eapply rd_range; exact Hn |]. unfold dau. rewrite Hn. exact Hd.
Qed.

Lemma numbered_same_dau (t tb : list local_topnode_data) (no n0 : Z)
  (t' : list local_topnode_data) (n1 : Z) :
  zlen tb = zlen t -> (forall n, dau tb n = dau t n) ->
  numbered tb tb no n0 t' n1 -> numbered t tb no n0 t' n1.
Proof.
  intros Hl Hd [L D Le F Lf O I Or].
  assert (Hd' : forall n, dau t n = dau tb n) by (intros n; symmetry; apply Hd).
  assert (Hu : forall a x, under t a x -> under tb a x)
    by (intros a x; apply under_same_dau; exact Hd).
  assert (Hu' : forall a x, under tb a x -> under t a x)
    by (intros a x; apply under_same_dau; exact Hd').
  assert (Hlf : forall x, leaf t x <-> leaf tb x).
  { intros x. unfold leaf. rewrite Hl, Hd. tauto. }
  assert (Hc : forall p c, child t p c -> child tb p c).
  { intros p c. unfold child. rewrite Hd. tauto. }
  constructor; try assumption.
  - intros x Hx. apply F. intros [H1 H2]. apply Hx. split; [auto | apply Hlf; exact H2].
  - intros x n Hx. apply Lf. auto.
  - intros l Hl'. destruct (O l Hl') as (x & H1 & H2 & H3). exists x.
    split; [auto |]. split; [apply Hlf; exact H2 | exact H3].
  - intros x y Hx Hy Lx Ly. apply I; auto; apply Hlf; assumption.
  - intros p c1 c2 x y Hp H1 H2 Hlt Hx Hy Lx Ly.
    apply (Or p c1 c2); auto; apply Hlf; assumption.
Qed.

Lemma lf_agree (t1 t2 : list local_topnode_data) (x : Z) :
  rd t2 x = rd t1 x -> lf t2 x = lf t1 x.
Proof. intros H. unfold lf. rewrite H. reflexivity. Qed.

Section Daughters.

Variable t : list local_topnode_data.
Hypothesis Hshape : tree_shaped t.
Variable no : Z.
Hypothesis Hint : 0 <= dau t no.

Lemma apart (j k x : Z) :
  0 <= j < 8 -> 0 <= k < 8 -> j <> k ->
  under t (dau t no + j) x -> ~ under t (dau t no + k) x.
Proof.
  intros Hj Hk Hne Hx Hx'.
  destruct (other_subtree t Hshape no Hint j k x Hj Hk Hne Hx) as [H1 H2].
  destruct Hx' as [-> | Hb]; [apply H1; reflexivity | exact (H2 Hb)].
Qed.

Lemma under_daughter (j x : Z) : 0 <= j < 8 -> under t (dau t no + j) x -> below t no x.
Proof.
  intros Hj Hx. apply (under_child t no no (dau t no + j) x); [left; reflexivity | | exact Hx].
  apply daughter_child; assumption.
Qed.

Lemma walk_step (n0 k : Z) (s : list local_topnode_data * Z)
  (t'' : list local_topnode_data) (n'' : Z) :
  0 <= k < 8 -> walked t no n0 k s ->
  numbered t (fst s) (dau t no + k) (snd s) t'' n'' ->
  walked t no n0 (k + 1) (t'', n'').
Proof.
  intros Hk [WL WD WLe WF WLf WO WI WS WDp] [L D Le F Lf O I Or].
  destruct s as [tk nk]. cbn [fst snd] in *.
  set (d := dau t no) in *.
  (* the leaves under the daughters done before keep their nodes *)
  assert (Hold : forall j x, 0 <= j < k -> under t (d + j) x -> rd t'' x = rd tk x).
  { intros j x Hj Hx. apply F. intros [Hx' _]. revert Hx'.
    apply (apart j k x); lia || assumption. }
  (* the nodes under daughter [k] are still the original ones *)
  assert (Hnew : forall x, under t (d + k) x -> rd tk x = rd t x).
  { intros x Hx. apply WF. intros j Hj [Hx' _]. revert Hx.
    apply (apart j k x); lia || assumption. }
  constructor; cbn [fst snd].
  - congruence.
  - intros n. rewrite D. apply WD.
  - lia.
  - intros x Hx. rewrite F.
    + apply WF. intros j Hj. apply Hx. lia.
    + apply Hx. lia.
  - intros j x n Hj Hx Hn Hdn. destruct (Z.eq_dec j k) as [-> | Hne].
    + rewrite <- (Hnew x Hx) in Hn. destruct (Lf x n Hx Hn Hdn) as [H1 H2].
      split; [exact H1 | lia].
    + destruct (WLf j x n ltac:(lia) Hx Hn Hdn) as [H1 H2].
      rewrite (lf_agree tk t'' x) by (apply (Hold j); lia || assumption).
      rewrite (Hold j x ltac:(lia) Hx). split; [exact H1 | lia].
  - intros l Hl. destruct (Z.lt_ge_cases l nk) as [Hlt | Hge].
    + destruct (WO l ltac:(lia)) as (j & x & Hj & Hx & Hlx & Hlf).
      exists j, x. split; [lia |]. split; [exact Hx |]. split; [exact Hlx |].
      rewrite (lf_agree tk t'' x) by (apply (Hold j); lia || assumption). exact Hlf.
    + destruct (O l ltac:(lia)) as (x & Hx & Hlx & Hlf).
      exists k, x. split; [lia |]. auto.
  - intros j x y Hj Hx Hy Lx Ly Heq. destruct (Z.eq_dec j k) as [-> | Hne].
    + apply I; assumption.
    + apply (WI j x y); try assumption; [lia |].
      rewrite <- (lf_agree tk t'' x), <- (lf_agree tk t'' y);
        [exact Heq | apply (Hold j); lia || assumption ..].
  - intros j1 j2 x y Hj1 Hj2 Hx Hy Lx Ly. destruct (Z.eq_dec j2 k) as [-> | Hne].
    + destruct (leaf_rd t x Lx) as (nx & Hnx & Hdx).
      destruct (leaf_rd t y Ly) as (ny & Hny & Hdy).
      destruct (WLf j1 x nx ltac:(lia) Hx Hnx Hdx) as [_ Hbx].
      rewrite <- (Hnew y Hy) in Hny. destruct (Lf y ny Hy Hny Hdy) as [_ Hby].
      rewrite (lf_agree tk t'' x) by (apply (Hold j1); lia || assumption). lia.
    + rewrite (lf_agree tk t'' x) by (apply (Hold j1); lia || assumption).
      rewrite (lf_agree tk t'' y) by (apply (Hold j2); lia || assumption).
      apply (WS j1 j2); lia || assumption.
  - intros j p c1 c2 x y Hj Hp H1 H2 Hlt Hx Hy Lx Ly.
    destruct (Z.eq_dec j k) as [-> | Hne].
    + apply (Or p c1 c2); assumption.
    + assert (Hxj : under t (d + j) x) by (right; exact (under_child t _ p c1 x Hp H1 Hx)).
      assert (Hyj : under t (d + j) y) by (right; exact (under_child t _ p c2 y Hp H2 Hy)).
      rewrite (lf_agree tk t'' x) by (apply (Hold j); lia || assumption).
      rewrite (lf_agree tk t'' y) by (apply (Hold j); lia || assumption).
      apply (WDp j p c1 c2); lia || assumption.
Qed.

Lemma walked_numbered (n0 : Z) (s : list local_topnode_data * Z) :
  walked t no n0 8 s -> numbered t t no n0 (fst s) (snd s).
Proof.
  intros [WL WD WLe WF WLf WO WI WS WDp]. set (d := dau t no) in *.
  assert (Hsplit : forall x, under t no x -> leaf t x ->
                     exists j, 0 <= j < 8 /\ under t (d + j) x).
  { intros x [-> | Hb] [_ Hlx]; [lia |]. apply below_split. exact Hb. }
  constructor; try assumption.
  - intros x Hx. apply WF. intros j Hj [H1 H2]. apply Hx. split; [| exact H2].
    right. apply (under_daughter j); assumption.
  - intros x n Hx Hn Hdn.
    destruct (Hsplit x Hx (rd_leaf t x n Hn Hdn)) as (j & Hj & Hxj).
    apply (WLf j); assumption.
  - intros l Hl. destruct (WO l Hl) as (j & x & Hj & Hx & Hlx & Hlf).
    exists x. split; [right; apply (under_daughter j); assumption | auto].
  - intros x y Hx Hy Lx Ly Heq.
    destruct (Hsplit x Hx Lx) as (j1 & Hj1 & Hx1).
    destruct (Hsplit y Hy Ly) as (j2 & Hj2 & Hy2).
    destruct (Z.lt_total j1 j2) as [Hlt | [-> | Hgt]].
    + pose proof (WS j1 j2 x y ltac:(lia) ltac:(lia) Hx1 Hy2 Lx Ly). lia.
    + apply (WI j2); assumption.
    + pose proof (WS j2 j1 y x ltac:(lia) ltac:(lia) Hy2 Hx1 Ly Lx). lia.
  - intros p c1 c2 x y [-> | Hp] C1 C2 Hlt Hx Hy Lx Ly.
    + destruct C1 as [_ H1]. destruct C2 as [_ H2]. fold d in H1, H2.
      replace c1 with (d + (c1 - d)) in Hx by lia.
      replace c2 with (d + (c2 - d)) in Hy by lia.
      apply (WS (c1 - d) (c2 - d)); lia || assumption.
    + destruct (below_split t no p Hp) as (j & Hj & Hpj).
      apply (WDp j p c1 c2); assumption.
Qed.

End Daughters.

(** A call on a node without daughters. *)
Lemma numbered_leaf (t : list local_topnode_data) (no n0 : Z) (n : local_topnode_data)
  (t' : list local_topnode_data) :
  rd t no = Ok n -> Daughter n = -1 -> wr t no (set_Leaf n n0) = Ok t' ->
  numbered t t no n0 t' (n0 + 1).
Proof.
  intros Hn Hd Hw.
  assert (Hrd : forall j, rd t' j = if j =? no then Ok (set_Leaf n n0) else rd t j)
    by (intros j; exact (Exchange.rd_wr _ _ _ j _ Hw)).
  assert (Hdno : dau t no = -1) by (unfold dau; rewrite Hn; exact Hd).
  assert (Honly : forall x, under t no x -> x = no).
  { intros x [-> | Hb]; [reflexivity |]. apply below_root_internal in Hb. lia. }
  assert (Hlno : lf t' no = n0).
  { unfold lf. rewrite Hrd, Z.eqb_refl. reflexivity. }
  constructor.
  - apply wr_Ok in Hw as [_ ->]. unfold zlen. rewrite length_insert. reflexivity.
  - intros x. unfold dau. rewrite Hrd. destruct (Z.eqb_spec x no) as [-> | _]; [| reflexivity].
    rewrite Hn. reflexivity.
  - lia.
  - intros x Hx. rewrite Hrd. destruct (Z.eqb_spec x no) as [-> | _]; [| reflexivity].
    exfalso. apply Hx. split; [left; reflexivity | eapply rd_leaf; eassumption].
  - intros x m Hx Hm _. apply Honly in Hx. subst x. rewrite Hn in Hm. injection Hm as <-.
    rewrite Hlno. rewrite Hrd, Z.eqb_refl. split; [reflexivity | lia].
  - intros l Hl. exists no. split; [left; reflexivity |].
    split; [eapply rd_leaf; eassumption | lia].
  - intros x y Hx Hy _ _ _. apply Honly in Hx, Hy. congruence.
  - intros p c1 c2 x y Hp [H1 _] _ _ _ _ _ _. apply Honly in Hp. subst p. lia.
Qed.

Lemma walk_run (fuel : nat) :
  forall (t : list local_topnode_data) (no n0 : Z),
    tree_shaped t -> (forall n, -1 <= dau t n) -> 0 <= no < zlen t ->
    (Z.to_nat (zlen t - no) <= fuel)%nat ->
    exists s, domain_walktoptree fuel no (t, n0) = Ok s /\
              numbered t t no n0 (fst s) (snd s).
Proof.
  induction fuel as [| fuel IH]; intros t no n0 Hshape Hwf Hno Hfuel; [lia |].
  cbn [domain_walktoptree fst snd]. unfold mbind, outcome_bind.
  destruct (rd_in_range t no Hno) as [n Hn]. rewrite Hn. cbn [obind].
  destruct (Z.eqb_spec (Daughter n) (-1)) as [Hd | Hd].
  - pose proof (wr_in_range t no (set_Leaf n n0) Hno) as Hw. rewrite Hw. cbn [obind].
    eexists (_, n0 + 1). split; [reflexivity |]. eapply numbered_leaf; eassumption.
  - assert (Hdn : dau t no = Daughter n) by (unfold dau; rewrite Hn; reflexivity).
    assert (Hint : 0 <= dau t no) by (specialize (Hwf no); lia).
    destruct (shaped_forward t Hshape no Hint) as [Hfwd Hfit].
    destruct (for_range_inv (walked t no n0)
                (fun i s => n ← rd (fst s) no; domain_walktoptree fuel (Daughter n + i) s)
                8 0 (t, n0))
      as (s' & Hrun & Hw).
    + constructor; cbn [fst snd]; try reflexivity; try lia; intros; lia.
    + intros k [tk nk] Hk Hwk. cbn [fst snd]. unfold mbind, outcome_bind.
      assert (Hrno : rd tk no = Ok n).
      { rewrite <- Hn. apply (wk_frame _ _ _ _ _ Hwk). intros j Hj [_ [_ Hl]]. lia. }
      rewrite Hrno. cbn [obind]. rewrite <- Hdn.
      assert (Hsk : tree_shaped tk).
      { apply (tree_shaped_same_dau t); [exact (wk_len _ _ _ _ _ Hwk) | | exact Hshape].
        exact (wk_dau _ _ _ _ _ Hwk). }
      destruct (IH tk (dau t no + k) nk Hsk) as ([t'' n''] & Hrec & Hnum).
      * intros m. rewrite (wk_dau _ _ _ _ _ Hwk). apply Hwf.
      * pose proof (wk_len _ _ _ _ _ Hwk) as Hl. cbn [fst] in Hl. lia.
      * pose proof (wk_len _ _ _ _ _ Hwk) as Hl. cbn [fst] in Hl. lia.
      * exists (t'', n''). split; [exact Hrec |].
        apply (walk_step t Hshape no Hint n0 k (tk, nk)); [lia | exact Hwk |].
        apply numbered_same_dau;
          [exact (wk_len _ _ _ _ _ Hwk) | exact (wk_dau _ _ _ _ _ Hwk) | exact Hnum].
    + exists s'. split; [exact Hrun |].
      apply (walked_numbered t no Hint). exact Hw.
Qed.

(** X11: [domain_walktoptree] numbers the leaves.  On a tree whose
    [Daughter] fields are -1 or the index of a block of eight nodes, the call
    on [no] with [NTopleaves = n0] returns; it changes nothing but the [Leaf]
    field of the leaves under [no]; these get the numbers from [n0] up to the
    new [NTopleaves], each number once; and of two daughters of a node the
    leaves under the first get the lower numbers. *)
Theorem walktoptree_numbers_leaves (fuel : nat) (t : list local_topnode_data) (no n0 : Z) :
  tree_shaped t -> (forall n, -1 <= dau t n) -> 0 <= no < zlen t ->
  (Z.to_nat (zlen t - no) <= fuel)%nat ->
  exists t' n1,
    domain_walktoptree fuel no (t, n0) = Ok (t', n1) /\
    (forall x, ~ (under t no x /\ leaf t x) -> rd t' x = rd t x) /\
    (forall x n, under t no x -> rd t x = Ok n -> Daughter n = -1 ->
       exists l, n0 <= l < n1 /\ rd t' x = Ok (set_Leaf n l)) /\
    (forall l, n0 <= l < n1 -> exists x, under t no x /\ leaf t x /\ lf t' x = l) /\
    (forall x y, under t no x -> under t no y -> leaf t x -> leaf t y ->
       lf t' x = lf t' y -> x = y) /\
    (forall p c1 c2 x y,
       under t no p -> child t p c1 -> child t p c2 -> c1 < c2 ->
       under t c1 x -> under t c2 y -> leaf t x -> leaf t y -> lf t' x < lf t' y).
Proof.
  intros Hshape Hwf Hno Hfuel.
  destruct (walk_run fuel t no n0 Hshape Hwf Hno Hfuel)
    as ([t' n1] & Hrun & [L D Le F Lf O I Or]).
  cbn [fst snd] in *. exists t', n1. split; [exact Hrun |]. split; [exact F |].
  split; [| split; [exact O |]; split; [exact I | exact Or]].
  intros x n Hx Hn Hd. destruct (Lf x n Hx Hn Hd) as [H1 H2].
  exists (lf t' x). split; [exact H2 | exact H1].
Qed.

Lemma sample_tree_daughters (n : Z) : -1 <= dau sample_tree n.
Proof.
  unfold dau, rd. destruct (Z.ltb_spec n 0) as [| Hn]; [cbn; lia |].
  remember (Z.to_nat n) as k eqn:Hk.
  do 17 (destruct k as [| k]; [cbn; lia |]).
  simpl. lia.
Qed.

Lemma walktoptree_numbers_leaves_witness :
  exists t' n1,
    domain_walktoptree 17 0 (sample_tree, 0) = Ok (t', n1) /\
    n1 = 15 /\
    map Leaf t' = [0; 0; 1; 0; 10; 11; 12; 13; 14; 2; 3; 4; 5; 6; 7; 8; 9].
Proof.
  destruct (walktoptree_numbers_leaves 17 sample_tree 0 0 sample_tree_shaped
              sample_tree_daughters ltac:(vm_compute; intuition congruence) ltac:(vm_compute; lia))
    as (t' & n1 & Hrun & _).
  exists t', n1. split; [exact Hrun |].
  vm_compute in Hrun. injection Hrun as <- <-. split; reflexivity.
Defined.

(** *** Finding the leaf of a key: [domain_leafnodefunc] *)

(** The conversion of an unsigned 64-bit value to [int]. *)
Definition int_of (x : Z) : Z := (x + 2 ^ 31) mod 2 ^ 32 - 2 ^ 31.

(** while(topNodes[no].Daughter >= 0)
      no = topNodes[no].Daughter + (key - topNodes[no].StartKey) / (topNodes[no].Size / 8);
    the keys are unsigned 64-bit integers, and a division by zero is a
    fault. *)
Fixpoint leafnode_while (fuel : nat) (topNodes : list local_topnode_data) (key no : Z)
  : outcome Z :=
  n ← rd topNodes no;
  if Daughter n >=? 0 then
    match fuel with
    | O => Hang
    | S fuel' =>
        if Size n / 8 =? 0 then Fault
        else leafnode_while fuel' topNodes key
               (int_of (wrap64 (Daughter n + wrap64 (key - StartKey n) / (Size n / 8))))
    end
  else Ok no.

Definition domain_leafnodefunc (fuel : nat) (topNodes : list local_topnode_data) (key : Z)
  : outcome Z :=
  no ← leafnode_while fuel topNodes key 0;
  n ← rd topNodes no;
  Ok (Leaf n).

(** The keys of node [x] are those from [StartKey] up to [StartKey + Size]. *)
Definition holds (t : list local_topnode_data) (x key : Z) : Prop :=
  exists n, rd t x = Ok n /\ StartKey n <= key < StartKey n + Size n.

(** Every daughter has an eighth of the keys of its parent, in the order of
    the daughters. *)
Definition ranged (t : list local_topnode_data) : Prop :=
  forall p c x y, child t p c -> rd t p = Ok x -> rd t c = Ok y ->
    0 < Size y /\ Size x = 8 * Size y /\ StartKey y = StartKey x + (c - dau t p) * Size y.

Section Keys.

Variable t : list local_topnode_data.
Hypothesis Hshape : tree_shaped t.
Hypothesis Hwf : forall n, -1 <= dau t n.
Hypothesis Hranged : ranged t.
Hypothesis Hsmall : zlen t < 2 ^ 31.

Lemma holds_child (p c key : Z) : child t p c -> holds t c key -> holds t p key.
Proof.
  intros Hc (y & Hy & Hk). pose proof Hc as [H0 Hcr].
  destruct (dau_Ok t p H0) as (x & Hx & _).
  destruct (Hranged p c x y Hc Hx Hy) as (Hs & H8 & Hst).
  exists x. split; [exact Hx |]. nia.
Qed.

Lemma holds_under (a x key : Z) : under t a x -> holds t x key -> holds t a key.
Proof.
  intros [-> | Hb]; [tauto |]. induction Hb as [x Hc | p x _ IH Hc]; intros Hk.
  - eapply holds_child; eassumption.
  - apply IH. eapply holds_child; eassumption.
Qed.

(** One turn of the loop goes to the daughter that holds the key. *)
Lemma leafnode_turn (no key : Z) (n : local_topnode_data) :
  rd t no = Ok n -> 0 <= Daughter n -> 0 <= StartKey n -> StartKey n + Size n <= 2 ^ 64 ->
  StartKey n <= key < StartKey n + Size n ->
  exists j y, 0 <= j < 8 /\
    int_of (wrap64 (Daughter n + wrap64 (key - StartKey n) / (Size n / 8)))
    = dau t no + j /\
    rd t (dau t no + j) = Ok y /\ Size n / 8 = Size y /\ 0 < Size y /\
    0 <= StartKey y /\ StartKey y + Size y <= 2 ^ 64 /\
    StartKey y <= key < StartKey y + Size y /\
    (forall j', 0 <= j' < 8 -> holds t (dau t no + j') key -> j' = j).
Proof.
  intros Hn Hd H0 H64 Hk.
  assert (Hdn : dau t no = Daughter n) by (unfold dau; rewrite Hn; reflexivity).
  assert (Hint : 0 <= dau t no) by lia.
  destruct (shaped_forward t Hshape no Hint) as [Hfwd Hfit].
  destruct (rd_in_range t (dau t no) ltac:(pose proof (rd_range _ _ _ Hn); lia)) as [y0 Hy0].
  destruct (Hranged no (dau t no) n y0 ltac:(split; lia) Hn Hy0) as (Hs0 & H80 & _).
  assert (Hq : Size n / 8 = Size y0) by (rewrite H80, Z.mul_comm; apply Z.div_mul; lia).
  set (q := (key - StartKey n) / Size y0).
  assert (Hqr : 0 <= q < 8).
  { unfold q. split; [apply Z.div_pos; lia |]. apply Z.div_lt_upper_bound; lia. }
  assert (Hqk : Size y0 * q <= key - StartKey n < Size y0 * (q + 1)).
  { unfold q. pose proof (Z.mul_div_le (key - StartKey n) (Size y0) Hs0).
    pose proof (Z.mul_succ_div_gt (key - StartKey n) (Size y0) Hs0). lia. }
  destruct (rd_in_range t (dau t no + q) ltac:(pose proof (rd_range _ _ _ Hn); lia)) as [y Hy].
  destruct (Hranged no (dau t no + q) n y ltac:(split; lia) Hn Hy) as (Hs & H8 & Hst).
  assert (Hsy : Size y = Size y0) by lia.
  exists q, y. split; [exact Hqr |]. split.
  { rewrite Hq. unfold wrap64 at 2. rewrite (Z.mod_small (key - StartKey n)) by lia.
    fold q. rewrite <- Hdn. unfold wrap64. rewrite Z.mod_small by lia.
    unfold int_of. rewrite Z.mod_small by lia. lia. }
  split; [exact Hy |]. split; [congruence |]. split; [exact Hs |].
  replace (dau t no + q - dau t no) with q in Hst by lia.
  split; [nia |]. split; [nia |]. split; [nia |].
  intros j' Hj' (y' & Hy' & Hk').
  destruct (Hranged no (dau t no + j') n y' ltac:(split; lia) Hn Hy') as (Hs' & H8' & Hst').
  replace (dau t no + j' - dau t no) with j' in Hst' by lia.
  assert (Hsy' : Size y' = Size y0) by lia. rewrite Hsy' in *. nia.
Qed.

Lemma leafnode_run (key : Z) (fuel : nat) :
  forall no n, rd t no = Ok n -> 0 <= StartKey n -> StartKey n + Size n <= 2 ^ 64 ->
    StartKey n <= key < StartKey n + Size n ->
    (Z.to_nat (zlen t - no) <= fuel)%nat ->
    exists x, leafnode_while fuel t key no = Ok x /\
              under t no x /\ leaf t x /\ holds t x key /\
              (forall y, under t no y -> leaf t y -> holds t y key -> y = x).
Proof.
  induction fuel as [| fuel IH]; intros no n Hn H0 H64 Hk Hfuel.
  { pose proof (rd_range _ _ _ Hn). lia. }
  assert (Hdn : dau t no = Daughter n) by (unfold dau; rewrite Hn; reflexivity).
  cbn [leafnode_while]. unfold mbind, outcome_bind. rewrite Hn. cbn [obind].
  destruct (Z.geb_spec (Daughter n) 0) as [Hd | Hd].
  - destruct (leafnode_turn no key n Hn Hd H0 H64 Hk)
      as (j & y & Hj & Hgo & Hy & Hq & Hs & Hy0 & Hy64 & Hyk & Honly).
    rewrite Hq. destruct (Z.eqb_spec (Size y) 0); [lia |]. rewrite <- Hq, Hgo.
    assert (Hint : 0 <= dau t no) by lia.
    destruct (shaped_forward t Hshape no Hint) as [Hfwd Hfit].
    destruct (IH (dau t no + j) y Hy Hy0 Hy64 Hyk ltac:(lia))
      as (x & Hrun & Hx & Hlx & Hhx & Huniq).
    exists x. split; [exact Hrun |].
    split; [right; apply (under_daughter t no Hint j); assumption |].
    split; [exact Hlx |]. split; [exact Hhx |].
    intros z [-> | Hb] Hlz Hhz; [destruct Hlz; lia |].
    destruct (below_split t no z Hb) as (j' & Hj' & Hz).
    assert (j' = j) by (apply Honly; [exact Hj' | eapply holds_under; eassumption]).
    subst j'. apply Huniq; assumption.
  - assert (Hl : leaf t no).
    { split; [eapply rd_range; exact Hn |]. specialize (Hwf no). lia. }
    exists no. destruct fuel; (split; [reflexivity |]);
      (split; [left; reflexivity |]); (split; [exact Hl |]);
      (split; [exists n; split; assumption |]);
      intros y [-> | Hb] _ _; try reflexivity;
      apply below_root_internal in Hb; destruct Hl; lia.
Qed.

End Keys.

(** X12: [domain_leafnodefunc] finds the leaf of a key.  On a tree where
    every daughter has an eighth of the keys of its parent, for a key among
    those of the root, the routine returns the number of a leaf that holds
    the key, and no other leaf of the tree holds it. *)
Theorem leafnodefunc_finds (fuel : nat) (t : list local_topnode_data) (key : Z)
  (root : local_topnode_data) :
  tree_shaped t -> (forall n, -1 <= dau t n) -> ranged t -> zlen t < 2 ^ 31 ->
  rd t 0 = Ok root -> 0 <= StartKey root -> StartKey root + Size root <= 2 ^ 64 ->
  StartKey root <= key < StartKey root + Size root ->
  (Z.to_nat (zlen t) <= fuel)%nat ->
  exists x,
    domain_leafnodefunc fuel t key = Ok (lf t x) /\
    under t 0 x /\ leaf t x /\ holds t x key /\
    (forall y, under t 0 y -> leaf t y -> holds t y key -> y = x).
Proof.
  intros Hshape Hwf Hranged Hsmall Hroot H0 H64 Hk Hfuel.
  destruct (leafnode_run t Hshape Hwf Hranged Hsmall key fuel 0 root Hroot H0 H64 Hk
              ltac:(lia)) as (x & Hrun & Hx & Hlx & Hhx & Huniq).
  exists x. split; [| auto].
  unfold domain_leafnodefunc, mbind, outcome_bind. rewrite Hrun. cbn [obind].
  destruct Hhx as (n & Hn & _). unfold lf. rewrite Hn. reflexivity.
Qed.

(** A root with the keys 0 .. 63 and eight daughters, the third of which is
    refined once more; the leaves are numbered as [domain_walktoptree] does. *)
Definition keyed_node (size start daughter leaf_no : Z) : local_topnode_data :=
  mkTop size start 0 0%Q daughter leaf_no 0 0.

Definition keyed_tree : list local_topnode_data :=
  [keyed_node 64 0 1 0;
   keyed_node 8 0 (-1) 0; keyed_node 8 8 (-1) 1; keyed_node 8 16 9 0; keyed_node 8 24 (-1) 10;
   keyed_node 8 32 (-1) 11; keyed_node 8 40 (-1) 12; keyed_node 8 48 (-1) 13;
   keyed_node 8 56 (-1) 14;
   keyed_node 1 16 (-1) 2; keyed_node 1 17 (-1) 3; keyed_node 1 18 (-1) 4;
   keyed_node 1 19 (-1) 5; keyed_node 1 20 (-1) 6; keyed_node 1 21 (-1) 7;
   keyed_node 1 22 (-1) 8; keyed_node 1 23 (-1) 9].

Lemma keyed_tree_daughters (n : Z) : -1 <= dau keyed_tree n.
Proof.
  unfold dau, rd. destruct (Z.ltb_spec n 0) as [| Hn]; [cbn; lia |].
  remember (Z.to_nat n) as k eqn:Hk.
  do 17 (destruct k as [| k]; [cbn; lia |]).
  simpl. lia.
Qed.

Lemma keyed_tree_refined (n : Z) : 0 <= dau keyed_tree n -> n = 0 \/ n = 3.
Proof.
  unfold dau, rd. destruct (Z.ltb_spec n 0) as [| Hn]; [lia |].
  remember (Z.to_nat n) as k eqn:Hk.
  do 17 (destruct k as [| k]; [cbn; lia |]).
  simpl. lia.
Qed.

Lemma keyed_tree_shaped : tree_shaped keyed_tree.
Proof.
  constructor.
  - intros n H. destruct (keyed_tree_refined n H) as [-> | ->];
      vm_compute; intuition congruence.
  - intros n m Hn Hm Hne.
    destruct (keyed_tree_refined n Hn) as [-> | ->];
      destruct (keyed_tree_refined m Hm) as [-> | ->];
      try congruence; vm_compute; intuition congruence.
Qed.

Lemma keyed_tree_ranged : ranged keyed_tree.
Proof.
  intros p c x y [H0 Hc] Hx Hy.
  destruct (keyed_tree_refined p H0) as [-> | ->].
  - change (dau keyed_tree 0) with 1 in *.
    assert (Hcs : c = 1 \/ c = 2 \/ c = 3 \/ c = 4 \/ c = 5 \/ c = 6 \/ c = 7 \/ c = 8) by lia.
    vm_compute in Hx. injection Hx as <-.
    destruct Hcs as [-> | [-> | [-> | [-> | [-> | [-> | [-> | ->]]]]]]];
      vm_compute in Hy; injection Hy as <-; vm_compute; repeat split.
  - change (dau keyed_tree 3) with 9 in *.
    assert (Hcs : c = 9 \/ c = 10 \/ c = 11 \/ c = 12 \/ c = 13 \/ c = 14 \/ c = 15 \/ c = 16)
      by lia.
    vm_compute in Hx. injection Hx as <-.
    destruct Hcs as [-> | [-> | [-> | [-> | [-> | [-> | [-> | ->]]]]]]];
      vm_compute in Hy; injection Hy as <-; vm_compute; repeat split.
Qed.

Lemma leafnodefunc_finds_witness :
  exists x,
    domain_leafnodefunc 17 keyed_tree 19 = Ok (lf keyed_tree x) /\
    holds keyed_tree x 19 /\ lf keyed_tree x = 5.
Proof.
  destruct (leafnodefunc_finds 17 keyed_tree 19 (keyed_node 64 0 1 0)
              keyed_tree_shaped keyed_tree_daughters keyed_tree_ranged
              ltac:(vm_compute; reflexivity) eq_refl ltac:(cbn; lia) ltac:(cbn; lia)
              ltac:(cbn; lia) ltac:(vm_compute; lia))
    as (x & Hrun & _ & _ & Hh & _).
  exists x. split; [exact Hrun |]. split; [exact Hh |].
  assert (Hc : domain_leafnodefunc 17 keyed_tree 19 = Ok 5) by reflexivity.
  rewrite Hc in Hrun. injection Hrun as Hrun. symmetry. exact Hrun.
Defined.

End Leaves.

(** ** Counting the particles of the leaves: [domain_sumCost] *)

Module SumCost.

Import TopTree Leaves.

(** The three arrays of [NumThreads * NTopnodes] entries. *)
Record tallies : Type := mkTally {
  local_domainWork : list Q;
  local_domainCount : list Z;
  local_domainCountSph : list Z
}.

(** [a[i] += x] *)
Definition add_at {A : Type} (plus : A -> A -> A) (a : list A) (i : Z) (x : A)
  : outcome (list A) :=
  v ← rd a i; wr a i (plus v x).

Section Sum.

Variable TIMEBASE : Q.
Variable NumThreads : Z.
Variable P : list particle_data.
Variable NumPart : Z.

(** The thread that runs turn [n] of the loop over the particles
    ([#pragma omp for]); the turns are taken in the order of [n]. *)
Variable sched : Z -> Z.

(** One turn of the loop over the particles, on the thread [sched n], whose
    part of an array starts at [tid * NTopleaves]. *)
Definition tally_particle (fuel : nat) (topNodes : list local_topnode_data) (NTopleaves : Z)
  (n : Z) (a : tallies) : outcome tallies :=
  let tid := sched n in
  p ← rd P n;
  no ← domain_leafnodefunc fuel topNodes (Key p);
  cost ← domain_particle_costfactor TIMEBASE P n;
  w ← add_at Qplus (local_domainWork a) (tid * NTopleaves + no) cost;
  c ← add_at Z.add (local_domainCount a) (tid * NTopleaves + no) 1;
  if PType p =? 0 then
    cs ← add_at Z.add (local_domainCountSph a) (tid * NTopleaves + no) 1;
    Ok (mkTally w c cs)
  else Ok (mkTally w c (local_domainCountSph a)).

(** for(tid = 1; tid < All.NumThreads; tid++) local[i] += local[i + tid * NTopleaves] *)
Definition gather_turn (NTopleaves i tid : Z) (a : tallies) : outcome tallies :=
  x ← rd (local_domainWork a) (i + tid * NTopleaves);
  w ← add_at Qplus (local_domainWork a) i x;
  x ← rd (local_domainCount a) (i + tid * NTopleaves);
  c ← add_at Z.add (local_domainCount a) i x;
  x ← rd (local_domainCountSph a) (i + tid * NTopleaves);
  cs ← add_at Z.add (local_domainCountSph a) i x;
  Ok (mkTally w c cs).

(** The loop over the leaves that adds the parts of the threads to the
    part of thread 0. *)
Definition gather (NTopleaves : Z) (a : tallies) : outcome tallies :=
  for_range (Z.to_nat NTopleaves) 0
    (fun i a => for_range (Z.to_nat (NumThreads - 1)) 1 (gather_turn NTopleaves i) a) a.

(** [domain_sumCost] up to the three calls of MPI_Allreduce: the nodes with
    their leaves numbered, [NTopleaves], and the three arrays, whose first
    [NTopleaves] entries go into the sums over the processes. *)
Definition domain_sumCost_local (fuel : nat) (st : top_state)
  : outcome (top_state * Z * tallies) :=
  let size := Z.to_nat (NumThreads * NTopnodes st) in
  let a := mkTally (repeat 0%Q size) (repeat 0 size) (repeat 0 size) in
  '(t, NTopleaves) ← domain_walktoptree fuel 0 (topNodes st, 0);
  a ← for_range (Z.to_nat NumPart) 0 (tally_particle fuel t NTopleaves) a;
  a ← gather NTopleaves a;
  Ok (mkTopState t (NTopnodes st) (MaxTopNodes st), NTopleaves, a).

End Sum.

Lemma add_at_spec {A : Type} (plus : A -> A -> A) (a : list A) (i : Z) (x : A) :
  0 <= i < zlen a ->
  exists v a', rd a i = Ok v /\ add_at plus a i x = Ok a' /\ zlen a' = zlen a /\
               forall j, rd a' j = if j =? i then Ok (plus v x) else rd a j.
Proof.
  intros Hi. destruct (rd_in_range a i Hi) as [v Hv].
  pose proof (wr_in_range a i (plus v x) Hi) as Hw.
  exists v, (<[Z.to_nat i := plus v x]> a). split; [exact Hv |].
  split; [unfold add_at, mbind, outcome_bind; rewrite Hv; exact Hw |].
  split; [exact (zlen_wr _ _ _ _ Hw) |].
  intros j. exact (Exchange.rd_wr _ _ _ j _ Hw).
Qed.

(** Only the [Leaf] fields differ. *)
Definition relabelled (t t' : list local_topnode_data) : Prop :=
  zlen t' = zlen t /\
  forall x n, rd t x = Ok n -> exists l, rd t' x = Ok (set_Leaf n l).

Lemma set_Leaf_same (n : local_topnode_data) : set_Leaf n (Leaf n) = n.
Proof. destruct n. reflexivity. Qed.

Lemma relabelled_refl (t : list local_topnode_data) : relabelled t t.
Proof.
  split; [reflexivity |]. intros x n Hn. exists (Leaf n). rewrite set_Leaf_same. exact Hn.
Qed.

Lemma relabelled_trans (t1 t2 t3 : list local_topnode_data) :
  relabelled t1 t2 -> relabelled t2 t3 -> relabelled t1 t3.
Proof.
  intros [L1 H1] [L2 H2]. split; [congruence |]. intros x n Hn.
  destruct (H1 x n Hn) as (l1 & Hn1). destruct (H2 x _ Hn1) as (l2 & Hn2).
  exists l2. exact Hn2.
Qed.

Lemma walk_relabels (fuel : nat) :
  forall no s s', domain_walktoptree fuel no s = Ok s' -> relabelled (fst s) (fst s').
Proof.
  induction fuel as [| fuel IH]; intros no s s' Hrun; [discriminate |].
  cbn [domain_walktoptree] in Hrun. unfold mbind, outcome_bind in Hrun. bind_inv Hrun.
  destruct (Daughter a =? -1).
  - bind_inv Hrun. injection Hrun as <-. cbn [fst].
    split; [exact (zlen_wr _ _ _ _ E0) |]. intros x n Hn.
    rewrite (Exchange.rd_wr _ _ _ x _ E0). destruct (Z.eqb_spec x no) as [-> | _].
    + rewrite E in Hn. injection Hn as <-. eauto.
    + exists (Leaf n). rewrite set_Leaf_same. exact Hn.
  - pose proof (for_range_Ok (fun _ s1 => relabelled (fst s) (fst s1)) _ _ _ _ _ Hrun
                  (relabelled_refl _)) as H.
    apply H. intros k s0 s1 _ H0 Hb. bind_inv Hb. apply IH in Hb.
    eapply relabelled_trans; eassumption.
Qed.

Lemma relabelled_dau (t t' : list local_topnode_data) :
  relabelled t t' -> forall n, dau t' n = dau t n.
Proof.
  intros [L H] n. unfold dau.
  destruct (rd t n) as [x | | |] eqn:Hx;
    [destruct (H n x Hx) as (l & ->); reflexivity | ..];
    (destruct (rd t' n) as [y | | |] eqn:Hy; try reflexivity;
     apply rd_range in Hy; rewrite L in Hy; destruct (rd_in_range t n Hy) as [z Hz];
     congruence).
Qed.

Lemma relabelled_holds (t t' : list local_topnode_data) (x key : Z) :
  relabelled t t' -> holds t' x key <-> holds t x key.
Proof.
  intros [L H]. split.
  - intros (n' & Hn' & Hk). pose proof (rd_range _ _ _ Hn') as Hr. rewrite L in Hr.
    destruct (rd_in_range t x Hr) as [n Hn]. destruct (H x n Hn) as (l & Hl).
    rewrite Hn' in Hl. injection Hl as ->. exists n. split; [exact Hn | exact Hk].
  - intros (n & Hn & Hk). destruct (H x n Hn) as (l & Hl).
    exists (set_Leaf n l). split; [exact Hl | exact Hk].
Qed.

Lemma relabelled_ranged (t t' : list local_topnode_data) :
  relabelled t t' -> ranged t -> ranged t'.
Proof.
  intros Hr Hrg p c x' y' Hc Hx' Hy'. pose proof Hr as [L H].
  assert (Hc0 : child t p c).
  { unfold child in *. rewrite <- (relabelled_dau t t' Hr). exact Hc. }
  pose proof (rd_range _ _ _ Hx') as Rx. pose proof (rd_range _ _ _ Hy') as Ry.
  rewrite L in Rx, Ry.
  destruct (rd_in_range t p Rx) as [x Hx]. destruct (rd_in_range t c Ry) as [y Hy].
  destruct (H p x Hx) as (l1 & E1). destruct (H c y Hy) as (l2 & E2).
  rewrite Hx' in E1. rewrite Hy' in E2. injection E1 as ->. injection E2 as ->.
  rewrite (relabelled_dau t t' Hr). exact (Hrg p c x y Hc0 Hx Hy).
Qed.

Lemma relabelled_leaf (t t' : list local_topnode_data) (x : Z) :
  relabelled t t' -> leaf t' x <-> leaf t x.
Proof.
  intros Hr. unfold leaf. rewrite (relabelled_dau t t' Hr). destruct Hr as [-> _]. tauto.
Qed.

Lemma nsum_S_r (f : nat -> Z) (n : nat) : Exchange.nsum f (S n) = Exchange.nsum f n + f n.
Proof.
  revert f. induction n as [| n IH]; intros f; [cbn; lia |].
  change (Exchange.nsum f (S (S n))) with (f O + Exchange.nsum (fun k => f (S k)) (S n)).
  rewrite IH. cbn [Exchange.nsum]. lia.
Qed.

(** There are no more leaf numbers than nodes. *)
Lemma numbers_fit (t t' : list local_topnode_data) (lo : Z) (k : nat) :
  (forall l, lo <= l < lo + Z.of_nat k -> exists x, 0 <= x < zlen t /\ lf t' x = l) ->
  exists xs : list Z, length xs = k /\ List.NoDup xs /\
    forall x, In x xs -> 0 <= x < zlen t /\ lo <= lf t' x < lo + Z.of_nat k.
Proof.
  induction k as [| k IH]; intros H.
  - exists []. split; [reflexivity |]. split; [constructor |]. intros x [].
  - destruct IH as (xs & Hlen & Hnd & Hxs); [intros l Hl; apply H; lia |].
    destruct (H (lo + Z.of_nat k) ltac:(lia)) as (x & Hx & Hlx).
    exists (x :: xs). split; [cbn; lia |]. split.
    + constructor; [| exact Hnd]. intros Hin. apply Hxs in Hin. lia.
    + intros y [<- | Hy]; [lia |]. apply Hxs in Hy. lia.
Qed.

Lemma numbers_bounded (t t' : list local_topnode_data) (n1 : Z) :
  0 <= n1 ->
  (forall l, 0 <= l < n1 -> exists x, 0 <= x < zlen t /\ lf t' x = l) ->
  n1 <= zlen t.
Proof.
  intros H0 H. destruct (numbers_fit t t' 0 (Z.to_nat n1)) as (xs & Hlen & Hnd & Hxs).
  { intros l Hl. apply H. lia. }
  assert (Hincl : incl xs (map Z.of_nat (seq 0 (length t)))).
  { intros x Hx. apply Hxs in Hx as [Hx _]. apply in_map_iff. exists (Z.to_nat x).
    split; [lia |]. apply in_seq. unfold zlen in Hx. lia. }
  pose proof (NoDup_incl_length Hnd Hincl) as Hle.
  rewrite length_map, length_seq in Hle. unfold zlen. lia.
Qed.

Lemma nsum_pick (a : Z) (b : bool) (n : nat) :
  0 <= a < Z.of_nat n ->
  Exchange.nsum (fun k => if (a =? Z.of_nat k) && b then 1 else 0) n = if b then 1 else 0.
Proof.
  induction n as [| n IH]; intros Ha; [lia |]. rewrite nsum_S_r.
  destruct (Z.eq_dec a (Z.of_nat n)) as [-> | Hne].
  - rewrite Z.eqb_refl. cbn [andb].
    rewrite (Exchange.nsum_ext _ (fun _ => 0)).
    + assert (Hz : forall k, Exchange.nsum (fun _ => 0) k = 0)
        by (induction k as [| k IHk]; [reflexivity | cbn [Exchange.nsum]; rewrite IHk; lia]).
      rewrite Hz. lia.
    + intros k Hk. destruct (Z.eqb_spec (Z.of_nat n) (Z.of_nat k)); [lia | reflexivity].
  - rewrite IH by lia. destruct (Z.eqb_spec a (Z.of_nat n)); [contradiction |]. cbn [andb]. lia.
Qed.

Lemma nsum_ones (n : nat) : Exchange.nsum (fun _ => 1) n = Z.of_nat n.
Proof. induction n as [| n IH]; [reflexivity |]. cbn [Exchange.nsum]. rewrite IH. lia. Qed.

Lemma zsum_take (c : list Z) (f : Z -> Z) (n : Z) :
  (forall l, 0 <= l < n -> rd c l = Ok (f l)) ->
  Exchange.zsum (take (Z.to_nat n) c) = Exchange.nsum (fun l => f (Z.of_nat l)) (Z.to_nat n).
Proof.
  intros H. rewrite Exchange.zsum_nsum.
  assert (Hlen : length (take (Z.to_nat n) c) = Z.to_nat n).
  { rewrite length_take. destruct (Z.to_nat n) as [| k] eqn:Hk; [reflexivity |].
    pose proof (rd_range _ _ _ (H (Z.of_nat k) ltac:(lia))) as Hr. unfold zlen in Hr. lia. }
  rewrite Hlen. apply Exchange.nsum_ext. intros k Hk.
  pose proof (H (Z.of_nat k) ltac:(lia)) as Hrd. apply rd_Ok in Hrd as [_ Hrd].
  rewrite Nat2Z.id in Hrd. rewrite nth_lookup, lookup_take_lt by lia. rewrite Hrd. reflexivity.
Qed.

Lemma rd_repeat {A : Type} (x : A) (n : nat) (j : Z) :
  0 <= j < Z.of_nat n -> rd (repeat x n) j = Ok x.
Proof.
  intros Hj. apply rd_Ok. split; [lia |].
  assert (Hk : (Z.to_nat j < n)%nat) by lia. clear Hj. revert Hk.
  generalize (Z.to_nat j) as k.
  induction n as [| n IH]; intros k Hk; [lia |].
  destruct k as [| k]; [reflexivity |]. cbn. apply IH. lia.
Qed.

(** Whether node [x] holds the key. *)
Definition holdsb (t : list local_topnode_data) (x key : Z) : bool :=
  match rd t x with
  | Ok n => (StartKey n <=? key) && (key <? StartKey n + Size n)
  | _ => false
  end.

Lemma holdsb_holds (t : list local_topnode_data) (x key : Z) :
  holdsb t x key = true <-> holds t x key.
Proof.
  unfold holdsb, holds. split.
  - destruct (rd t x) as [n | | |]; try discriminate. intros H.
    apply andb_true_iff in H as [H1 H2]. exists n. split; [reflexivity | lia].
  - intros (n & -> & Hk). apply andb_true_iff. split; lia.
Qed.

(** The number of [m] below [n] with [g m]. *)
Definition count_if (g : Z -> bool) (n : Z) : Z :=
  Exchange.nsum (fun m => if g (Z.of_nat m) then 1 else 0) (Z.to_nat n).

Section Counting.

Variable TIMEBASE : Q.
Variable NumThreads : Z.
Variable P : list particle_data.
Variable NumPart : Z.
Variable sched : Z -> Z.
Variable fuel : nat.
Variables t t' : list local_topnode_data.
Variable NL : Z.
Variable root : local_topnode_data.

Hypothesis Hshape : tree_shaped t.
Hypothesis Hwf : forall n, -1 <= dau t n.
Hypothesis Hranged : ranged t.
Hypothesis Hsmall : zlen t < 2 ^ 31.
Hypothesis Hroot : rd t 0 = Ok root.
Hypothesis Hlow : 0 <= StartKey root.
Hypothesis Hhigh : StartKey root + Size root <= 2 ^ 64.
Hypothesis Hkeys : forall m p, 0 <= m < NumPart -> rd P m = Ok p ->
                     StartKey root <= Key p < StartKey root + Size root.
Hypothesis HP : 0 <= NumPart <= zlen P.
Hypothesis Hthreads : 1 <= NumThreads.
Hypothesis Hsched : forall m, 0 <= m < NumPart -> 0 <= sched m < NumThreads.
Hypothesis Hfuel : (Z.to_nat (zlen t) <= fuel)%nat.
Hypothesis Hnum : numbered t t 0 0 t' NL.
Hypothesis Hrel : relabelled t t'.

(** The leaf number of particle [m], and whether it is a gas particle. *)
Definition no_of (m : Z) : Z :=
  match rd P m with
  | Ok p => match domain_leafnodefunc fuel t' (Key p) with Ok l => l | _ => -1 end
  | _ => -1
  end.

Definition gas_of (m : Z) : bool :=
  match rd P m with Ok p => PType p =? 0 | _ => false end.

Definition key_held (x m : Z) : bool :=
  match rd P m with Ok p => holdsb t x (Key p) | _ => false end.

Lemma leafno_spec (m : Z) (p : particle_data) :
  0 <= m < NumPart -> rd P m = Ok p ->
  domain_leafnodefunc fuel t' (Key p) = Ok (no_of m) /\ 0 <= no_of m < NL /\
  forall x, under t 0 x -> leaf t x -> (lf t' x = no_of m <-> holds t x (Key p)).
Proof.
  intros Hm Hp. pose proof Hrel as [L H].
  assert (Hd : forall n, dau t' n = dau t n) by (apply relabelled_dau; exact Hrel).
  assert (Hshape' : tree_shaped t') by (apply (tree_shaped_same_dau t); assumption).
  assert (Hwf' : forall n, -1 <= dau t' n) by (intros n; rewrite Hd; apply Hwf).
  destruct (H 0 root Hroot) as (l0 & Hroot').
  destruct (leafnode_run t' Hshape' Hwf' (relabelled_ranged t t' Hrel Hranged)
              ltac:(lia) (Key p) fuel 0 (set_Leaf root l0) Hroot' Hlow Hhigh
              (Hkeys m p Hm Hp) ltac:(lia))
    as (x0 & Hrun & Hx0 & Hl0 & Hh0 & Huniq).
  assert (Hx0' : under t 0 x0) by (apply (under_same_dau t' t); [symmetry; apply Hd | exact Hx0]).
  apply (relabelled_leaf t t' x0 Hrel) in Hl0.
  destruct (leaf_rd t x0 Hl0) as (n0 & Hn0 & Hdn0).
  destruct (nb_leaf _ _ _ _ _ _ Hnum x0 n0 Hx0' Hn0 Hdn0) as [Hrd0 Hb0].
  assert (Hfun : domain_leafnodefunc fuel t' (Key p) = Ok (lf t' x0)).
  { unfold domain_leafnodefunc, mbind, outcome_bind. rewrite Hrun. cbn [obind].
    unfold lf. rewrite Hrd0. reflexivity. }
  assert (Hno : no_of m = lf t' x0) by (unfold no_of; rewrite Hp, Hfun; reflexivity).
  rewrite Hno. split; [exact Hfun |]. split; [exact Hb0 |].
  intros x Hx Hlx. split.
  - intros Heq. assert (x = x0) by (apply (nb_inj _ _ _ _ _ _ Hnum); assumption).
    subst x. apply (relabelled_holds t t' x0 (Key p) Hrel). exact Hh0.
  - intros Hh. assert (x = x0); [| subst x; reflexivity].
    apply Huniq.
    + apply (under_same_dau t t'); [exact Hd | exact Hx].
    + apply (relabelled_leaf t t' x Hrel). exact Hlx.
    + apply (relabelled_holds t t' x (Key p) Hrel). exact Hh.
Qed.

Lemma leaves_fit : 0 <= NL <= zlen t.
Proof.
  pose proof (nb_le _ _ _ _ _ _ Hnum) as H0. split; [exact H0 |].
  apply (numbers_bounded t t' NL H0). intros l Hl.
  destruct (nb_onto _ _ _ _ _ _ Hnum l Hl) as (x & _ & [Hx _] & Hlx). eauto.
Qed.

(** The size of the arrays, [NumThreads * NTopnodes]. *)
Variable size : Z.
Hypothesis Hsize : NumThreads * NL <= size.

(** Turn [m] of the loop over the particles adds this to entry [l] of
    thread [tid]. *)
Definition hits (tid l : Z) (m : nat) : Z :=
  if (sched (Z.of_nat m) =? tid) && (no_of (Z.of_nat m) =? l) then 1 else 0.

Definition hits_sph (tid l : Z) (m : nat) : Z :=
  if (sched (Z.of_nat m) =? tid) && (no_of (Z.of_nat m) =? l) && gas_of (Z.of_nat m)
  then 1 else 0.

(** The arrays after [n] turns of the loop over the particles. *)
Record tallied (n : Z) (a : tallies) : Prop := {
  tl_w : zlen (local_domainWork a) = size;
  tl_c : zlen (local_domainCount a) = size;
  tl_cs : zlen (local_domainCountSph a) = size;
  tl_count : forall tid l, 0 <= tid < NumThreads -> 0 <= l < NL ->
      rd (local_domainCount a) (tid * NL + l) = Ok (Exchange.nsum (hits tid l) (Z.to_nat n));
  tl_sph : forall tid l, 0 <= tid < NumThreads -> 0 <= l < NL ->
      rd (local_domainCountSph a) (tid * NL + l)
      = Ok (Exchange.nsum (hits_sph tid l) (Z.to_nat n))
}.

Lemma hits_at (tid l n : Z) :
  0 <= n -> hits tid l (Z.to_nat n) = if (sched n =? tid) && (no_of n =? l) then 1 else 0.
Proof. intros Hn. unfold hits. rewrite Z2Nat.id by lia. reflexivity. Qed.

Lemma hits_sph_at (tid l n : Z) :
  0 <= n -> hits_sph tid l (Z.to_nat n)
            = if (sched n =? tid) && (no_of n =? l) && gas_of n then 1 else 0.
Proof. intros Hn. unfold hits_sph. rewrite Z2Nat.id by lia. reflexivity. Qed.

Lemma slot_in_range (tid l : Z) :
  0 <= tid < NumThreads -> 0 <= l < NL -> 0 <= tid * NL + l < size.
Proof. intros Ht Hl. nia. Qed.

Lemma slot_eq (tid l tid' l' : Z) :
  0 <= l < NL -> 0 <= l' < NL ->
  (tid' * NL + l' =? tid * NL + l) = (tid =? tid') && (l' =? l).
Proof.
  intros Hl Hl'. destruct (Z.eqb_spec tid tid') as [-> | Hne]; cbn [andb].
  - destruct (Z.eqb_spec l' l); destruct (Z.eqb_spec (tid' * NL + l') (tid' * NL + l));
      try reflexivity; lia.
  - destruct (Z.eqb_spec (tid' * NL + l') (tid * NL + l)); [| reflexivity]. nia.
Qed.

Lemma tally_particle_spec (n : Z) (a : tallies) :
  0 <= n < NumPart -> tallied n a ->
  exists a', tally_particle TIMEBASE P sched fuel t' NL n a = Ok a' /\ tallied (n + 1) a'.
Proof.
  intros Hn [Lw Lc Lcs Hc Hcs].
  destruct (rd_in_range P n ltac:(lia)) as [p Hp].
  destruct (leafno_spec n p Hn Hp) as (Hfun & Hno & _).
  pose proof (Hsched n Hn) as Htid.
  pose proof (slot_in_range (sched n) (no_of n) Htid Hno) as Hslot.
  unfold tally_particle, mbind, outcome_bind. rewrite Hp. cbn [obind]. rewrite Hfun. cbn [obind].
  assert (Hcost : exists cost, domain_particle_costfactor TIMEBASE P n = Ok cost).
  { unfold domain_particle_costfactor, mbind, outcome_bind. rewrite Hp. cbn [obind].
    destruct (TimeBin p =? 0); eauto. }
  destruct Hcost as [cost ->]. cbn [obind].
  destruct (add_at_spec Qplus (local_domainWork a) _ cost ltac:(rewrite Lw; exact Hslot))
    as (vw & w' & _ & -> & Lw' & _). cbn [obind].
  destruct (add_at_spec Z.add (local_domainCount a) _ 1 ltac:(rewrite Lc; exact Hslot))
    as (vc & c' & Hvc & -> & Lc' & Hc'). cbn [obind].
  rewrite (Hc _ _ Htid Hno) in Hvc. injection Hvc as <-.
  assert (Hstep : forall (f : nat -> Z), Exchange.nsum f (Z.to_nat (n + 1))
                    = Exchange.nsum f (Z.to_nat n) + f (Z.to_nat n)).
  { intros f. replace (Z.to_nat (n + 1)) with (S (Z.to_nat n)) by lia. apply nsum_S_r. }
  assert (Hcount : forall tid l, 0 <= tid < NumThreads -> 0 <= l < NL ->
            rd c' (tid * NL + l) = Ok (Exchange.nsum (hits tid l) (Z.to_nat (n + 1)))).
  { intros tid l Ht Hl. rewrite Hc', Hstep, hits_at by lia.
    rewrite (slot_eq (sched n) (no_of n) tid l Hno Hl).
    rewrite (Z.eqb_sym (no_of n) l).
    destruct ((sched n =? tid) && (l =? no_of n)) eqn:Hhit.
    - apply andb_true_iff in Hhit as [H1 H2]. apply Z.eqb_eq in H1, H2. subst. reflexivity.
    - rewrite (Hc tid l Ht Hl). f_equal. lia. }
  destruct (Z.eqb_spec (PType p) 0) as [Hgas | Hgas].
  - destruct (add_at_spec Z.add (local_domainCountSph a) _ 1 ltac:(rewrite Lcs; exact Hslot))
      as (vs & cs' & Hvs & -> & Lcs' & Hcs'). cbn [obind].
    rewrite (Hcs _ _ Htid Hno) in Hvs. injection Hvs as <-.
    eexists. split; [reflexivity |].
    constructor; cbn [local_domainWork local_domainCount local_domainCountSph];
      try congruence; [exact Hcount |].
    intros tid l Ht Hl. rewrite Hcs', Hstep, hits_sph_at by lia.
    rewrite (slot_eq (sched n) (no_of n) tid l Hno Hl).
    rewrite (Z.eqb_sym (no_of n) l).
    assert (Hg : gas_of n = true) by (unfold gas_of; rewrite Hp; apply Z.eqb_eq; exact Hgas).
    rewrite Hg, andb_true_r.
    destruct ((sched n =? tid) && (l =? no_of n)) eqn:Hhit.
    + apply andb_true_iff in Hhit as [H1 H2]. apply Z.eqb_eq in H1, H2. subst. reflexivity.
    + rewrite (Hcs tid l Ht Hl). f_equal. lia.
  - eexists. split; [reflexivity |].
    constructor; cbn [local_domainWork local_domainCount local_domainCountSph];
      try congruence; [exact Hcount |].
    intros tid l Ht Hl. rewrite Hstep, hits_sph_at by lia.
    assert (Hg : gas_of n = false) by (unfold gas_of; rewrite Hp; apply Z.eqb_neq; exact Hgas).
    rewrite Hg, andb_false_r. rewrite (Hcs tid l Ht Hl). f_equal. lia.
Qed.

(** The sum over the first [k] threads of entry [l]. *)
Definition column (A : Z -> Z -> Z) (l k : Z) : Z :=
  Exchange.nsum (fun tid => A (Z.of_nat tid) l) (Z.to_nat k).

(** One array while the threads below [tid] are added to entry [i]; [c0] is
    the array after the loop over the particles and [ci] the array when the
    turn for [i] started. *)
Record adding (A : Z -> Z -> Z) (ci : list Z) (i tid : Z) (c : list Z) : Prop := {
  ad_len : zlen c = size;
  ad_here : rd c i = Ok (column A i tid);
  ad_else : forall j, j <> i -> rd c j = rd ci j
}.

(** One array when the entries below [i] are done. *)
Record added (A : Z -> Z -> Z) (c0 : list Z) (i : Z) (c : list Z) : Prop := {
  ao_len : zlen c = size;
  ao_done : forall l, 0 <= l < i -> rd c l = Ok (column A l NumThreads);
  ao_rest : forall j, i <= j -> rd c j = rd c0 j
}.

Lemma adding_step (A : Z -> Z -> Z) (c0 ci c : list Z) (i tid : Z) :
  (forall tid l, 0 <= tid < NumThreads -> 0 <= l < NL -> rd c0 (tid * NL + l) = Ok (A tid l)) ->
  (forall j, i <= j -> rd ci j = rd c0 j) ->
  0 <= i < NL -> 1 <= tid < NumThreads -> adding A ci i tid c ->
  exists c', rd c (i + tid * NL) = Ok (A tid i) /\
             add_at Z.add c i (A tid i) = Ok c' /\ adding A ci i (tid + 1) c'.
Proof.
  intros H0 Hrest Hi Ht [L Hh He].
  assert (Hx : rd c (i + tid * NL) = Ok (A tid i)).
  { rewrite He by nia. rewrite Hrest by nia. rewrite Z.add_comm. apply H0; lia. }
  destruct (add_at_spec Z.add c i (A tid i) ltac:(pose proof (rd_range _ _ _ Hh); lia))
    as (v & c' & Hv & Hadd & L' & Hc').
  exists c'. split; [exact Hx |]. split; [exact Hadd |].
  rewrite Hh in Hv. injection Hv as <-.
  constructor.
  - congruence.
  - rewrite Hc', Z.eqb_refl. f_equal. unfold column.
    replace (Z.to_nat (tid + 1)) with (S (Z.to_nat tid)) by lia.
    rewrite nsum_S_r, Z2Nat.id by lia. reflexivity.
  - intros j Hj. rewrite Hc'. destruct (Z.eqb_spec j i); [contradiction |]. apply He. exact Hj.
Qed.

Lemma adding_start (A : Z -> Z -> Z) (c0 ci : list Z) (i : Z) :
  (forall tid l, 0 <= tid < NumThreads -> 0 <= l < NL -> rd c0 (tid * NL + l) = Ok (A tid l)) ->
  0 <= i < NL -> added A c0 i ci -> adding A ci i 1 ci.
Proof.
  intros H0 Hi [L _ Hrest]. constructor; [exact L | | reflexivity].
  rewrite Hrest by lia. replace i with (0 * NL + i) at 1 by lia. rewrite H0 by lia.
  unfold column. change (Z.to_nat 1) with 1%nat. cbn [Exchange.nsum Z.of_nat].
  rewrite Z.add_0_r. reflexivity.
Qed.

Lemma adding_end (A : Z -> Z -> Z) (c0 ci c : list Z) (i : Z) :
  added A c0 i ci -> adding A ci i NumThreads c -> added A c0 (i + 1) c.
Proof.
  intros [_ Hdone Hrest] [L Hh He]. constructor; [exact L | |].
  - intros l Hl. destruct (Z.eq_dec l i) as [-> | Hne]; [exact Hh |].
    rewrite He by exact Hne. apply Hdone. lia.
  - intros j Hj. rewrite He by lia. apply Hrest. lia.
Qed.

(** The entries of the arrays after the loop over the particles. *)
Definition counted (tid l : Z) : Z := Exchange.nsum (hits tid l) (Z.to_nat NumPart).
Definition counted_sph (tid l : Z) : Z := Exchange.nsum (hits_sph tid l) (Z.to_nat NumPart).

Record gathering (a0 ai : tallies) (i tid : Z) (a : tallies) : Prop := {
  gi_w : zlen (local_domainWork a) = size;
  gi_c : adding counted (local_domainCount ai) i tid (local_domainCount a);
  gi_cs : adding counted_sph (local_domainCountSph ai) i tid (local_domainCountSph a)
}.

Record gathered (a0 : tallies) (i : Z) (a : tallies) : Prop := {
  gd_w : zlen (local_domainWork a) = size;
  gd_c : added counted (local_domainCount a0) i (local_domainCount a);
  gd_cs : added counted_sph (local_domainCountSph a0) i (local_domainCountSph a)
}.

Lemma gather_turn_spec (a0 ai a : tallies) (i tid : Z) :
  tallied NumPart a0 -> gathered a0 i ai -> 0 <= i < NL -> 1 <= tid < NumThreads ->
  gathering a0 ai i tid a ->
  exists a', gather_turn NL i tid a = Ok a' /\ gathering a0 ai i (tid + 1) a'.
Proof.
  intros [_ _ _ Hc0 Hcs0] [_ [_ _ Rc] [_ _ Rcs]] Hi Ht [Lw Gc Gcs].
  destruct (adding_step counted _ _ _ i tid Hc0 Rc Hi Ht Gc) as (c' & Hxc & Hac & Gc').
  destruct (adding_step counted_sph _ _ _ i tid Hcs0 Rcs Hi Ht Gcs) as (cs' & Hxs & Has & Gcs').
  assert (Hslot : 0 <= i + tid * NL < size) by nia.
  destruct (rd_in_range (local_domainWork a) (i + tid * NL) ltac:(lia)) as [xw Hxw].
  destruct (add_at_spec Qplus (local_domainWork a) i xw ltac:(nia))
    as (vw & w' & _ & Haw & Lw' & _).
  unfold gather_turn, mbind, outcome_bind.
  rewrite Hxw. cbn [obind]. rewrite Haw. cbn [obind].
  rewrite Hxc. cbn [obind]. rewrite Hac. cbn [obind].
  rewrite Hxs. cbn [obind]. rewrite Has. cbn [obind].
  eexists. split; [reflexivity |].
  constructor; cbn [local_domainWork local_domainCount local_domainCountSph];
    [congruence | exact Gc' | exact Gcs'].
Qed.

Lemma gather_spec (a0 : tallies) :
  tallied NumPart a0 -> exists a, gather NumThreads NL a0 = Ok a /\ gathered a0 NL a.
Proof.
  intros Ht0. pose proof leaves_fit as HNL. unfold gather.
  destruct (for_range_inv (gathered a0)
              (fun i a => for_range (Z.to_nat (NumThreads - 1)) 1 (gather_turn NL i) a)
              (Z.to_nat NL) 0 a0) as (a & Hrun & Hg).
  - destruct Ht0 as [Lw Lc Lcs _ _].
    constructor; [exact Lw | |]; (constructor; [assumption | intros; lia | reflexivity]).
  - intros i ai Hi Hgi.
    destruct (for_range_inv (gathering a0 ai i) (gather_turn NL i)
                (Z.to_nat (NumThreads - 1)) 1 ai) as (a & Hrun & Hg).
    + pose proof Ht0 as [_ _ _ Hc0 Hcs0]. pose proof Hgi as [Lw Ac Acs].
      constructor; [exact Lw | |].
      * apply (adding_start counted (local_domainCount a0)); [exact Hc0 | lia | exact Ac].
      * apply (adding_start counted_sph (local_domainCountSph a0));
          [exact Hcs0 | lia | exact Acs].
    + intros tid a Htid Hga. apply (gather_turn_spec a0 ai); try assumption; lia.
    + exists a. split; [exact Hrun |].
      replace (1 + Z.of_nat (Z.to_nat (NumThreads - 1))) with NumThreads in Hg by lia.
      destruct Hg as [Lw Gc Gcs]. destruct Hgi as [_ Ac Acs].
      constructor; [exact Lw | |]; eapply adding_end; eassumption.
  - exists a. split; [exact Hrun |].
    replace (0 + Z.of_nat (Z.to_nat NL)) with NL in Hg by lia. exact Hg.
Qed.

Lemma column_counted (l : Z) :
  0 <= l < NL ->
  column counted l NumThreads = count_if (fun m => no_of m =? l) NumPart.
Proof.
  intros Hl. unfold column, counted, count_if. rewrite Exchange.nsum_swap.
  apply Exchange.nsum_ext. intros m Hm. unfold hits.
  apply (nsum_pick (sched (Z.of_nat m)) (no_of (Z.of_nat m) =? l)).
  pose proof (Hsched (Z.of_nat m) ltac:(lia)). lia.
Qed.

Lemma column_counted_sph (l : Z) :
  0 <= l < NL ->
  column counted_sph l NumThreads = count_if (fun m => (no_of m =? l) && gas_of m) NumPart.
Proof.
  intros Hl. unfold column, counted_sph, count_if. rewrite Exchange.nsum_swap.
  apply Exchange.nsum_ext. intros m Hm. unfold hits_sph.
  rewrite (Exchange.nsum_ext _
             (fun k => if (sched (Z.of_nat m) =? Z.of_nat k)
                          && ((no_of (Z.of_nat m) =? l) && gas_of (Z.of_nat m))
                       then 1 else 0)).
  - apply nsum_pick. pose proof (Hsched (Z.of_nat m) ltac:(lia)). lia.
  - intros k Hk. rewrite andb_assoc. reflexivity.
Qed.

Lemma held_is_numbered (x m : Z) :
  under t 0 x -> leaf t x -> 0 <= m < NumPart -> (no_of m =? lf t' x) = key_held x m.
Proof.
  intros Hx Hl Hm. destruct (rd_in_range P m ltac:(lia)) as [p Hp].
  destruct (leafno_spec m p Hm Hp) as (_ & _ & Hiff). specialize (Hiff x Hx Hl).
  unfold key_held. rewrite Hp.
  destruct (holdsb t x (Key p)) eqn:Hh.
  - apply holdsb_holds in Hh. apply Hiff in Hh. lia.
  - destruct (Z.eqb_spec (no_of m) (lf t' x)) as [Heq | _]; [| reflexivity].
    symmetry in Heq. apply Hiff in Heq. apply holdsb_holds in Heq. congruence.
Qed.

Lemma count_if_ext (f g : Z -> bool) (n : Z) :
  (forall m, 0 <= m < n -> f m = g m) -> count_if f n = count_if g n.
Proof.
  intros H. unfold count_if. apply Exchange.nsum_ext. intros k Hk. rewrite H by lia. reflexivity.
Qed.

Lemma counted_total :
  Exchange.nsum (fun l => count_if (fun m => no_of m =? Z.of_nat l) NumPart) (Z.to_nat NL)
  = NumPart.
Proof.
  unfold count_if. rewrite Exchange.nsum_swap.
  rewrite (Exchange.nsum_ext _ (fun _ => 1)); [rewrite nsum_ones; lia |].
  intros m Hm. destruct (rd_in_range P (Z.of_nat m) ltac:(lia)) as [p Hp].
  destruct (leafno_spec (Z.of_nat m) p ltac:(lia) Hp) as (_ & Hno & _).
  rewrite (Exchange.nsum_ext _
             (fun k => if (no_of (Z.of_nat m) =? Z.of_nat k) && true then 1 else 0)).
  - apply (nsum_pick _ true). lia.
  - intros k Hk. rewrite andb_true_r. reflexivity.
Qed.

(** The two loops of [domain_sumCost], on arrays of zeros. *)
Lemma loops_spec (w0 : list Q) (c0 cs0 : list Z) :
  0 <= size -> w0 = repeat 0%Q (Z.to_nat size) ->
  c0 = repeat 0 (Z.to_nat size) -> cs0 = repeat 0 (Z.to_nat size) ->
  exists a1 a,
    for_range (Z.to_nat NumPart) 0 (tally_particle TIMEBASE P sched fuel t' NL)
      (mkTally w0 c0 cs0) = Ok a1 /\
    gather NumThreads NL a1 = Ok a /\
    (forall x, under t 0 x -> leaf t x ->
       0 <= lf t' x < NL /\
       rd (local_domainCount a) (lf t' x) = Ok (count_if (key_held x) NumPart) /\
       rd (local_domainCountSph a) (lf t' x)
       = Ok (count_if (fun m => key_held x m && gas_of m) NumPart)) /\
    Exchange.zsum (take (Z.to_nat NL) (local_domainCount a)) = NumPart /\
    zlen (local_domainWork a) = size /\ zlen (local_domainCount a) = size /\
    zlen (local_domainCountSph a) = size.
Proof.
  intros Hs -> -> ->. pose proof leaves_fit as HNL.
  assert (Hlen : forall (A : Type) (x : A), zlen (repeat x (Z.to_nat size)) = size).
  { intros A x. unfold zlen. rewrite repeat_length. lia. }
  destruct (for_range_inv tallied (tally_particle TIMEBASE P sched fuel t' NL)
              (Z.to_nat NumPart) 0
              (mkTally (repeat 0%Q (Z.to_nat size)) (repeat 0 (Z.to_nat size))
                 (repeat 0 (Z.to_nat size)))) as (a1 & Hrun1 & Ht1).
  - constructor; cbn [local_domainWork local_domainCount local_domainCountSph];
      try apply Hlen; intros tid l Htid Hl; apply rd_repeat;
      pose proof (slot_in_range tid l Htid Hl); lia.
  - intros n a Hn Ha. apply tally_particle_spec; [lia | exact Ha].
  - replace (0 + Z.of_nat (Z.to_nat NumPart)) with NumPart in Ht1 by lia.
    destruct (gather_spec a1 Ht1) as (a & Hrun2 & [Lw [Lc Hc _] [Lcs Hcs _]]).
    exists a1, a. split; [exact Hrun1 |]. split; [exact Hrun2 |].
    split; [| split; [| auto]].
    + intros x Hx Hl. destruct (leaf_rd t x Hl) as (n & Hn & Hdn).
      destruct (nb_leaf _ _ _ _ _ _ Hnum x n Hx Hn Hdn) as [_ Hb].
      split; [exact Hb |]. split.
      * rewrite (Hc _ Hb), (column_counted _ Hb). f_equal.
        apply count_if_ext. intros m Hm. apply held_is_numbered; assumption.
      * rewrite (Hcs _ Hb), (column_counted_sph _ Hb). f_equal.
        apply count_if_ext. intros m Hm. rewrite held_is_numbered by assumption. reflexivity.
    + rewrite (zsum_take _ (fun l => count_if (fun m => no_of m =? l) NumPart)).
      * apply counted_total.
      * intros l Hl. rewrite (Hc l Hl), (column_counted l Hl). reflexivity.
Qed.

End Counting.

Lemma sumCost_local_spec (TIMEBASE : Q) (NumThreads : Z) (P : list particle_data) (NumPart : Z)
  (sched : Z -> Z) (fuel : nat) (st : top_state) (root : local_topnode_data) :
  tree_shaped (topNodes st) -> (forall n, -1 <= dau (topNodes st) n) ->
  ranged (topNodes st) -> zlen (topNodes st) < 2 ^ 31 -> NTopnodes st = zlen (topNodes st) ->
  rd (topNodes st) 0 = Ok root -> 0 <= StartKey root -> StartKey root + Size root <= 2 ^ 64 ->
  (forall m p, 0 <= m < NumPart -> rd P m = Ok p ->
     StartKey root <= Key p < StartKey root + Size root) ->
  0 <= NumPart <= zlen P -> 1 <= NumThreads ->
  (forall m, 0 <= m < NumPart -> 0 <= sched m < NumThreads) ->
  (Z.to_nat (zlen (topNodes st)) <= fuel)%nat ->
  exists st' NTopleaves a,
    domain_sumCost_local TIMEBASE NumThreads P NumPart sched fuel st = Ok (st', NTopleaves, a) /\
    domain_walktoptree fuel 0 (topNodes st, 0) = Ok (topNodes st', NTopleaves) /\
    (forall x, under (topNodes st) 0 x -> leaf (topNodes st) x ->
       0 <= lf (topNodes st') x < NTopleaves /\
       rd (local_domainCount a) (lf (topNodes st') x)
       = Ok (count_if (key_held P (topNodes st) x) NumPart) /\
       rd (local_domainCountSph a) (lf (topNodes st') x)
       = Ok (count_if (fun m => key_held P (topNodes st) x m && gas_of P m) NumPart)) /\
    Exchange.zsum (take (Z.to_nat NTopleaves) (local_domainCount a)) = NumPart /\
    0 <= NTopleaves <= NTopnodes st /\
    zlen (local_domainWork a) = NumThreads * NTopnodes st /\
    zlen (local_domainCount a) = NumThreads * NTopnodes st /\
    zlen (local_domainCountSph a) = NumThreads * NTopnodes st.
Proof.
  intros Hshape Hwf Hranged Hsmall Hused Hroot Hlow Hhigh Hkeys HP Hthreads Hsched Hfuel.
  destruct (walk_run fuel (topNodes st) 0 0 Hshape Hwf
              ltac:(pose proof (rd_range _ _ _ Hroot); lia) ltac:(lia))
    as ([t' NL] & Hwalk & Hnum).
  cbn [fst snd] in Hnum. pose proof (walk_relabels _ _ _ _ Hwalk) as Hrel. cbn [fst] in Hrel.
  pose proof (leaves_fit (topNodes st) t' NL Hnum) as HNL.
  destruct (loops_spec TIMEBASE NumThreads P NumPart sched fuel (topNodes st) t' NL root
              Hshape Hwf Hranged Hsmall Hroot Hlow Hhigh Hkeys HP Hthreads Hsched Hfuel
              Hnum Hrel (NumThreads * NTopnodes st) ltac:(nia) _ _ _ ltac:(nia)
              eq_refl eq_refl eq_refl)
    as (a1 & a & Hrun1 & Hrun2 & Hleaves & Htotal & Hlens).
  exists (mkTopState t' (NTopnodes st) (MaxTopNodes st)), NL, a.
  split; [| split; [exact Hwalk | split; [exact Hleaves | split; [exact Htotal |]]]].
  2:{ split; [lia | exact Hlens]. }
  unfold domain_sumCost_local, mbind, outcome_bind. rewrite Hwalk. cbn [obind].
  rewrite Hrun1. cbn [obind]. rewrite Hrun2. reflexivity.
Qed.

(** X13: [domain_sumCost] counts every particle once.  On a top tree in
    which the daughters share the keys of their parent, with the keys of all
    particles among those of the root, the routine gets through its loops,
    whatever thread runs which turn of the loop over the particles.  Then
    entry [Leaf] of [local_domainCount] is the number of particles whose key
    the leaf holds, entry [Leaf] of [local_domainCountSph] the number of gas
    particles among them, and the first [NTopleaves] entries of
    [local_domainCount] add up to [NumPart]. *)
Theorem sumCost_counts (TIMEBASE : Q) (NumThreads : Z) (P : list particle_data) (NumPart : Z)
  (sched : Z -> Z) (fuel : nat) (st : top_state) (root : local_topnode_data) :
  tree_shaped (topNodes st) -> (forall n, -1 <= dau (topNodes st) n) ->
  ranged (topNodes st) -> zlen (topNodes st) < 2 ^ 31 -> NTopnodes st = zlen (topNodes st) ->
  rd (topNodes st) 0 = Ok root -> 0 <= StartKey root -> StartKey root + Size root <= 2 ^ 64 ->
  (forall m p, 0 <= m < NumPart -> rd P m = Ok p ->
     StartKey root <= Key p < StartKey root + Size root) ->
  0 <= NumPart <= zlen P -> 1 <= NumThreads ->
  (forall m, 0 <= m < NumPart -> 0 <= sched m < NumThreads) ->
  (Z.to_nat (zlen (topNodes st)) <= fuel)%nat ->
  exists st' NTopleaves a,
    domain_sumCost_local TIMEBASE NumThreads P NumPart sched fuel st = Ok (st', NTopleaves, a) /\
    domain_walktoptree fuel 0 (topNodes st, 0) = Ok (topNodes st', NTopleaves) /\
    (forall x, under (topNodes st) 0 x -> leaf (topNodes st) x ->
       0 <= lf (topNodes st') x < NTopleaves /\
       rd (local_domainCount a) (lf (topNodes st') x)
       = Ok (count_if (key_held P (topNodes st) x) NumPart) /\
       rd (local_domainCountSph a) (lf (topNodes st') x)
       = Ok (count_if (fun m => key_held P (topNodes st) x m && gas_of P m) NumPart)) /\
    Exchange.zsum (take (Z.to_nat NTopleaves) (local_domainCount a)) = NumPart.
Proof.
  intros Hshape Hwf Hranged Hsmall Hused Hroot Hlow Hhigh Hkeys HP Hthreads Hsched Hfuel.
  destruct (sumCost_local_spec TIMEBASE NumThreads P NumPart sched fuel st root
              Hshape Hwf Hranged Hsmall Hused Hroot Hlow Hhigh Hkeys HP Hthreads Hsched Hfuel)
    as (st' & NL & a & Hrun & Hwalk & Hleaves & Htotal & _).
  exists st', NL, a. auto.
Qed.

(** *** All the processes *)

(** What the routine works on, on one process. *)
Record process : Type := mkProcess {
  top : top_state;
  P : list particle_data;
  NumPart : Z;
  sched : Z -> Z
}.

(** The first [NTopleaves] entries of the three arrays of the decomposition. *)
Record costs : Type := mkCosts {
  domainWork : list Q;
  domainCount : list Z;
  domainCountSph : list Z
}.

(** MPI_Allreduce(local, global, count, ..., MPI_SUM, MPI_COMM_WORLD): entry
    [i] of the result, and the [count] entries from [i] on. *)
Definition allreduce_entry {A : Type} (zero : A) (plus : A -> A -> A)
  (locals : list (list A)) (i : Z) : outcome A :=
  foldr (fun l acc => s ← acc; x ← rd l i; Ok (plus x s)) (Ok zero) locals.

Fixpoint MPI_Allreduce {A : Type} (zero : A) (plus : A -> A -> A) (count : nat) (i : Z)
  (locals : list (list A)) : outcome (list A) :=
  match count with
  | O => Ok []
  | S n =>
      x ← allreduce_entry zero plus locals i;
      rest ← MPI_Allreduce zero plus n (i + 1) locals;
      Ok (x :: rest)
  end.

Section All.

Variable TIMEBASE : Q.
Variable NumThreads : Z.
Variable fuel : nat.

Fixpoint each_process (G : list process) : outcome (list (top_state * Z * tallies)) :=
  match G with
  | [] => Ok []
  | p :: G' =>
      r ← domain_sumCost_local TIMEBASE NumThreads (P p) (NumPart p) (sched p) fuel (top p);
      rs ← each_process G';
      Ok (r :: rs)
  end.

(** The three calls of MPI_Allreduce on the process that got [r]. *)
Definition reduced (rs : list (top_state * Z * tallies)) (r : top_state * Z * tallies)
  : outcome (top_state * Z * costs) :=
  let NTopleaves := snd (fst r) in
  w ← MPI_Allreduce 0%Q Qplus (Z.to_nat NTopleaves) 0
        (map (fun r => local_domainWork (snd r)) rs);
  c ← MPI_Allreduce 0 Z.add (Z.to_nat NTopleaves) 0
        (map (fun r => local_domainCount (snd r)) rs);
  cs ← MPI_Allreduce 0 Z.add (Z.to_nat NTopleaves) 0
         (map (fun r => local_domainCountSph (snd r)) rs);
  Ok (fst (fst r), NTopleaves, mkCosts w c cs).

Fixpoint each_reduced (rs todo : list (top_state * Z * tallies))
  : outcome (list (top_state * Z * costs)) :=
  match todo with
  | [] => Ok []
  | r :: todo' => x ← reduced rs r; xs ← each_reduced rs todo'; Ok (x :: xs)
  end.

(** [domain_sumCost] on all processes. *)
Definition domain_sumCost (G : list process) : outcome (list (top_state * Z * costs)) :=
  rs ← each_process G;
  each_reduced rs rs.

End All.

(** Entry [i] of every array, added up. *)
Definition entry_sum (locals : list (list Z)) (i : Z) : Z :=
  Exchange.zsum (map (fun l => nth (Z.to_nat i) l 0) locals).

Lemma allreduce_entry_Ok {A : Type} (zero : A) (plus : A -> A -> A) (locals : list (list A))
  (i : Z) :
  Forall (fun l => 0 <= i < zlen l) locals ->
  exists x, allreduce_entry zero plus locals i = Ok x.
Proof.
  induction 1 as [| l locals Hl _ (s & IH)]; [exists zero; reflexivity |].
  destruct (rd_in_range l i Hl) as [x Hx]. exists (plus x s).
  cbn [allreduce_entry foldr]. fold (allreduce_entry zero plus locals i).
  unfold mbind, outcome_bind. rewrite IH. cbn [obind]. rewrite Hx. reflexivity.
Qed.

Lemma allreduce_entry_Z (locals : list (list Z)) (i : Z) :
  Forall (fun l => 0 <= i < zlen l) locals ->
  allreduce_entry 0 Z.add locals i = Ok (entry_sum locals i).
Proof.
  induction 1 as [| l locals Hl _ IH]; [reflexivity |].
  destruct (rd_in_range l i Hl) as [x Hx].
  cbn [allreduce_entry foldr]. fold (allreduce_entry 0 Z.add locals i).
  unfold mbind, outcome_bind. rewrite IH. cbn [obind]. rewrite Hx. cbn [obind].
  unfold entry_sum, Exchange.zsum. cbn [map foldr].
  apply rd_Ok in Hx as [_ Hx]. rewrite nth_lookup, Hx. reflexivity.
Qed.

Lemma allreduce_Ok {A : Type} (zero : A) (plus : A -> A -> A) (locals : list (list A))
  (count : nat) :
  forall i, 0 <= i -> Forall (fun l => i + Z.of_nat count <= zlen l) locals ->
            exists r, MPI_Allreduce zero plus count i locals = Ok r.
Proof.
  induction count as [| n IH]; intros i Hi Hl; [exists []; reflexivity |].
  destruct (allreduce_entry_Ok zero plus locals i) as [x Hx].
  { eapply Forall_impl; [exact Hl |]. cbn. intros l H. lia. }
  destruct (IH (i + 1)) as [r Hr]; [lia | |].
  { eapply Forall_impl; [exact Hl |]. cbn. intros l H. lia. }
  exists (x :: r). cbn [MPI_Allreduce]. unfold mbind, outcome_bind.
  rewrite Hx. cbn [obind]. rewrite Hr. reflexivity.
Qed.

Lemma allreduce_Z (locals : list (list Z)) (count : nat) :
  forall i, 0 <= i -> Forall (fun l => i + Z.of_nat count <= zlen l) locals ->
    MPI_Allreduce 0 Z.add count i locals
    = Ok (map (fun k => entry_sum locals (i + Z.of_nat k)) (seq 0 count)).
Proof.
  induction count as [| n IH]; intros i Hi Hl; [reflexivity |].
  cbn [MPI_Allreduce]. unfold mbind, outcome_bind.
  rewrite allreduce_entry_Z by (eapply Forall_impl; [exact Hl |]; cbn; intros l H; lia).
  cbn [obind]. rewrite IH; [| lia | eapply Forall_impl; [exact Hl |]; cbn; intros l H; lia].
  cbn [obind seq map]. rewrite Z.add_0_r. f_equal. f_equal.
  rewrite <- seq_shift, map_map. apply map_ext. intros k. f_equal. lia.
Qed.

Lemma rd_map_seq {A : Type} (f : nat -> A) (n : nat) (j : Z) :
  0 <= j < Z.of_nat n -> rd (map f (seq 0 n)) j = Ok (f (Z.to_nat j)).
Proof.
  intros Hj. apply rd_Ok. split; [lia |].
  rewrite Exchange.lookup_map. rewrite lookup_seq_lt by lia. reflexivity.
Qed.

Lemma zsum_map_add {A : Type} (f g : A -> Z) (l : list A) :
  Exchange.zsum (map (fun a => f a + g a) l)
  = Exchange.zsum (map f l) + Exchange.zsum (map g l).
Proof.
  induction l as [| a l IH]; [reflexivity |].
  unfold Exchange.zsum in *. cbn [map foldr]. rewrite IH. lia.
Qed.

Lemma zsum_take_seq (l : list Z) (n : nat) :
  (n <= length l)%nat ->
  Exchange.zsum (map (fun k => nth k l 0) (seq 0 n)) = Exchange.zsum (take n l).
Proof.
  revert l. induction n as [| n IH]; intros l Hn; [reflexivity |].
  destruct l as [| x l]; [cbn in Hn; lia |].
  cbn [seq map take nth]. unfold Exchange.zsum in *. cbn [foldr].
  rewrite <- seq_shift, map_map. cbn [nth]. rewrite IH by (cbn in Hn; lia). reflexivity.
Qed.

(** The entries of the result add up to what the arrays of the processes
    add up to. *)
Lemma entry_sums_total (locals : list (list Z)) (n : nat) :
  Forall (fun l => Z.of_nat n <= zlen l) locals ->
  Exchange.zsum (map (fun k => entry_sum locals (0 + Z.of_nat k)) (seq 0 n))
  = Exchange.zsum (map (fun l => Exchange.zsum (take n l)) locals).
Proof.
  induction 1 as [| l locals Hl _ IH].
  - cbn [map]. change (Exchange.zsum []) with 0.
    generalize (seq 0 n) as ks. induction ks as [| k ks IHk]; [reflexivity |].
    cbn [map]. change (Exchange.zsum (?x :: ?r)) with (x + Exchange.zsum r).
    rewrite IHk. reflexivity.
  - cbn [map]. change (Exchange.zsum (?x :: ?r)) with (x + Exchange.zsum r).
    rewrite <- IH, <- zsum_take_seq by (unfold zlen in Hl; lia).
    rewrite <- zsum_map_add. f_equal. apply map_ext. intros k.
    unfold entry_sum. cbn [map]. change (Exchange.zsum (?x :: ?r)) with (x + Exchange.zsum r).
    rewrite Z.add_0_l, Nat2Z.id. reflexivity.
Qed.

Lemma entry_sum_Forall2 {B C : Type} (G : list B) (rs : list C) (arr : C -> list Z)
  (g : B -> Z) (i : Z) :
  Forall2 (fun p r => rd (arr r) i = Ok (g p)) G rs ->
  entry_sum (map arr rs) i = Exchange.zsum (map g G).
Proof.
  induction 1 as [| p r G rs Hr _ IH]; [reflexivity |].
  unfold entry_sum in *. cbn [map]. unfold Exchange.zsum in *. cbn [foldr]. rewrite IH.
  apply rd_Ok in Hr as [_ Hr]. rewrite nth_lookup, Hr. reflexivity.
Qed.

(** A process that is ready for the routine: it has the tree [t], and the
    keys of its particles are among those of the root. *)
Record ready (t : list local_topnode_data) (root : local_topnode_data) (NumThreads : Z)
  (p : process) : Prop := {
  rdy_tree : topNodes (top p) = t;
  rdy_used : NTopnodes (top p) = zlen t;
  rdy_keys : forall m q, 0 <= m < NumPart p -> rd (P p) m = Ok q ->
               StartKey root <= Key q < StartKey root + Size root;
  rdy_part : 0 <= NumPart p <= zlen (P p);
  rdy_sched : forall m, 0 <= m < NumPart p -> 0 <= sched p m < NumThreads
}.

(** What process [p] has in [r] before the arrays are added up. *)
Record local_ok (t t' : list local_topnode_data) (NL : Z) (p : process)
  (r : top_state * Z * tallies) : Prop := {
  lo_tree : topNodes (fst (fst r)) = t';
  lo_leaves : snd (fst r) = NL;
  lo_count : forall x, under t 0 x -> leaf t x ->
      0 <= lf t' x < NL /\
      rd (local_domainCount (snd r)) (lf t' x)
      = Ok (count_if (key_held (P p) t x) (NumPart p)) /\
      rd (local_domainCountSph (snd r)) (lf t' x)
      = Ok (count_if (fun m => key_held (P p) t x m && gas_of (P p) m) (NumPart p));
  lo_total : Exchange.zsum (take (Z.to_nat NL) (local_domainCount (snd r))) = NumPart p;
  lo_w : NL <= zlen (local_domainWork (snd r));
  lo_c : NL <= zlen (local_domainCount (snd r));
  lo_cs : NL <= zlen (local_domainCountSph (snd r))
}.

Section AllFacts.

Variable TIMEBASE : Q.
Variable NumThreads : Z.
Variable fuel : nat.
Variables t t' : list local_topnode_data.
Variable NL : Z.
Variable root : local_topnode_data.

Hypothesis Hshape : tree_shaped t.
Hypothesis Hwf : forall n, -1 <= dau t n.
Hypothesis Hranged : ranged t.
Hypothesis Hsmall : zlen t < 2 ^ 31.
Hypothesis Hroot : rd t 0 = Ok root.
Hypothesis Hlow : 0 <= StartKey root.
Hypothesis Hhigh : StartKey root + Size root <= 2 ^ 64.
Hypothesis Hthreads : 1 <= NumThreads.
Hypothesis Hfuel : (Z.to_nat (zlen t) <= fuel)%nat.
Hypothesis Hwalk : domain_walktoptree fuel 0 (t, 0) = Ok (t', NL).

Lemma each_process_spec (G : list process) :
  Forall (ready t root NumThreads) G ->
  exists rs, each_process TIMEBASE NumThreads fuel G = Ok rs /\ Forall2 (local_ok t t' NL) G rs.
Proof.
  induction 1 as [| p G [Ht Hu Hk Hp Hs] _ (rs & Hrs & IH)]; [exists []; split; [reflexivity | constructor] |].
  subst t.
  destruct (sumCost_local_spec TIMEBASE NumThreads (P p) (NumPart p) (sched p) fuel (top p) root
              Hshape Hwf Hranged Hsmall Hu Hroot Hlow Hhigh Hk Hp Hthreads Hs Hfuel)
    as (st' & n & a & Hrun & Hw & Hleaves & Htotal & Hn & Lw & Lc & Lcs).
  rewrite Hwalk in Hw. injection Hw as Ht' <-.
  exists ((st', NL, a) :: rs). split.
  - cbn [each_process]. unfold mbind, outcome_bind. rewrite Hrun. cbn [obind].
    rewrite Hrs. reflexivity.
  - constructor; [| exact IH]. rewrite <- Ht' in Hleaves.
    constructor; cbn [fst snd]; try reflexivity; try assumption; try nia.
    symmetry. exact Ht'.
Qed.

Lemma each_reduced_spec (G : list process) (rs : list (top_state * Z * tallies)) :
  Forall2 (local_ok t t' NL) G rs ->
  forall todo, Forall (fun r => topNodes (fst (fst r)) = t' /\ snd (fst r) = NL) todo ->
  exists results,
    each_reduced rs todo = Ok results /\ length results = length todo /\
    Forall (fun res =>
      topNodes (fst (fst res)) = t' /\ snd (fst res) = NL /\
      (forall x, under t 0 x -> leaf t x ->
         rd (domainCount (snd res)) (lf t' x)
         = Ok (Exchange.zsum (map (fun p => count_if (key_held (P p) t x) (NumPart p)) G)) /\
         rd (domainCountSph (snd res)) (lf t' x)
         = Ok (Exchange.zsum
                 (map (fun p => count_if (fun m => key_held (P p) t x m && gas_of (P p) m)
                                  (NumPart p)) G))) /\
      Exchange.zsum (domainCount (snd res)) = Exchange.zsum (map NumPart G)) results.
Proof.
  intros Hloc.
  assert (Hnum : numbered t t 0 0 t' NL).
  { pose proof (walk_run fuel t 0 0 Hshape Hwf ltac:(pose proof (rd_range _ _ _ Hroot); lia)
                  ltac:(lia)) as (s & Hs & Hnum).
    rewrite Hwalk in Hs. injection Hs as <-. exact Hnum. }
  assert (Lw : Forall (fun l : list Q => 0 + Z.of_nat (Z.to_nat NL) <= zlen l)
                 (map (fun r => local_domainWork (snd r)) rs)).
  { apply Forall_map. induction Hloc as [| p r G rs [_ _ _ _ L _ _] _ IH];
      [constructor | constructor; [unfold zlen in *; lia | exact IH]]. }
  assert (Lc : Forall (fun l : list Z => 0 + Z.of_nat (Z.to_nat NL) <= zlen l)
                 (map (fun r => local_domainCount (snd r)) rs)).
  { apply Forall_map. clear Lw. induction Hloc as [| p r G rs [_ _ _ _ _ L _] _ IH];
      [constructor | constructor; [unfold zlen in *; lia | exact IH]]. }
  assert (Lcs : Forall (fun l : list Z => 0 + Z.of_nat (Z.to_nat NL) <= zlen l)
                  (map (fun r => local_domainCountSph (snd r)) rs)).
  { apply Forall_map. clear Lw Lc. induction Hloc as [| p r G rs [_ _ _ _ _ _ L] _ IH];
      [constructor | constructor; [unfold zlen in *; lia | exact IH]]. }
  destruct (allreduce_Ok 0%Q Qplus _ (Z.to_nat NL) 0 ltac:(lia) Lw) as [w Hw].
  pose proof (allreduce_Z _ (Z.to_nat NL) 0 ltac:(lia) Lc) as Hc.
  pose proof (allreduce_Z _ (Z.to_nat NL) 0 ltac:(lia) Lcs) as Hcs.
  induction 1 as [| r todo [Ht Hn] _ (results & Hres & Hlen & IH)].
  { exists []. split; [reflexivity |]. split; [reflexivity | constructor]. }
  eexists (_ :: results). split; [| split; [cbn [length]; rewrite Hlen; reflexivity |]].
  { cbn [each_reduced]. unfold reduced, mbind, outcome_bind. rewrite Hn.
    rewrite Hw. cbn [obind]. rewrite Hc. cbn [obind]. rewrite Hcs. cbn [obind].
    rewrite Hres. reflexivity. }
  constructor; [| exact IH]. cbn [fst snd domainCount domainCountSph].
  split; [exact Ht |]. split; [reflexivity |]. split.
  - intros x Hx Hl.
    assert (Hb : 0 <= lf t' x < NL).
    { destruct (leaf_rd t x Hl) as (n & Hn' & Hdn).
      exact (proj2 (nb_leaf _ _ _ _ _ _ Hnum x n Hx Hn' Hdn)). }
    rewrite !rd_map_seq by lia. rewrite !Z.add_0_l, !Z2Nat.id by lia. split; f_equal.
    + apply entry_sum_Forall2. eapply Forall2_impl; [exact Hloc |]. cbn.
      intros p r0 H. exact (proj1 (proj2 (lo_count _ _ _ _ _ H x Hx Hl))).
    + apply entry_sum_Forall2. eapply Forall2_impl; [exact Hloc |]. cbn.
      intros p r0 H. exact (proj2 (proj2 (lo_count _ _ _ _ _ H x Hx Hl))).
  - rewrite entry_sums_total.
    + clear - Hloc. induction Hloc as [| p r G rs H _ IH]; [reflexivity |].
      cbn [map]. change (Exchange.zsum (?x :: ?r)) with (x + Exchange.zsum r).
      rewrite IH, (lo_total _ _ _ _ _ H). reflexivity.
    + eapply Forall_impl; [exact Lc |]. cbn. intros l H. lia.
Qed.

End AllFacts.

(** X14: [domain_sumCost] on all the processes.  When every process has the
    same top tree and the keys of its particles are among those of the root,
    the routine returns on every process with the same numbering of the
    leaves; entry [Leaf] of [domainCount] is the number of particles, over
    all processes, whose key the leaf holds, and of [domainCountSph] the
    number of gas particles among them; and [domainCount] adds up to the
    number of particles of all processes. *)
Theorem sumCost_all_counts (TIMEBASE : Q) (NumThreads : Z) (fuel : nat)
  (t : list local_topnode_data) (root : local_topnode_data) (G : list process) :
  tree_shaped t -> (forall n, -1 <= dau t n) -> ranged t -> zlen t < 2 ^ 31 ->
  rd t 0 = Ok root -> 0 <= StartKey root -> StartKey root + Size root <= 2 ^ 64 ->
  1 <= NumThreads -> (Z.to_nat (zlen t) <= fuel)%nat ->
  Forall (ready t root NumThreads) G ->
  exists t' NTopleaves results,
    domain_walktoptree fuel 0 (t, 0) = Ok (t', NTopleaves) /\
    domain_sumCost TIMEBASE NumThreads fuel G = Ok results /\
    length results = length G /\
    Forall (fun res =>
      topNodes (fst (fst res)) = t' /\ snd (fst res) = NTopleaves /\
      (forall x, under t 0 x -> leaf t x ->
         rd (domainCount (snd res)) (lf t' x)
         = Ok (Exchange.zsum (map (fun p => count_if (key_held (P p) t x) (NumPart p)) G)) /\
         rd (domainCountSph (snd res)) (lf t' x)
         = Ok (Exchange.zsum
                 (map (fun p => count_if (fun m => key_held (P p) t x m && gas_of (P p) m)
                                  (NumPart p)) G))) /\
      Exchange.zsum (domainCount (snd res)) = Exchange.zsum (map NumPart G)) results.
Proof.
  intros Hshape Hwf Hranged Hsmall Hroot Hlow Hhigh Hthreads Hfuel Hready.
  destruct (walk_run fuel t 0 0 Hshape Hwf ltac:(pose proof (rd_range _ _ _ Hroot); lia)
              ltac:(lia)) as ([t' NL] & Hwalk & _).
  destruct (each_process_spec TIMEBASE NumThreads fuel t t' NL root Hshape Hwf Hranged Hsmall
              Hroot Hlow Hhigh Hthreads Hfuel Hwalk G Hready) as (rs & Hrs & Hloc).
  destruct (each_reduced_spec fuel t t' NL root Hshape Hwf Hroot Hfuel Hwalk G rs Hloc rs)
    as (results & Hres & Hlen & Hall).
  { clear - Hloc. induction Hloc as [| p r G rs [H1 H2 _ _ _ _ _] _ IH];
      constructor; [split; assumption | exact IH]. }
  exists t', NL, results. split; [exact Hwalk |]. split.
  - unfold domain_sumCost, mbind, outcome_bind. rewrite Hrs. exact Hres.
  - split; [| exact Hall]. rewrite Hlen. symmetry. eapply Forall2_length. exact Hloc.
Qed.

(** Five particles on the tree [keyed_tree], two of them with the same key. *)
Definition keyed_particle (key type : Z) : particle_data :=
  mkP (0, 0, 0)%Q (0, 0, 0)%Q 1 0 type 0 0 0 false false key 0 0.

Definition keyed_P : list particle_data :=
  [keyed_particle 3 0; keyed_particle 19 1; keyed_particle 19 0; keyed_particle 60 0;
   keyed_particle 17 1].

Definition keyed_top : top_state := mkTopState keyed_tree 17 17.

Lemma keyed_P_keys (m : Z) (p : particle_data) :
  0 <= m < 5 -> rd keyed_P m = Ok p -> 0 <= Key p < 0 + 64.
Proof.
  intros Hm Hp. assert (Hc : m = 0 \/ m = 1 \/ m = 2 \/ m = 3 \/ m = 4) by lia.
  destruct Hc as [-> | [-> | [-> | [-> | ->]]]];
    vm_compute in Hp; injection Hp as <-; cbn; lia.
Qed.

Lemma sumCost_counts_witness :
  exists st' NTopleaves a,
    domain_sumCost_local 1 2 keyed_P 5 (fun m => m mod 2) 17 keyed_top
    = Ok (st', NTopleaves, a) /\
    NTopleaves = 15 /\
    take 15 (local_domainCount a) = [1; 0; 0; 1; 0; 2; 0; 0; 0; 0; 0; 0; 0; 0; 1] /\
    take 15 (local_domainCountSph a) = [1; 0; 0; 0; 0; 1; 0; 0; 0; 0; 0; 0; 0; 0; 1].
Proof.
  destruct (sumCost_counts 1 2 keyed_P 5 (fun m => m mod 2) 17 keyed_top (keyed_node 64 0 1 0)
              keyed_tree_shaped keyed_tree_daughters keyed_tree_ranged
              ltac:(vm_compute; reflexivity) eq_refl eq_refl ltac:(cbn; lia) ltac:(cbn; lia)
              keyed_P_keys ltac:(vm_compute; intuition congruence) ltac:(lia)
              ltac:(intros m Hm; apply Z.mod_pos_bound; lia) ltac:(vm_compute; lia))
    as (st' & NL & a & Hrun & _).
  exists st', NL, a. split; [exact Hrun |].
  vm_compute in Hrun. injection Hrun as <- <- <-. repeat split.
Defined.

Definition keyed_processes : list process :=
  [mkProcess keyed_top keyed_P 5 (fun m => m mod 2);
   mkProcess keyed_top [keyed_particle 19 0] 1 (fun _ => 0)].

Lemma keyed_processes_ready :
  Forall (ready keyed_tree (keyed_node 64 0 1 0) 2) keyed_processes.
Proof.
  constructor; [| constructor; [| constructor]].
  - constructor; cbn [top P NumPart sched keyed_top topNodes NTopnodes].
    + reflexivity.
    + reflexivity.
    + exact keyed_P_keys.
    + vm_compute. intuition congruence.
    + intros m Hm. apply Z.mod_pos_bound. lia.
  - constructor; cbn [top P NumPart sched keyed_top topNodes NTopnodes].
    + reflexivity.
    + reflexivity.
    + intros m q Hm Hq. assert (m = 0) by lia. subst m.
      vm_compute in Hq. injection Hq as <-. cbn. lia.
    + vm_compute. intuition congruence.
    + intros m Hm. lia.
Qed.

Lemma sumCost_all_counts_witness :
  exists results,
    domain_sumCost 1 2 17 keyed_processes = Ok results /\
    map (fun res => domainCount (snd res)) results
    = [[1; 0; 0; 1; 0; 3; 0; 0; 0; 0; 0; 0; 0; 0; 1];
       [1; 0; 0; 1; 0; 3; 0; 0; 0; 0; 0; 0; 0; 0; 1]] /\
    map (fun res => domainCountSph (snd res)) results
    = [[1; 0; 0; 0; 0; 2; 0; 0; 0; 0; 0; 0; 0; 0; 1];
       [1; 0; 0; 0; 0; 2; 0; 0; 0; 0; 0; 0; 0; 0; 1]].
Proof.
  destruct (sumCost_all_counts 1 2 17 keyed_tree (keyed_node 64 0 1 0) keyed_processes
              keyed_tree_shaped keyed_tree_daughters keyed_tree_ranged
              ltac:(vm_compute; reflexivity) eq_refl ltac:(cbn; lia) ltac:(cbn; lia)
              ltac:(lia) ltac:(vm_compute; lia) keyed_processes_ready)
    as (t' & NL & results & _ & Hrun & _).
  exists results. split; [exact Hrun |].
  vm_compute in Hrun. injection Hrun as <-. split; reflexivity.
Defined.

End SumCost.

(** ** The last loop of [domain_determineTopTree]: more nodes for the
    combined tree *)

Module Append.

Import TopTree.

Section Limits.

Variables countlimit costlimit : Q.

(** topNodes[i].Count > countlimit || topNodes[i].Cost > costlimit *)
Definition over_limit (ni : local_topnode_data) : bool :=
  negb (Qle_bool (inject_Z (Count ni)) countlimit) || negb (Qle_bool (Cost ni) costlimit).

(** Daughter [j] of node [i] gets an eighth of the keys, of the count and of
    the cost of node [i]. *)
Definition append_daughter (i j : Z) (t : list local_topnode_data)
  : outcome (list local_topnode_data) :=
  ni ← rd t i;
  let sub := Daughter ni + j in
  ns ← rd t sub;
  let size := Z.shiftr (Size ni) 3 in
  wr t sub (mkTop size (wrap64 (StartKey ni + wrap64 (j * size))) (Count ni ÷ 8)
                  (Cost ni / 8)%Q (-1) (Leaf ns) i (PIndex ns)).

(** for(i = 0, errflag = 0; i < NTopnodes; i++) ...; the result is [errflag]
    and the nodes.  [NTopnodes] grows while the loop runs. *)
Fixpoint append_loop (fuel : nat) (i : Z) (st : top_state) : outcome (Z * top_state) :=
  if i <? NTopnodes st then
    match fuel with
    | O => Hang
    | S fuel' =>
        ni ← rd (topNodes st) i;
        if (Daughter ni <? 0) && over_limit ni && (1 <? Size ni) then
          if NTopnodes st + 8 <=? MaxTopNodes st then
            t ← wr (topNodes st) i (set_Daughter ni (NTopnodes st));
            t ← for_range 8 0 (append_daughter i) t;
            append_loop fuel' (i + 1) (mkTopState t (NTopnodes st + 8) (MaxTopNodes st))
          else Ok (1, st)
        else append_loop fuel' (i + 1) st
    end
  else Ok (0, st).

(** A leaf that the loop leaves as it is. *)
Definition settled (n : local_topnode_data) : Prop :=
  Daughter n < 0 ->
  Size n <= 1 \/ ((inject_Z (Count n) <= countlimit)%Q /\ (Cost n <= costlimit)%Q).

(** Node [n] at [k] is one of the eight daughters of the node [np] at [p],
    as the loop makes them. *)
Definition eighth (p k : Z) (np n : local_topnode_data) : Prop :=
  Daughter np <= k < Daughter np + 8 /\ Parent n = p /\
  Size n = Z.shiftr (Size np) 3 /\
  StartKey n = wrap64 (StartKey np + wrap64 ((k - Daughter np) * Z.shiftr (Size np) 3)) /\
  Count n = Count np ÷ 8 /\ Cost n = (Cost np / 8)%Q.

(** The state of the loop at index [i], for the nodes [st0] it started
    with. *)
Record appended (st0 : top_state) (i : Z) (st : top_state) : Prop := {
  ap_i : 0 <= i <= NTopnodes st;
  ap_ntop : NTopnodes st0 <= NTopnodes st <= MaxTopNodes st;
  ap_max : MaxTopNodes st = MaxTopNodes st0;
  ap_len : zlen (topNodes st) = zlen (topNodes st0);
  ap_eights : (NTopnodes st - NTopnodes st0) mod 8 = 0;
  ap_rest : forall k, NTopnodes st <= k -> rd (topNodes st) k = rd (topNodes st0) k;
  ap_old : forall k n, 0 <= k < NTopnodes st0 -> rd (topNodes st0) k = Ok n ->
             exists n', rd (topNodes st) k = Ok n' /\ n' = set_Daughter n (Daughter n') /\
                        (0 <= Daughter n -> n' = n) /\ (i <= k -> n' = n);
  ap_new : forall k n, NTopnodes st0 <= k < NTopnodes st -> rd (topNodes st) k = Ok n ->
             (i <= k -> Daughter n = -1) /\
             exists p np, 0 <= p < i /\ p < k /\ rd (topNodes st) p = Ok np /\ eighth p k np n;
  ap_settled : forall k n, 0 <= k < i -> rd (topNodes st) k = Ok n -> settled n
}.

(** The loop over the eight daughters when [j] of them are made. *)
Record eight_made (t1 : list local_topnode_data) (i d : Z) (ni : local_topnode_data)
  (j : Z) (t : list local_topnode_data) : Prop := {
  em_len : zlen t = zlen t1;
  em_rest : forall k, ~ (d <= k < d + j) -> rd t k = rd t1 k;
  em_made : forall k, d <= k < d + j ->
              exists n, rd t k = Ok n /\ eighth i k ni n /\ Daughter n = -1
}.

Lemma append_daughters (t1 : list local_topnode_data) (i d : Z) (ni : local_topnode_data) :
  rd t1 i = Ok ni -> Daughter ni = d -> i < d -> d + 8 <= zlen t1 ->
  exists t, for_range 8 0 (append_daughter i) t1 = Ok t /\ eight_made t1 i d ni 8 t.
Proof.
  intros Hni Hd Hid Hfit.
  assert (H0 : 0 <= i) by (apply rd_range in Hni; lia).
  destruct (for_range_inv (fun j t => eight_made t1 i d ni j t) (append_daughter i) 8 0 t1)
    as (t & Hrun & Hmade).
  - constructor; [reflexivity | reflexivity | intros; lia].
  - intros j t Hj [L R M]. unfold append_daughter, mbind, outcome_bind.
    rewrite R by lia. rewrite Hni. cbn [obind]. rewrite Hd.
    destruct (rd_in_range t (d + j) ltac:(lia)) as [ns Hns]. rewrite Hns. cbn [obind].
    rewrite (wr_in_range t (d + j)) by lia.
    eexists. split; [reflexivity |].
    set (n := mkTop _ _ _ _ _ _ _ _).
    assert (Hw : wr t (d + j) n = Ok (<[Z.to_nat (d + j) := n]> t)) by (apply wr_in_range; lia).
    constructor.
    + rewrite <- L. exact (zlen_wr _ _ _ _ Hw).
    + intros k Hk. rewrite (Exchange.rd_wr _ _ _ k _ Hw).
      destruct (Z.eqb_spec k (d + j)); [lia |]. apply R. lia.
    + intros k Hk. rewrite (Exchange.rd_wr _ _ _ k _ Hw).
      destruct (Z.eqb_spec k (d + j)) as [-> | Hne].
      * exists n. split; [reflexivity |]. split; [| reflexivity].
        unfold eighth, n. cbn [Parent Size StartKey Count Cost]. rewrite Hd.
        replace (d + j - d) with j by lia. repeat split; lia.
      * apply M. lia.
  - exists t. split; [exact Hrun | exact Hmade].
Qed.

Lemma set_Daughter_twice (n : local_topnode_data) (a b : Z) :
  set_Daughter (set_Daughter n a) b = set_Daughter n b.
Proof. reflexivity. Qed.

Lemma not_split_settled (ni : local_topnode_data) :
  (Daughter ni <? 0) && over_limit ni && (1 <? Size ni) = false -> settled ni.
Proof.
  intros Hc Hd. apply andb_false_iff in Hc as [Hc | Hc]; [| left; lia].
  apply andb_false_iff in Hc as [Hc | Hc]; [lia |]. right.
  unfold over_limit in Hc. apply orb_false_iff in Hc as [H1 H2].
  apply negb_false_iff in H1, H2. split; apply Qle_bool_iff; assumption.
Qed.

Lemma append_step (st0 st : top_state) (i : Z) (ni : local_topnode_data) :
  MaxTopNodes st0 <= zlen (topNodes st0) ->
  appended st0 i st -> i < NTopnodes st -> rd (topNodes st) i = Ok ni ->
  Daughter ni < 0 -> NTopnodes st + 8 <= MaxTopNodes st ->
  exists t t',
    wr (topNodes st) i (set_Daughter ni (NTopnodes st)) = Ok t /\
    for_range 8 0 (append_daughter i) t = Ok t' /\
    appended st0 (i + 1) (mkTopState t' (NTopnodes st + 8) (MaxTopNodes st)).
Proof.
  intros Hfit [Hi Hnt Hmax Hlen H8 Hrest Hold Hnew Hset] Hlt Hni Hleaf Hroom.
  set (NT := NTopnodes st) in *. set (ni' := set_Daughter ni NT).
  pose proof (wr_in_range (topNodes st) i ni' ltac:(apply rd_range in Hni; exact Hni)) as Hw.
  set (t1 := <[Z.to_nat i := ni']> (topNodes st)) in *.
  assert (Hr1 : forall k, rd t1 k = if k =? i then Ok ni' else rd (topNodes st) k)
    by (intros k; exact (Exchange.rd_wr _ _ _ k _ Hw)).
  assert (L1 : zlen t1 = zlen (topNodes st)) by exact (zlen_wr _ _ _ _ Hw).
  destruct (append_daughters t1 i NT ni') as (t' & Hrun & [L R M]).
  { rewrite Hr1, Z.eqb_refl. reflexivity. }
  { reflexivity. }
  { exact Hlt. }
  { lia. }
  exists t1, t'. split; [exact Hw |]. split; [exact Hrun |].
  assert (Hr' : forall k, k < NT -> rd t' k = if k =? i then Ok ni' else rd (topNodes st) k).
  { intros k Hk. rewrite R by lia. apply Hr1. }
  constructor; cbn [topNodes NTopnodes MaxTopNodes].
  - lia.
  - lia.
  - exact Hmax.
  - congruence.
  - replace (NT + 8 - NTopnodes st0) with (NT - NTopnodes st0 + 1 * 8) by lia.
    rewrite Z.mod_add by lia. exact H8.
  - intros k Hk. rewrite R by lia. rewrite Hr1. destruct (Z.eqb_spec k i); [lia |].
    apply Hrest. lia.
  - intros k n Hk Hn. destruct (Hold k n Hk Hn) as (n' & Hn' & Hsd & Hint & Hlater).
    rewrite Hr' by lia. destruct (Z.eqb_spec k i) as [-> | Hne].
    + rewrite Hni in Hn'. injection Hn' as <-. specialize (Hlater ltac:(lia)). subst ni.
      exists ni'. split; [reflexivity |]. split; [reflexivity |]. split; intros; lia.
    + exists n'. split; [exact Hn' |]. split; [exact Hsd |]. split; [exact Hint |].
      intros Hik. apply Hlater. lia.
  - intros k n Hk Hn. destruct (Z.lt_ge_cases k NT) as [Hkn | Hkn].
    + rewrite Hr' in Hn by exact Hkn. destruct (Z.eqb_spec k i) as [-> | Hne].
      * injection Hn as <-. split; [intros; lia |].
        destruct (Hnew i ni ltac:(lia) Hni) as (_ & p & np & Hp & Hpk & Hnp & He).
        exists p, np. split; [lia |]. split; [exact Hpk |].
        split; [rewrite Hr' by lia; destruct (Z.eqb_spec p i); [lia | exact Hnp] |].
        exact He.
      * destruct (Hnew k n ltac:(lia) Hn) as (Hd & p & np & Hp & Hpk & Hnp & He).
        split; [intros Hik; apply Hd; lia |].
        exists p, np. split; [lia |]. split; [exact Hpk |].
        split; [rewrite Hr' by lia; destruct (Z.eqb_spec p i); [lia | exact Hnp] |].
        exact He.
    + destruct (M k ltac:(lia)) as (n' & Hn' & He & Hd).
      rewrite Hn in Hn'. injection Hn' as <-. split; [intros _; exact Hd |].
      exists i, ni'. split; [lia |]. split; [lia |].
      split; [rewrite Hr' by lia; rewrite Z.eqb_refl; reflexivity | exact He].
  - intros k n Hk Hn. rewrite Hr' in Hn by lia. destruct (Z.eqb_spec k i) as [-> | Hne].
    + injection Hn as <-. intros Hd. cbn in Hd. lia.
    + apply (Hset k n); [lia | exact Hn].
Qed.

Lemma append_run (st0 : top_state) (fuel : nat) :
  MaxTopNodes st0 <= zlen (topNodes st0) ->
  forall i st, appended st0 i st -> (Z.to_nat (MaxTopNodes st0 - i) <= fuel)%nat ->
    exists errflag st',
      append_loop fuel i st = Ok (errflag, st') /\
      (errflag = 0 /\ appended st0 (NTopnodes st') st' \/
       errflag = 1 /\ MaxTopNodes st' < NTopnodes st' + 8 /\
       exists i', appended st0 i' st').
Proof.
  intros Hfit. induction fuel as [| fuel IH]; intros i st Hap Hfuel.
  - pose proof (ap_i _ _ _ Hap). pose proof (ap_ntop _ _ _ Hap). pose proof (ap_max _ _ _ Hap).
    cbn [append_loop]. destruct (Z.ltb_spec i (NTopnodes st)); [lia |].
    exists 0, st. split; [reflexivity |]. left. split; [reflexivity |].
    replace (NTopnodes st) with i by lia. exact Hap.
  - pose proof (ap_i _ _ _ Hap) as Hi. pose proof (ap_ntop _ _ _ Hap) as Hnt.
    pose proof (ap_max _ _ _ Hap) as Hmax. pose proof (ap_len _ _ _ Hap) as Hlen.
    cbn [append_loop]. destruct (Z.ltb_spec i (NTopnodes st)) as [Hlt | Hge].
    2:{ exists 0, st. split; [reflexivity |]. left. split; [reflexivity |].
        replace (NTopnodes st) with i by lia. exact Hap. }
    destruct (rd_in_range (topNodes st) i ltac:(lia)) as [ni Hni].
    unfold mbind, outcome_bind. rewrite Hni. cbn [obind].
    destruct ((Daughter ni <? 0) && over_limit ni && (1 <? Size ni)) eqn:Hc.
    + destruct (Z.leb_spec (NTopnodes st + 8) (MaxTopNodes st)) as [Hroom | Hroom].
      * apply andb_true_iff in Hc as [Hc _]. apply andb_true_iff in Hc as [Hd _].
        apply Z.ltb_lt in Hd.
        destruct (append_step st0 st i ni Hfit Hap Hlt Hni Hd Hroom) as (t & t' & Hw & Hr & Hap').
        rewrite Hw. cbn [obind]. rewrite Hr. cbn [obind]. apply IH; [exact Hap' | lia].
      * exists 1, st. split; [reflexivity |]. right. split; [reflexivity |].
        split; [lia |]. exists i. exact Hap.
    + apply IH; [| lia]. destruct Hap as [_ _ _ _ H8 Hrest Hold Hnew Hset].
      constructor; try assumption; try lia.
      * intros k n Hk Hn. destruct (Hold k n Hk Hn) as (n' & Hn' & Hsd & Hint & Hlater).
        exists n'. split; [exact Hn' |]. split; [exact Hsd |]. split; [exact Hint |].
        intros Hik. apply Hlater. lia.
      * intros k n Hk Hn. destruct (Hnew k n Hk Hn) as (Hd & p & np & Hp & Hpk & Hnp & He).
        split; [intros Hik; apply Hd; lia |]. exists p, np. split; [lia | auto].
      * intros k n Hk Hn. destruct (Z.eq_dec k i) as [-> | Hne].
        -- rewrite Hni in Hn. injection Hn as <-. apply not_split_settled. exact Hc.
        -- apply (Hset k n); [lia | exact Hn].
Qed.

End Limits.

(** X15: the loop that appends nodes to the combined tree.  It returns
    with [errflag] 0 or 1.  With 0, every node in use that has no daughters
    holds one key or is within both limits; with 1, there is no room for
    eight more nodes.  In both cases the nodes in use come in eights on top
    of the old ones; an old node has kept everything but [Daughter], which
    has changed only where there was none; and every new node has an eighth
    of the keys, of the count and of the cost of an earlier node. *)
Theorem append_settles (countlimit costlimit : Q) (fuel : nat) (st : top_state) :
  0 <= NTopnodes st <= MaxTopNodes st -> MaxTopNodes st <= zlen (topNodes st) ->
  (Z.to_nat (MaxTopNodes st) <= fuel)%nat ->
  exists errflag st',
    append_loop countlimit costlimit fuel 0 st = Ok (errflag, st') /\
    (errflag = 0 /\
     (forall k n, 0 <= k < NTopnodes st' -> rd (topNodes st') k = Ok n ->
        settled countlimit costlimit n) \/
     errflag = 1 /\ MaxTopNodes st < NTopnodes st' + 8) /\
    NTopnodes st <= NTopnodes st' <= MaxTopNodes st /\
    (NTopnodes st' - NTopnodes st) mod 8 = 0 /\
    MaxTopNodes st' = MaxTopNodes st /\
    (forall k n, 0 <= k < NTopnodes st -> rd (topNodes st) k = Ok n ->
       exists n', rd (topNodes st') k = Ok n' /\ n' = set_Daughter n (Daughter n') /\
                  (0 <= Daughter n -> n' = n)) /\
    (forall k n, NTopnodes st <= k < NTopnodes st' -> rd (topNodes st') k = Ok n ->
       exists p np, 0 <= p < k /\ rd (topNodes st') p = Ok np /\ eighth p k np n).
Proof.
  intros Hnt Hfit Hfuel.
  assert (Hap0 : appended countlimit costlimit st 0 st).
  { constructor; try reflexivity; try lia.
    - rewrite Z.sub_diag. reflexivity.
    - intros k n Hk Hn. exists n. split; [exact Hn |].
    split; [symmetry; apply set_Daughter_same | auto]. }
  destruct (append_run countlimit costlimit st fuel Hfit 0 st Hap0 ltac:(lia))
    as (errflag & st' & Hrun & Hcase).
  exists errflag, st'. split; [exact Hrun |].
  assert (Hsome : exists i', appended countlimit costlimit st i' st').
  { destruct Hcase as [[_ H] | (_ & _ & H)]; [eauto | exact H]. }
  destruct Hsome as [i' [Hi Hntop Hmax Hlen H8 Hrest Hold Hnew Hset]].
  split.
  { destruct Hcase as [[-> Hap] | (-> & Hroom & _)]; [left | right; split; [reflexivity | lia]].
    split; [reflexivity |]. intros k n Hk. apply (ap_settled _ _ _ _ _ Hap). lia. }
  split; [lia |]. split; [exact H8 |]. split; [exact Hmax |]. split.
  - intros k n Hk Hn. destruct (Hold k n Hk Hn) as (n' & Hn' & Hsd & Hint & _). eauto.
  - intros k n Hk Hn. destruct (Hnew k n Hk Hn) as (_ & p & np & Hp & Hpk & Hnp & He).
    exists p, np. split; [lia | auto].
Qed.

(** A root over both limits and room for eight more nodes. *)
Definition crowded : top_state :=
  mkTopState (mkTop 64 0 20 2 (-1) 0 (-1) 0 :: repeat (mkTop 0 0 0 0 0 0 0 0) 16) 1 17.

Lemma append_settles_witness :
  exists errflag st',
    append_loop 3 100 17 0 crowded = Ok (errflag, st') /\
    errflag = 0 /\ NTopnodes st' = 9 /\
    map Count (take 9 (topNodes st')) = [20; 2; 2; 2; 2; 2; 2; 2; 2] /\
    map StartKey (take 9 (topNodes st')) = [0; 0; 8; 16; 24; 32; 40; 48; 56].
Proof.
  destruct (append_settles 3 100 17 crowded ltac:(cbn; lia) ltac:(vm_compute; discriminate)
              ltac:(vm_compute; lia)) as (errflag & st' & Hrun & _).
  exists errflag, st'. split; [exact Hrun |].
  vm_compute in Hrun. injection Hrun as <- <-. repeat split.
Defined.

End Append.

(** ** Testing that the particle IDs are unique: [test_id_uniqueness] *)

From Stdlib Require Import Sorted.

Module Unique.

(** The particles of one process. *)
Record proc : Type := mkProc {
  P : list particle_data;
  NumPart : Z
}.

(** Run [f] on every element, in the order of the list. *)
Fixpoint each {A B : Type} (f : A -> outcome B) (l : list A) : outcome (list B) :=
  match l with
  | [] => Ok []
  | a :: l' => b ← f a; bs ← each f l'; Ok (b :: bs)
  end.

(** if(NumPart == 0) endrun(8, ...); for(i = 0; i < NumPart; i++) ids[i] = P[i].ID; *)
Definition copy_ids (p : proc) : outcome (list Z) :=
  if NumPart p =? 0 then Endrun 8
  else
    for_range (Z.to_nat (NumPart p)) 0
      (fun i ids => x ← rd (P p) i; wr ids i (ID x))
      (repeat 0 (Z.to_nat (NumPart p))).

(** for(i = 1; i < NumPart; i++) if(ids[i] == ids[i - 1]) endrun(12, ...); *)
Definition check_neighbours (n : Z) (ids : list Z) : outcome unit :=
  for_range (Z.to_nat (n - 1)) 1
    (fun i _ => a ← rd ids i; b ← rd ids (i - 1); if a =? b then Endrun 12 else Ok tt) tt.

(** if(ThisTask < NTask - 1) if(ids[NumPart - 1] == ids_first[ThisTask + 1]) endrun(13, ...); *)
Definition check_next (NTask : Z) (ids_first : list Z) (ThisTask n : Z) (ids : list Z)
  : outcome unit :=
  if ThisTask <? NTask - 1 then
    a ← rd ids (n - 1);
    b ← rd ids_first (ThisTask + 1);
    if a =? b then Endrun 13 else Ok tt
  else Ok tt.

Section Test.

(** [mpsort_mpi] is not among the sources at hand: it takes the arrays of
    all processes and leaves them sorted. *)
Variable mpsort_mpi : list (list Z) -> list (list Z).

(** [test_id_uniqueness] on all processes. *)
Definition test_id_uniqueness (G : list proc) : outcome unit :=
  ids ← each copy_ids G;
  let ids := mpsort_mpi ids in
  let NTask := zlen G in
  _ ← for_range (length G) 0
        (fun ThisTask _ => p ← rd G ThisTask; l ← rd ids ThisTask; check_neighbours (NumPart p) l)
        tt;
  (* MPI_Allgather(&ids[0], ...) *)
  ids_first ← each (fun l => rd l 0) ids;
  for_range (length G) 0
    (fun ThisTask _ =>
       p ← rd G ThisTask; l ← rd ids ThisTask;
       check_next NTask ids_first ThisTask (NumPart p) l) tt.

End Test.

(** No two neighbours in the list are equal. *)
Fixpoint neighbours_differ (l : list Z) : Prop :=
  match l with
  | a :: (b :: _) as l' => a <> b /\ neighbours_differ l'
  | _ => True
  end.

Lemma neighbours_app (l1 l2 : list Z) :
  neighbours_differ (l1 ++ l2) <->
  neighbours_differ l1 /\ neighbours_differ l2 /\
  (forall a b, last l1 = Some a -> head l2 = Some b -> a <> b).
Proof.
  induction l1 as [| a [| b l1] IH].
  - cbn. split; [intros H; split; [exact I | split; [exact H | discriminate]] | tauto].
  - destruct l2 as [| b l2].
    + cbn. split; [intros _; split; [exact I | split; [exact I | discriminate]] | tauto].
    + cbn [app neighbours_differ last head]. split.
      * intros [H1 H2]. split; [exact I |]. split; [exact H2 |].
        intros x y Hx Hy. injection Hx as <-. injection Hy as <-. exact H1.
      * intros (_ & H2 & H3). split; [apply H3; reflexivity | exact H2].
  - change (neighbours_differ ((a :: b :: l1) ++ l2))
      with (a <> b /\ neighbours_differ ((b :: l1) ++ l2)).
    change (neighbours_differ (a :: b :: l1)) with (a <> b /\ neighbours_differ (b :: l1)).
    change (last (a :: b :: l1)) with (last (b :: l1)).
    rewrite IH. tauto.
Qed.

Lemma sorted_neighbours_NoDup (l : list Z) :
  Sorted Z.le l -> (neighbours_differ l <-> List.NoDup l).
Proof.
  intros Hs. apply Sorted_StronglySorted in Hs; [| intros x y z; lia].
  induction Hs as [| a l Hs IH Ha]; [split; [constructor | exact (fun _ => I)] |].
  split.
  - intros Hn. constructor.
    + destruct l as [| b l]; [intros [] |]. destruct Hn as [Hab Hn].
      intros Hin. apply IH in Hn. inversion Hs as [| ? ? _ Hb]; subst.
      pose proof (proj1 (List.Forall_forall _ _) Ha b ltac:(left; reflexivity)) as Hle.
      destruct Hin as [-> | Hin]; [contradiction |].
      pose proof (proj1 (List.Forall_forall _ _) Hb a Hin). lia.
    + apply IH. destruct l as [| b l]; [exact I | exact (proj2 Hn)].
  - intros Hnd. inversion Hnd as [| ? ? Hnot Hnd']; subst.
    destruct l as [| b l]; [exact I |]. split.
    + intros ->. apply Hnot. left. reflexivity.
    + apply IH. exact Hnd'.
Qed.

Lemma rd_cons {A : Type} (x : A) (l : list A) (k : Z) :
  1 <= k -> rd (x :: l) k = rd l (k - 1).
Proof.
  intros Hk. unfold rd. destruct (Z.ltb_spec k 0); [lia |].
  destruct (Z.ltb_spec (k - 1) 0); [lia |].
  replace (Z.to_nat k) with (S (Z.to_nat (k - 1))) by lia. reflexivity.
Qed.

Lemma rd_head {A : Type} (l : list A) : rd l 0 = match head l with Some x => Ok x | None => Fault end.
Proof. destruct l; reflexivity. Qed.

Lemma rd_last {A : Type} (l : list A) :
  rd l (zlen l - 1) = match last l with Some x => Ok x | None => Fault end.
Proof.
  induction l as [| a [| b l] IH]; [reflexivity | reflexivity |].
  change (last (a :: b :: l)) with (last (b :: l)). rewrite <- IH.
  rewrite rd_cons by (unfold zlen; cbn [length]; lia). f_equal.
  unfold zlen. cbn [length]. lia.
Qed.

(** The neighbours by their indices. *)
Lemma neighbours_index (l : list Z) :
  neighbours_differ l <->
  forall k a b, 1 <= k < zlen l -> rd l k = Ok a -> rd l (k - 1) = Ok b -> a <> b.
Proof.
  induction l as [| x [| y l] IH].
  - split; [| intros _; exact I]. intros _ k a b Hk. unfold zlen in Hk. cbn in Hk. lia.
  - split; [| intros _; exact I]. intros _ k a b Hk. unfold zlen in Hk. cbn in Hk. lia.
  - change (neighbours_differ (x :: y :: l)) with (x <> y /\ neighbours_differ (y :: l)).
    rewrite IH. split.
    + intros [Hxy H] k a b Hk Ha Hb. destruct (Z.eq_dec k 1) as [-> | Hne].
      * cbn in Ha, Hb. injection Ha as <-. injection Hb as <-. congruence.
      * rewrite rd_cons in Ha, Hb by lia. apply (H (k - 1) a b); try assumption.
        unfold zlen in *. cbn [length] in *. lia.
    + intros H. split.
      * intros ->. apply (H 1 y y); [unfold zlen; cbn [length]; lia | reflexivity ..].
      * intros k a b Hk Ha Hb. apply (H (k + 1) a b).
        -- unfold zlen in *. cbn [length] in *. lia.
        -- rewrite rd_cons by lia. replace (k + 1 - 1) with k by lia. exact Ha.
        -- rewrite rd_cons by lia. replace (k + 1 - 1) with k by lia. exact Hb.
Qed.

(** A loop of tests, each of which ends the run with [c] when it fails. *)
Lemma for_range_tests (ok : Z -> Prop) (c : Z) (body : Z -> unit -> outcome unit) (n : nat) :
  forall i,
    (forall k, i <= k < i + Z.of_nat n ->
       ok k /\ body k tt = Ok tt \/ ~ ok k /\ body k tt = Endrun c) ->
    (forall k, i <= k < i + Z.of_nat n -> ok k) /\ for_range n i body tt = Ok tt \/
    (exists k, i <= k < i + Z.of_nat n /\ ~ ok k) /\ for_range n i body tt = Endrun c.
Proof.
  induction n as [| n IH]; intros i H.
  - left. split; [intros k Hk; lia | reflexivity].
  - cbn [for_range]. unfold mbind, outcome_bind.
    destruct (H i ltac:(lia)) as [[Hok ->] | [Hno ->]]; cbn [obind].
    + destruct (IH (i + 1)) as [[Hall Hrun] | [(k & Hk & Hno) Hrun]].
      * intros k Hk. apply H. lia.
      * left. split; [| exact Hrun]. intros k Hk.
        destruct (Z.eq_dec k i) as [-> | Hne]; [exact Hok | apply Hall; lia].
      * right. split; [| exact Hrun]. exists k. split; [lia | exact Hno].
    + right. split; [| reflexivity]. exists i. split; [lia | exact Hno].
Qed.

Lemma check_neighbours_spec (ids : list Z) :
  1 <= zlen ids ->
  neighbours_differ ids /\ check_neighbours (zlen ids) ids = Ok tt \/
  ~ neighbours_differ ids /\ check_neighbours (zlen ids) ids = Endrun 12.
Proof.
  intros Hlen. unfold check_neighbours.
  destruct (for_range_tests
              (fun k => forall a b, rd ids k = Ok a -> rd ids (k - 1) = Ok b -> a <> b) 12
              (fun i _ => a ← rd ids i; b ← rd ids (i - 1);
                          if a =? b then Endrun 12 else Ok tt)
              (Z.to_nat (zlen ids - 1)) 1) as [[Hall Hrun] | [(k & Hk & Hno) Hrun]].
  - intros k Hk. unfold mbind, outcome_bind.
    destruct (rd_in_range ids k ltac:(lia)) as [a Ha].
    destruct (rd_in_range ids (k - 1) ltac:(lia)) as [b Hb].
    rewrite Ha. cbn [obind]. rewrite Hb. cbn [obind].
    destruct (Z.eqb_spec a b) as [Heq | Hne].
    + right. split; [| reflexivity]. intros H. exact (H a b eq_refl eq_refl Heq).
    + left. split; [| reflexivity]. intros a' b' Ha' Hb'. congruence.
  - left. split; [| exact Hrun]. apply neighbours_index. intros k a b Hk. apply Hall. lia.
  - right. split; [| exact Hrun]. intros Hn. apply Hno.
    intros a b. apply (proj1 (neighbours_index ids) Hn). lia.
Qed.

(** The IDs of the particles of a process. *)
Definition ids_of (p : proc) : list Z := map ID (take (Z.to_nat (NumPart p)) (P p)).

Lemma copy_ids_spec (p : proc) :
  0 < NumPart p <= zlen (P p) -> copy_ids p = Ok (ids_of p).
Proof.
  intros Hn. unfold copy_ids. destruct (Z.eqb_spec (NumPart p) 0); [lia |].
  destruct (for_range_inv
              (fun i ids => zlen ids = NumPart p /\
                            take (Z.to_nat i) ids = map ID (take (Z.to_nat i) (P p)))
              (fun i ids => x ← rd (P p) i; wr ids i (ID x))
              (Z.to_nat (NumPart p)) 0 (repeat 0 (Z.to_nat (NumPart p))))
    as (ids & Hrun & Hlen & Hids).
  - split; [unfold zlen; rewrite repeat_length; lia | reflexivity].
  - intros k ids Hk [Hlen Hids]. unfold mbind, outcome_bind.
    destruct (rd_in_range (P p) k ltac:(lia)) as [x Hx]. rewrite Hx. cbn [obind].
    rewrite (wr_in_range ids k) by lia. eexists. split; [reflexivity |].
    apply rd_Ok in Hx as [_ Hx]. unfold zlen in *.
    split; [rewrite length_insert; exact Hlen |].
    replace (Z.to_nat (k + 1)) with (S (Z.to_nat k)) by lia.
    rewrite (take_S_r (P p) _ x Hx), map_app.
    rewrite (take_S_r _ _ (ID x)) by (apply list_lookup_insert_eq; lia).
    rewrite take_insert_ge by lia. rewrite Hids. reflexivity.
  - rewrite Hrun. f_equal. replace (0 + Z.of_nat (Z.to_nat (NumPart p))) with (NumPart p) in Hids by lia.
    rewrite take_ge in Hids by (unfold zlen in Hlen; lia). exact Hids.
Qed.

Lemma each_Ok {A B : Type} (f : A -> outcome B) (l : list A) (g : A -> B) :
  Forall (fun a => f a = Ok (g a)) l -> each f l = Ok (map g l).
Proof.
  induction 1 as [| a l Ha _ IH]; [reflexivity |].
  cbn [each map]. unfold mbind, outcome_bind. rewrite Ha. cbn [obind]. rewrite IH. reflexivity.
Qed.

Lemma each_Endrun {A B : Type} (f : A -> outcome B) (l : list A) (c : Z) :
  Forall (fun a => (exists b, f a = Ok b) \/ f a = Endrun c) l ->
  Exists (fun a => f a = Endrun c) l -> each f l = Endrun c.
Proof.
  induction 1 as [| a l Ha _ IH]; intros Hex; [inversion Hex |].
  cbn [each]. unfold mbind, outcome_bind. destruct Ha as [[b Hb] | Hc].
  - rewrite Hb. cbn [obind]. rewrite IH; [reflexivity |].
    inversion Hex as [? ? H | ? ? H]; subst; [congruence | exact H].
  - rewrite Hc. reflexivity.
Qed.

(** The last ID of every array differs from the first of the next. *)
Fixpoint boundaries (ls : list (list Z)) : Prop :=
  match ls with
  | l1 :: (l2 :: _) as ls' =>
      (forall a b, last l1 = Some a -> head l2 = Some b -> a <> b) /\ boundaries ls'
  | _ => True
  end.

Lemma concat_neighbours (ls : list (list Z)) :
  Forall (fun l => l <> []) ls ->
  (neighbours_differ (concat ls) <-> Forall neighbours_differ ls /\ boundaries ls).
Proof.
  induction 1 as [| l1 ls H1 Hne IH].
  - cbn. split; [intros _; split; [constructor | exact I] | intros _; exact I].
  - cbn [concat]. rewrite neighbours_app, IH. destruct ls as [| l2 ls].
    + cbn [concat head boundaries]. split.
      * intros (Hn & _ & _). split; [constructor; [exact Hn | constructor] | exact I].
      * intros [Hf _]. inversion Hf; subst. split; [assumption |].
        split; [split; [constructor | exact I] | discriminate].
    + assert (Hhead : head (concat (l2 :: ls)) = head l2).
      { inversion Hne as [| ? ? H2 _]; subst. destruct l2; [contradiction | reflexivity]. }
      rewrite Hhead. change (boundaries (l1 :: l2 :: ls))
        with ((forall a b, last l1 = Some a -> head l2 = Some b -> a <> b)
              /\ boundaries (l2 :: ls)).
      split.
      * intros (Hn & [Hf Hb] & Hx). split; [constructor; assumption | split; assumption].
      * intros [Hf [Hx Hb]]. inversion Hf; subst. tauto.
Qed.

Lemma boundaries_index (ls : list (list Z)) :
  boundaries ls <->
  forall t l1 l2 a b, 0 <= t -> rd ls t = Ok l1 -> rd ls (t + 1) = Ok l2 ->
                      last l1 = Some a -> head l2 = Some b -> a <> b.
Proof.
  induction ls as [| x [| y ls] IH].
  - split; [| intros _; exact I]. intros _ t l1 l2 a b _ H. apply rd_range in H.
    unfold zlen in H. cbn in H. lia.
  - split; [| intros _; exact I]. intros _ t l1 l2 a b Ht _ H. apply rd_range in H.
    unfold zlen in H. cbn in H. lia.
  - change (boundaries (x :: y :: ls))
      with ((forall a b, last x = Some a -> head y = Some b -> a <> b) /\ boundaries (y :: ls)).
    rewrite IH. split.
    + intros [Hxy H] t l1 l2 a b Ht H1 H2. destruct (Z.eq_dec t 0) as [-> | Hne].
      * cbn in H1, H2. injection H1 as <-. injection H2 as <-. apply Hxy.
      * rewrite rd_cons in H1, H2 by lia. replace (t + 1 - 1) with (t - 1 + 1) in H2 by lia.
        apply (H (t - 1) l1 l2 a b); assumption || lia.
    + intros H. split.
      * intros a b. apply (H 0 x y a b); [lia | reflexivity | reflexivity].
      * intros t l1 l2 a b Ht H1 H2. apply (H (t + 1) l1 l2 a b); [lia | |].
        -- rewrite rd_cons by lia. replace (t + 1 - 1) with t by lia. exact H1.
        -- rewrite rd_cons by lia. replace (t + 1 + 1 - 1) with (t + 1) by lia. exact H2.
Qed.

(** What this file takes [mpsort_mpi] to do with the arrays [ins]: every
    process keeps the size of its array, and the arrays, one after the
    other, hold the same IDs in ascending order. *)
Record sorts (ins out : list (list Z)) : Prop := {
  so_lengths : map length out = map length ins;
  so_perm : concat out ≡ₚ concat ins;
  so_sorted : Sorted Z.le (concat out)
}.

Lemma Forall_rd {A : Type} (Q : A -> Prop) (l : list A) :
  Forall Q l <-> forall t x, rd l t = Ok x -> Q x.
Proof.
  rewrite List.Forall_forall. split.
  - intros H t x Hx. apply H. apply rd_Ok in Hx as [_ Hx].
    apply list_elem_of_In. eapply list_elem_of_lookup_2. exact Hx.
  - intros H x Hx. apply list_elem_of_In, list_elem_of_lookup_1 in Hx as [i Hi].
    apply (H (Z.of_nat i)). apply rd_Ok. split; [lia |]. rewrite Nat2Z.id. exact Hi.
Qed.

Section Sorted.

Variable mpsort_mpi : list (list Z) -> list (list Z).
Variable G : list proc.

Hypothesis Hbound : Forall (fun p => 0 <= NumPart p <= zlen (P p)) G.
Hypothesis Hsort : sorts (map ids_of G) (mpsort_mpi (map ids_of G)).
Hypothesis Hsome : Forall (fun p => NumPart p <> 0) G.

Let out := mpsort_mpi (map ids_of G).

Lemma length_ids_of (p : proc) : In p G -> zlen (ids_of p) = NumPart p.
Proof.
  intros Hp. pose proof (proj1 (List.Forall_forall _ _) Hbound p Hp) as Hb. cbn beta in Hb.
  unfold ids_of, zlen in *. rewrite length_map, length_take. lia.
Qed.

Lemma sorted_array (t : Z) (p : proc) :
  rd G t = Ok p -> exists l, rd out t = Ok l /\ zlen l = NumPart p /\ 1 <= NumPart p.
Proof.
  intros Hp. pose proof (so_lengths _ _ Hsort) as Hl.
  apply rd_Ok in Hp as [Ht Hp].
  assert (Hin : In p G) by (apply list_elem_of_In; eapply list_elem_of_lookup_2; exact Hp).
  assert (Hlk : map length out !! Z.to_nat t = Some (length (ids_of p))).
  { fold out in Hl. rewrite Hl, !Exchange.lookup_map, Hp. reflexivity. }
  rewrite Exchange.lookup_map in Hlk. destruct (out !! Z.to_nat t) as [l |] eqn:El; [| discriminate].
  injection Hlk as Hlk. exists l. split; [apply rd_Ok; split; assumption |].
  pose proof (length_ids_of p Hin) as Hn. unfold zlen in *.
  pose proof (proj1 (List.Forall_forall _ _) Hsome p Hin) as H1.
  pose proof (proj1 (List.Forall_forall _ _) Hbound p Hin) as H2.
  cbn beta in H1, H2. lia.
Qed.

Lemma sorted_length : length out = length G.
Proof.
  pose proof (so_lengths _ _ Hsort) as Hl. fold out in Hl.
  apply (f_equal (@length nat)) in Hl. rewrite !length_map in Hl. exact Hl.
Qed.

Lemma sorted_task (t : Z) (l : list Z) :
  rd out t = Ok l -> exists p, rd G t = Ok p /\ zlen l = NumPart p /\ 1 <= NumPart p.
Proof.
  intros Hl. pose proof (rd_range _ _ _ Hl) as Hr. unfold zlen in Hr. rewrite sorted_length in Hr.
  destruct (rd_in_range G t Hr) as [p Hp]. exists p. split; [exact Hp |].
  destruct (sorted_array t p Hp) as (l' & Hl' & Hn). rewrite Hl in Hl'. injection Hl' as <-.
  exact Hn.
Qed.

Lemma sorted_nonempty : Forall (fun l : list Z => l <> []) out.
Proof.
  apply Forall_rd. intros t l Hl. destruct (sorted_task t l Hl) as (p & _ & Hn & H1).
  intros ->. unfold zlen in Hn. cbn in Hn. lia.
Qed.

Lemma ids_copied : each copy_ids G = Ok (map ids_of G).
Proof.
  apply each_Ok. apply List.Forall_forall. intros p Hp. apply copy_ids_spec.
  pose proof (proj1 (List.Forall_forall _ _) Hsome p Hp) as H1.
  pose proof (proj1 (List.Forall_forall _ _) Hbound p Hp) as H2.
  cbn beta in H1, H2. lia.
Qed.

Lemma neighbours_loop :
  let loop := for_range (length G) 0
                (fun ThisTask _ => p ← rd G ThisTask; l ← rd out ThisTask;
                                   check_neighbours (NumPart p) l) tt in
  Forall neighbours_differ out /\ loop = Ok tt \/
  ~ Forall neighbours_differ out /\ loop = Endrun 12.
Proof.
  cbn zeta.
  destruct (for_range_tests (fun t => forall l, rd out t = Ok l -> neighbours_differ l) 12
              (fun ThisTask _ => p ← rd G ThisTask; l ← rd out ThisTask;
                                 check_neighbours (NumPart p) l) (length G) 0)
    as [[Hall Hrun] | [(k & Hk & Hno) Hrun]].
  - intros t Ht. unfold mbind, outcome_bind.
    destruct (rd_in_range G t ltac:(unfold zlen; lia)) as [p Hp]. rewrite Hp. cbn [obind].
    destruct (sorted_array t p Hp) as (l & Hl & Hn & H1). rewrite Hl. cbn [obind].
    rewrite <- Hn. destruct (check_neighbours_spec l ltac:(lia)) as [[Hd Hc] | [Hd Hc]].
    + left. split; [| exact Hc]. intros l' Hl'. congruence.
    + right. split; [| exact Hc]. intros H. apply Hd. apply H. reflexivity.
  - left. split; [| exact Hrun]. apply Forall_rd. intros t l Hl. apply (Hall t); [| exact Hl].
    apply rd_range in Hl. unfold zlen in Hl. rewrite sorted_length in Hl. lia.
  - right. split; [| exact Hrun]. intros H. apply Hno. intros l Hl.
    exact (proj1 (Forall_rd _ _) H k l Hl).
Qed.

(** The entries of [ids_first]. *)
Definition first_id (l : list Z) : Z := match head l with Some x => x | None => 0 end.

Lemma firsts_gathered : each (fun l => rd l 0) out = Ok (map first_id out).
Proof.
  apply each_Ok. eapply Forall_impl; [exact sorted_nonempty |]. cbn beta.
  intros l Hl. rewrite rd_head. unfold first_id. destruct l; [contradiction | reflexivity].
Qed.

Lemma boundaries_loop :
  let loop := for_range (length G) 0
                (fun ThisTask _ => p ← rd G ThisTask; l ← rd out ThisTask;
                   check_next (zlen G) (map first_id out) ThisTask (NumPart p) l) tt in
  boundaries out /\ loop = Ok tt \/ ~ boundaries out /\ loop = Endrun 13.
Proof.
  cbn zeta.
  destruct (for_range_tests
              (fun t => forall l1 l2 a b, rd out t = Ok l1 -> rd out (t + 1) = Ok l2 ->
                                           last l1 = Some a -> head l2 = Some b -> a <> b) 13
              (fun ThisTask _ => p ← rd G ThisTask; l ← rd out ThisTask;
                 check_next (zlen G) (map first_id out) ThisTask (NumPart p) l) (length G) 0)
    as [[Hall Hrun] | [(k & Hk & Hno) Hrun]].
  - intros t Ht. unfold mbind, outcome_bind.
    destruct (rd_in_range G t ltac:(unfold zlen; lia)) as [p Hp]. rewrite Hp. cbn [obind].
    destruct (sorted_array t p Hp) as (l & Hl & Hn & H1). rewrite Hl. cbn [obind].
    unfold check_next. destruct (Z.ltb_spec t (zlen G - 1)) as [Hlt | Hge].
    + destruct (rd_in_range G (t + 1) ltac:(lia)) as [p2 Hp2].
      destruct (sorted_array (t + 1) p2 Hp2) as (l2 & Hl2 & Hn2 & H2).
      unfold mbind, outcome_bind. rewrite <- Hn, rd_last.
      destruct (last l) as [a |] eqn:Ha; [| destruct l; [unfold zlen in Hn; cbn in Hn; lia |
        exfalso; revert Ha; clear; revert z; induction l; intros z H; [discriminate | eauto]]].
      cbn [obind].
      assert (Hf : rd (map first_id out) (t + 1) = Ok (first_id l2)).
      { apply rd_Ok. apply rd_Ok in Hl2 as [H0 Hl2]. split; [exact H0 |].
        rewrite Exchange.lookup_map, Hl2. reflexivity. }
      rewrite Hf. cbn [obind].
      assert (Hh : head l2 = Some (first_id l2)).
      { unfold first_id. destruct l2; [unfold zlen in Hn2; cbn in Hn2; lia | reflexivity]. }
      destruct (Z.eqb_spec a (first_id l2)) as [Heq | Hne].
      * right. split; [| reflexivity]. intros H. exact (H l l2 a _ eq_refl Hl2 Ha Hh Heq).
      * left. split; [| reflexivity]. intros l1' l2' a' b' H1' H2' Ha' Hb'.
        injection H1' as <-. rewrite Hl2 in H2'. injection H2' as <-.
        congruence.
    + left. split; [| reflexivity]. intros l1 l2 a b _ H2. apply rd_range in H2.
      unfold zlen in *. rewrite sorted_length in H2. lia.
  - left. split; [| exact Hrun]. apply boundaries_index. intros t l1 l2 a b Ht H1 H2.
    apply (Hall t); [| exact H1 | exact H2].
    apply rd_range in H1. unfold zlen in H1. rewrite sorted_length in H1. lia.
  - right. split; [| exact Hrun]. intros H. apply Hno. intros l1 l2 a b H1 H2.
    apply (proj1 (boundaries_index out) H k l1 l2 a b); [lia | exact H1 | exact H2].
Qed.

End Sorted.

(** X16: what [test_id_uniqueness] decides.  Taking [mpsort_mpi] to sort
    the IDs over the processes: when a process has no particle the run ends
    with code 8; otherwise the routine returns when no two particles of any
    processes have the same ID, and else ends the run with code 12 or 13. *)
Theorem test_id_uniqueness_decides (mpsort_mpi : list (list Z) -> list (list Z))
  (G : list proc) :
  Forall (fun p => 0 <= NumPart p <= zlen (P p)) G ->
  sorts (map ids_of G) (mpsort_mpi (map ids_of G)) ->
  (Exists (fun p => NumPart p = 0) G -> test_id_uniqueness mpsort_mpi G = Endrun 8) /\
  (Forall (fun p => NumPart p <> 0) G ->
   List.NoDup (concat (map ids_of G)) /\ test_id_uniqueness mpsort_mpi G = Ok tt \/
   ~ List.NoDup (concat (map ids_of G)) /\
   (test_id_uniqueness mpsort_mpi G = Endrun 12 \/
    test_id_uniqueness mpsort_mpi G = Endrun 13)).
Proof.
  intros Hbound Hsort. split.
  - intros Hex. unfold test_id_uniqueness, mbind, outcome_bind.
    rewrite (each_Endrun copy_ids G 8); [reflexivity | | ].
    + apply List.Forall_forall. intros p Hp.
      pose proof (proj1 (List.Forall_forall _ _) Hbound p Hp) as Hb. cbn beta in Hb.
      destruct (Z.eq_dec (NumPart p) 0) as [H0 | H0].
      * right. unfold copy_ids. rewrite H0. reflexivity.
      * left. exists (ids_of p). apply copy_ids_spec. lia.
    + eapply Exists_impl; [exact Hex |]. cbn beta. intros p H0.
      unfold copy_ids. rewrite H0. reflexivity.
  - intros Hsome.
    pose proof (sorted_nonempty mpsort_mpi G Hbound Hsort Hsome) as Hne.
    assert (Hiff : List.NoDup (concat (map ids_of G)) <->
                   Forall neighbours_differ (mpsort_mpi (map ids_of G)) /\
                   boundaries (mpsort_mpi (map ids_of G))).
    { rewrite <- (concat_neighbours _ Hne).
      rewrite (sorted_neighbours_NoDup _ (so_sorted _ _ Hsort)).
      split; apply Permutation_NoDup; [symmetry |]; exact (so_perm _ _ Hsort). }
    assert (Hbind : forall (A B : Type) (a : A) (f : A -> outcome B), (x ← Ok a; f x) = f a)
      by reflexivity.
    unfold test_id_uniqueness.
    rewrite (ids_copied G Hbound Hsome), Hbind. cbn zeta.
    destruct (neighbours_loop mpsort_mpi G Hbound Hsort Hsome) as [[Hn Hrun] | [Hn Hrun]];
      cbn zeta in Hrun; rewrite Hrun.
    2:{ right. split; [| left; reflexivity]. intros H. apply Hiff in H. tauto. }
    rewrite Hbind, (firsts_gathered mpsort_mpi G Hbound Hsort Hsome), Hbind.
    destruct (boundaries_loop mpsort_mpi G Hbound Hsort Hsome) as [[Hb Hrun2] | [Hb Hrun2]];
      cbn zeta in Hrun2; rewrite Hrun2.
    + left. split; [apply Hiff; split; assumption | reflexivity].
    + right. split; [| right; reflexivity]. intros H. apply Hiff in H. tauto.
Qed.

(** Sorting by insertion, and giving every process as many IDs as it had. *)
Fixpoint insert_id (x : Z) (l : list Z) : list Z :=
  match l with
  | [] => [x]
  | y :: l' => if x <=? y then x :: l else y :: insert_id x l'
  end.

Fixpoint deal (sizes : list nat) (l : list Z) : list (list Z) :=
  match sizes with
  | [] => []
  | n :: sizes' => take n l :: deal sizes' (drop n l)
  end.

Definition sample_sort (ins : list (list Z)) : list (list Z) :=
  deal (map length ins) (foldr insert_id [] (concat ins)).

Definition with_id (id : Z) : particle_data :=
  mkP (0, 0, 0)%Q (0, 0, 0)%Q 1 id 1 0 0 0 false false 0 0 0.

Definition sample_tasks : list proc :=
  [mkProc [with_id 5; with_id 2] 2; mkProc [with_id 3] 1].

Lemma test_id_uniqueness_decides_witness :
  test_id_uniqueness sample_sort sample_tasks = Ok tt /\
  List.NoDup (concat (map ids_of sample_tasks)).
Proof.
  destruct (test_id_uniqueness_decides sample_sort sample_tasks) as [_ H].
  - repeat constructor; vm_compute; discriminate.
  - constructor.
    + reflexivity.
    + change ([2; 3; 5] ≡ₚ [5; 2; 3]). symmetry. exact (Permutation_cons_append [2; 3] 5).
    + change (Sorted Z.le [2; 3; 5]). repeat constructor; lia.
  - destruct H as [[Hnd Hrun] | [_ [Hrun | Hrun]]].
    + repeat constructor; cbn; lia.
    + split; [exact Hrun | exact Hnd].
    + vm_compute in Hrun. discriminate.
    + vm_compute in Hrun. discriminate.
Defined.

End Unique.

(** ** Flagging the top-level nodes: [force_flag_localnodes] *)

Module Flags.

Import ForceTree Kick.

Section Flagging.

(** The bit positions of [forcetree.h] and the layout of the union [u] of a
    node are not among the sources at hand; [DomainStartList],
    [DomainEndList] and [All.DomainOverDecompositionFactor] are globals of
    the decomposition. *)
Variable BITFLAG_TOPLEVEL : Z.
Variable BITFLAG_INTERNAL_TOPLEVEL : Z.
Variable BITFLAG_DEPENDS_ON_LOCAL_MASS : Z.
Variable as_moments : list Z -> d.t.
Variable E : domain.
Variables DomainStartList DomainEndList : list Z.
Variable DomainOverDecompositionFactor : Z.

(** while(no >= 0) { if(bitflags & (1 << k)) break; bitflags |= (1 << k); no = father; } *)
Fixpoint flag_walk (fuel : nat) (k no : Z) (t : tree) : outcome tree :=
  if no >=? 0 then
    match fuel with
    | O => Hang
    | S fuel' =>
        n ← node_at E t no;
        let m := u_d as_moments n in
        if has_flag (d.bitflags m) k then Ok t
        else
          let m := set_bitflags m (raise_flag (d.bitflags m) k) in
          t ← set_node E t no (with_u n (Moments m));
          flag_walk fuel' k (d.father m) t
    end
  else Ok t.

(** One turn of the loop over the top-level leaves. *)
Definition flag_toplevel (fuel : nat) (i : Z) (t : tree) : outcome tree :=
  no ← rd (DomainNodeIndex t) i;
  t ← flag_walk fuel BITFLAG_TOPLEVEL no t;
  no ← rd (DomainNodeIndex t) i;
  n ← node_at E t no;
  flag_walk fuel BITFLAG_INTERNAL_TOPLEVEL (d.father (u_d as_moments n)) t.

(** One turn of the loop over the leaves of this process. *)
Definition flag_local (fuel : nat) (i : Z) (t : tree) : outcome tree :=
  no ← rd (DomainNodeIndex t) i;
  task ← rd (DomainTask E) i;
  if negb (task =? ThisTask E) then Endrun 131231231
  else flag_walk fuel BITFLAG_DEPENDS_ON_LOCAL_MASS no t.

Definition force_flag_localnodes (fuel : nat) (t : tree) : outcome tree :=
  t ← for_range (Z.to_nat (NTopleaves E)) 0 (flag_toplevel fuel) t;
  for_range (Z.to_nat DomainOverDecompositionFactor) 0
    (fun m t =>
       first ← rd DomainStartList (ThisTask E * DomainOverDecompositionFactor + m);
       last_ ← rd DomainEndList (ThisTask E * DomainOverDecompositionFactor + m);
       for_range (Z.to_nat (last_ - first + 1)) first (flag_local fuel) t) t.

(** Node [no] has bit [k] set. *)
Definition flagged (k : Z) (t : tree) (no : Z) : Prop :=
  exists n, node_at E t no = Ok n /\ has_flag (d.bitflags (u_d as_moments n)) k = true.

(** [f] is the father of node [no]. *)
Definition father_of (t : tree) (no f : Z) : Prop :=
  exists n, node_at E t no = Ok n /\ d.father (u_d as_moments n) = f.

(** [x] is the node [no] or one of its ancestors. *)
Inductive up (t : tree) : Z -> Z -> Prop :=
| up_here no : 0 <= no -> up t no no
| up_father no f x : 0 <= no -> father_of t no f -> up t f x -> up t no x.

(** With a node its father has the bit. *)
Definition closed (k : Z) (t : tree) : Prop :=
  forall no f, flagged k t no -> father_of t no f -> 0 <= f -> flagged k t f.

(** Node [n'] is node [n] with some bits of [K] raised in its flags. *)
Record raised (K : Z -> Prop) (n n' : NODE) : Prop := {
  rs_len : len n' = len n;
  rs_center : center n' = center n;
  rs_time : Ti_current n' = Ti_current n;
  rs_moments : u_d as_moments n'
               = set_bitflags (u_d as_moments n) (d.bitflags (u_d as_moments n'));
  rs_bits : forall j, 0 <= j ->
      has_flag (d.bitflags (u_d as_moments n')) j = has_flag (d.bitflags (u_d as_moments n)) j \/
      K j /\ has_flag (d.bitflags (u_d as_moments n')) j = true
}.

(** What the routine may do to a tree: raise bits of [K] in the flags of
    nodes. *)
Record reflagged (K : Z -> Prop) (t t' : tree) : Prop := {
  rf_rest : t' = with_Nodes t (Nodes t');
  rf_nodes : forall no n, node_at E t no = Ok n ->
               exists n', node_at E t' no = Ok n' /\ raised K n n';
  rf_back : forall no n', node_at E t' no = Ok n' -> exists n, node_at E t no = Ok n
}.

Lemma raised_refl (K : Z -> Prop) (n : NODE) : raised K n n.
Proof.
  constructor; try reflexivity; [| intros j _; left; reflexivity].
  destruct (u_d as_moments n). reflexivity.
Qed.

Lemma raised_trans (K : Z -> Prop) (n1 n2 n3 : NODE) :
  raised K n1 n2 -> raised K n2 n3 -> raised K n1 n3.
Proof.
  intros [L1 C1 T1 M1 B1] [L2 C2 T2 M2 B2]. constructor; try congruence.
  - rewrite M2, M1. reflexivity.
  - intros j Hj. destruct (B2 j Hj) as [H2 | H2]; [| right; exact H2].
    rewrite H2. apply B1. exact Hj.
Qed.

Lemma raised_weaken (K K' : Z -> Prop) (n n' : NODE) :
  (forall j, K j -> K' j) -> raised K n n' -> raised K' n n'.
Proof.
  intros HK [L C T M B]. constructor; try assumption.
  intros j Hj. destruct (B j Hj) as [H | [H1 H2]]; [left; exact H | right; auto].
Qed.

Lemma reflagged_refl (K : Z -> Prop) (t : tree) : reflagged K t t.
Proof.
  constructor.
  - destruct t. reflexivity.
  - intros no n Hn. exists n. split; [exact Hn | apply raised_refl].
  - intros no n Hn. eauto.
Qed.

Lemma reflagged_trans (K : Z -> Prop) (t1 t2 t3 : tree) :
  reflagged K t1 t2 -> reflagged K t2 t3 -> reflagged K t1 t3.
Proof.
  intros [R1 N1 B1] [R2 N2 B2]. constructor.
  - rewrite R2, R1. reflexivity.
  - intros no n Hn. destruct (N1 no n Hn) as (n2 & Hn2 & H12).
    destruct (N2 no n2 Hn2) as (n3 & Hn3 & H23). exists n3. split; [exact Hn3 |].
    eapply raised_trans; eassumption.
  - intros no n3 Hn3. destruct (B2 no n3 Hn3) as (n2 & Hn2). exact (B1 no n2 Hn2).
Qed.

Lemma reflagged_weaken (K K' : Z -> Prop) (t t' : tree) :
  (forall j, K j -> K' j) -> reflagged K t t' -> reflagged K' t t'.
Proof.
  intros HK [R N B]. constructor; try assumption.
  intros no n Hn. destruct (N no n Hn) as (n' & Hn' & Hr). exists n'.
  split; [exact Hn' | eapply raised_weaken; eassumption].
Qed.

Lemma has_raise_other (b k j : Z) :
  0 <= k -> 0 <= j -> has_flag (raise_flag b k) j = has_flag b j || (j =? k).
Proof.
  intros Hk Hj. rewrite !has_flag_testbit by exact Hj. unfold raise_flag.
  rewrite Z.lor_spec, Z.shiftl_1_l, Z.pow2_bits_eqb by lia. rewrite (Z.eqb_sym k j). reflexivity.
Qed.

(** Raising bit [k] of node [no]. *)
Lemma raise_node (k no : Z) (t t1 : tree) (n : NODE) :
  0 <= k -> node_at E t no = Ok n ->
  set_node E t no
    (with_u n (Moments (set_bitflags (u_d as_moments n)
                          (raise_flag (d.bitflags (u_d as_moments n)) k)))) = Ok t1 ->
  reflagged (eq k) t t1 /\
  (forall x, flagged k t1 x <-> flagged k t x \/ x = no) /\
  (forall x f, father_of t1 x f <-> father_of t x f).
Proof.
  intros Hk Hn Hset.
  set (n1 := with_u n _) in Hset.
  assert (Hr1 : raised (eq k) n n1).
  { constructor; try reflexivity. intros j Hj. unfold n1, u_d. cbn [with_u u moments_of set_bitflags d.bitflags].
    fold (u_d as_moments n). rewrite has_raise_other by assumption.
    destruct (Z.eqb_spec j k) as [-> | Hne].
    - right. split; [reflexivity | apply orb_true_r].
    - left. apply orb_false_r. }
  destruct (node_at_set_node E t t1 no no n1 Hset) as (_ & _ & _ & _).
  assert (Hat : forall x, node_at E t1 x = if x =? no then Ok n1 else node_at E t x).
  { intros x. exact (proj1 (node_at_set_node E t t1 no x n1 Hset)). }
  split; [| split].
  - constructor.
    + unfold set_node, mbind, outcome_bind in Hset. bind_inv Hset. injection Hset as <-.
      destruct t. reflexivity.
    + intros x nx Hx. rewrite Hat. destruct (Z.eqb_spec x no) as [-> | Hne].
      * rewrite Hn in Hx. injection Hx as <-. exists n1. split; [reflexivity | exact Hr1].
      * exists nx. split; [exact Hx | apply raised_refl].
    + intros x nx. rewrite Hat. destruct (Z.eqb_spec x no) as [-> | Hne]; eauto.
  - intros x. unfold flagged. rewrite Hat. destruct (Z.eqb_spec x no) as [-> | Hne].
    + split; [intros _; right; reflexivity |]. intros _. exists n1. split; [reflexivity |].
      unfold n1, u_d. cbn [with_u u moments_of set_bitflags d.bitflags].
      apply has_raise_flag. exact Hk.
    + split; [intros H; left; exact H | intros [H | H]; [exact H | contradiction]].
  - intros x f. unfold father_of. rewrite Hat. destruct (Z.eqb_spec x no) as [-> | Hne];
      [| reflexivity].
    split.
    + intros (n' & Hn' & Hf). injection Hn' as <-. exists n. split; [exact Hn | exact Hf].
    + intros (n' & Hn' & Hf). rewrite Hn in Hn'. injection Hn' as <-.
      exists n1. split; [reflexivity | exact Hf].
Qed.

Lemma up_same (t t' : tree) (a x : Z) :
  (forall y f, father_of t' y f <-> father_of t y f) -> up t a x -> up t' a x.
Proof.
  intros Hf Hu. induction Hu as [no H0 | no f x H0 Hfa _ IH].
  - apply up_here. exact H0.
  - eapply up_father; [exact H0 | apply Hf; exact Hfa | exact IH].
Qed.

Lemma up_nonneg (t : tree) (a x : Z) : up t a x -> 0 <= a.
Proof. destruct 1; assumption. Qed.

Lemma father_unique (t : tree) (no f f' : Z) : father_of t no f -> father_of t no f' -> f = f'.
Proof. intros (n & Hn & <-) (n' & Hn' & <-). congruence. Qed.

(** The bit has gone up the tree as far as the fathers are concerned,
    except towards [no]. *)
Definition closed_but (k : Z) (t : tree) (no : Z) : Prop :=
  forall x f, flagged k t x -> father_of t x f -> 0 <= f -> flagged k t f \/ f = no.

Lemma up_flagged (k : Z) (t : tree) (no x : Z) :
  closed k t -> flagged k t no -> up t no x -> flagged k t x.
Proof.
  intros Hc Hfl Hu. induction Hu as [no H0 | no f x H0 Hfa Hu IH]; [exact Hfl |].
  apply IH. apply (Hc no f Hfl Hfa). exact (up_nonneg _ _ _ Hu).
Qed.

Lemma flag_walk_spec (k : Z) (fuel : nat) :
  0 <= k ->
  forall no t t', flag_walk fuel k no t = Ok t' -> closed_but k t no ->
    closed k t' /\ (forall x, flagged k t' x <-> flagged k t x \/ up t no x) /\
    reflagged (eq k) t t'.
Proof.
  intros Hk.
  assert (Hstop : forall no t, no < 0 -> closed_but k t no ->
            closed k t /\ (forall x, flagged k t x <-> flagged k t x \/ up t no x) /\
            reflagged (eq k) t t).
  { intros no t Hno Hinv. split; [| split; [| apply reflagged_refl]].
    - intros x f Hx Hf H0. destruct (Hinv x f Hx Hf H0) as [H | H]; [exact H | lia].
    - intros x. split; [tauto |]. intros [H | H]; [exact H |]. apply up_nonneg in H. lia. }
  induction fuel as [| fuel IH]; intros no t t' Hrun Hinv.
  - cbn [flag_walk] in Hrun. destruct (Z.geb_spec no 0); [discriminate |].
    injection Hrun as <-. apply Hstop; [lia | exact Hinv].
  - cbn [flag_walk] in Hrun. destruct (Z.geb_spec no 0) as [H0 | H0].
    2:{ injection Hrun as <-. apply Hstop; [lia | exact Hinv]. }
    unfold mbind, outcome_bind in Hrun. bind_inv Hrun. rename a into n, E0 into Hn.
    destruct (has_flag (d.bitflags (u_d as_moments n)) k) eqn:Hfl.
    + injection Hrun as <-.
      assert (Hno : flagged k t no) by (exists n; split; assumption).
      assert (Hc : closed k t).
      { intros x f Hx Hf Hf0. destruct (Hinv x f Hx Hf Hf0) as [H | ->]; assumption. }
      split; [exact Hc |]. split; [| apply reflagged_refl].
      intros x. split; [tauto |]. intros [H | H]; [exact H |].
      eapply up_flagged; eassumption.
    + bind_inv Hrun. rename a into t1, E0 into Hset.
      destruct (raise_node k no t t1 n Hk Hn Hset) as (Hrf & Hflag & Hfather).
      cbn [set_bitflags d.father] in Hrun.
      set (f0 := d.father (u_d as_moments n)) in *.
      assert (Hf0 : father_of t no f0) by (exists n; split; [exact Hn | reflexivity]).
      destruct (IH f0 t1 t' Hrun) as (Hc & Hiff & Hrf').
      { intros x f Hx Hf Hfnn. apply Hfather in Hf. apply Hflag in Hx as [Hx | ->].
        - destruct (Hinv x f Hx Hf Hfnn) as [H | ->]; left; apply Hflag; [left; exact H | right; reflexivity].
        - right. eapply father_unique; eassumption. }
      split; [exact Hc |]. split; [| eapply reflagged_trans; eassumption].
      intros x. rewrite Hiff, Hflag. split.
      * intros [[H | ->] | H].
        -- left. exact H.
        -- right. apply up_here. exact H0.
        -- right. eapply up_father; [exact H0 | exact Hf0 |].
           apply (up_same t1 t); [intros; symmetry; apply Hfather | exact H].
      * intros [H | H]; [left; left; exact H |].
        inversion H as [? _ | ? f ? _ Hf Hu]; subst.
        -- left. right. reflexivity.
        -- right. assert (f = f0) by (eapply father_unique; eassumption). subst f.
           apply (up_same t t1); [exact Hfather | exact Hu].
Qed.

Lemma reflagged_father (K : Z -> Prop) (t t' : tree) :
  reflagged K t t' -> forall x f, father_of t' x f <-> father_of t x f.
Proof.
  intros [_ N B] x f. unfold father_of. split.
  - intros (n' & Hn' & Hf). destruct (B x n' Hn') as (n & Hn).
    destruct (N x n Hn) as (n2 & Hn2 & Hr). rewrite Hn' in Hn2. injection Hn2 as <-.
    exists n. split; [exact Hn |]. rewrite (rs_moments _ _ _ Hr) in Hf. exact Hf.
  - intros (n & Hn & Hf). destruct (N x n Hn) as (n' & Hn' & Hr).
    exists n'. split; [exact Hn' |]. rewrite (rs_moments _ _ _ Hr). exact Hf.
Qed.

Lemma reflagged_up (K : Z -> Prop) (t t' : tree) (a x : Z) :
  reflagged K t t' -> (up t' a x <-> up t a x).
Proof.
  intros Hr. split; apply up_same; intros y f;
    [symmetry |]; apply (reflagged_father K t t' Hr).
Qed.

Lemma reflagged_other (K : Z -> Prop) (t t' : tree) (k x : Z) :
  reflagged K t t' -> 0 <= k -> ~ K k -> (flagged k t' x <-> flagged k t x).
Proof.
  intros [_ N B] Hk HK. unfold flagged. split.
  - intros (n' & Hn' & Hf). destruct (B x n' Hn') as (n & Hn).
    destruct (N x n Hn) as (n2 & Hn2 & Hr). rewrite Hn' in Hn2. injection Hn2 as <-.
    exists n. split; [exact Hn |].
    destruct (rs_bits _ _ _ Hr k Hk) as [H | [H _]]; [congruence | contradiction].
  - intros (n & Hn & Hf). destruct (N x n Hn) as (n' & Hn' & Hr).
    exists n'. split; [exact Hn' |].
    destruct (rs_bits _ _ _ Hr k Hk) as [H | [H _]]; [congruence | contradiction].
Qed.

Lemma reflagged_closed (K : Z -> Prop) (t t' : tree) (k : Z) :
  reflagged K t t' -> 0 <= k -> ~ K k -> closed k t -> closed k t'.
Proof.
  intros Hr Hk HK Hc x f Hx Hf H0.
  apply (reflagged_other K t t' k _ Hr Hk HK). apply (Hc x f); [| | exact H0].
  - apply (reflagged_other K t t' k _ Hr Hk HK). exact Hx.
  - apply (reflagged_father K t t' Hr). exact Hf.
Qed.

Lemma reflagged_index (K : Z -> Prop) (t t' : tree) :
  reflagged K t t' -> DomainNodeIndex t' = DomainNodeIndex t.
Proof. intros [R _ _]. rewrite R. reflexivity. Qed.

Lemma closed_closed_but (k : Z) (t : tree) (no : Z) : closed k t -> closed_but k t no.
Proof. intros Hc x f Hx Hf H0. left. exact (Hc x f Hx Hf H0). Qed.

Hypothesis top_bit : 0 <= BITFLAG_TOPLEVEL.
Hypothesis internal_bit : 0 <= BITFLAG_INTERNAL_TOPLEVEL.
Hypothesis local_bit : 0 <= BITFLAG_DEPENDS_ON_LOCAL_MASS.
Hypothesis top_internal : BITFLAG_TOPLEVEL <> BITFLAG_INTERNAL_TOPLEVEL.
Hypothesis top_local : BITFLAG_TOPLEVEL <> BITFLAG_DEPENDS_ON_LOCAL_MASS.
Hypothesis internal_local : BITFLAG_INTERNAL_TOPLEVEL <> BITFLAG_DEPENDS_ON_LOCAL_MASS.

(** The two bits of the first loop. *)
Definition top_bits (j : Z) : Prop := j = BITFLAG_TOPLEVEL \/ j = BITFLAG_INTERNAL_TOPLEVEL.

(** The nodes the first [i] turns of the first loop reach. *)
Definition top_reached (t : tree) (i x : Z) : Prop :=
  exists i' no, 0 <= i' < i /\ rd (DomainNodeIndex t) i' = Ok no /\ up t no x.

Definition internal_reached (t : tree) (i x : Z) : Prop :=
  exists i' no f, 0 <= i' < i /\ rd (DomainNodeIndex t) i' = Ok no /\
                  father_of t no f /\ up t f x.

(** The tree after [i] turns of the first loop. *)
Record toplevel_done (t : tree) (i : Z) (ti : tree) : Prop := {
  td_rf : reflagged top_bits t ti;
  td_ctop : closed BITFLAG_TOPLEVEL ti;
  td_cint : closed BITFLAG_INTERNAL_TOPLEVEL ti;
  td_top : forall x, flagged BITFLAG_TOPLEVEL ti x <->
                     flagged BITFLAG_TOPLEVEL t x \/ top_reached t i x;
  td_int : forall x, flagged BITFLAG_INTERNAL_TOPLEVEL ti x <->
                     flagged BITFLAG_INTERNAL_TOPLEVEL t x \/ internal_reached t i x
}.

Lemma flag_toplevel_spec (fuel : nat) (t ti ti' : tree) (i : Z) :
  0 <= i -> toplevel_done t i ti -> flag_toplevel fuel i ti = Ok ti' ->
  toplevel_done t (i + 1) ti'.
Proof.
  intros Hi [Hrf Hct Hci Htop Hint] Hrun.
  unfold flag_toplevel, mbind, outcome_bind in Hrun.
  bind_inv Hrun. rename a into no, E0 into Hno.
  bind_inv Hrun. rename a into ta, E0 into Hwalk1.
  bind_inv Hrun. rename a into no', E0 into Hno'.
  bind_inv Hrun. rename a into na, E0 into Hna.
  destruct (flag_walk_spec BITFLAG_TOPLEVEL fuel top_bit no ti ta Hwalk1
              (closed_closed_but _ _ _ Hct)) as (Hct_a & Htop_a & Hrf_a).
  rewrite (reflagged_index _ _ _ Hrf_a) in Hno'. rewrite Hno in Hno'. injection Hno' as <-.
  rewrite (reflagged_index _ _ _ Hrf) in Hno.
  assert (Hne1 : ~ BITFLAG_TOPLEVEL = BITFLAG_INTERNAL_TOPLEVEL) by exact top_internal.
  assert (Hne2 : ~ BITFLAG_INTERNAL_TOPLEVEL = BITFLAG_TOPLEVEL) by congruence.
  assert (Hci_a : closed BITFLAG_INTERNAL_TOPLEVEL ta).
  { apply (reflagged_closed (eq BITFLAG_TOPLEVEL) ti ta); assumption. }
  set (f := d.father (u_d as_moments na)) in *.
  destruct (flag_walk_spec BITFLAG_INTERNAL_TOPLEVEL fuel internal_bit f ta ti' Hrun
              (closed_closed_but _ _ _ Hci_a)) as (Hci_b & Hint_b & Hrf_b).
  assert (Hrf_ia : reflagged top_bits ti ta).
  { eapply reflagged_weaken; [| exact Hrf_a]. intros j <-. left. reflexivity. }
  assert (Hrf_ab : reflagged top_bits ta ti').
  { eapply reflagged_weaken; [| exact Hrf_b]. intros j <-. right. reflexivity. }
  assert (Hrf_ta : reflagged top_bits t ta) by (eapply reflagged_trans; eassumption).
  assert (Hf : father_of t no f).
  { apply (reflagged_father _ _ _ Hrf_ta). exists na. split; [exact Hna | reflexivity]. }
  constructor.
  - eapply reflagged_trans; eassumption.
  - apply (reflagged_closed (eq BITFLAG_INTERNAL_TOPLEVEL) ta ti'); assumption.
  - exact Hci_b.
  - intros x. rewrite (reflagged_other _ _ _ BITFLAG_TOPLEVEL x Hrf_b top_bit Hne2).
    rewrite Htop_a, Htop, (reflagged_up _ _ _ no x Hrf). split.
    + intros [[H | (i' & n' & Hi' & Hn' & Hu)] | H].
      * left. exact H.
      * right. exists i', n'. split; [lia | auto].
      * right. exists i, no. split; [lia | auto].
    + intros [H | (i' & n' & Hi' & Hn' & Hu)]; [left; left; exact H |].
      destruct (Z.eq_dec i' i) as [-> | Hne].
      * right. rewrite Hno in Hn'. injection Hn' as <-. exact Hu.
      * left. right. exists i', n'. split; [lia | auto].
  - intros x. rewrite Hint_b.
    rewrite (reflagged_other _ _ _ BITFLAG_INTERNAL_TOPLEVEL x Hrf_a internal_bit Hne1).
    rewrite Hint, (reflagged_up _ _ _ f x Hrf_ta). split.
    + intros [[H | (i' & n' & f' & Hi' & Hn' & Hf' & Hu)] | H].
      * left. exact H.
      * right. exists i', n', f'. split; [lia | auto].
      * right. exists i, no, f. split; [lia | auto].
    + intros [H | (i' & n' & f' & Hi' & Hn' & Hf' & Hu)]; [left; left; exact H |].
      destruct (Z.eq_dec i' i) as [-> | Hne].
      * right. rewrite Hno in Hn'. injection Hn' as <-.
        assert (f' = f) by (eapply father_unique; eassumption). subst f'. exact Hu.
      * left. right. exists i', n', f'. split; [lia | auto].
Qed.

(** The leaves of this process: leaf [i] is in its segment [m]. *)
Definition local_leaf (m i : Z) : Prop :=
  exists first last_,
    rd DomainStartList (ThisTask E * DomainOverDecompositionFactor + m) = Ok first /\
    rd DomainEndList (ThisTask E * DomainOverDecompositionFactor + m) = Ok last_ /\
    first <= i <= last_.

(** The tree of the second loop when the leaves of [S] are done; [t1] is
    the tree the loop started with. *)
Record local_done (t1 : tree) (S : Z -> Prop) (ti : tree) : Prop := {
  ld_rf : reflagged (eq BITFLAG_DEPENDS_ON_LOCAL_MASS) t1 ti;
  ld_closed : closed BITFLAG_DEPENDS_ON_LOCAL_MASS ti;
  ld_flagged : forall x, flagged BITFLAG_DEPENDS_ON_LOCAL_MASS ti x <->
      flagged BITFLAG_DEPENDS_ON_LOCAL_MASS t1 x \/
      exists i no, S i /\ rd (DomainNodeIndex t1) i = Ok no /\ up t1 no x;
  ld_task : forall i, S i -> rd (DomainTask E) i = Ok (ThisTask E)
}.

Lemma local_done_ext (t1 : tree) (S S' : Z -> Prop) (ti : tree) :
  (forall i, S i <-> S' i) -> local_done t1 S ti -> local_done t1 S' ti.
Proof.
  intros HS [Hrf Hc Hfl Htask]. constructor; try assumption.
  - intros x. rewrite Hfl. split; (intros [H | (i & no & Hi & H)]; [left; exact H |]);
      right; exists i, no; (split; [apply HS; exact Hi | exact H]).
  - intros i Hi. apply Htask. apply HS. exact Hi.
Qed.

Lemma flag_local_spec (fuel : nat) (t1 : tree) (S : Z -> Prop) (ti ti' : tree) (i : Z) :
  local_done t1 S ti -> flag_local fuel i ti = Ok ti' ->
  local_done t1 (fun j => S j \/ j = i) ti'.
Proof.
  intros [Hrf Hc Hfl Htask] Hrun. unfold flag_local, mbind, outcome_bind in Hrun.
  bind_inv Hrun. rename a into no, E0 into Hno.
  bind_inv Hrun. rename a into task, E0 into Htk.
  destruct (Z.eqb_spec task (ThisTask E)) as [-> | Hne]; [| discriminate]. cbn [negb] in Hrun.
  destruct (flag_walk_spec BITFLAG_DEPENDS_ON_LOCAL_MASS fuel local_bit no ti ti' Hrun
              (closed_closed_but _ _ _ Hc)) as (Hc' & Hfl' & Hrf').
  rewrite (reflagged_index _ _ _ Hrf) in Hno.
  constructor.
  - eapply reflagged_trans; eassumption.
  - exact Hc'.
  - intros x. rewrite Hfl', Hfl, (reflagged_up _ _ _ no x Hrf). split.
    + intros [[H | (i' & n' & Hi' & H)] | H].
      * left. exact H.
      * right. exists i', n'. split; [left; exact Hi' | exact H].
      * right. exists i, no. split; [right; reflexivity | auto].
    + intros [H | (i' & n' & [Hi' | ->] & Hn' & Hu)]; [left; left; exact H | |].
      * left. right. exists i', n'. auto.
      * right. rewrite Hno in Hn'. injection Hn' as <-. exact Hu.
  - intros j [Hj | ->]; [apply Htask; exact Hj | exact Htk].
Qed.

Lemma only_flag_walk (S : Z -> Prop) (fuel : nat) (k : Z) :
  forall no t, only S (flag_walk fuel k no t).
Proof.
  induction fuel as [| fuel IH]; intros no t; cbn [flag_walk];
    destruct (no >=? 0); try apply only_Ok; try apply only_Hang.
  unfold node_at, set_node. only_run. apply IH.
Qed.

Lemma only_flag_localnodes (fuel : nat) (t : tree) :
  only (eq 131231231) (force_flag_localnodes fuel t).
Proof.
  unfold force_flag_localnodes. apply only_bind.
  - apply only_for_range. intros k s. unfold flag_toplevel, node_at. only_run;
      apply only_flag_walk.
  - intros t1 _. apply only_for_range. intros m s. only_run.
    apply only_for_range. intros i s'. unfold flag_local. only_run;
      [apply only_Endrun; reflexivity | apply only_flag_walk].
Qed.

(** The three bits of the routine. *)
Definition flag_bits (j : Z) : Prop :=
  j = BITFLAG_TOPLEVEL \/ j = BITFLAG_INTERNAL_TOPLEVEL \/ j = BITFLAG_DEPENDS_ON_LOCAL_MASS.

Definition local_reached (t : tree) (x : Z) : Prop :=
  exists m i no, 0 <= m < DomainOverDecompositionFactor /\ local_leaf m i /\
                 rd (DomainNodeIndex t) i = Ok no /\ up t no x.

Lemma flag_localnodes_spec (fuel : nat) (t t' : tree) :
  closed BITFLAG_TOPLEVEL t -> closed BITFLAG_INTERNAL_TOPLEVEL t ->
  closed BITFLAG_DEPENDS_ON_LOCAL_MASS t ->
  force_flag_localnodes fuel t = Ok t' ->
  reflagged flag_bits t t' /\
  (forall x, flagged BITFLAG_TOPLEVEL t' x <->
             flagged BITFLAG_TOPLEVEL t x \/ top_reached t (NTopleaves E) x) /\
  (forall x, flagged BITFLAG_INTERNAL_TOPLEVEL t' x <->
             flagged BITFLAG_INTERNAL_TOPLEVEL t x \/ internal_reached t (NTopleaves E) x) /\
  (forall x, flagged BITFLAG_DEPENDS_ON_LOCAL_MASS t' x <->
             flagged BITFLAG_DEPENDS_ON_LOCAL_MASS t x \/ local_reached t x) /\
  (forall m i, 0 <= m < DomainOverDecompositionFactor -> local_leaf m i ->
               rd (DomainTask E) i = Ok (ThisTask E)) /\
  closed BITFLAG_TOPLEVEL t' /\ closed BITFLAG_INTERNAL_TOPLEVEL t' /\
  closed BITFLAG_DEPENDS_ON_LOCAL_MASS t'.
Proof.
  intros Hct Hci Hcl Hrun. unfold force_flag_localnodes, mbind, outcome_bind in Hrun.
  bind_inv Hrun. rename a into t1, E0 into Hloop1.
  (* the first loop *)
  assert (H1 : toplevel_done t (0 + Z.of_nat (Z.to_nat (NTopleaves E))) t1).
  { apply (for_range_Ok (toplevel_done t) _ _ _ _ _ Hloop1).
    - constructor; try assumption; [apply reflagged_refl | |];
        (intros x; split; [tauto |]; intros [H | H]; [exact H |]).
      + destruct H as (i' & _ & Hi' & _). lia.
      + destruct H as (i' & _ & _ & Hi' & _). lia.
    - intros k s0 s1 Hk Hd Hb. eapply flag_toplevel_spec; [lia | exact Hd | exact Hb]. }
  destruct H1 as [Hrf1 Hct1 Hci1 Htop Hint].
  (* the second loop *)
  assert (Hne1 : ~ top_bits BITFLAG_DEPENDS_ON_LOCAL_MASS).
  { intros [H | H]; congruence. }
  assert (Hcl1 : closed BITFLAG_DEPENDS_ON_LOCAL_MASS t1).
  { apply (reflagged_closed top_bits t t1); assumption. }
  assert (H2 : local_done t1
                 (fun j => exists m, 0 <= m < 0 + Z.of_nat (Z.to_nat DomainOverDecompositionFactor)
                                     /\ local_leaf m j) t').
  { apply (for_range_Ok
             (fun m ti => local_done t1 (fun j => exists m', 0 <= m' < m /\ local_leaf m' j) ti)
             _ _ _ _ _ Hrun).
    - constructor; [apply reflagged_refl | exact Hcl1 | |].
      + intros x. split; [tauto |]. intros [H | (i & no & (m' & Hm' & _) & _)]; [exact H | lia].
      + intros i (m' & Hm' & _). lia.
    - intros m s0 s1 Hm Hd Hb. bind_inv Hb. rename a into first, E0 into Hfirst.
      bind_inv Hb. rename a into last_, E0 into Hlast.
      pose proof (for_range_Ok
                    (fun i ti => local_done t1
                       (fun j => (exists m', 0 <= m' < m /\ local_leaf m' j) \/ first <= j < i) ti)
                    _ _ _ _ _ Hb) as Hin.
      eapply local_done_ext; [| apply Hin].
      + intros j. split.
        * intros [(m' & Hm' & Hl) | Hj].
          -- exists m'. split; [lia | exact Hl].
          -- exists m. split; [lia |]. exists first, last_. split; [exact Hfirst |].
             split; [exact Hlast | lia].
        * intros (m' & Hm' & Hl). destruct (Z.eq_dec m' m) as [-> | Hne].
          -- right. destruct Hl as (f' & l' & Hf' & Hl' & Hj).
             rewrite Hfirst in Hf'. rewrite Hlast in Hl'.
             injection Hf' as <-. injection Hl' as <-. lia.
          -- left. exists m'. split; [lia | exact Hl].
      + eapply local_done_ext; [| exact Hd]. intros j. split; [tauto |].
        intros [H | H]; [exact H | lia].
      + intros i s2 s3 Hi Hd' Hb'. eapply local_done_ext; [| eapply flag_local_spec; eassumption].
        intros j. cbn beta. split.
        * intros [[H | H] | ->]; [left; exact H | right; lia | right; lia].
        * intros [H | H]; [left; left; exact H |].
          destruct (Z.eq_dec j i) as [-> | Hne]; [right; reflexivity | left; right; lia]. }
  destruct H2 as [Hrf2 Hcl2 Hloc Htask].
  assert (Hne2 : ~ BITFLAG_DEPENDS_ON_LOCAL_MASS = BITFLAG_TOPLEVEL) by congruence.
  assert (Hne3 : ~ BITFLAG_DEPENDS_ON_LOCAL_MASS = BITFLAG_INTERNAL_TOPLEVEL) by congruence.
  split; [| split; [| split; [| split; [| split; [| split; [| split]]]]]].
  6:{ apply (reflagged_closed _ t1 t' _ Hrf2 top_bit Hne2). exact Hct1. }
  6:{ apply (reflagged_closed _ t1 t' _ Hrf2 internal_bit Hne3). exact Hci1. }
  6:{ exact Hcl2. }
  - eapply reflagged_trans.
    + eapply reflagged_weaken; [| exact Hrf1]. intros j [H | H]; [left | right; left]; exact H.
    + eapply reflagged_weaken; [| exact Hrf2]. intros j <-. right. right. reflexivity.
  - intros x. rewrite (reflagged_other _ _ _ _ x Hrf2 top_bit Hne2).
    replace (0 + Z.of_nat (Z.to_nat (NTopleaves E))) with (Z.max 0 (NTopleaves E)) in Htop by lia.
    rewrite Htop. split; (intros [H | (i & no & Hi & H)]; [left; exact H |]);
      right; exists i, no; (split; [lia | exact H]).
  - intros x. rewrite (reflagged_other _ _ _ _ x Hrf2 internal_bit Hne3).
    rewrite Hint. split; (intros [H | (i & no & f & Hi & H)]; [left; exact H |]);
      right; exists i, no, f; (split; [lia | exact H]).
  - intros x. rewrite Hloc, (reflagged_other _ _ _ _ x Hrf1 local_bit Hne1).
    rewrite (reflagged_index _ _ _ Hrf1). split.
    + intros [H | (i & no & (m & Hm & Hl) & Hno & Hu)]; [left; exact H |].
      right. exists m, i, no. split; [lia |]. split; [exact Hl |]. split; [exact Hno |].
      apply (reflagged_up _ _ _ no x Hrf1). exact Hu.
    + intros [H | (m & i & no & Hm & Hl & Hno & Hu)]; [left; exact H |].
      right. exists i, no. split; [exists m; split; [lia | exact Hl] |]. split; [exact Hno |].
      apply (reflagged_up _ _ _ no x Hrf1). exact Hu.
  - intros m i Hm Hl. apply Htask. exists m. split; [lia | exact Hl].
Qed.

(** The fathers come before their sons and are nodes of the tree. *)
Definition rooted (t : tree) : Prop :=
  forall x f, father_of t x f -> f < x /\ (0 <= f -> exists f', father_of t f f').

Lemma rooted_same (t t' : tree) :
  (forall x f, father_of t' x f <-> father_of t x f) -> rooted t -> rooted t'.
Proof.
  intros Hf Hr x f Hx. apply Hf in Hx. destruct (Hr x f Hx) as [H1 H2].
  split; [exact H1 |]. intros H0. destruct (H2 H0) as [f' Hf']. exists f'. apply Hf. exact Hf'.
Qed.

Lemma flag_walk_returns (k : Z) (fuel : nat) :
  0 <= k ->
  forall no t, rooted t -> (0 <= no -> exists f, father_of t no f) ->
    (Z.to_nat (no + 1) <= fuel)%nat -> exists t', flag_walk fuel k no t = Ok t'.
Proof.
  clear top_bit internal_bit local_bit top_internal top_local internal_local.
  intros Hk. induction fuel as [| fuel IH]; intros no t Hroot Hno Hfuel.
  - cbn [flag_walk]. destruct (Z.geb_spec no 0); [lia | eauto].
  - cbn [flag_walk]. destruct (Z.geb_spec no 0) as [H0 | H0]; [| eauto].
    destruct (Hno H0) as (f & n & Hn & Hf). unfold mbind, outcome_bind. rewrite Hn. cbn [obind].
    destruct (has_flag (d.bitflags (u_d as_moments n)) k); [eauto |].
    assert (Hset : exists t1, set_node E t no
              (with_u n (Moments (set_bitflags (u_d as_moments n)
                                    (raise_flag (d.bitflags (u_d as_moments n)) k)))) = Ok t1).
    { unfold set_node, mbind, outcome_bind. unfold node_at in Hn.
      rewrite (wr_in_range (Nodes t) (no - MaxPart E)) by (eapply rd_range; exact Hn).
      eauto. }
    destruct Hset as [t1 Hset]. rewrite Hset. cbn [obind set_bitflags d.father].
    destruct (raise_node k no t t1 n Hk Hn Hset) as (_ & _ & Hfather).
    rewrite Hf. destruct (Hroot no f ltac:(exists n; split; assumption)) as [Hlt Hup].
    apply IH.
    + apply (rooted_same t t1); assumption.
    + intros Hf0. destruct (Hup Hf0) as [f' Hf']. exists f'. apply Hfather. exact Hf'.
    + lia.
Qed.

(** A loop whose turns return or end the run with [c]. *)
Lemma for_range_ends {St : Type} (I : Z -> St -> Prop) (c : Z) (body : Z -> St -> outcome St)
  (n : nat) :
  forall i s, I i s ->
    (forall k s0, i <= k < i + Z.of_nat n -> I k s0 ->
       (exists s1, body k s0 = Ok s1 /\ I (k + 1) s1) \/ body k s0 = Endrun c) ->
    (exists s', for_range n i body s = Ok s' /\ I (i + Z.of_nat n) s') \/
    for_range n i body s = Endrun c.
Proof.
  clear top_bit internal_bit local_bit top_internal top_local internal_local.
  induction n as [| n IH]; intros i s Hi Hstep.
  - left. exists s. split; [reflexivity |]. replace (i + Z.of_nat 0) with i by lia. exact Hi.
  - cbn [for_range]. unfold mbind, outcome_bind.
    destruct (Hstep i s ltac:(lia) Hi) as [(s1 & -> & H1) | ->]; [| right; reflexivity].
    cbn [obind]. destruct (IH (i + 1) s1 H1) as [(s' & Hrun & H') | Hrun].
    + intros k s0 Hk. apply Hstep. lia.
    + left. exists s'. split; [exact Hrun |].
      replace (i + Z.of_nat (S n)) with (i + 1 + Z.of_nat n) by lia. exact H'.
    + right. exact Hrun.
Qed.

(** The lists of the decomposition name nodes of the tree. *)
Record listed_nodes (t : tree) : Prop := {
  ln_index : forall i, 0 <= i < NTopleaves E ->
               exists no f, rd (DomainNodeIndex t) i = Ok no /\ father_of t no f;
  ln_segments : forall m, 0 <= m < DomainOverDecompositionFactor ->
      exists first last_,
        rd DomainStartList (ThisTask E * DomainOverDecompositionFactor + m) = Ok first /\
        rd DomainEndList (ThisTask E * DomainOverDecompositionFactor + m) = Ok last_ /\
        forall i, first <= i <= last_ ->
                  0 <= i < NTopleaves E /\ exists task, rd (DomainTask E) i = Ok task
}.

Lemma flag_localnodes_returns (fuel : nat) (t : tree) :
  rooted t -> listed_nodes t ->
  (forall x f, father_of t x f -> (Z.to_nat (x + 1) <= fuel)%nat) ->
  (exists t', force_flag_localnodes fuel t = Ok t') \/
  force_flag_localnodes fuel t = Endrun 131231231.
Proof.
  clear top_internal top_local internal_local.
  intros Hroot [Hidx Hseg] Hfuel.
  assert (Hwalk : forall k no t1, 0 <= k ->
            (forall x f, father_of t1 x f <-> father_of t x f) ->
            (0 <= no -> exists f, father_of t no f) ->
            exists t2, flag_walk fuel k no t1 = Ok t2 /\
                       (forall x f, father_of t2 x f <-> father_of t1 x f) /\
                       DomainNodeIndex t2 = DomainNodeIndex t1).
  { intros k no t1 Hk Hsame Hno.
    destruct (flag_walk_returns k fuel Hk no t1) as [t2 Hrun].
    - apply (rooted_same t t1); assumption.
    - intros H0. destruct (Hno H0) as [f Hf]. exists f. apply Hsame. exact Hf.
    - destruct (Z.le_gt_cases 0 no) as [H0 | H0]; [| lia].
      destruct (Hno H0) as [f Hf]. exact (Hfuel no f Hf).
    - exists t2. split; [exact Hrun |].
      revert Hrun. clear - Hk. revert no t1 t2.
      induction fuel as [| fl IH]; intros no t1 t2 Hrun; cbn [flag_walk] in Hrun;
        destruct (no >=? 0); try discriminate;
        try (injection Hrun as <-; split; [tauto | reflexivity]).
      unfold mbind, outcome_bind in Hrun. bind_inv Hrun.
      destruct (has_flag (d.bitflags (u_d as_moments a)) k);
        [injection Hrun as <-; split; [tauto | reflexivity] |].
      bind_inv Hrun. destruct (raise_node k no t1 a0 a Hk E0 E1) as (Hrf & _ & Hfa).
      destruct (IH _ _ _ Hrun) as [H1 H2]. split.
      + intros x f. rewrite H1. apply Hfa.
      + rewrite H2. exact (reflagged_index _ _ _ Hrf). }
  unfold force_flag_localnodes, mbind, outcome_bind.
  destruct (for_range_inv
              (fun _ ti => (forall x f, father_of ti x f <-> father_of t x f) /\
                           DomainNodeIndex ti = DomainNodeIndex t)
              (flag_toplevel fuel) (Z.to_nat (NTopleaves E)) 0 t)
    as (t1 & Hrun1 & Hsame1 & Hdni1).
  - split; [tauto | reflexivity].
  - intros i ti Hi [Hsame Hdni]. unfold flag_toplevel, mbind, outcome_bind.
    destruct (Hidx i ltac:(lia)) as (no & f & Hno & Hf). rewrite Hdni, Hno. cbn [obind].
    destruct (Hwalk BITFLAG_TOPLEVEL no ti top_bit Hsame ltac:(eauto))
      as (ta & Hra & Hsa & Hda).
    rewrite Hra. cbn [obind]. rewrite Hda, Hdni, Hno. cbn [obind].
    assert (Hfa : father_of ta no f) by (apply Hsa, Hsame; exact Hf).
    destruct Hfa as (na & Hna & Hfna). rewrite Hna. cbn [obind]. rewrite Hfna.
    destruct (Hwalk BITFLAG_INTERNAL_TOPLEVEL f ta internal_bit
                ltac:(intros x g; rewrite Hsa; apply Hsame))
      as (tb & Hrb & Hsb & Hdb).
    { intros H0. exact (proj2 (Hroot no f Hf) H0). }
    exists tb. split; [exact Hrb |]. split.
    + intros x g. rewrite Hsb, Hsa. apply Hsame.
    + congruence.
  - rewrite Hrun1. cbn [obind].
    destruct (for_range_ends
                (fun _ ti => (forall x f, father_of ti x f <-> father_of t x f) /\
                             DomainNodeIndex ti = DomainNodeIndex t) 131231231
                (fun m t =>
                   obind (rd DomainStartList (ThisTask E * DomainOverDecompositionFactor + m))
                     (fun first =>
                        obind (rd DomainEndList
                                 (ThisTask E * DomainOverDecompositionFactor + m))
                          (fun last_ =>
                             for_range (Z.to_nat (last_ - first + 1)) first
                               (flag_local fuel) t)))
                (Z.to_nat DomainOverDecompositionFactor) 0 t1)
      as [(t' & Hrun & _) | Hrun].
    + split; assumption.
    + intros m ti Hm Hinv. destruct (Hseg m ltac:(lia)) as (first & last_ & -> & -> & Hin).
      cbn [obind].
      destruct (for_range_ends
                  (fun _ ti => (forall x f, father_of ti x f <-> father_of t x f) /\
                               DomainNodeIndex ti = DomainNodeIndex t) 131231231
                  (flag_local fuel) (Z.to_nat (last_ - first + 1)) first ti Hinv)
        as [(t' & Hrun & Hinv') | Hrun].
      * intros i tj Hi [Hsame Hdni]. unfold flag_local, mbind, outcome_bind.
        destruct (Hin i ltac:(lia)) as (Hir & task & Htask).
        destruct (Hidx i Hir) as (no & f & Hno & Hf). rewrite Hdni, Hno. cbn [obind].
        rewrite Htask. cbn [obind].
        destruct (Z.eqb_spec task (ThisTask E)); [| right; reflexivity]. cbn [negb]. left.
        destruct (Hwalk BITFLAG_DEPENDS_ON_LOCAL_MASS no tj local_bit Hsame ltac:(eauto))
          as (tk & Hrk & Hsk & Hdk).
        exists tk. split; [exact Hrk |]. split.
        -- intros x g. rewrite Hsk. apply Hsame.
        -- congruence.
      * left. exists t'. split; [exact Hrun | exact Hinv'].
      * right. exact Hrun.
    + left. exists t'. exact Hrun.
    + right. exact Hrun.
Qed.

End Flagging.

(** X17: what [force_flag_localnodes] flags.  The three bits being
    different, on a tree where each of them, once a node has it, is set in
    the father as well, the routine ends the run with code 131231231 only;
    and when it returns, it has done nothing but raise these bits: the
    top-level bit in the nodes of the top-level leaves and all their
    ancestors, the internal bit in all their ancestors, and the local bit in
    the nodes of the leaves of this process and their ancestors, all of
    which [DomainTask] gives to this process.  The fathers still have the
    bits of their sons. *)
Theorem flag_localnodes_marks (TOPLEVEL INTERNAL_TOPLEVEL DEPENDS_ON_LOCAL_MASS : Z)
  (as_moments : list Z -> d.t) (E : domain) (DomainStartList DomainEndList : list Z)
  (DomainOverDecompositionFactor : Z) (fuel : nat) (t : tree) :
  0 <= TOPLEVEL -> 0 <= INTERNAL_TOPLEVEL -> 0 <= DEPENDS_ON_LOCAL_MASS ->
  TOPLEVEL <> INTERNAL_TOPLEVEL -> TOPLEVEL <> DEPENDS_ON_LOCAL_MASS ->
  INTERNAL_TOPLEVEL <> DEPENDS_ON_LOCAL_MASS ->
  closed as_moments E TOPLEVEL t -> closed as_moments E INTERNAL_TOPLEVEL t ->
  closed as_moments E DEPENDS_ON_LOCAL_MASS t ->
  let run := force_flag_localnodes TOPLEVEL INTERNAL_TOPLEVEL DEPENDS_ON_LOCAL_MASS
               as_moments E DomainStartList DomainEndList DomainOverDecompositionFactor
               fuel t in
  (forall c, run = Endrun c -> c = 131231231) /\
  (forall t', run = Ok t' ->
     reflagged as_moments E (flag_bits TOPLEVEL INTERNAL_TOPLEVEL DEPENDS_ON_LOCAL_MASS) t t' /\
     (forall x, flagged as_moments E TOPLEVEL t' x <->
                flagged as_moments E TOPLEVEL t x \/
                top_reached as_moments E t (NTopleaves E) x) /\
     (forall x, flagged as_moments E INTERNAL_TOPLEVEL t' x <->
                flagged as_moments E INTERNAL_TOPLEVEL t x \/
                internal_reached as_moments E t (NTopleaves E) x) /\
     (forall x, flagged as_moments E DEPENDS_ON_LOCAL_MASS t' x <->
                flagged as_moments E DEPENDS_ON_LOCAL_MASS t x \/
                local_reached as_moments E DomainStartList DomainEndList
                  DomainOverDecompositionFactor t x) /\
     (forall m i, 0 <= m < DomainOverDecompositionFactor ->
                  local_leaf E DomainStartList DomainEndList DomainOverDecompositionFactor m i ->
                  rd (DomainTask E) i = Ok (ThisTask E)) /\
     closed as_moments E TOPLEVEL t' /\ closed as_moments E INTERNAL_TOPLEVEL t' /\
     closed as_moments E DEPENDS_ON_LOCAL_MASS t').
Proof.
  intros H1 H2 H3 H12 H13 H23 Hct Hci Hcl run. split.
  - intros c Hc. symmetry. exact (only_flag_localnodes _ _ _ _ _ _ _ _ _ _ c Hc).
  - intros t' Hrun. eapply flag_localnodes_spec; eassumption.
Qed.

(** X18: [force_flag_localnodes] gets through.  On a tree whose fathers
    come before their sons, when the lists of the decomposition name nodes
    of the tree, the routine returns, or ends the run with code 131231231. *)
Theorem flag_localnodes_gets_through (TOPLEVEL INTERNAL_TOPLEVEL DEPENDS_ON_LOCAL_MASS : Z)
  (as_moments : list Z -> d.t) (E : domain) (DomainStartList DomainEndList : list Z)
  (DomainOverDecompositionFactor : Z) (fuel : nat) (t : tree) :
  0 <= TOPLEVEL -> 0 <= INTERNAL_TOPLEVEL -> 0 <= DEPENDS_ON_LOCAL_MASS ->
  rooted as_moments E t ->
  listed_nodes as_moments E DomainStartList DomainEndList DomainOverDecompositionFactor t ->
  MaxPart E + zlen (Nodes t) <= Z.of_nat fuel ->
  let run := force_flag_localnodes TOPLEVEL INTERNAL_TOPLEVEL DEPENDS_ON_LOCAL_MASS
               as_moments E DomainStartList DomainEndList DomainOverDecompositionFactor
               fuel t in
  (exists t', run = Ok t') \/ run = Endrun 131231231.
Proof.
  intros H1 H2 H3 Hroot Hlist Hfuel run.
  apply flag_localnodes_returns; try assumption.
  intros x f (n & Hn & _). unfold node_at in Hn. apply rd_range in Hn. lia.
Qed.

(** A root (node 4) with two sons (nodes 5 and 6), which are the two
    top-level leaves; the first leaf belongs to this process.  The bits are
    0, 1 and 2. *)
Definition flag_domain : domain :=
  mkDomain 4 100 9 2 [] [0; 1] 0 16 (8, 8, 8)%Q (0, 0, 0)%Q 1 (-1) [] 5 1 0 [] [].

Definition flag_node (father : Z) : NODE :=
  mkNode 16 (8, 8, 8)%Q (Moments (d.mk (8, 8, 8)%Q 2 0 (-1) (-1) father)) 0.

Definition flag_tree : tree :=
  mkTree [flag_node (-1); flag_node 4; flag_node 4] [blank_ext; blank_ext; blank_ext]
         [] [] [5; 6] 3 (-1).

Lemma flag_tree_nodes (no : Z) (n : NODE) :
  node_at flag_domain flag_tree no = Ok n ->
  no = 4 /\ n = flag_node (-1) \/ no = 5 /\ n = flag_node 4 \/ no = 6 /\ n = flag_node 4.
Proof.
  intros Hn. unfold node_at in Hn.
  assert (Hr : 0 <= no - 4 < 3) by exact (rd_range _ _ _ Hn).
  assert (Hc : no = 4 \/ no = 5 \/ no = 6) by lia.
  destruct Hc as [-> | [-> | ->]]; vm_compute in Hn; injection Hn as <-; auto.
Qed.

Lemma flag_tree_closed (k : Z) : closed (fun _ => sample_moments) flag_domain k flag_tree.
Proof.
  unfold closed. intros no f (n & Hn & Hf) _ _. exfalso.
  destruct (flag_tree_nodes no n Hn) as [[_ ->] | [[_ ->] | [_ ->]]];
    vm_compute in Hf; discriminate.
Qed.

Lemma flag_tree_rooted : rooted (fun _ => sample_moments) flag_domain flag_tree.
Proof.
  unfold rooted. intros x f (n & Hn & Hf).
  destruct (flag_tree_nodes x n Hn) as [[-> ->] | [[-> ->] | [-> ->]]];
    cbn in Hf; subst f; (split; [lia |]); intros H0; try lia;
    exists (-1), (flag_node (-1)); split; reflexivity.
Qed.

Lemma flag_tree_listed : listed_nodes (fun _ => sample_moments) flag_domain [0] [0] 1 flag_tree.
Proof.
  constructor.
  - intros i Hi. cbn in Hi. assert (Hc : i = 0 \/ i = 1) by lia.
    destruct Hc as [-> | ->].
    + exists 5, 4. split; [reflexivity |]. exists (flag_node 4). split; reflexivity.
    + exists 6, 4. split; [reflexivity |]. exists (flag_node 4). split; reflexivity.
  - intros m Hm. assert (m = 0) by lia. subst m. exists 0, 0.
    split; [reflexivity |]. split; [reflexivity |]. intros i Hi. assert (i = 0) by lia. subst i.
    split; [cbn; lia |]. exists 0. reflexivity.
Qed.

Lemma flag_localnodes_marks_witness :
  exists t',
    force_flag_localnodes 0 1 2 (fun _ => sample_moments) flag_domain [0] [0] 1 7 flag_tree
    = Ok t' /\
    map (fun n => d.bitflags (u_d (fun _ => sample_moments) n)) (Nodes t') = [7; 5; 1] /\
    closed (fun _ => sample_moments) flag_domain 0 t'.
Proof.
  destruct (force_flag_localnodes 0 1 2 (fun _ => sample_moments) flag_domain [0] [0] 1 7
              flag_tree) as [t' | | |] eqn:Hrun; [| vm_compute in Hrun; discriminate ..].
  destruct (flag_localnodes_marks 0 1 2 (fun _ => sample_moments) flag_domain [0] [0] 1 7
              flag_tree ltac:(lia) ltac:(lia) ltac:(lia) ltac:(lia) ltac:(lia) ltac:(lia)
              (flag_tree_closed 0) (flag_tree_closed 1) (flag_tree_closed 2)) as [_ H].
  destruct (H t' Hrun) as (_ & _ & _ & _ & _ & Hc & _).
  exists t'. split; [reflexivity |]. split; [| exact Hc].
  vm_compute in Hrun. injection Hrun as <-. reflexivity.
Defined.

Lemma flag_localnodes_gets_through_witness :
  exists t',
    force_flag_localnodes 0 1 2 (fun _ => sample_moments) flag_domain [0] [0] 1 7 flag_tree
    = Ok t'.
Proof.
  destruct (flag_localnodes_gets_through 0 1 2 (fun _ => sample_moments) flag_domain [0] [0] 1 7
              flag_tree ltac:(lia) ltac:(lia) ltac:(lia) flag_tree_rooted flag_tree_listed
              ltac:(vm_compute; discriminate)) as [H | H].
  - exact H.
  - vm_compute in H. discriminate.
Defined.

End Flags.


(** ** Sharing the moments of the top-level leaves: [force_exchange_pseudodata] *)

Module Pseudo.

Import ForceTree Kick.

(** [struct DomainNODE] of the routine. *)
Module DomainNODE.
Record t : Type := mk {
  s : vec3;
  vs : vec3;
  mass : Q;
  hmax : Q;
  vmax : Q;
  divVmax : Q;
  bitflags : Z
}.
End DomainNODE.

(** Run [f] on every process, in the order of the ranks. *)
Fixpoint on_each {A B : Type} (f : A -> outcome B) (l : list A) : outcome (list B) :=
  match l with
  | [] => Ok []
  | a :: l' => b ← f a; bs ← on_each f l'; Ok (b :: bs)
  end.

Section Exchanging.

(** [BITFLAG_MASK] of [forcetree.h] and the layout of the union [u] of a
    node are not among the sources at hand.  [DomainStartList],
    [DomainEndList], [All.DomainOverDecompositionFactor] and [NTask] are
    globals that the decomposition leaves the same on every process. *)
Variable BITFLAG_MASK : Z.
Variable as_moments : list Z -> d.t.
Variables DomainStartList DomainEndList : list Z.
Variable DomainOverDecompositionFactor : Z.
Variable NTask : Z.

(** for(m = 0; m < All.DomainOverDecompositionFactor; m++)
      for(i = DomainStartList[ta * ... + m]; i <= DomainEndList[ta * ... + m]; i++) *)
Definition over_leaves {St : Type} (ta : Z) (body : Z -> St -> outcome St) (s : St)
  : outcome St :=
  for_range (Z.to_nat DomainOverDecompositionFactor) 0
    (fun m s =>
       first ← rd DomainStartList (ta * DomainOverDecompositionFactor + m);
       last_ ← rd DomainEndList (ta * DomainOverDecompositionFactor + m);
       for_range (Z.to_nat (last_ - first + 1)) first body s) s.

(** The moments of the node of leaf [i], as the first loop reads them out. *)
Definition leaf_moment (E : domain) (t : tree) (i : Z) : outcome DomainNODE.t :=
  no ← rd (DomainNodeIndex t) i;
  n ← node_at E t no;
  e ← ext_at E t no;
  let m := u_d as_moments n in
  Ok (DomainNODE.mk (d.s m) (vs e) (d.mass m) (hmax e) (vmax e) (divVmax e) (d.bitflags m)).

Definition read_moment (E : domain) (t : tree) (i : Z) (DomainMoment : list DomainNODE.t)
  : outcome (list DomainNODE.t) :=
  x ← leaf_moment E t i;
  wr DomainMoment i x.

(** memset(&DomainMoment[0], 0, ...) *)
Definition blank_moment : DomainNODE.t :=
  DomainNODE.mk (0, 0, 0)%Q (0, 0, 0)%Q 0 0 0 0 0.

(** The buffer [DomainMoment] of a process after the first loop. *)
Definition local_moments (p : proc) : outcome (proc * list DomainNODE.t) :=
  b ← over_leaves (ThisTask (dom p)) (read_moment (dom p) (Tree p))
        (repeat blank_moment (Z.to_nat (NTopleaves (dom p))));
  Ok (p, b).

(** What one process receives in the call of MPI_Allgatherv for [m]: from
    every process the entries that [recvcounts] and [recvoffset] give it,
    that is, its leaves of the list [m].  With MPI_IN_PLACE a process sends
    these entries of its own buffer. *)
Definition receive (bufs : list (list DomainNODE.t)) (m : Z) (buf : list DomainNODE.t)
  : outcome (list DomainNODE.t) :=
  for_range (Z.to_nat NTask) 0
    (fun recvTask buf =>
       first ← rd DomainStartList (recvTask * DomainOverDecompositionFactor + m);
       last_ ← rd DomainEndList (recvTask * DomainOverDecompositionFactor + m);
       if last_ - first + 1 <? 0 then Fault
       else
         src ← rd bufs recvTask;
         for_range (Z.to_nat (last_ - first + 1)) first
           (fun i buf => x ← rd src i; wr buf i x) buf) buf.

Definition MPI_Allgatherv (m : Z) (S : list (proc * list DomainNODE.t))
  : outcome (list (proc * list DomainNODE.t)) :=
  on_each (fun pb => b ← receive (map snd S) m (snd pb); Ok (fst pb, b)) S.

(** The body of the last loop: the node of leaf [i] gets the moments
    received. *)
Definition write_moment (E : domain) (DomainMoment : list DomainNODE.t) (i : Z) (t : tree)
  : outcome tree :=
  no ← rd (DomainNodeIndex t) i;
  x ← rd DomainMoment i;
  n ← node_at E t no;
  e ← ext_at E t no;
  let m := u_d as_moments n in
  t ← set_node E t no
        (with_u n (Moments
           (d.mk (DomainNODE.s x) (DomainNODE.mass x)
                 (Z.lor (Z.land (d.bitflags m) (Z.lnot BITFLAG_MASK))
                        (Z.land (DomainNODE.bitflags x) BITFLAG_MASK))
                 (d.sibling m) (d.nextnode m) (d.father m))));
  set_ext E t no
    (mkExt (DomainNODE.hmax x) (DomainNODE.vmax x) (DomainNODE.divVmax x) (DomainNODE.vs x)
           (dp e) (Ti_lastkicked e) (Flag e)).

(** for(ta = 0; ta < NTask; ta++) if(ta != ThisTask) ... *)
Definition take_moments (pb : proc * list DomainNODE.t) : outcome proc :=
  let p := fst pb in
  t ← for_range (Z.to_nat NTask) 0
        (fun ta t =>
           if negb (ta =? ThisTask (dom p))
           then over_leaves ta (write_moment (dom p) (snd pb)) t
           else Ok t) (Tree p);
  Ok (mkProc (dom p) (TreeAllocFactor p) t (Numnodestree p) (npart p) (mp p)).

Definition force_exchange_pseudodata (G : list proc) : outcome (list proc) :=
  S ← on_each local_moments G;
  S ← for_range (Z.to_nat DomainOverDecompositionFactor) 0 MPI_Allgatherv S;
  on_each take_moments S.


(** *** What the exchange leaves on every process *)

(** Leaf [i] is in the list [m] of process [r]. *)
Definition has_leaf (r m i : Z) : Prop :=
  (0 <= r < NTask /\ 0 <= m < DomainOverDecompositionFactor) /\
  exists first last_,
    rd DomainStartList (r * DomainOverDecompositionFactor + m) = Ok first /\
    rd DomainEndList (r * DomainOverDecompositionFactor + m) = Ok last_ /\
    first <= i <= last_.

(** The lists of the decomposition: every process has its lists of leaves,
    each a range of the [N] leaves, and no leaf is in the lists of two
    processes. *)
Record laid_out (N : Z) : Prop := {
  lo_leaves : 0 <= N;
  lo_lists : forall r m, 0 <= r < NTask -> 0 <= m < DomainOverDecompositionFactor ->
      exists first last_,
        rd DomainStartList (r * DomainOverDecompositionFactor + m) = Ok first /\
        rd DomainEndList (r * DomainOverDecompositionFactor + m) = Ok last_ /\
        0 <= first /\ first <= last_ + 1 /\ last_ < N;
  lo_apart : forall r m r' m' i, has_leaf r m i -> has_leaf r' m' i -> r = r'
}.

(** The processes before the call: process [r] has rank [r], all have the
    [N] leaves, and on each the leaves have nodes of their own in the
    tree. *)
Record nodes_ready (N : Z) (G : list proc) : Prop := {
  rdy_tasks : zlen G = NTask;
  rdy_rank : forall r p, rd G r = Ok p -> ThisTask (dom p) = r;
  rdy_leaves : forall r p, rd G r = Ok p -> NTopleaves (dom p) = N;
  rdy_nodes : forall r p i, rd G r = Ok p -> 0 <= i < N ->
      exists x, leaf_moment (dom p) (Tree p) i = Ok x;
  rdy_apart : forall r p i j no, rd G r = Ok p -> 0 <= i < N -> 0 <= j < N ->
      rd (DomainNodeIndex (Tree p)) i = Ok no ->
      rd (DomainNodeIndex (Tree p)) j = Ok no -> i = j
}.

(** Node [n'] with [e'] is node [n] with [e] after it has taken the moments
    [x]: the moments and the bits of the mask are those of [x], the rest is
    as it was. *)
Record carries (n : NODE) (e : extNODE) (x : DomainNODE.t) (n' : NODE) (e' : extNODE)
  : Prop := {
  c_s : d.s (u_d as_moments n') = DomainNODE.s x;
  c_mass : d.mass (u_d as_moments n') = DomainNODE.mass x;
  c_vs : vs e' = DomainNODE.vs x;
  c_hmax : hmax e' = DomainNODE.hmax x;
  c_vmax : vmax e' = DomainNODE.vmax x;
  c_divVmax : divVmax e' = DomainNODE.divVmax x;
  c_bits : d.bitflags (u_d as_moments n')
           = Z.lor (Z.land (d.bitflags (u_d as_moments n)) (Z.lnot BITFLAG_MASK))
                   (Z.land (DomainNODE.bitflags x) BITFLAG_MASK);
  c_links : d.sibling (u_d as_moments n') = d.sibling (u_d as_moments n) /\
            d.nextnode (u_d as_moments n') = d.nextnode (u_d as_moments n) /\
            d.father (u_d as_moments n') = d.father (u_d as_moments n);
  c_node : len n' = len n /\ center n' = center n /\ Ti_current n' = Ti_current n;
  c_ext : dp e' = dp e /\ Ti_lastkicked e' = Ti_lastkicked e /\ Flag e' = Flag e
}.

Lemma mask_same (b M : Z) : Z.lor (Z.land b (Z.lnot M)) (Z.land b M) = b.
Proof.
  apply Z.bits_inj'. intros k Hk.
  rewrite Z.lor_spec, !Z.land_spec, Z.lnot_spec by exact Hk.
  destruct (Z.testbit b k), (Z.testbit M k); reflexivity.
Qed.

Lemma mask_again (b y M : Z) :
  Z.lor (Z.land (Z.lor (Z.land b (Z.lnot M)) (Z.land y M)) (Z.lnot M)) (Z.land y M)
  = Z.lor (Z.land b (Z.lnot M)) (Z.land y M).
Proof.
  apply Z.bits_inj'. intros k Hk.
  rewrite !Z.lor_spec, !Z.land_spec, !Z.lor_spec, !Z.land_spec, Z.lnot_spec by exact Hk.
  destruct (Z.testbit b k), (Z.testbit M k), (Z.testbit y k); reflexivity.
Qed.

Lemma rd_map_snd {A B : Type} (l : list (A * B)) (i : Z) (x : A * B) :
  rd l i = Ok x -> rd (map snd l) i = Ok (snd x).
Proof.
  intros H. apply rd_Ok in H as [H0 H]. apply rd_Ok. split; [exact H0 |].
  rewrite Exchange.lookup_map, H. reflexivity.
Qed.

Lemma on_each_spec {A B : Type} (R : Z -> A -> B -> Prop) (f : A -> outcome B) (l : list A) :
  (forall k a, rd l k = Ok a -> exists b, f a = Ok b /\ R k a b) ->
  exists l', on_each f l = Ok l' /\ zlen l' = zlen l /\
    forall k a, rd l k = Ok a -> exists b, rd l' k = Ok b /\ R k a b.
Proof.
  revert R. induction l as [| a l IH]; intros R Hf.
  - exists []. split; [reflexivity |]. split; [reflexivity |].
    intros k a Hk. apply rd_range in Hk. unfold zlen in Hk. cbn in Hk. lia.
  - destruct (Hf 0 a) as (b & Hb & HR); [reflexivity |].
    destruct (IH (fun k => R (k + 1))) as (l' & Hl' & Hlen & Hall).
    { intros k x Hk. apply Hf. apply rd_Ok in Hk as [H0 Hk]. apply rd_Ok.
      split; [lia |]. replace (Z.to_nat (k + 1)) with (S (Z.to_nat k)) by lia. exact Hk. }
    exists (b :: l'). cbn [on_each]. unfold mbind, outcome_bind. rewrite Hb. cbn [obind].
    rewrite Hl'. cbn [obind]. split; [reflexivity |].
    split; [unfold zlen in *; cbn [length]; lia |].
    intros k x Hk. destruct (Z.eq_dec k 0) as [-> | Hne].
    + cbn in Hk. injection Hk as <-. exists b. split; [reflexivity | exact HR].
    + apply rd_Ok in Hk as [H0 Hk].
      replace (Z.to_nat k) with (S (Z.to_nat (k - 1))) in Hk by lia. cbn in Hk.
      destruct (Hall (k - 1) x) as (y & Hy & HRy); [apply rd_Ok; split; [lia | exact Hk] |].
      exists y. replace (k - 1 + 1) with k in HRy by lia. split; [| exact HRy].
      apply rd_Ok in Hy as [_ Hy]. apply rd_Ok. split; [lia |].
      replace (Z.to_nat k) with (S (Z.to_nat (k - 1))) by lia. exact Hy.
Qed.

(** The loops over the leaves of a process keep what every turn keeps, and
    leave for every leaf listed what its turn leaves. *)
Lemma over_leaves_spec {St : Type} (N : Z) (Q : St -> Prop) (P : Z -> St -> Prop)
  (ta : Z) (body : Z -> St -> outcome St) (s : St) :
  laid_out N -> 0 <= ta < NTask ->
  Q s ->
  (forall m i s0, has_leaf ta m i -> Q s0 ->
     exists s1, body i s0 = Ok s1 /\ Q s1 /\ P i s1 /\ forall j, P j s0 -> P j s1) ->
  exists s', over_leaves ta body s = Ok s' /\ Q s' /\ forall m i, has_leaf ta m i -> P i s'.
Proof.
  intros HL Hta HQ Hstep. unfold over_leaves.
  destruct (for_range_inv
              (fun m s0 => Q s0 /\ forall m' i, m' < m -> has_leaf ta m' i -> P i s0)
              (fun m s0 =>
                 first ← rd DomainStartList (ta * DomainOverDecompositionFactor + m);
                 last_ ← rd DomainEndList (ta * DomainOverDecompositionFactor + m);
                 for_range (Z.to_nat (last_ - first + 1)) first body s0)
              (Z.to_nat DomainOverDecompositionFactor) 0 s) as (s' & Hrun & HQ' & HP').
  - split; [exact HQ |]. intros m' i Hm' [[_ Hm] _]. lia.
  - intros m s0 Hm [HQ0 HP0].
    destruct (lo_lists N HL ta m Hta ltac:(lia)) as (first & last_ & Hf & Hl & H0 & H1 & H2).
    unfold mbind, outcome_bind. rewrite Hf. cbn [obind]. rewrite Hl. cbn [obind].
    destruct (for_range_inv
                (fun i s1 => Q s1 /\ (forall m' j, m' < m -> has_leaf ta m' j -> P j s1) /\
                             forall j, first <= j < i -> P j s1)
                body (Z.to_nat (last_ - first + 1)) first s0) as (s1 & Hrun & HQ1 & HP1 & HP2).
    + split; [exact HQ0 |]. split; [exact HP0 |]. intros j Hj. lia.
    + intros i s1 Hi (HQ1 & HP1 & HP2).
      assert (Hli : has_leaf ta m i).
      { split; [split; [exact Hta | lia] |]. exists first, last_. repeat split; try assumption; lia. }
      destruct (Hstep m i s1 Hli HQ1) as (s2 & Hb & HQ2 & HPi & Hkeep).
      exists s2. split; [exact Hb |]. split; [exact HQ2 |]. split.
      * intros m' j Hm' Hj. apply Hkeep. exact (HP1 m' j Hm' Hj).
      * intros j Hj. destruct (Z.eq_dec j i) as [-> | Hne]; [exact HPi |].
        apply Hkeep. apply HP2. lia.
    + exists s1. split; [exact Hrun |]. split; [exact HQ1 |].
      intros m' j Hm' Hj. destruct (Z.eq_dec m' m) as [-> | Hne].
      * destruct Hj as [_ (f' & l' & Hf' & Hl' & Hj)].
        rewrite Hf in Hf'. rewrite Hl in Hl'. injection Hf' as <-. injection Hl' as <-.
        apply HP2. lia.
      * apply HP1 with (m' := m'); [lia | exact Hj].
  - exists s'. split; [exact Hrun |]. split; [exact HQ' |].
    intros m i Hl. apply (HP' m i); [| exact Hl]. destruct Hl as [[_ Hm] _]. lia.
Qed.

Lemma leaf_in_range (N r m i : Z) : laid_out N -> has_leaf r m i -> 0 <= i < N.
Proof.
  intros HL [[Hr Hm] (first & last_ & Hf & Hl & Hi)].
  destruct (lo_lists N HL r m Hr Hm) as (f' & l' & Hf' & Hl' & H0 & H1 & H2).
  rewrite Hf in Hf'. rewrite Hl in Hl'. injection Hf' as <-. injection Hl' as <-. lia.
Qed.

(** The first loop: the buffer holds, for the leaves of the process, the
    moments of their nodes. *)
Lemma local_moments_spec (N : Z) (G : list proc) (r : Z) (p : proc) :
  laid_out N -> nodes_ready N G -> rd G r = Ok p ->
  exists b, local_moments p = Ok (p, b) /\ zlen b = N /\
    forall m i, has_leaf r m i -> rd b i = leaf_moment (dom p) (Tree p) i.
Proof.
  intros HL HR Hp. unfold local_moments.
  assert (Hr : 0 <= r < NTask).
  { rewrite <- (rdy_tasks N G HR). exact (rd_range _ _ _ Hp). }
  rewrite (rdy_rank N G HR r p Hp), (rdy_leaves N G HR r p Hp).
  destruct (over_leaves_spec N (fun b => zlen b = N)
              (fun i b => rd b i = leaf_moment (dom p) (Tree p) i)
              r (read_moment (dom p) (Tree p)) (repeat blank_moment (Z.to_nat N)) HL Hr)
    as (b & Hrun & Hlen & Hb).
  - unfold zlen. rewrite repeat_length.
    pose proof (lo_leaves N HL). lia.
  - intros m i b0 Hli Hlen0.
    assert (Hi : 0 <= i < N) by exact (leaf_in_range N r m i HL Hli).
    destruct (rdy_nodes N G HR r p i Hp Hi) as (x & Hx).
    unfold read_moment, mbind, outcome_bind. rewrite Hx. cbn [obind].
    rewrite wr_in_range by lia.
    exists (<[Z.to_nat i := x]> b0).
    assert (Hw : wr b0 i x = Ok (<[Z.to_nat i := x]> b0)) by (apply wr_in_range; lia).
    split; [reflexivity |]. split; [rewrite (zlen_wr _ _ _ _ Hw); exact Hlen0 |].
    split.
    + rewrite (rd_wr_eq _ _ _ _ Hw). reflexivity.
    + intros j Hj. rewrite (Exchange.rd_wr _ _ _ j _ Hw).
      destruct (Z.eqb_spec j i) as [-> | _]; [symmetry; exact Hx | exact Hj].
  - exists b. unfold mbind, outcome_bind. rewrite Hrun. cbn [obind].
    split; [reflexivity |]. split; [exact Hlen | exact Hb].
Qed.

(** The buffers after [k] calls of MPI_Allgatherv: every process has the
    moments of its own leaves and of the leaves that the other processes
    have in their lists below [k]. *)
Definition shared (N : Z) (G : list proc) (k : Z) (S : list (proc * list DomainNODE.t))
  : Prop :=
  zlen S = NTask /\
  forall q pb, rd S q = Ok pb ->
    rd G q = Ok (fst pb) /\ zlen (snd pb) = N /\
    forall r m i pr, rd G r = Ok pr -> has_leaf r m i -> m < k \/ r = q ->
      rd (snd pb) i = leaf_moment (dom pr) (Tree pr) i.

Lemma local_moments_shared (N : Z) (G : list proc) :
  laid_out N -> nodes_ready N G ->
  exists S, on_each local_moments G = Ok S /\ shared N G 0 S.
Proof.
  intros HL HR.
  destruct (on_each_spec
              (fun q p pb => fst pb = p /\ zlen (snd pb) = N /\
                 forall m i, has_leaf q m i -> rd (snd pb) i = leaf_moment (dom p) (Tree p) i)
              local_moments G) as (S & Hrun & Hlen & Hall).
  - intros q p Hp. destruct (local_moments_spec N G q p HL HR Hp) as (b & Hb & Hl & Hm).
    exists (p, b). split; [exact Hb |]. cbn [fst snd]. auto.
  - exists S. split; [exact Hrun |]. split; [rewrite Hlen; exact (rdy_tasks N G HR) |].
    intros q pb Hpb.
    destruct (rd_in_range G q) as (p & Hp); [rewrite <- Hlen; exact (rd_range _ _ _ Hpb) |].
    destruct (Hall q p Hp) as (pb' & Hpb' & Hfst & Hl & Hm).
    rewrite Hpb in Hpb'. injection Hpb' as <-.
    split; [rewrite Hfst; exact Hp |]. split; [exact Hl |].
    intros r m i pr Hpr Hli [Hk | ->].
    + destruct Hli as [[_ Hm0] _]. lia.
    + rewrite Hp in Hpr. injection Hpr as <-. exact (Hm m i Hli).
Qed.

(** One process in the call of MPI_Allgatherv for [k]. *)
Lemma receive_spec (N : Z) (G : list proc) (k : Z) (S : list (proc * list DomainNODE.t))
  (q : Z) (pb : proc * list DomainNODE.t) :
  laid_out N -> nodes_ready N G -> 0 <= k < DomainOverDecompositionFactor ->
  shared N G k S -> rd S q = Ok pb ->
  exists b, receive (map snd S) k (snd pb) = Ok b /\ zlen b = N /\
    forall r m i pr, rd G r = Ok pr -> has_leaf r m i -> m < k + 1 \/ r = q ->
      rd b i = leaf_moment (dom pr) (Tree pr) i.
Proof.
  intros HL HR Hk [HlenS HS] Hpb. unfold receive.
  destruct (HS q pb Hpb) as (Hq & Hlen & Hown).
  destruct (for_range_inv
              (fun r b => zlen b = N /\
                 forall r' m i pr, rd G r' = Ok pr -> has_leaf r' m i ->
                   m < k \/ r' = q \/ (m = k /\ r' < r) ->
                   rd b i = leaf_moment (dom pr) (Tree pr) i)
              (fun recvTask buf =>
                 first ← rd DomainStartList (recvTask * DomainOverDecompositionFactor + k);
                 last_ ← rd DomainEndList (recvTask * DomainOverDecompositionFactor + k);
                 if last_ - first + 1 <? 0 then Fault
                 else
                   src ← rd (map snd S) recvTask;
                   for_range (Z.to_nat (last_ - first + 1)) first
                     (fun i buf => x ← rd src i; wr buf i x) buf)
              (Z.to_nat NTask) 0 (snd pb)) as (b & Hrun & Hb & Hall).
  - split; [exact Hlen |]. intros r' m i pr Hpr Hli [H | [H | [_ H]]].
    + apply (Hown r' m i pr Hpr Hli). left. exact H.
    + apply (Hown r' m i pr Hpr Hli). right. exact H.
    + destruct Hli as [[Hr' _] _]. lia.
  - intros r b0 Hr [Hlen0 Hb0].
    assert (Hr' : 0 <= r < NTask) by lia.
    destruct (lo_lists N HL r k Hr' Hk) as (first & last_ & Hf & Hl & H0 & H1 & H2).
    unfold mbind, outcome_bind. rewrite Hf. cbn [obind]. rewrite Hl. cbn [obind].
    destruct (Z.ltb_spec (last_ - first + 1) 0) as [Hneg | _]; [lia |].
    destruct (rd_in_range S r) as (pbr & Hpbr); [lia |].
    rewrite (rd_map_snd S r pbr Hpbr). cbn [obind].
    destruct (HS r pbr Hpbr) as (Hgr & Hlenr & Hownr).
    destruct (for_range_inv
                (fun i b1 => zlen b1 = N /\
                   forall r' m j pr, rd G r' = Ok pr -> has_leaf r' m j ->
                     m < k \/ r' = q \/ (m = k /\ r' < r) \/ (m = k /\ r' = r /\ j < i) ->
                     rd b1 j = leaf_moment (dom pr) (Tree pr) j)
                (fun i buf => obind (rd (snd pbr) i) (fun x => wr buf i x))
                (Z.to_nat (last_ - first + 1)) first b0) as (b1 & Hrun1 & Hlen1 & Hb1).
    + split; [exact Hlen0 |]. intros r' m j pr Hpr Hli [H | [H | [H | (-> & -> & H)]]].
      * apply (Hb0 r' m j pr Hpr Hli). auto.
      * apply (Hb0 r' m j pr Hpr Hli). auto.
      * apply (Hb0 r' m j pr Hpr Hli). auto.
      * destruct Hli as [_ (f' & l' & Hf' & Hl' & Hj)].
        rewrite Hf in Hf'. injection Hf' as <-. lia.
    + intros i b1 Hi [Hlen1 Hb1].
      assert (Hli : has_leaf r k i).
      { split; [split; [exact Hr' | exact Hk] |]. exists first, last_.
        repeat split; try assumption; lia. }
      assert (Hx : rd (snd pbr) i = leaf_moment (dom (fst pbr)) (Tree (fst pbr)) i).
      { apply (Hownr r k i (fst pbr) Hgr Hli). right. reflexivity. }
      destruct (rdy_nodes N G HR r (fst pbr) i Hgr ltac:(lia)) as (x & Hlm).
      rewrite Hlm in Hx. rewrite Hx. cbn [obind].
      assert (Hw : wr b1 i x = Ok (<[Z.to_nat i := x]> b1)) by (apply wr_in_range; lia).
      exists (<[Z.to_nat i := x]> b1). split; [exact Hw |].
      split; [rewrite (zlen_wr _ _ _ _ Hw); exact Hlen1 |].
      intros r' m j pr Hpr Hlj Hcase. rewrite (Exchange.rd_wr _ _ _ j _ Hw).
      destruct (Z.eqb_spec j i) as [-> | Hne].
      * assert (r' = r) by exact (lo_apart N HL r' m r k i Hlj Hli). subst r'.
        rewrite Hgr in Hpr. injection Hpr as <-. symmetry. exact Hlm.
      * apply (Hb1 r' m j pr Hpr Hlj).
        destruct Hcase as [H | [H | [H | (-> & -> & H)]]]; auto.
        right. right. right. repeat split; lia.
    + exists b1. split; [exact Hrun1 |]. split; [exact Hlen1 |].
      intros r' m j pr Hpr Hlj Hcase. apply (Hb1 r' m j pr Hpr Hlj).
      destruct Hcase as [H | [H | [-> H]]]; auto.
      destruct (Z.eq_dec r' r) as [-> | Hne].
      * right. right. right. repeat split.
        destruct Hlj as [_ (f' & l' & Hf' & Hl' & Hj)].
        rewrite Hl in Hl'. injection Hl' as <-. lia.
      * right. right. left. split; [reflexivity | lia].
  - exists b. split; [exact Hrun |]. split; [exact Hb |].
    intros r m i pr Hpr Hli Hcase. apply (Hall r m i pr Hpr Hli).
    destruct Hcase as [H | H]; [| auto].
    destruct (Z.eq_dec m k) as [-> | Hne]; [| left; lia].
    right. right. split; [reflexivity |]. destruct Hli as [[Hr _] _]. lia.
Qed.

Lemma Allgatherv_shared (N : Z) (G : list proc) (k : Z) (S : list (proc * list DomainNODE.t)) :
  laid_out N -> nodes_ready N G -> 0 <= k < DomainOverDecompositionFactor ->
  shared N G k S ->
  exists S', MPI_Allgatherv k S = Ok S' /\ shared N G (k + 1) S'.
Proof.
  intros HL HR Hk HS. unfold MPI_Allgatherv.
  destruct (on_each_spec
              (fun q pb pb' => fst pb' = fst pb /\ zlen (snd pb') = N /\
                 forall r m i pr, rd G r = Ok pr -> has_leaf r m i -> m < k + 1 \/ r = q ->
                   rd (snd pb') i = leaf_moment (dom pr) (Tree pr) i)
              (fun pb => b ← receive (map snd S) k (snd pb); Ok (fst pb, b)) S)
    as (S' & Hrun & Hlen & Hall).
  - intros q pb Hpb.
    destruct (receive_spec N G k S q pb HL HR Hk HS Hpb) as (b & Hb & Hl & Hm).
    exists (fst pb, b). unfold mbind, outcome_bind. rewrite Hb. cbn [obind fst snd]. auto.
  - exists S'. split; [exact Hrun |]. destruct HS as [HlenS HS].
    split; [lia |]. intros q pb' Hpb'.
    destruct (rd_in_range S q) as (pb & Hpb); [rewrite <- Hlen; exact (rd_range _ _ _ Hpb') |].
    destruct (Hall q pb Hpb) as (pb'' & Hpb'' & Hfst & Hl & Hm).
    rewrite Hpb' in Hpb''. injection Hpb'' as <-.
    destruct (HS q pb Hpb) as (Hq & _ & _).
    split; [rewrite Hfst; exact Hq |]. split; [exact Hl | exact Hm].
Qed.

Lemma all_shared (N : Z) (G : list proc) (S : list (proc * list DomainNODE.t)) :
  laid_out N -> nodes_ready N G -> shared N G 0 S ->
  exists S', for_range (Z.to_nat DomainOverDecompositionFactor) 0 MPI_Allgatherv S = Ok S' /\
    zlen S' = NTask /\
    forall q pb, rd S' q = Ok pb ->
      rd G q = Ok (fst pb) /\ zlen (snd pb) = N /\
      forall r m i pr, rd G r = Ok pr -> has_leaf r m i ->
        rd (snd pb) i = leaf_moment (dom pr) (Tree pr) i.
Proof.
  intros HL HR HS.
  destruct (for_range_inv (fun k S => shared N G k S) MPI_Allgatherv
              (Z.to_nat DomainOverDecompositionFactor) 0 S HS) as (S' & Hrun & [Hlen HS']).
  - intros k S0 Hk. apply Allgatherv_shared; try assumption. lia.
  - exists S'. split; [exact Hrun |]. split; [exact Hlen |].
    intros q pb Hpb. destruct (HS' q pb Hpb) as (Hq & Hl & Hm).
    split; [exact Hq |]. split; [exact Hl |].
    intros r m i pr Hpr Hli. apply (Hm r m i pr Hpr Hli). left.
    destruct Hli as [[_ Hm0] _]. lia.
Qed.

(** In tree [t] the node of leaf [j] is as it is in [t0]. *)
Definition kept_leaf (E : domain) (t0 t : tree) (j : Z) : Prop :=
  exists no n e,
    rd (DomainNodeIndex t0) j = Ok no /\
    node_at E t0 no = Ok n /\ ext_at E t0 no = Ok e /\
    node_at E t no = Ok n /\ ext_at E t no = Ok e.

(** In tree [t] the node of leaf [j] has taken the entry [j] of the
    buffer. *)
Definition taken (E : domain) (buf : list DomainNODE.t) (t0 t : tree) (j : Z) : Prop :=
  exists no n e n' e' x,
    rd (DomainNodeIndex t0) j = Ok no /\
    node_at E t0 no = Ok n /\ ext_at E t0 no = Ok e /\
    node_at E t no = Ok n' /\ ext_at E t no = Ok e' /\
    rd buf j = Ok x /\ carries n e x n' e'.

(** The tree during the last loop on process [q]. *)
Definition taking (N q : Z) (E : domain) (buf : list DomainNODE.t) (t0 t : tree) : Prop :=
  DomainNodeIndex t = DomainNodeIndex t0 /\
  forall j, 0 <= j < N ->
    kept_leaf E t0 t j \/ ((exists r m, has_leaf r m j /\ r <> q) /\ taken E buf t0 t j).

Lemma carries_self (n : NODE) (e : extNODE) :
  carries n e
    (DomainNODE.mk (d.s (u_d as_moments n)) (vs e) (d.mass (u_d as_moments n))
                   (hmax e) (vmax e) (divVmax e) (d.bitflags (u_d as_moments n))) n e.
Proof.
  constructor; cbn; try reflexivity; auto. symmetry. apply mask_same.
Qed.

Lemma write_node (E : domain) (t : tree) (no : Z) (n x : NODE) (e y : extNODE) :
  node_at E t no = Ok n -> ext_at E t no = Ok e ->
  exists t', (t1 ← set_node E t no x; set_ext E t1 no y) = Ok t' /\
    DomainNodeIndex t' = DomainNodeIndex t /\
    forall k, node_at E t' k = (if k =? no then Ok x else node_at E t k) /\
              ext_at E t' k = (if k =? no then Ok y else ext_at E t k).
Proof.
  intros Hn He.
  assert (H1 : set_node E t no x
               = Ok (with_Nodes t (<[Z.to_nat (no - MaxPart E) := x]> (Nodes t)))).
  { unfold set_node, mbind, outcome_bind. rewrite wr_in_range; [reflexivity |].
    exact (rd_range _ _ _ Hn). }
  set (t1 := with_Nodes t (<[Z.to_nat (no - MaxPart E) := x]> (Nodes t))) in *.
  assert (H2 : set_ext E t1 no y
               = Ok (with_Extnodes t1 (<[Z.to_nat (no - MaxPart E) := y]> (Extnodes t1)))).
  { unfold set_ext, mbind, outcome_bind. rewrite wr_in_range; [reflexivity |].
    exact (rd_range _ _ _ He). }
  exists (with_Extnodes t1 (<[Z.to_nat (no - MaxPart E) := y]> (Extnodes t1))).
  unfold mbind, outcome_bind. rewrite H1. cbn [obind]. split; [exact H2 |].
  split; [reflexivity |]. intros k.
  destruct (node_at_set_node E t t1 no k x H1) as (Hk1 & Hk2 & _).
  destruct (ext_at_set_ext E t1 _ no k y H2) as (Hk3 & Hk4 & _).
  split; [rewrite Hk4; exact Hk1 | rewrite Hk3, Hk2; reflexivity].
Qed.

(** One turn of the last loop on process [q]. *)
Lemma write_moment_spec (N : Z) (G : list proc) (q : Z) (p : proc)
  (buf : list DomainNODE.t) (t : tree) (r m i : Z) :
  laid_out N -> nodes_ready N G -> rd G q = Ok p -> zlen buf = N ->
  has_leaf r m i -> r <> q ->
  taking N q (dom p) buf (Tree p) t ->
  exists t', write_moment (dom p) buf i t = Ok t' /\
    taking N q (dom p) buf (Tree p) t' /\
    taken (dom p) buf (Tree p) t' i /\
    forall j, taken (dom p) buf (Tree p) t j -> taken (dom p) buf (Tree p) t' j.
Proof.
  intros HL HR Hp Hlen Hli Hrq [Hdni Hall].
  assert (Hi : 0 <= i < N) by exact (leaf_in_range N r m i HL Hli).
  destruct (rd_in_range buf i) as (x & Hx); [lia |].
  assert (Hcur : exists no n e n' e',
            rd (DomainNodeIndex (Tree p)) i = Ok no /\
            node_at (dom p) (Tree p) no = Ok n /\ ext_at (dom p) (Tree p) no = Ok e /\
            node_at (dom p) t no = Ok n' /\ ext_at (dom p) t no = Ok e' /\
            (n' = n /\ e' = e \/ carries n e x n' e')).
  { destruct (Hall i Hi) as [(no & n & e & H1 & H2 & H3 & H4 & H5)
                            | [_ (no & n & e & n' & e' & y & H1 & H2 & H3 & H4 & H5 & H6 & H7)]].
    - exists no, n, e, n, e. repeat split; try assumption. left. split; reflexivity.
    - rewrite Hx in H6. injection H6 as <-.
      exists no, n, e, n', e'. repeat split; try assumption. right. exact H7. }
  destruct Hcur as (no & n & e & n' & e' & Hno & Hn & He & Hn' & He' & Hold).
  set (nx := with_u n' (Moments
               (d.mk (DomainNODE.s x) (DomainNODE.mass x)
                  (Z.lor (Z.land (d.bitflags (u_d as_moments n')) (Z.lnot BITFLAG_MASK))
                         (Z.land (DomainNODE.bitflags x) BITFLAG_MASK))
                  (d.sibling (u_d as_moments n')) (d.nextnode (u_d as_moments n'))
                  (d.father (u_d as_moments n'))))).
  set (ex := mkExt (DomainNODE.hmax x) (DomainNODE.vmax x) (DomainNODE.divVmax x)
                   (DomainNODE.vs x) (dp e') (Ti_lastkicked e') (Flag e')).
  destruct (write_node (dom p) t no n' nx e' ex Hn' He') as (t' & Hrun & Hd & Hk).
  exists t'. split.
  { unfold write_moment. unfold mbind at 1 2 3 4, outcome_bind.
    rewrite Hdni, Hno. cbn [obind]. rewrite Hx. cbn [obind]. rewrite Hn'. cbn [obind].
    rewrite He'. cbn [obind]. exact Hrun. }
  assert (Hcar : carries n e x nx ex).
  { destruct Hold as [[-> ->] | Hc].
    - constructor; cbn; try reflexivity; auto.
    - destruct Hc as [? ? ? ? ? ? Hb (? & ? & ?) (? & ? & ?) (? & ? & ?)].
      constructor; cbn; try reflexivity; auto.
      rewrite Hb. apply mask_again. }
  assert (Hnewi : taken (dom p) buf (Tree p) t' i).
  { exists no, n, e, nx, ex, x.
    split; [exact Hno |]. split; [exact Hn |]. split; [exact He |].
    split; [destruct (Hk no) as [H _]; rewrite Z.eqb_refl in H; exact H |].
    split; [destruct (Hk no) as [_ H]; rewrite Z.eqb_refl in H; exact H |].
    split; [exact Hx | exact Hcar]. }
  assert (Hother : forall j noj, 0 <= j < N -> j <> i ->
            rd (DomainNodeIndex (Tree p)) j = Ok noj ->
            node_at (dom p) t' noj = node_at (dom p) t noj /\
            ext_at (dom p) t' noj = ext_at (dom p) t noj).
  { intros j noj Hj Hne Hnoj. destruct (Hk noj) as [H1 H2].
    destruct (Z.eqb_spec noj no) as [-> | _]; [| auto].
    exfalso. apply Hne. exact (rdy_apart N G HR q p j i no Hp Hj Hi Hnoj Hno). }
  split; [| split; [exact Hnewi |]].
  - split; [rewrite Hd; exact Hdni |]. intros j Hj.
    destruct (Z.eq_dec j i) as [-> | Hne].
    + right. split; [exists r, m; auto | exact Hnewi].
    + destruct (Hall j Hj) as [(noj & nj & ej & H1 & H2 & H3 & H4 & H5)
                              | [Hl (noj & nj & ej & nj' & ej' & y & H1 & H2 & H3 & H4 & H5 & H6 & H7)]].
      * left. destruct (Hother j noj Hj Hne H1) as [Ha Hb].
        exists noj, nj, ej. repeat split; try assumption; congruence.
      * right. split; [exact Hl |]. destruct (Hother j noj Hj Hne H1) as [Ha Hb].
        exists noj, nj, ej, nj', ej', y.
        split; [exact H1 |]. split; [exact H2 |]. split; [exact H3 |].
        split; [congruence |]. split; [congruence |]. split; [exact H6 | exact H7].
  - intros j (noj & nj & ej & nj' & ej' & y & H1 & H2 & H3 & H4 & H5 & H6 & H7).
    destruct (Z.eq_dec j i) as [-> | Hne]; [exact Hnewi |].
    assert (Hj : 0 <= j < N) by (rewrite <- Hlen; exact (rd_range _ _ _ H6)).
    destruct (Hother j noj Hj Hne H1) as [Ha Hb].
    exists noj, nj, ej, nj', ej', y.
        split; [exact H1 |]. split; [exact H2 |]. split; [exact H3 |].
        split; [congruence |]. split; [congruence |]. split; [exact H6 | exact H7].
Qed.

Lemma leaf_moment_Ok (E : domain) (t : tree) (i : Z) (x : DomainNODE.t) :
  leaf_moment E t i = Ok x ->
  exists no n e,
    rd (DomainNodeIndex t) i = Ok no /\ node_at E t no = Ok n /\ ext_at E t no = Ok e /\
    x = DomainNODE.mk (d.s (u_d as_moments n)) (vs e) (d.mass (u_d as_moments n))
                      (hmax e) (vmax e) (divVmax e) (d.bitflags (u_d as_moments n)).
Proof.
  unfold leaf_moment, mbind, outcome_bind. intros H.
  bind_inv H. bind_inv H. bind_inv H. injection H as <-.
  exists a, a0, a1. auto.
Qed.

(** Process [p'] is process [p] after the exchange among the processes
    [G]: for every leaf in the list of a process, its node carries the
    moments that the node of the leaf had on that process. *)
Definition informed (G : list proc) (p p' : proc) : Prop :=
  dom p' = dom p /\
  forall r m i pr, rd G r = Ok pr -> has_leaf r m i ->
    exists no n e x n' e',
      rd (DomainNodeIndex (Tree p)) i = Ok no /\
      node_at (dom p) (Tree p) no = Ok n /\ ext_at (dom p) (Tree p) no = Ok e /\
      leaf_moment (dom pr) (Tree pr) i = Ok x /\
      node_at (dom p) (Tree p') no = Ok n' /\ ext_at (dom p) (Tree p') no = Ok e' /\
      carries n e x n' e'.

(** The last loop on process [q]. *)
Lemma take_moments_spec (N : Z) (G : list proc) (q : Z) (pb : proc * list DomainNODE.t) :
  laid_out N -> nodes_ready N G -> rd G q = Ok (fst pb) -> zlen (snd pb) = N ->
  (forall r m i pr, rd G r = Ok pr -> has_leaf r m i ->
     rd (snd pb) i = leaf_moment (dom pr) (Tree pr) i) ->
  exists p', take_moments pb = Ok p' /\ informed G (fst pb) p'.
Proof.
  intros HL HR Hp Hlen Hbuf. destruct pb as [p buf]. cbn [fst snd] in *.
  unfold take_moments. cbn [fst snd].
  rewrite (rdy_rank N G HR q p Hp).
  destruct (for_range_inv
              (fun ta t => taking N q (dom p) buf (Tree p) t /\
                 forall r m i, r < ta -> r <> q -> has_leaf r m i ->
                   taken (dom p) buf (Tree p) t i)
              (fun ta t => if negb (ta =? q)
                           then over_leaves ta (write_moment (dom p) buf) t
                           else Ok t)
              (Z.to_nat NTask) 0 (Tree p)) as (t & Hrun & Htk & Hall).
  - split.
    + split; [reflexivity |]. intros j Hj. left.
      destruct (rdy_nodes N G HR q p j Hp Hj) as (x & Hx).
      destruct (leaf_moment_Ok _ _ _ _ Hx) as (no & n & e & H1 & H2 & H3 & _).
      exists no, n, e. auto.
    + intros r m i Hr _ [[Hr0 _] _]. lia.
  - intros ta t Hta [Htk Hdone]. destruct (Z.eqb_spec ta q) as [-> | Hne]; cbn [negb].
    + exists t. split; [reflexivity |]. split; [exact Htk |].
      intros r m i Hr Hrq Hli. apply (Hdone r m i); [lia | exact Hrq | exact Hli].
    + destruct (over_leaves_spec N
                  (fun t => taking N q (dom p) buf (Tree p) t /\
                     forall r m i, r < ta -> r <> q -> has_leaf r m i ->
                       taken (dom p) buf (Tree p) t i)
                  (fun i t => taken (dom p) buf (Tree p) t i)
                  ta (write_moment (dom p) buf) t HL ltac:(lia) (conj Htk Hdone))
        as (t' & Hrun & [Htk' Hdone'] & Hnew).
      * intros m i t0 Hli [Htk0 Hdone0].
        destruct (write_moment_spec N G q p buf t0 ta m i HL HR Hp Hlen Hli Hne Htk0)
          as (t1 & Hw & Htk1 & Hi & Hkeep).
        exists t1. split; [exact Hw |]. split; [| split; [exact Hi | exact Hkeep]].
        split; [exact Htk1 |]. intros r m' j Hr Hrq Hlj. apply Hkeep.
        exact (Hdone0 r m' j Hr Hrq Hlj).
      * exists t'. split; [exact Hrun |]. split; [exact Htk' |].
        intros r m i Hr Hrq Hli. destruct (Z.eq_dec r ta) as [-> | Hne'].
        -- exact (Hnew m i Hli).
        -- apply (Hdone' r m i); [lia | exact Hrq | exact Hli].
  - exists (mkProc (dom p) (TreeAllocFactor p) t (Numnodestree p) (npart p) (mp p)).
    unfold mbind, outcome_bind. rewrite Hrun. cbn [obind]. split; [reflexivity |].
    split; [reflexivity |]. cbn [Tree].
    intros r m i pr Hpr Hli.
    pose proof (Hbuf r m i pr Hpr Hli) as Hbi.
    destruct (Z.eq_dec r q) as [-> | Hne].
    + rewrite Hp in Hpr. injection Hpr as <-.
      assert (Hi : 0 <= i < N) by exact (leaf_in_range N q m i HL Hli).
      destruct Htk as [_ Htk]. destruct (Htk i Hi) as [(no & n & e & H1 & H2 & H3 & H4 & H5)
                                                     | [(r' & m' & Hl' & Hne') _]].
      * exists no, n, e,
          (DomainNODE.mk (d.s (u_d as_moments n)) (vs e) (d.mass (u_d as_moments n))
                         (hmax e) (vmax e) (divVmax e) (d.bitflags (u_d as_moments n))),
          n, e.
        split; [exact H1 |]. split; [exact H2 |]. split; [exact H3 |].
        split; [| split; [exact H4 | split; [exact H5 | apply carries_self]]].
        unfold leaf_moment, mbind, outcome_bind. rewrite H1. cbn [obind].
        rewrite H2. cbn [obind]. rewrite H3. reflexivity.
      * exfalso. apply Hne'. exact (lo_apart N HL r' m' q m i Hl' Hli).
    + assert (Hr : r < NTask) by (destruct Hli as [[Hr _] _]; lia).
      destruct (Hall r m i ltac:(lia) Hne Hli)
        as (no & n & e & n' & e' & x & H1 & H2 & H3 & H4 & H5 & H6 & H7).
      exists no, n, e, x, n', e'.
      split; [exact H1 |]. split; [exact H2 |]. split; [exact H3 |].
      split; [rewrite <- Hbi; exact H6 |]. split; [exact H4 |]. split; [exact H5 | exact H7].
Qed.

(** X19 (force_exchange_pseudodata): when the lists of leaves of the
    processes are ranges of the leaves that do not meet, and on every process
    the leaves have nodes of their own, the exchange ends on all processes,
    and then on every process the node of each listed leaf carries the
    moments (centre of mass, velocity, mass, hmax, vmax, divVmax and the bits
    of the mask) that the node of this leaf had on the process that has the
    leaf in its list; the links, the other bits and the other fields of the
    node stay. *)
Theorem exchange_shares_moments (N : Z) (G : list proc) :
  laid_out N -> nodes_ready N G ->
  exists G', force_exchange_pseudodata G = Ok G' /\ zlen G' = NTask /\
    forall q p, rd G q = Ok p -> exists p', rd G' q = Ok p' /\ informed G p p'.
Proof.
  intros HL HR. unfold force_exchange_pseudodata.
  destruct (local_moments_shared N G HL HR) as (S0 & Hrun0 & HS0).
  destruct (all_shared N G S0 HL HR HS0) as (S & Hrun1 & HlenS & HS).
  destruct (on_each_spec (fun q pb p' => informed G (fst pb) p') take_moments S)
    as (G' & Hrun2 & Hlen & Hall).
  - intros q pb Hpb. destruct (HS q pb Hpb) as (Hq & Hl & Hm).
    exact (take_moments_spec N G q pb HL HR Hq Hl Hm).
  - exists G'. unfold mbind, outcome_bind. rewrite Hrun0. cbn [obind].
    rewrite Hrun1. cbn [obind]. split; [exact Hrun2 |]. split; [lia |].
    intros q p Hp.
    destruct (rd_in_range S q) as (pb & Hpb).
    { rewrite HlenS, <- (rdy_tasks N G HR). exact (rd_range _ _ _ Hp). }
    destruct (HS q pb Hpb) as (Hq & _ & _). rewrite Hp in Hq. injection Hq as Hq.
    destruct (Hall q pb Hpb) as (p' & Hp' & Hinf). exists p'. split; [exact Hp' |].
    rewrite Hq. exact Hinf.
Qed.

End Exchanging.

(** Two processes and three leaves: process 0 has the leaves 0 and 1 in
    its list, process 1 has leaf 2.  Node 4 is the root, the nodes 5, 6 and 7
    are the nodes of the leaves; on process [r] they have other masses than
    on the other process. *)
Definition shared_domain (r : Z) : domain :=
  mkDomain 4 100 9 3 [] [0; 0; 1] r 16 (8, 8, 8)%Q (0, 0, 0)%Q 1 (-1) [] 5 1 0 [] [].

Definition shared_node (mass : Q) (bits : Z) : NODE :=
  mkNode 16 (8, 8, 8)%Q (Moments (d.mk (mass, 0, 0)%Q mass bits (-1) (-1) 4)) 0.

Definition shared_ext (h : Q) : extNODE := mkExt h 0 0 (h, h, 0)%Q (0, 0, 0)%Q 0 0.

Definition shared_tree (r : Z) : tree :=
  mkTree [shared_node 0 0; shared_node (inject_Z (10 * r + 1)) (3 + 4 * r);
          shared_node (inject_Z (10 * r + 2)) 5; shared_node (inject_Z (10 * r + 3)) (12 - 8 * r)]
         [blank_ext; shared_ext (inject_Z (r + 1)); shared_ext (inject_Z (r + 2));
          shared_ext (inject_Z (r + 3))]
         [] [] [5; 6; 7] 4 (-1).

Definition shared_processes : list proc :=
  [mkProc (shared_domain 0) 1 (shared_tree 0) 4 0 None;
   mkProc (shared_domain 1) 1 (shared_tree 1) 4 0 None].

Lemma shared_laid_out : laid_out [0; 2] [1; 2] 1 2 3.
Proof.
  constructor.
  - lia.
  - intros r m Hr Hm. assert (m = 0) by lia. subst m.
    assert (Hc : r = 0 \/ r = 1) by lia. destruct Hc as [-> | ->].
    + exists 0, 1. repeat split; lia || reflexivity.
    + exists 2, 2. repeat split; lia || reflexivity.
  - intros r m r' m' i [[Hr Hm] (f & l & Hf & Hl & Hi)] [[Hr' Hm'] (f' & l' & Hf' & Hl' & Hi')].
    assert (m = 0) by lia. assert (m' = 0) by lia. subst m m'.
    assert (Hc : r = 0 \/ r = 1) by lia. assert (Hc' : r' = 0 \/ r' = 1) by lia.
    destruct Hc as [-> | ->]; destruct Hc' as [-> | ->]; try reflexivity;
      vm_compute in Hf, Hl, Hf', Hl';
      injection Hf as <-; injection Hl as <-; injection Hf' as <-; injection Hl' as <-; lia.
Qed.

Lemma shared_ready : nodes_ready (fun _ => sample_moments) 2 3 shared_processes.
Proof.
  assert (Hp : forall r p, rd shared_processes r = Ok p ->
            r = 0 /\ p = mkProc (shared_domain 0) 1 (shared_tree 0) 4 0 None \/
            r = 1 /\ p = mkProc (shared_domain 1) 1 (shared_tree 1) 4 0 None).
  { intros r p H. pose proof (rd_range _ _ _ H) as Hr. unfold zlen in Hr. cbn in Hr.
    assert (Hc : r = 0 \/ r = 1) by lia.
    destruct Hc as [-> | ->]; cbn in H; injection H as <-; auto. }
  constructor.
  - reflexivity.
  - intros r p H. destruct (Hp r p H) as [[-> ->] | [-> ->]]; reflexivity.
  - intros r p H. destruct (Hp r p H) as [[-> ->] | [-> ->]]; reflexivity.
  - intros r p i H Hi. assert (Hc : i = 0 \/ i = 1 \/ i = 2) by lia.
    destruct (Hp r p H) as [[-> ->] | [-> ->]]; destruct Hc as [-> | [-> | ->]];
      eexists; vm_compute; reflexivity.
  - intros r p i j no H Hi Hj Hni Hnj.
    assert (Hc : i = 0 \/ i = 1 \/ i = 2) by lia.
    assert (Hc' : j = 0 \/ j = 1 \/ j = 2) by lia.
    destruct (Hp r p H) as [[-> ->] | [-> ->]];
      destruct Hc as [-> | [-> | ->]]; destruct Hc' as [-> | [-> | ->]];
      try reflexivity; vm_compute in Hni, Hnj; congruence.
Qed.

Lemma exchange_shares_moments_witness :
  exists G',
    force_exchange_pseudodata 12 (fun _ => sample_moments) [0; 2] [1; 2] 1 2 shared_processes
    = Ok G' /\
    map (fun p => map (fun n => (d.mass (u_d (fun _ => sample_moments) n),
                                 d.bitflags (u_d (fun _ => sample_moments) n)))
                      (Nodes (Tree p))) G'
    = [[(0%Q, 0); (1%Q, 3); (2%Q, 5); (13%Q, 4)]; [(0%Q, 0); (1%Q, 3); (2%Q, 5); (13%Q, 4)]].
Proof.
  destruct (exchange_shares_moments 12 (fun _ => sample_moments) [0; 2] [1; 2] 1 2 3
              shared_processes shared_laid_out shared_ready) as (G' & Hrun & _).
  exists G'. split; [exact Hrun |].
  vm_compute in Hrun. injection Hrun as <-. reflexivity.
Defined.

End Pseudo.


(** ** The moments of the top-level nodes: [force_treeupdate_pseudos] *)

Module TopMoments.

Import ForceTree Kick.

(** The top-level tree as the routine walks it: a node that is not flagged
    as internal top-level node is taken as it is, a flagged one has eight
    daughters. *)
#[warnings="-register-all"]
Inductive toptree : Type :=
| TopLeaf (no : Z)
| TopCell (no : Z) (kids : list toptree).

Section Updating.

(** The bit positions and the macros of [forcetree.h] and the layout of the
    union [u] of a node are not among the sources at hand. *)
Variable BITFLAG_MULTIPLEPARTICLES : Z.
Variable BITFLAG_MIXED_SOFTENINGS_IN_NODE : Z.
Variable BITFLAG_MAX_SOFTENING_TYPE : Z.
Variable BITFLAG_INTERNAL_TOPLEVEL : Z.
Variable BITFLAG_MASK : Z.
Variable extract_max_softening_type : Z -> Z.
Variable maskout_different_softening_flag : Z -> Z.
Variable as_moments : list Z -> d.t.

Variable E : domain.

(** The end of the routine: the sums are stored in node [no]
    ([ADAPTIVE_GRAVSOFT_FORGAS] is not defined). *)
Definition store_pseudo (no : Z) (t : tree) (a : sums) : outcome tree :=
  n ← node_at E t no;
  e ← ext_at E t no;
  let m := u_d as_moments n in
  let '(s, v) := if negb (Qeq_bool (a_mass a) 0)
                 then (vdiv (a_s a) (a_mass a), vdiv (a_vs a) (a_mass a))
                 else (center n, (0, 0, 0)%Q) in
  let multiple_flag := if count_particles a >? 1
                       then Z.shiftl 1 BITFLAG_MULTIPLEPARTICLES else 0 in
  let bits := Z.lor (Z.lor (Z.land (d.bitflags m) (Z.lnot BITFLAG_MASK)) multiple_flag)
                    (diffsoftflag a + Z.shiftl (maxsofttype a) BITFLAG_MAX_SOFTENING_TYPE) in
  t ← set_node E t no
        (with_u n (Moments (d.mk s (a_mass a) bits (d.sibling m) (d.nextnode m) (d.father m))));
  set_ext E t no
    (mkExt (a_hmax a) (a_vmax a) (a_divVmax a) v (dp e) (Ti_lastkicked e) (GlobFlag E)).

(** One turn of for(j = 0; j < 8; j++): daughter [p] is updated first when
    it is an internal top-level node, then it is added to the sums, and its
    sibling is the next daughter.  [rec] is the routine itself. *)
Definition daughter (rec : Z -> tree -> outcome tree) (s : tree * sums * Z)
  : outcome (tree * sums * Z) :=
  let '(t, a, p) := s in
  if (p >=? MaxPart E) && (p <? MaxPart E + MaxNodes t) then
    n ← node_at E t p;
    t ← (if has_flag (d.bitflags (u_d as_moments n)) BITFLAG_INTERNAL_TOPLEVEL
         then rec p t else Ok t);
    a ← add_node BITFLAG_MULTIPLEPARTICLES BITFLAG_MIXED_SOFTENINGS_IN_NODE
          extract_max_softening_type maskout_different_softening_flag as_moments E p t a;
    n ← node_at E t p;
    Ok (t, a, d.sibling (u_d as_moments n))
  else Endrun 6767.

Fixpoint force_treeupdate_pseudos (fuel : nat) (no : Z) (t : tree) : outcome tree :=
  match fuel with
  | O => Hang
  | S fuel' =>
      n ← node_at E t no;
      '(t, a, _) ← for_range 8 0 (fun _ => daughter (force_treeupdate_pseudos fuel'))
                     (t, no_sums, d.nextnode (u_d as_moments n));
      store_pseudo no t a
  end.

(** *** The shape of the top-level tree *)

Lemma toptree_rect' (Q : toptree -> Prop) :
  (forall no, Q (TopLeaf no)) ->
  (forall no kids, Forall Q kids -> Q (TopCell no kids)) ->
  forall T, Q T.
Proof.
  intros Hl Hc. fix IH 1. intros [no | no kids]; [apply Hl |].
  apply Hc. induction kids as [| T kids IHk]; constructor; [apply IH | exact IHk].
Qed.

Definition top_root (T : toptree) : Z :=
  match T with TopLeaf no => no | TopCell no _ => no end.

Definition is_cell (T : toptree) : bool :=
  match T with TopLeaf _ => false | TopCell _ _ => true end.

Fixpoint top_cells (T : toptree) : list Z :=
  match T with
  | TopLeaf _ => []
  | TopCell no kids => no :: List.flat_map top_cells kids
  end.

Fixpoint top_leaves (T : toptree) : list Z :=
  match T with
  | TopLeaf no => [no]
  | TopCell _ kids => List.flat_map top_leaves kids
  end.

Fixpoint top_nodes (T : toptree) : list Z :=
  match T with
  | TopLeaf no => [no]
  | TopCell no kids => no :: List.flat_map top_nodes kids
  end.

Fixpoint depth (T : toptree) : nat :=
  match T with
  | TopLeaf _ => O
  | TopCell _ kids => S (list_max (map depth kids))
  end.

(** The node of [k] is there, inside the tree, and flagged as internal
    top-level node exactly when [k] has daughters. *)
Definition kind_ok (t : tree) (k : toptree) : Prop :=
  internal E t (top_root k) /\
  exists n e, node_at E t (top_root k) = Ok n /\ ext_at E t (top_root k) = Ok e /\
    has_flag (d.bitflags (u_d as_moments n)) BITFLAG_INTERNAL_TOPLEVEL = is_cell k.

(** From [p] on the links [sibling] lead through the nodes of [kids]. *)
Fixpoint chained (t : tree) (p : Z) (kids : list toptree) : Prop :=
  match kids with
  | [] => True
  | k :: rest =>
      p = top_root k /\
      exists n, node_at E t p = Ok n /\ chained t (d.sibling (u_d as_moments n)) rest
  end.

#[warnings="-register-all"]
Inductive top_shape (t : tree) : toptree -> Prop :=
| top_leaf_shape (no : Z) : top_shape t (TopLeaf no)
| top_cell_shape (no : Z) (kids : list toptree) (n : NODE) (e : extNODE) :
    node_at E t no = Ok n ->
    ext_at E t no = Ok e ->
    length kids = 8%nat ->
    chained t (d.nextnode (u_d as_moments n)) kids ->
    Forall (kind_ok t) kids ->
    Forall (top_shape t) kids ->
    top_shape t (TopCell no kids).

(** The mass of node [l] and its mass times its centre of mass and times
    its velocity. *)
Definition mass_at (t : tree) (l : Z) : Q :=
  match node_at E t l with Ok n => d.mass (u_d as_moments n) | _ => 0%Q end.

Definition moment_at (t : tree) (l : Z) : vec3 :=
  match node_at E t l with
  | Ok n => vscale (d.mass (u_d as_moments n)) (d.s (u_d as_moments n))
  | _ => (0, 0, 0)%Q
  end.

Definition momentum_at (t : tree) (l : Z) : vec3 :=
  match node_at E t l, ext_at E t l with
  | Ok n, Ok e => vscale (d.mass (u_d as_moments n)) (vs e)
  | _, _ => (0, 0, 0)%Q
  end.

(** Node [nd] with [e] sums up the nodes [L] of tree [t]: it has their mass,
    and its hmax, vmax and divVmax are not below theirs. *)
Record summed (t : tree) (L : list Z) (nd : NODE) (e : extNODE) : Prop := {
  sm_mass : d.mass (u_d as_moments nd) == qsum (map (mass_at t) L);
  sm_bounds : forall l el, In l L -> ext_at E t l = Ok el ->
      (hmax el <= hmax e /\ vmax el <= vmax e /\ divVmax el <= divVmax e)%Q
}.

(** Node [nd] with [e] has the moment and the momentum of the nodes [L] of
    tree [t]. *)
Record weighted (t : tree) (L : list Z) (nd : NODE) (e : extNODE) : Prop := {
  sm_s : veq (vscale (d.mass (u_d as_moments nd)) (d.s (u_d as_moments nd)))
             (vsum (map (moment_at t) L));
  sm_vs : veq (vscale (d.mass (u_d as_moments nd)) (vs e)) (vsum (map (momentum_at t) L))
}.


(** [extract_max_softening_type] yields 7, for no particle, or a type that
    [All.ForceSoftening] has. *)
Definition soft_ok : Prop :=
  forall b, extract_max_softening_type b = 7 \/
            0 <= extract_max_softening_type b < zlen (ForceSoftening E).

Definition soft (a : sums) : Prop :=
  maxsofttype a = 7 \/ 0 <= maxsofttype a < zlen (ForceSoftening E).

Definition masses_ok (t : tree) (L : list Z) : Prop :=
  forall l, In l L -> (0 <= mass_at t l)%Q.

(** What a walk over the cells [C] leaves of the tree: the other nodes as
    they were, and of every node its links and its centre. *)
Record updated (t t' : tree) (C : list Z) : Prop := {
  wk_max : MaxNodes t' = MaxNodes t;
  wk_rest : forall n, ~ In n C ->
      node_at E t' n = node_at E t n /\ ext_at E t' n = ext_at E t n;
  wk_links : forall n nd, node_at E t n = Ok nd ->
      exists nd', node_at E t' n = Ok nd' /\
        d.sibling (u_d as_moments nd') = d.sibling (u_d as_moments nd) /\
        d.nextnode (u_d as_moments nd') = d.nextnode (u_d as_moments nd) /\
        center nd' = center nd;
  wk_ext : forall n e, ext_at E t n = Ok e -> exists e', ext_at E t' n = Ok e'
}.

Lemma updated_refl (t : tree) (C : list Z) : updated t t C.
Proof.
  constructor; [reflexivity | auto | |].
  - intros n nd Hn. exists nd. auto.
  - intros n e He. exists e. exact He.
Qed.

Lemma updated_trans (t t1 t2 : tree) (C1 C2 : list Z) :
  updated t t1 C1 -> updated t1 t2 C2 -> updated t t2 (C1 ++ C2).
Proof.
  intros [M1 R1 L1 X1] [M2 R2 L2 X2]. constructor.
  - congruence.
  - intros n Hn. destruct (R1 n) as [Ha Hb]; [intros Hc; apply Hn, in_or_app; now left |].
    destruct (R2 n) as [Hc Hd]; [intros Hc; apply Hn, in_or_app; now right |].
    split; congruence.
  - intros n nd Hn. destruct (L1 n nd Hn) as (nd1 & Hn1 & Ha & Hb & Hc).
    destruct (L2 n nd1 Hn1) as (nd2 & Hn2 & Ha2 & Hb2 & Hc2).
    exists nd2. repeat split; congruence.
  - intros n e He. destruct (X1 n e He) as (e1 & He1). exact (X2 n e1 He1).
Qed.

Lemma updated_weaken (t t' : tree) (C C' : list Z) :
  (forall n, In n C -> In n C') -> updated t t' C -> updated t t' C'.
Proof.
  intros HC [M R L X]. constructor; try assumption.
  intros n Hn. apply R. intros Hc. apply Hn, HC, Hc.
Qed.

(** The trees [t] and [t1] have the same nodes [L]. *)
Definition agree (t t1 : tree) (L : list Z) : Prop :=
  forall n, In n L -> node_at E t1 n = node_at E t n /\ ext_at E t1 n = ext_at E t n.

Lemma kind_agree (t t1 : tree) (k : toptree) :
  MaxNodes t1 = MaxNodes t -> agree t t1 [top_root k] -> kind_ok t k -> kind_ok t1 k.
Proof.
  intros HM Ha [Hint (n & e & Hn & He & Hf)]. destruct (Ha (top_root k)) as [H1 H2]; [now left |].
  split; [unfold internal in *; rewrite HM; exact Hint |].
  exists n, e. rewrite H1, H2. auto.
Qed.

Lemma chained_agree (t t1 : tree) (ks : list toptree) (p : Z) :
  agree t t1 (map top_root ks) -> chained t p ks -> chained t1 p ks.
Proof.
  revert p. induction ks as [| k ks IH]; intros p Ha Hc; [exact I |].
  destruct Hc as (-> & n & Hn & Hc). split; [reflexivity |]. exists n.
  destruct (Ha (top_root k)) as [H1 _]; [now left |]. rewrite H1. split; [exact Hn |].
  apply IH; [| exact Hc]. intros m Hm. apply Ha. now right.
Qed.

Lemma roots_nodes (ks : list toptree) (n : Z) :
  In n (map top_root ks) -> In n (List.flat_map top_nodes ks).
Proof.
  intros Hn. apply in_map_iff in Hn as (k & <- & Hk). apply in_flat_map. exists k.
  split; [exact Hk |]. destruct k; now left.
Qed.

Lemma top_shape_agree (t t1 : tree) (T : toptree) :
  MaxNodes t1 = MaxNodes t -> agree t t1 (top_nodes T) -> top_shape t T -> top_shape t1 T.
Proof.
  intros HM. induction T as [no | no kids IH] using toptree_rect'; intros Ha Hs.
  - constructor.
  - inversion Hs as [| ? ? n e Hn He Hlen Hch Hk Hsh]; subst.
    destruct (Ha no) as [H1 H2]; [now left |].
    assert (Hkids : agree t t1 (List.flat_map top_nodes kids)).
    { intros m Hm. apply Ha. now right. }
    apply (top_cell_shape t1 no kids n e); [rewrite H1; exact Hn | rewrite H2; exact He | exact Hlen | | |].
    + apply (chained_agree t t1); [| exact Hch].
      intros m Hm. apply Hkids. now apply roots_nodes.
    + apply List.Forall_forall. intros k Hin. apply (kind_agree t t1 k HM).
      * intros m [<- | []]. apply Hkids, roots_nodes, in_map, Hin.
      * exact (proj1 (List.Forall_forall _ _) Hk k Hin).
    + apply List.Forall_forall. intros k Hin.
      apply (proj1 (List.Forall_forall _ _) IH k Hin).
      * intros m Hm. apply Hkids. apply in_flat_map. now exists k.
      * exact (proj1 (List.Forall_forall _ _) Hsh k Hin).
Qed.

Lemma cells_nodes (T : toptree) (n : Z) : In n (top_cells T) -> In n (top_nodes T).
Proof.
  induction T as [no | no kids IH] using toptree_rect'; intros Hn; [destruct Hn |].
  cbn [top_cells top_nodes] in *. destruct Hn as [-> | Hn]; [now left | right].
  apply in_flat_map in Hn as (k & Hk & Hn). apply in_flat_map. exists k. split; [exact Hk |].
  exact (proj1 (List.Forall_forall _ _) IH k Hk Hn).
Qed.

Lemma leaves_nodes (T : toptree) (n : Z) : In n (top_leaves T) -> In n (top_nodes T).
Proof.
  induction T as [no | no kids IH] using toptree_rect'; intros Hn; [exact Hn |].
  cbn [top_leaves top_nodes] in *. right.
  apply in_flat_map in Hn as (k & Hk & Hn). apply in_flat_map. exists k. split; [exact Hk |].
  exact (proj1 (List.Forall_forall _ _) IH k Hk Hn).
Qed.

Lemma sums_agree (t t1 : tree) (L : list Z) :
  agree t t1 L ->
  map (mass_at t1) L = map (mass_at t) L /\
  map (moment_at t1) L = map (moment_at t) L /\
  map (momentum_at t1) L = map (momentum_at t) L.
Proof.
  intros Ha. repeat split; apply map_ext_in; intros l Hl; destruct (Ha l Hl) as [H1 H2];
    unfold mass_at, moment_at, momentum_at; rewrite H1, ?H2; reflexivity.
Qed.

Lemma Qmaxb_l (a b : Q) : (a <= Qmaxb a b)%Q.
Proof.
  unfold Qmaxb. destruct (Split.Qltb a b) eqn:H; [apply Qltb_true in H; lra | lra].
Qed.

Lemma Qmaxb_r (a b : Q) : (b <= Qmaxb a b)%Q.
Proof.
  unfold Qmaxb. destruct (Split.Qltb a b) eqn:H; [lra |].
  apply Qnot_lt_le. intros Hc. apply Qltb_true in Hc. congruence.
Qed.

Lemma qsum_nonneg (f : Z -> Q) (L : list Z) :
  (forall l, In l L -> 0 <= f l)%Q -> (0 <= qsum (map f L))%Q.
Proof.
  induction L as [| l L IH]; intros H; [cbn; lra |]. cbn [map qsum fold_right].
  assert (0 <= f l)%Q by (apply H; now left).
  assert (0 <= qsum (map f L))%Q by (apply IH; intros j Hj; apply H; now right).
  unfold qsum in *. lra.
Qed.

(** Nodes of no mass, none of them negative, have no moment. *)
Lemma weightless_nodes (t : tree) (L : list Z) :
  masses_ok t L -> qsum (map (mass_at t) L) == 0 ->
  veq (vsum (map (moment_at t) L)) (0, 0, 0)%Q /\
  veq (vsum (map (momentum_at t) L)) (0, 0, 0)%Q.
Proof.
  induction L as [| l L IH]; intros H Hz; [split; apply veq_refl |].
  cbn [map qsum fold_right] in Hz. fold (qsum (map (mass_at t) L)) in Hz.
  assert (Hl : (0 <= mass_at t l)%Q) by (apply H; now left).
  assert (HL : (0 <= qsum (map (mass_at t) L))%Q).
  { apply qsum_nonneg. intros j Hj. apply H. now right. }
  assert (Hl0 : mass_at t l == 0) by lra.
  assert (HL0 : qsum (map (mass_at t) L) == 0) by lra.
  destruct (IH (fun j Hj => H j (or_intror Hj)) HL0) as [IHa IHb].
  cbn [map vsum fold_right]. fold (vsum (map (moment_at t) L)).
  fold (vsum (map (momentum_at t) L)).
  assert (Ha : veq (moment_at t l) (0, 0, 0)%Q).
  { unfold moment_at, mass_at in *. destruct (node_at E t l); try apply veq_refl.
    now apply vscale_zero. }
  assert (Hb : veq (momentum_at t l) (0, 0, 0)%Q).
  { unfold momentum_at, mass_at in *. destruct (node_at E t l); try apply veq_refl.
    destruct (ext_at E t l); try apply veq_refl. now apply vscale_zero. }
  split; (apply veq_trans with (vadd (0, 0, 0)%Q (0, 0, 0)%Q);
          [apply vadd_veq; assumption | apply vadd_zero_r]).
Qed.

Lemma add_node_total (p : Z) (t : tree) (a : sums) (nd : NODE) (e : extNODE) :
  soft_ok -> node_at E t p = Ok nd -> ext_at E t p = Ok e -> soft a ->
  exists a',
    add_node BITFLAG_MULTIPLEPARTICLES BITFLAG_MIXED_SOFTENINGS_IN_NODE
      extract_max_softening_type maskout_different_softening_flag as_moments E p t a = Ok a' /\
    soft a' /\
    a_mass a' = (a_mass a + d.mass (u_d as_moments nd))%Q /\
    a_s a' = vadd (a_s a) (vscale (d.mass (u_d as_moments nd)) (d.s (u_d as_moments nd))) /\
    a_vs a' = vadd (a_vs a) (vscale (d.mass (u_d as_moments nd)) (vs e)) /\
    a_hmax a' = Qmaxb (a_hmax a) (hmax e) /\
    a_vmax a' = Qmaxb (a_vmax a) (vmax e) /\
    a_divVmax a' = Qmaxb (a_divVmax a) (divVmax e).
Proof.
  intros Hok Hn He Ha. unfold add_node, mbind, outcome_bind. rewrite Hn. cbn [obind].
  rewrite He. cbn [obind]. cbv zeta. fold (u_d as_moments nd).
  set (b := d.bitflags (u_d as_moments nd)).
  set (diff := Z.lor (diffsoftflag a) (maskout_different_softening_flag b)).
  assert (Hin : exists most diff',
            (if maxsofttype a =? 7 then Ok (extract_max_softening_type b, diff)
             else if negb (extract_max_softening_type b =? 7)
                  then softening BITFLAG_MIXED_SOFTENINGS_IN_NODE E
                         (extract_max_softening_type b) (maxsofttype a) diff
                  else Ok (maxsofttype a, diff)) = Ok (most, diff') /\
            (most = 7 \/ 0 <= most < zlen (ForceSoftening E))).
  { destruct (Z.eqb_spec (maxsofttype a) 7) as [H7 | H7].
    - eexists _, _. split; [reflexivity | apply Hok].
    - destruct (Z.eqb_spec (extract_max_softening_type b) 7) as [Hc7 | Hc7]; cbn [negb].
      + eexists _, _. split; [reflexivity | exact Ha].
      + destruct (Hok b) as [Hc | Hc]; [contradiction |].
        destruct Ha as [Hm | Hm]; [contradiction |].
        unfold softening, mbind, outcome_bind.
        destruct (rd_in_range (ForceSoftening E) _ Hc) as (fc & Hfc).
        destruct (rd_in_range (ForceSoftening E) _ Hm) as (fm & Hfm).
        rewrite Hfc. cbn [obind]. rewrite Hfm. cbn [obind].
        destruct (Split.Qltb fm fc); [eexists _, _; split; [reflexivity | right; exact Hc] |].
        destruct (Split.Qltb fc fm); eexists _, _; (split; [reflexivity | right; exact Hm]). }
  destruct Hin as (most & diff' & Hin & Hmost). rewrite Hin. cbn [obind].
  eexists. split; [reflexivity |]. cbn [a_mass a_s a_vs a_hmax a_vmax a_divVmax maxsofttype].
  unfold soft. cbn [maxsofttype]. repeat split; try reflexivity. exact Hmost.
Qed.

(** The end of the routine for node [no]. *)
Lemma store_pseudo_spec (no : Z) (t : tree) (a : sums) (n : NODE) (e : extNODE) :
  node_at E t no = Ok n -> ext_at E t no = Ok e ->
  exists t' nd' e',
    store_pseudo no t a = Ok t' /\
    MaxNodes t' = MaxNodes t /\
    (forall k, k <> no -> node_at E t' k = node_at E t k /\ ext_at E t' k = ext_at E t k) /\
    node_at E t' no = Ok nd' /\ ext_at E t' no = Ok e' /\
    center nd' = center n /\
    d.sibling (u_d as_moments nd') = d.sibling (u_d as_moments n) /\
    d.nextnode (u_d as_moments nd') = d.nextnode (u_d as_moments n) /\
    d.mass (u_d as_moments nd') = a_mass a /\
    hmax e' = a_hmax a /\ vmax e' = a_vmax a /\ divVmax e' = a_divVmax a /\
    (if Qeq_bool (a_mass a) 0
     then d.s (u_d as_moments nd') = center n /\ vs e' = (0, 0, 0)%Q
     else d.s (u_d as_moments nd') = vdiv (a_s a) (a_mass a) /\
          vs e' = vdiv (a_vs a) (a_mass a)).
Proof.
  intros Hn He. unfold store_pseudo. unfold mbind at 1 2, outcome_bind.
  rewrite Hn. cbn [obind]. rewrite He. cbn [obind]. cbv zeta.
  destruct (if negb (Qeq_bool (a_mass a) 0)
            then (vdiv (a_s a) (a_mass a), vdiv (a_vs a) (a_mass a))
            else (center n, (0, 0, 0)%Q)) as [s v] eqn:Hsv.
  match goal with
  | |- context [set_node E t no ?x] => set (nx := x)
  end.
  match goal with
  | |- context [set_ext E _ no ?y] => set (ex := y)
  end.
  assert (H1 : set_node E t no nx
               = Ok (with_Nodes t (<[Z.to_nat (no - MaxPart E) := nx]> (Nodes t)))).
  { unfold set_node, mbind, outcome_bind. rewrite wr_in_range; [reflexivity |].
    exact (rd_range _ _ _ Hn). }
  set (t1 := with_Nodes t (<[Z.to_nat (no - MaxPart E) := nx]> (Nodes t))) in *.
  assert (H2 : set_ext E t1 no ex
               = Ok (with_Extnodes t1 (<[Z.to_nat (no - MaxPart E) := ex]> (Extnodes t1)))).
  { unfold set_ext, mbind, outcome_bind. rewrite wr_in_range; [reflexivity |].
    exact (rd_range _ _ _ He). }
  set (t2 := with_Extnodes t1 (<[Z.to_nat (no - MaxPart E) := ex]> (Extnodes t1))) in *.
  exists t2, nx, ex. unfold mbind, outcome_bind. rewrite H1. cbn [obind].
  split; [exact H2 |].
  pose proof (fun k => node_at_set_node E t t1 no k nx H1) as K1.
  pose proof (fun k => ext_at_set_ext E t1 t2 no k ex H2) as K2.
  split; [destruct (K1 0) as (_ & _ & M1 & _); destruct (K2 0) as (_ & _ & M2 & _); congruence |].
  split.
  { intros k Hk. destruct (K1 k) as (Ha & Hb & _). destruct (K2 k) as (Hc & Hd & _).
    destruct (Z.eqb_spec k no); [contradiction |]. split; congruence. }
  destruct (K1 no) as (Ha & _). destruct (K2 no) as (Hc & Hd & _).
  rewrite Z.eqb_refl in Ha, Hc.
  split; [rewrite Hd; exact Ha |]. split; [exact Hc |].
  subst nx ex. cbn.
  destruct (Qeq_bool (a_mass a) 0); cbn [negb] in Hsv; injection Hsv as <- <-;
    repeat split; reflexivity.
Qed.

(** Daughter [k] is done in tree [t1]: its cells were updated, and its node
    sums up its leaves. *)
Definition kid_done (t t1 : tree) (k : toptree) : Prop :=
  updated t t1 (top_cells k) /\
  exists nd e, node_at E t1 (top_root k) = Ok nd /\ ext_at E t1 (top_root k) = Ok e /\
    summed t (top_leaves k) nd e /\
    (masses_ok t (top_leaves k) -> weighted t (top_leaves k) nd e).

(** What a call of the routine with fuel [fuel] on the node of [k]
    achieves. *)
Definition walk_done (fuel : nat) (k : toptree) : Prop :=
  forall t, top_shape t k -> NoDup (top_nodes k) -> (depth k <= fuel)%nat ->
    is_cell k = true ->
    exists t', force_treeupdate_pseudos fuel (top_root k) t = Ok t' /\ kid_done t t' k /\
      (qsum (map (mass_at t) (top_leaves k)) == 0 ->
       exists nd e, node_at E t' (top_root k) = Ok nd /\ ext_at E t' (top_root k) = Ok e /\
         d.s (u_d as_moments nd) = center nd /\ vs e = (0, 0, 0)%Q).

Lemma leaf_done (t : tree) (k : toptree) :
  kind_ok t k -> is_cell k = false -> kid_done t t k.
Proof.
  intros [_ (n & e & Hn & He & _)] Hk. destruct k as [no | ? ?]; [| discriminate].
  unfold kid_done. cbn [top_root top_cells top_leaves] in *. split; [apply updated_refl |].
  exists n, e. split; [exact Hn |]. split; [exact He |].
  split; [| intros _]; constructor; cbn [top_leaves map qsum vsum fold_right].
  - unfold mass_at. rewrite Hn. ring.
  - intros l el [<- | []] Hel. rewrite He in Hel. injection Hel as <-.
    repeat split; apply Qle_refl.
  - unfold moment_at. rewrite Hn. apply veq_sym, vadd_zero_r.
  - unfold momentum_at. rewrite Hn, He. apply veq_sym, vadd_zero_r.
Qed.

Lemma qsum_map_app (f : Z -> Q) (L1 L2 : list Z) :
  qsum (map f (L1 ++ L2)) == qsum (map f L1) + qsum (map f L2).
Proof. rewrite map_app. apply qsum_app. Qed.

Lemma vsum_map_app (f : Z -> vec3) (L1 L2 : list Z) :
  veq (vsum (map f (L1 ++ L2))) (vadd (vsum (map f L1)) (vsum (map f L2))).
Proof. rewrite map_app. apply vsum_app. Qed.

(** The loop over the daughters [ks], from daughter [p] on. *)
Lemma daughters_spec (fuel' : nat) :
  soft_ok ->
  forall ks,
    Forall (walk_done fuel') ks ->
    forall t a p j,
      Forall (top_shape t) ks -> Forall (kind_ok t) ks -> chained t p ks ->
      NoDup (List.flat_map top_nodes ks) ->
      Forall (fun k => (depth k <= fuel')%nat) ks -> soft a ->
      exists t' a' p',
        for_range (length ks) j (fun _ => daughter (force_treeupdate_pseudos fuel')) (t, a, p)
        = Ok (t', a', p') /\
        updated t t' (List.flat_map top_cells ks) /\ soft a' /\
        a_mass a' == a_mass a + qsum (map (mass_at t) (List.flat_map top_leaves ks)) /\
        (a_hmax a <= a_hmax a' /\ a_vmax a <= a_vmax a' /\ a_divVmax a <= a_divVmax a')%Q /\
        (forall l el, In l (List.flat_map top_leaves ks) -> ext_at E t l = Ok el ->
           (hmax el <= a_hmax a' /\ vmax el <= a_vmax a' /\ divVmax el <= a_divVmax a')%Q) /\
        (masses_ok t (List.flat_map top_leaves ks) ->
         veq (a_s a') (vadd (a_s a) (vsum (map (moment_at t) (List.flat_map top_leaves ks)))) /\
         veq (a_vs a')
             (vadd (a_vs a) (vsum (map (momentum_at t) (List.flat_map top_leaves ks))))).
Proof.
  intros Hok ks. induction ks as [| k ks IH];
    intros Hwalk t a p j Hshape Hkind Hch Hnd Hdepth Ha.
  - exists t, a, p. split; [reflexivity |]. split; [apply updated_refl |]. split; [exact Ha |].
    cbn [flat_map map qsum vsum fold_right]. split; [ring |].
    split; [repeat split; apply Qle_refl |]. split; [intros l el [] |].
    intros _. split; apply veq_sym, vadd_zero_r.
  - apply List.Forall_cons_iff in Hwalk as [Hwk Hwalk].
    apply List.Forall_cons_iff in Hshape as [Hsk Hshape].
    apply List.Forall_cons_iff in Hkind as [Hkk Hkind].
    apply List.Forall_cons_iff in Hdepth as [Hdk Hdepth].
    destruct Hch as (-> & nk & Hnk & Hch). cbn [flat_map] in *.
    apply NoDup_app in Hnd as (Hnd1 & Hdisj & Hnd2).
    assert (Hkid : exists t1,
              (if has_flag (d.bitflags (u_d as_moments nk)) BITFLAG_INTERNAL_TOPLEVEL
               then force_treeupdate_pseudos fuel' (top_root k) t else Ok t) = Ok t1 /\
              kid_done t t1 k).
    { pose proof Hkk as [Hint (n & e & Hn & He & Hflag)].
      rewrite Hnk in Hn. injection Hn as <-. rewrite Hflag.
      destruct (is_cell k) eqn:Hc.
      - destruct (Hwk t Hsk Hnd1 Hdk Hc) as (t1 & Hrun & Hdone & _).
        exists t1. split; [exact Hrun | exact Hdone].
      - exists t. split; [reflexivity |]. apply leaf_done; [exact Hkk | exact Hc]. }
    destruct Hkid as (t1 & Hcall & [Hw1 (nd1 & e1 & Hnd1' & He1 & Hsum1 & Hwt1)]).
    destruct (add_node_total (top_root k) t1 a nd1 e1 Hok Hnd1' He1 Ha)
      as (a1 & Hadd & Ha1 & Am & As & Av & Ah & Avm & Ad).
    destruct (wk_links _ _ _ Hw1 (top_root k) nk Hnk) as (nd' & Hnd'' & Hsib & _).
    rewrite Hnd1' in Hnd''. injection Hnd'' as <-.
    assert (Hagree : agree t t1 (List.flat_map top_nodes ks)).
    { intros n Hn. apply (wk_rest _ _ _ Hw1). intros Hc.
      apply (Hdisj n); apply list_elem_of_In; [apply cells_nodes; exact Hc | exact Hn]. }
    assert (Hshape1 : Forall (top_shape t1) ks).
    { apply List.Forall_forall. intros k' Hk'.
      apply (top_shape_agree t t1 k' (wk_max _ _ _ Hw1)).
      - intros n Hn. apply Hagree. apply in_flat_map. now exists k'.
      - exact (proj1 (List.Forall_forall _ _) Hshape k' Hk'). }
    assert (Hkind1 : Forall (kind_ok t1) ks).
    { apply List.Forall_forall. intros k' Hk'.
      apply (kind_agree t t1 k' (wk_max _ _ _ Hw1)).
      - intros n [<- | []]. apply Hagree, roots_nodes, in_map, Hk'.
      - exact (proj1 (List.Forall_forall _ _) Hkind k' Hk'). }
    assert (Hch1 : chained t1 (d.sibling (u_d as_moments nd1)) ks).
    { rewrite Hsib. apply (chained_agree t t1); [| exact Hch].
      intros n Hn. apply Hagree. now apply roots_nodes. }
    assert (Hleaves : agree t t1 (List.flat_map top_leaves ks)).
    { intros n Hn. apply Hagree. apply in_flat_map in Hn as (k' & Hk' & Hn).
      apply in_flat_map. exists k'. split; [exact Hk' | now apply leaves_nodes]. }
    destruct (sums_agree t t1 _ Hleaves) as (Sm & Ss & Sv).
    destruct (IH Hwalk t1 a1 (d.sibling (u_d as_moments nd1)) (j + 1)
                Hshape1 Hkind1 Hch1 Hnd2 Hdepth Ha1)
      as (t' & a' & p' & Hrun & Hw2 & Ha' & Bm & (Bh & Bvm & Bd) & Bl & Bw).
    rewrite Sm in Bm. rewrite Ss, Sv in Bw.
    exists t', a', p'. split.
    { cbn [length for_range]. unfold mbind at 1, outcome_bind. unfold daughter at 1.
      destruct Hkk as [Hint _]. unfold internal in Hint.
      destruct (Z.geb_spec (top_root k) (MaxPart E)); [| lia].
      destruct (Z.ltb_spec (top_root k) (MaxPart E + MaxNodes t)); [| lia].
      cbn [andb]. unfold mbind at 1, outcome_bind. rewrite Hnk. cbn [obind].
      unfold mbind at 1, outcome_bind. rewrite Hcall. cbn [obind].
      unfold mbind at 1, outcome_bind. rewrite Hadd. cbn [obind].
      unfold mbind at 1, outcome_bind. rewrite Hnd1'. cbn [obind]. exact Hrun. }
    destruct Hsum1 as [Cm Cb].
    split; [exact (updated_trans _ _ _ _ _ Hw1 Hw2) |]. split; [exact Ha' |].
    split; [rewrite qsum_map_app, Bm, Am, Cm; ring |].
    pose proof (Qmaxb_l (a_hmax a) (hmax e1)). pose proof (Qmaxb_l (a_vmax a) (vmax e1)).
    pose proof (Qmaxb_l (a_divVmax a) (divVmax e1)).
    pose proof (Qmaxb_r (a_hmax a) (hmax e1)). pose proof (Qmaxb_r (a_vmax a) (vmax e1)).
    pose proof (Qmaxb_r (a_divVmax a) (divVmax e1)).
    rewrite <- Ah in *. rewrite <- Avm in *. rewrite <- Ad in *.
    split; [repeat split; lra |]. split.
    + intros l el Hl Hel. apply in_app_or in Hl as [Hl | Hl].
      * destruct (Cb l el Hl Hel) as (C1 & C2 & C3). repeat split; lra.
      * apply (Bl l el Hl). rewrite (proj2 (Hleaves l Hl)). exact Hel.
    + intros Hmass.
      assert (Hmk : masses_ok t (top_leaves k)).
      { intros l Hl. apply Hmass, in_or_app. now left. }
      assert (Hmass1 : masses_ok t1 (List.flat_map top_leaves ks)).
      { intros l Hl. unfold mass_at. rewrite (proj1 (Hleaves l Hl)).
        apply Hmass, in_or_app. now right. }
      destruct (Hwt1 Hmk) as [Cs Cv]. destruct (Bw Hmass1) as [Bs Bv]. split.
      * apply (veq_step (a_s a) (a_s a1) (a_s a') (vsum (map (moment_at t) (top_leaves k)))
                 (vsum (map (moment_at t) (List.flat_map top_leaves ks))));
          [| exact Bs | apply vsum_map_app].
        rewrite As. apply vadd_veq; [apply veq_refl | exact Cs].
      * apply (veq_step (a_vs a) (a_vs a1) (a_vs a')
                 (vsum (map (momentum_at t) (top_leaves k)))
                 (vsum (map (momentum_at t) (List.flat_map top_leaves ks))));
          [| exact Bv | apply vsum_map_app].
        rewrite Av. apply vadd_veq; [apply veq_refl | exact Cv].
Qed.

Lemma depth_kids (no : Z) (kids : list toptree) (fuel' : nat) :
  (depth (TopCell no kids) <= S fuel')%nat -> Forall (fun k => (depth k <= fuel')%nat) kids.
Proof.
  cbn [depth]. intros H. assert (Hm : (list_max (map depth kids) <= fuel')%nat) by lia.
  apply list_max_le in Hm. apply List.Forall_forall. intros k Hk.
  apply (proj1 (List.Forall_forall _ _) Hm). apply in_map. exact Hk.
Qed.

(** The walk of the routine over a top-level tree. *)
Lemma pseudos_walk : soft_ok -> forall T fuel, walk_done fuel T.
Proof.
  intros Hok T. induction T as [no | no kids IH] using toptree_rect';
    intros fuel t Hs Hnd Hdepth Hcell; [discriminate |].
  destruct fuel as [| fuel']; [cbn [depth] in Hdepth; lia |].
  inversion Hs as [| ? ? n e Hn He Hlen Hch Hk Hsh]; subst.
  cbn [top_root top_cells top_leaves top_nodes] in *.
  apply NoDup_cons in Hnd as [Hno Hndk].
  assert (Hwalk : Forall (walk_done fuel') kids).
  { apply List.Forall_forall. intros k Hin. exact (proj1 (List.Forall_forall _ _) IH k Hin fuel'). }
  destruct (daughters_spec fuel' Hok kids Hwalk t no_sums (d.nextnode (u_d as_moments n)) 0
              Hsh Hk Hch Hndk (depth_kids no kids fuel' Hdepth) (or_introl eq_refl))
    as (t2 & a2 & p2 & Hloop & Hw2 & _ & Bm & _ & Bl & Bw).
  cbn [a_mass a_s a_vs no_sums] in Bm, Bw. rewrite Qplus_0_l in Bm.
  assert (Hout : ~ In no (List.flat_map top_cells kids)).
  { intros Hc. apply Hno. apply list_elem_of_In.
    apply in_flat_map in Hc as (k & Hin & Hc). apply in_flat_map. exists k.
    split; [exact Hin | now apply cells_nodes]. }
  destruct (wk_rest _ _ _ Hw2 no Hout) as [Hn2 He2]. rewrite Hn in Hn2. rewrite He in He2.
  destruct (store_pseudo_spec no t2 a2 n e Hn2 He2)
    as (t' & nd' & e' & Hstore & Hmax & Hrest & Hnd' & He' & Hcen & Hsib & Hnext & Hma
        & Hh & Hv & Hdv & Hif).
  exists t'. split.
  { cbn [force_treeupdate_pseudos]. unfold mbind at 1, outcome_bind. rewrite Hn. cbn [obind].
    rewrite <- Hlen. unfold mbind at 1, outcome_bind. rewrite Hloop. cbn [obind].
    exact Hstore. }
  assert (Hw3 : updated t2 t' [no]).
  { constructor.
    - exact Hmax.
    - intros k Hk'. apply Hrest. intros ->. apply Hk'. now left.
    - intros k nd Hk'. destruct (Z.eq_dec k no) as [-> | Hne].
      + rewrite Hn2 in Hk'. injection Hk' as <-. exists nd'. auto.
      + exists nd. destruct (Hrest k Hne) as [Ha _]. rewrite Ha. auto.
    - intros k x Hk'. destruct (Z.eq_dec k no) as [-> | Hne].
      + exists e'. exact He'.
      + exists x. destruct (Hrest k Hne) as [_ Hb]. rewrite Hb. exact Hk'. }
  assert (Hzero : qsum (map (mass_at t) (List.flat_map top_leaves kids)) == 0 ->
                  Qeq_bool (a_mass a2) 0 = true).
  { intros Hz. apply Qeq_bool_iff. rewrite Bm. exact Hz. }
  split; [split |].
  - apply (updated_weaken t t' (List.flat_map top_cells kids ++ [no])).
    + intros k Hk'. apply in_app_or in Hk' as [Hk' | [<- | []]]; [now right | now left].
    + exact (updated_trans _ _ _ _ _ Hw2 Hw3).
  - exists nd', e'. split; [exact Hnd' |]. split; [exact He' |]. split.
    + constructor.
      * rewrite Hma. exact Bm.
      * intros l el Hl Hel. rewrite Hh, Hv, Hdv. exact (Bl l el Hl Hel).
    + intros Hmass. destruct (Bw Hmass) as [Bs Bv].
      apply veq_zero_l in Bs. apply veq_zero_l in Bv.
      constructor; rewrite Hma;
        (destruct (Qeq_bool (a_mass a2) 0) eqn:Hq; destruct Hif as [Hs' Hv'];
         [apply Qeq_bool_eq in Hq;
          assert (Hz : qsum (map (mass_at t) (List.flat_map top_leaves kids)) == 0)
            by (rewrite <- Bm; exact Hq);
          destruct (weightless_nodes t _ Hmass Hz) as [W1 W2];
          apply veq_trans with (0, 0, 0)%Q; [now apply vscale_zero | now apply veq_sym]
         | apply Qeq_bool_neq in Hq]).
      * rewrite Hs'. apply veq_trans with (a_s a2); [now apply vscale_vdiv | exact Bs].
      * rewrite Hv'. apply veq_trans with (a_vs a2); [now apply vscale_vdiv | exact Bv].
  - intros Hz. exists nd', e'. split; [exact Hnd' |]. split; [exact He' |].
    rewrite (Hzero Hz) in Hif. destruct Hif as [Hs' Hv']. split; [congruence | exact Hv'].
Qed.

Lemma leaves_not_cells (T : toptree) :
  NoDup (top_nodes T) -> forall n, In n (top_cells T) -> In n (top_leaves T) -> False.
Proof.
  induction T as [no | no kids IH] using toptree_rect'; intros Hnd n Hc Hl; [destruct Hc |].
  cbn [top_nodes top_cells top_leaves] in *. apply NoDup_cons in Hnd as [Hno Hnd].
  destruct Hc as [<- | Hc].
  { apply Hno, list_elem_of_In. apply in_flat_map in Hl as (k & Hk & Hl).
    apply in_flat_map. exists k. split; [exact Hk | now apply leaves_nodes]. }
  clear Hno. induction kids as [| k ks IHk]; [destruct Hc |].
  apply List.Forall_cons_iff in IH as [IH1 IH2]. cbn [flat_map] in *.
  apply NoDup_app in Hnd as (Hnd1 & Hdisj & Hnd2).
  apply in_app_or in Hc as [Hc | Hc]; apply in_app_or in Hl as [Hl | Hl].
  - exact (IH1 Hnd1 n Hc Hl).
  - apply (Hdisj n); apply list_elem_of_In; [now apply cells_nodes |].
    apply in_flat_map in Hl as (k' & Hk' & Hl). apply in_flat_map. exists k'.
    split; [exact Hk' | now apply leaves_nodes].
  - apply (Hdisj n); apply list_elem_of_In; [now apply leaves_nodes |].
    apply in_flat_map in Hc as (k' & Hk' & Hc). apply in_flat_map. exists k'.
    split; [exact Hk' | now apply cells_nodes].
  - exact (IHk IH2 Hnd2 Hc Hl).
Qed.

(** X20 (force_treeupdate_pseudos): on a top-level tree whose internal
    top-level nodes have eight daughters each, linked by [nextnode] and
    [sibling], all of them nodes of the tree and no node met twice, the
    routine returns when it has fuel for the depth of the tree, and the node
    it was called for then has the mass of the leaves below it; its [s] and
    [vs] are their moment and momentum divided by this mass, or the centre of
    the node and zero when the mass is zero.  The leaves themselves are left
    as they were.  Numbers are exact rationals, no leaf has a negative mass,
    and [extract_max_softening_type] yields 7 or a type of
    [All.ForceSoftening]. *)
Theorem pseudos_sum_leaves (fuel : nat) (t : tree) (no : Z) (kids : list toptree) :
  soft_ok ->
  top_shape t (TopCell no kids) -> NoDup (top_nodes (TopCell no kids)) ->
  (depth (TopCell no kids) <= fuel)%nat ->
  masses_ok t (top_leaves (TopCell no kids)) ->
  exists t' nd e,
    force_treeupdate_pseudos fuel no t = Ok t' /\
    node_at E t' no = Ok nd /\ ext_at E t' no = Ok e /\
    d.mass (u_d as_moments nd) == qsum (map (mass_at t) (top_leaves (TopCell no kids))) /\
    (~ qsum (map (mass_at t) (top_leaves (TopCell no kids))) == 0 ->
     veq (d.s (u_d as_moments nd))
         (vdiv (vsum (map (moment_at t) (top_leaves (TopCell no kids))))
               (qsum (map (mass_at t) (top_leaves (TopCell no kids))))) /\
     veq (vs e)
         (vdiv (vsum (map (momentum_at t) (top_leaves (TopCell no kids))))
               (qsum (map (mass_at t) (top_leaves (TopCell no kids)))))) /\
    (qsum (map (mass_at t) (top_leaves (TopCell no kids))) == 0 ->
     d.s (u_d as_moments nd) = center nd /\ vs e = (0, 0, 0)%Q) /\
    forall l, In l (top_leaves (TopCell no kids)) ->
      node_at E t' l = node_at E t l /\ ext_at E t' l = ext_at E t l.
Proof.
  intros Hok Hs Hnd Hdepth Hmass.
  destruct (pseudos_walk Hok (TopCell no kids) fuel t Hs Hnd Hdepth eq_refl)
    as (t' & Hrun & [Hw (nd & e & Hn & He & [Hm _] & Hwt)] & Hzero).
  cbn [top_root] in *. destruct (Hwt Hmass) as [Hs' Hv'].
  exists t', nd, e. split; [exact Hrun |]. split; [exact Hn |]. split; [exact He |].
  split; [exact Hm |]. split; [| split].
  - intros Hne. split; eapply veq_quotient; eassumption.
  - intros Hz. destruct (Hzero Hz) as (nd2 & e2 & Hn2 & He2 & H1 & H2).
    rewrite Hn in Hn2. injection Hn2 as <-. rewrite He in He2. injection He2 as <-. auto.
  - intros l Hl. apply (wk_rest _ _ _ Hw). intros Hc.
    exact (leaves_not_cells (TopCell no kids) Hnd l Hc Hl).
Qed.

(** X21 (force_treeupdate_pseudos): on such a tree the node the routine was
    called for ends with hmax, vmax and divVmax not below those of any leaf
    below it. *)
Theorem pseudos_bound_leaves (fuel : nat) (t : tree) (no : Z) (kids : list toptree) :
  soft_ok ->
  top_shape t (TopCell no kids) -> NoDup (top_nodes (TopCell no kids)) ->
  (depth (TopCell no kids) <= fuel)%nat ->
  exists t' e,
    force_treeupdate_pseudos fuel no t = Ok t' /\ ext_at E t' no = Ok e /\
    forall l el, In l (top_leaves (TopCell no kids)) -> ext_at E t' l = Ok el ->
      (hmax el <= hmax e /\ vmax el <= vmax e /\ divVmax el <= divVmax e)%Q.
Proof.
  intros Hok Hs Hnd Hdepth.
  destruct (pseudos_walk Hok (TopCell no kids) fuel t Hs Hnd Hdepth eq_refl)
    as (t' & Hrun & [Hw (nd & e & Hn & He & [_ Hb] & _)] & _).
  cbn [top_root] in *. exists t', e. split; [exact Hrun |]. split; [exact He |].
  intros l el Hl Hel. apply (Hb l el Hl).
  destruct (wk_rest _ _ _ Hw l) as [_ Hx]; [| rewrite <- Hx; exact Hel].
  intros Hc. exact (leaves_not_cells (TopCell no kids) Hnd l Hc Hl).
Qed.

End Updating.

(** A top-level tree of two levels: node 4 is the root, its daughters are
    the nodes 5 to 12, and node 5 has the daughters 13 to 20.  Leaf [i] has
    the mass [i] and lies at [(i, 0, 0)]. *)
Definition crown_domain : domain :=
  mkDomain 4 100 9 15 [] [] 0 16 (8, 8, 8)%Q (0, 0, 0)%Q 1 (-1) [] 5 1 0 [] [].

Definition crown_node (i : Z) : NODE :=
  mkNode 16 (8, 8, 8)%Q
    (Moments (d.mk (inject_Z i, 0, 0)%Q
                   (if (i =? 4) || (i =? 5) then 0 else inject_Z i)
                   (if (i =? 4) || (i =? 5) then 2 else 0)
                   (if i =? 20 then 6 else if (i =? 12) || (i =? 4) then -1 else i + 1)
                   (if i =? 4 then 5 else if i =? 5 then 13 else -1) (-1))) 0.

Definition crown_ext (i : Z) : extNODE :=
  mkExt (inject_Z i) 1 (inject_Z (20 - i)) (1, 0, 0)%Q (0, 0, 0)%Q 0 0.

Definition crown_numbers : list Z := map Z.of_nat (seq 4 17).

Definition crown_tree : tree :=
  mkTree (map crown_node crown_numbers) (map crown_ext crown_numbers) [] [] [] 17 (-1).

Definition crown : list toptree :=
  TopCell 5 (map TopLeaf [13; 14; 15; 16; 17; 18; 19; 20])
  :: map TopLeaf [6; 7; 8; 9; 10; 11; 12].

Definition crown_update : nat -> Z -> tree -> outcome tree :=
  force_treeupdate_pseudos 0 3 4 1 12 (fun _ => 7) (fun _ => 0) (fun _ => sample_moments)
    crown_domain.

Lemma crown_soft : soft_ok (fun _ => 7) crown_domain.
Proof. intros b. left. reflexivity. Qed.

Lemma crown_kind (k : toptree) :
  In k (crown ++ map TopLeaf [13; 14; 15; 16; 17; 18; 19; 20]) ->
  kind_ok 1 (fun _ => sample_moments) crown_domain crown_tree k.
Proof.
  intros Hk. cbn in Hk.
  repeat (destruct Hk as [<- | Hk];
          [split; [unfold internal; cbn; lia | eexists _, _; repeat split; reflexivity] |]).
  destruct Hk.
Qed.

Lemma crown_shape : top_shape 1 (fun _ => sample_moments) crown_domain crown_tree (TopCell 4 crown).
Proof.
  eapply top_cell_shape; [reflexivity | reflexivity | reflexivity | | |].
  - cbn. repeat (split; [reflexivity |]; eexists; split; [reflexivity |]). exact I.
  - apply List.Forall_forall. intros k Hk. apply crown_kind. apply in_or_app. now left.
  - constructor; [| repeat constructor].
    eapply top_cell_shape; [reflexivity | reflexivity | reflexivity | | |].
    + cbn. repeat (split; [reflexivity |]; eexists; split; [reflexivity |]). exact I.
    + apply List.Forall_forall. intros k Hk. apply crown_kind. apply in_or_app. now right.
    + repeat constructor.
Qed.

Lemma crown_apart : NoDup (top_nodes (TopCell 4 crown)).
Proof.
  apply NoDup_ListNoDup. cbn.
  repeat (constructor; [cbn; intros H; repeat (destruct H as [H | H]; [discriminate H |]); exact H |]).
  constructor.
Qed.

Lemma crown_masses :
  masses_ok (fun _ => sample_moments) crown_domain crown_tree (top_leaves (TopCell 4 crown)).
Proof.
  intros l Hl. cbn in Hl.
  repeat (destruct Hl as [<- | Hl]; [vm_compute; discriminate |]). destruct Hl.
Qed.

Lemma pseudos_sum_leaves_witness :
  exists t',
    crown_update 2 4 crown_tree = Ok t' /\
    map (fun n => Qred (d.mass (u_d (fun _ => sample_moments) n))) (Nodes t')
    = [195; 132; 6; 7; 8; 9; 10; 11; 12; 13; 14; 15; 16; 17; 18; 19; 20]%Q.
Proof.
  destruct (pseudos_sum_leaves 0 3 4 1 12 (fun _ => 7) (fun _ => 0) (fun _ => sample_moments)
              crown_domain 2 crown_tree 4 crown crown_soft crown_shape crown_apart
              ltac:(cbn; lia) crown_masses) as (t' & nd & e & Hrun & _).
  exists t'. split; [exact Hrun |].
  vm_compute in Hrun. injection Hrun as <-. vm_compute. reflexivity.
Defined.

Lemma pseudos_bound_leaves_witness :
  exists t',
    crown_update 2 4 crown_tree = Ok t' /\
    map (fun e => (Qred (hmax e), Qred (divVmax e))) (firstn 2 (Extnodes t'))
    = [(20, 14); (20, 7)]%Q.
Proof.
  destruct (pseudos_bound_leaves 0 3 4 1 12 (fun _ => 7) (fun _ => 0) (fun _ => sample_moments)
              crown_domain 2 crown_tree 4 crown crown_soft crown_shape crown_apart
              ltac:(cbn; lia)) as (t' & e & Hrun & _).
  exists t'. split; [exact Hrun |].
  vm_compute in Hrun. injection Hrun as <-. vm_compute. reflexivity.
Defined.

End TopMoments.


(** ** The smoothing lengths in the tree: [force_update_hmax] *)

Module Hmax.

Import ForceTree Kick.

(** One process of the routine: its globals, its tree and its list of
    active particles. *)
Record hydro : Type := mkHydro {
  h_dom : domain;
  h_tree : tree;
  FirstActiveParticle : Z;
  NextActiveParticle : list Z
}.

Definition with_GlobFlag (E : domain) (g : Z) : domain :=
  mkDomain (MaxPart E) (MaxTopNodes E) (NTopnodes E) (NTopleaves E) (TopNodes E)
           (DomainTask E) (ThisTask E) (DomainLen E) (DomainCenter E) (DomainCorner E)
           (DomainFac E) (NoTreeType E) (ForceSoftening E) (All_Ti_Current E) g
           (NumPart E) (P E) (SphP E).

(** [Extnodes[no].hmax] and [Extnodes[no].divVmax] raised to [h] and [dv]
    where these are larger. *)
Definition raise (e : extNODE) (h dv : Q) : extNODE :=
  mkExt (if Split.Qltb (hmax e) h then h else hmax e) (vmax e)
        (if Split.Qltb (divVmax e) dv then dv else divVmax e)
        (vs e) (dp e) (Ti_lastkicked e) (Flag e).

Section Updating.

(** [get_drift_factor], the bit positions of [forcetree.h] and the layout of
    the union [u] of a node are not among the sources at hand. *)
Variable get_drift_factor : Z -> Z -> Q.
Variable BITFLAG_NODEHASBEENKICKED : Z.
Variable BITFLAG_TOPLEVEL : Z.
Variable BITFLAG_DEPENDS_ON_LOCAL_MASS : Z.
Variable as_moments : list Z -> d.t.

Section Local.

Variable E : domain.

(** The walk up the tree for the active gas particle [i], from node [no]
    on; [glob] is [GlobFlag] after its increment. *)
Fixpoint hmax_walk (fuel : nat) (glob i no : Z) (s : kicks) : outcome kicks :=
  if no >=? 0 then
    match fuel with
    | O => Hang
    | S fuel' =>
        t ← real_force_drift_node get_drift_factor BITFLAG_NODEHASBEENKICKED as_moments E
              no (All_Ti_Current E) (k_tree s);
        pa ← rd (P E) i;
        e ← ext_at E t no;
        sp ← rd (SphP E) i;
        if Split.Qltb (hmax e) (Hsml pa) || Split.Qltb (divVmax e) (Exchange.DivVel sp) then
          let e := raise e (Hsml pa) (Exchange.DivVel sp) in
          t ← set_ext E t no e;
          n ← node_at E t no;
          if has_flag (d.bitflags (u_d as_moments n)) BITFLAG_TOPLEVEL then
            if negb (Flag e =? glob) then
              t ← set_ext E t no (set_Flag e glob);
              l ← wr (DomainList s) (DomainNumChanged s) no;
              Ok (mkKicks t l (DomainNumChanged s + 1))
            else Ok (mkKicks t (DomainList s) (DomainNumChanged s))
          else
            hmax_walk fuel' glob i (d.father (u_d as_moments n))
              (mkKicks t (DomainList s) (DomainNumChanged s))
        else Ok (mkKicks t (DomainList s) (DomainNumChanged s))
    end
  else Ok s.

(** for(i = FirstActiveParticle; i >= 0; i = NextActiveParticle[i]) *)
Fixpoint active_loop (next : list Z) (fuel : nat) (glob i : Z) (s : kicks) : outcome kicks :=
  if i >=? 0 then
    match fuel with
    | O => Hang
    | S fuel' =>
        pa ← rd (P E) i;
        s ← (if PType pa =? 0
             then no ← rd (Father (k_tree s)) i; hmax_walk fuel glob i no s
             else Ok s);
        i ← rd next i;
        active_loop next fuel' glob i s
    end
  else Ok s.

(** The walk of the last loop, for the values [h] and [dv] that were
    gathered, from node [no] on. *)
Fixpoint spread_walk (fuel : nat) (h dv : Q) (no : Z) (t : tree) : outcome tree :=
  if no >=? 0 then
    match fuel with
    | O => Hang
    | S fuel' =>
        t ← real_force_drift_node get_drift_factor BITFLAG_NODEHASBEENKICKED as_moments E
              no (All_Ti_Current E) t;
        e ← ext_at E t no;
        if Split.Qltb (hmax e) h || Split.Qltb (divVmax e) dv then
          t ← set_ext E t no (raise e h dv);
          n ← node_at E t no;
          spread_walk fuel' h dv (d.father (u_d as_moments n)) t
        else Ok t
    end
  else Ok t.

(** One turn of the last loop. *)
Definition spread_turn (fuel : nat) (domainList_all : list Z) (domainHmax_all : list Q)
  (i : Z) (t : tree) : outcome tree :=
  no ← rd domainList_all i;
  n ← node_at E t no;
  let no := if has_flag (d.bitflags (u_d as_moments n)) BITFLAG_DEPENDS_ON_LOCAL_MASS
            then d.father (u_d as_moments n) else no in
  h ← rd domainHmax_all (2 * i);
  dv ← rd domainHmax_all (2 * i + 1);
  spread_walk fuel h dv no t.

End Local.

(** The part of the routine before the exchange on one process: the loop
    over the active particles, and the values of the nodes listed copied to
    [domainHmax_loc]. *)
Definition hmax_local (fuel : nat) (p : hydro) : outcome (hydro * kicks * list Q) :=
  let E := h_dom p in
  let glob := GlobFlag E + 1 in
  s ← active_loop E (NextActiveParticle p) fuel glob (FirstActiveParticle p)
        (mkKicks (h_tree p) (repeat 0 (Z.to_nat (NTopleaves E))) 0);
  loc ← for_range (Z.to_nat (DomainNumChanged s)) 0
          (fun i loc =>
             no ← rd (DomainList s) i;
             e ← ext_at E (k_tree s) no;
             loc ← wr loc (2 * i) (hmax e);
             wr loc (2 * i + 1) (divVmax e))
          (repeat 0%Q (Z.to_nat (DomainNumChanged s * 2)));
  Ok (mkHydro (with_GlobFlag E glob) (k_tree s) (FirstActiveParticle p) (NextActiveParticle p),
      s, loc).

(** The loop that sums up [counts] and sets the offsets. *)
Definition offsets (NTask : Z) (counts : list Z) : outcome (Z * list Z * list Z) :=
  offset_list ← wr (repeat 0 (Z.to_nat NTask)) 0 0;
  offset_hmax ← wr (repeat 0 (Z.to_nat NTask)) 0 0;
  for_range (Z.to_nat NTask) 0
    (fun ta st =>
       let '(tot, offset_list, offset_hmax) := st in
       c ← rd counts ta;
       if ta >? 0 then
         a ← rd offset_list (ta - 1);
         b ← rd counts (ta - 1);
         offset_list ← wr offset_list ta (a + b);
         a ← rd offset_hmax (ta - 1);
         offset_hmax ← wr offset_hmax ta (a + b * 2);
         Ok (tot + c, offset_list, offset_hmax)
       else Ok (tot + c, offset_list, offset_hmax))
    (0, offset_list, offset_hmax).

(** MPI_Allgatherv on one process: from every process [r] the first
    [counts[r]] entries of what it sends, put at [displs[r]]. *)
Definition MPI_Allgatherv {A : Type} (NTask : Z) (sends : list (list A))
  (counts displs : list Z) (recv : list A) : outcome (list A) :=
  for_range (Z.to_nat NTask) 0
    (fun r recv =>
       c ← rd counts r;
       o ← rd displs r;
       src ← rd sends r;
       for_range (Z.to_nat c) 0 (fun k recv => x ← rd src k; wr recv (o + k) x) recv)
    recv.

(** The part of the routine after the loop over the active particles on
    one process; [S] is what all processes have after that loop. *)
Definition hmax_global (fuel : nat) (S : list (hydro * kicks * list Q))
  (x : hydro * kicks * list Q) : outcome hydro :=
  let '(p, s, loc) := x in
  let NTask := zlen S in
  let counts := map (fun y => DomainNumChanged (snd (fst y))) S in
  '(tot, offset_list, offset_hmax) ← offsets NTask counts;
  domainList_all ←
    MPI_Allgatherv NTask (map (fun y => DomainList (snd (fst y))) S) counts offset_list
      (repeat 0 (Z.to_nat tot));
  domainHmax_all ←
    MPI_Allgatherv NTask (map snd S) (map (fun c => c * 2) counts) offset_hmax
      (repeat 0%Q (Z.to_nat (tot * 2)));
  t ← for_range (Z.to_nat tot) 0
        (spread_turn (h_dom p) fuel domainList_all domainHmax_all) (h_tree p);
  Ok (mkHydro (h_dom p) t (FirstActiveParticle p) (NextActiveParticle p)).

Fixpoint on_all {A B : Type} (f : A -> outcome B) (l : list A) : outcome (list B) :=
  match l with
  | [] => Ok []
  | a :: l' => b ← f a; bs ← on_all f l'; Ok (b :: bs)
  end.

Definition force_update_hmax (fuel : nat) (G : list hydro) : outcome (list hydro) :=
  S ← on_all (hmax_local fuel) G;
  on_all (hmax_global fuel S) S.

(** *** What the routine leaves in the tree *)

Section Facts.

Variable E : domain.

Hypothesis kicked_bit : 0 <= BITFLAG_NODEHASBEENKICKED.
Hypothesis top_bit : 0 <= BITFLAG_TOPLEVEL.
Hypothesis top_kicked : BITFLAG_TOPLEVEL <> BITFLAG_NODEHASBEENKICKED.

Definition is_top (n : NODE) : bool :=
  has_flag (d.bitflags (u_d as_moments n)) BITFLAG_TOPLEVEL.

(** From node [x] the fathers lead to node [y] without leaving a top-level
    node. *)
Inductive up_to_top (t : tree) : Z -> Z -> Prop :=
| ut_here x : 0 <= x -> up_to_top t x x
| ut_up x n y :
    0 <= x -> node_at E t x = Ok n -> is_top n = false ->
    up_to_top t (d.father (u_d as_moments n)) y -> up_to_top t x y.

(** Below the top-level nodes a father has an hmax and a divVmax that are
    not below those of the node. *)
Definition ordered (t : tree) : Prop :=
  forall x n e, node_at E t x = Ok n -> ext_at E t x = Ok e -> is_top n = false ->
    0 <= d.father (u_d as_moments n) ->
    exists ef, ext_at E t (d.father (u_d as_moments n)) = Ok ef /\
      (hmax e <= hmax ef /\ divVmax e <= divVmax ef)%Q.

(** The same, but for node [no] as a father only when it is raised to [h]
    and [dv]. *)
Definition ordered_but (t : tree) (no : Z) (h dv : Q) : Prop :=
  forall x n e, node_at E t x = Ok n -> ext_at E t x = Ok e -> is_top n = false ->
    0 <= d.father (u_d as_moments n) ->
    exists ef, ext_at E t (d.father (u_d as_moments n)) = Ok ef /\
      (hmax e <= (if d.father (u_d as_moments n) =? no then Qmaxb (hmax ef) h else hmax ef) /\
       divVmax e <= (if d.father (u_d as_moments n) =? no
                     then Qmaxb (divVmax ef) dv else divVmax ef))%Q.

(** In [t'] the nodes from [no] up to the top-level node have at least the
    hmax [h] and the divVmax [dv]. *)
Definition covered (t t' : tree) (no : Z) (h dv : Q) : Prop :=
  forall y, up_to_top t no y ->
    exists e, ext_at E t' y = Ok e /\ (h <= hmax e /\ dv <= divVmax e)%Q.

Definition node_like (a b : outcome NODE) : Prop :=
  match a, b with
  | Ok n, Ok n' => d.father (u_d as_moments n') = d.father (u_d as_moments n) /\
                   is_top n' = is_top n
  | Ok _, _ => False
  | _, Ok _ => False
  | _, _ => True
  end.

Definition ext_lifted (a b : outcome extNODE) : Prop :=
  match a, b with
  | Ok e, Ok e' => (hmax e <= hmax e' /\ divVmax e <= divVmax e')%Q
  | Ok _, _ => False
  | _, Ok _ => False
  | _, _ => True
  end.

(** Tree [t'] is tree [t] with some hmax and divVmax raised: the fathers
    and the top-level nodes are the same. *)
Definition lifted (t t' : tree) : Prop :=
  Father t' = Father t /\
  forall x, node_like (node_at E t x) (node_at E t' x) /\
            ext_lifted (ext_at E t x) (ext_at E t' x).

(** The same with every hmax and divVmax as it was. *)
Definition alike (t t' : tree) : Prop :=
  Father t' = Father t /\
  forall x, node_like (node_at E t x) (node_at E t' x) /\
            match ext_at E t x, ext_at E t' x with
            | Ok e, Ok e' => hmax e' = hmax e /\ divVmax e' = divVmax e
            | Ok _, _ => False
            | _, Ok _ => False
            | _, _ => True
            end.

Lemma node_like_refl (a : outcome NODE) : node_like a a.
Proof. destruct a; cbn; auto. Qed.

Lemma node_like_trans (a b c : outcome NODE) : node_like a b -> node_like b c -> node_like a c.
Proof.
  destruct a, b, c; cbn; try tauto. intros [H1 H2] [H3 H4]. split; congruence.
Qed.

Lemma ext_lifted_refl (a : outcome extNODE) : ext_lifted a a.
Proof. destruct a; cbn; auto. split; apply Qle_refl. Qed.

Lemma ext_lifted_trans (a b c : outcome extNODE) :
  ext_lifted a b -> ext_lifted b c -> ext_lifted a c.
Proof.
  destruct a, b, c; cbn; try tauto. intros [H1 H2] [H3 H4]. split; lra.
Qed.

Lemma lifted_refl (t : tree) : lifted t t.
Proof. split; [reflexivity |]. intros x. split; [apply node_like_refl | apply ext_lifted_refl]. Qed.

Lemma lifted_trans (t1 t2 t3 : tree) : lifted t1 t2 -> lifted t2 t3 -> lifted t1 t3.
Proof.
  intros [F1 H1] [F2 H2]. split; [congruence |]. intros x.
  destruct (H1 x) as [A1 B1]. destruct (H2 x) as [A2 B2].
  split; [eapply node_like_trans | eapply ext_lifted_trans]; eassumption.
Qed.

Lemma alike_lifted (t t' : tree) : alike t t' -> lifted t t'.
Proof.
  intros [F H]. split; [exact F |]. intros x. destruct (H x) as [A B]. split; [exact A |].
  unfold ext_lifted. destruct (ext_at E t x), (ext_at E t' x); try tauto.
  destruct B as (-> & ->). split; apply Qle_refl.
Qed.

Lemma up_to_top_lifted (t t' : tree) (x y : Z) :
  lifted t t' -> up_to_top t x y -> up_to_top t' x y.
Proof.
  intros [_ H] Hup. induction Hup as [x Hx | x n y Hx Hn Htop Hup IH]; [now apply ut_here |].
  destruct (H x) as [A _]. rewrite Hn in A. unfold node_like in A.
  destruct (node_at E t' x) as [n' | | |] eqn:Hn'; try contradiction. destruct A as [A1 A2].
  apply (ut_up t' x n' y Hx Hn'); [congruence |]. rewrite A1. exact IH.
Qed.

Lemma up_to_top_nonneg (t : tree) (x y : Z) : up_to_top t x y -> 0 <= x /\ 0 <= y.
Proof. induction 1; [auto |]. split; [assumption | tauto]. Qed.

Lemma up_to_top_inv (t : tree) (x y : Z) :
  up_to_top t x y ->
  y = x \/ exists n, node_at E t x = Ok n /\ is_top n = false /\
                     up_to_top t (d.father (u_d as_moments n)) y.
Proof. intros H. destruct H as [x Hx | x n y Hx Hn Ht Hup]; [now left | right; eauto]. Qed.

Lemma covered_lifted (t t1 t2 : tree) (no : Z) (h dv : Q) :
  covered t t1 no h dv -> lifted t1 t2 -> covered t t2 no h dv.
Proof.
  intros Hc [_ H] y Hy. destruct (Hc y Hy) as (e & He & Hh & Hd).
  destruct (H y) as [_ B]. rewrite He in B. unfold ext_lifted in B.
  destruct (ext_at E t2 y) as [e2 | | |]; try contradiction. exists e2. split; [reflexivity |].
  destruct B. split; lra.
Qed.

(** Above a node of an ordered tree nothing is smaller. *)
Lemma ordered_chain (t : tree) (x y : Z) (e : extNODE) :
  ordered t -> up_to_top t x y -> ext_at E t x = Ok e ->
  exists ey, ext_at E t y = Ok ey /\ (hmax e <= hmax ey /\ divVmax e <= divVmax ey)%Q.
Proof.
  intros Ho Hup. revert e. induction Hup as [x Hx | x n y Hx Hn Htop Hup IH]; intros e He.
  - exists e. split; [exact He |]. split; apply Qle_refl.
  - destruct (up_to_top_nonneg _ _ _ Hup) as [Hf _].
    destruct (Ho x n e Hn He Htop Hf) as (ef & Hef & H1 & H2).
    destruct (IH ef Hef) as (ey & Hey & H3 & H4). exists ey. split; [exact Hey |]. split; lra.
Qed.

Lemma Qmaxb_left (a b : Q) : (a <= Qmaxb a b)%Q.
Proof.
  unfold Qmaxb. destruct (Split.Qltb a b) eqn:H; [apply Qltb_true in H; lra | lra].
Qed.

Lemma Qmaxb_right (a b : Q) : (b <= Qmaxb a b)%Q.
Proof.
  unfold Qmaxb. destruct (Split.Qltb a b) eqn:H; [lra |].
  apply Qnot_lt_le. intros Hc. apply Qltb_true in Hc. congruence.
Qed.

Lemma Qmaxb_least (a b c : Q) : (a <= c -> b <= c -> Qmaxb a b <= c)%Q.
Proof. unfold Qmaxb. destruct (Split.Qltb a b); auto. Qed.

Lemma Qltb_not (a b : Q) : Split.Qltb a b = false -> (b <= a)%Q.
Proof.
  intros H. apply Qnot_lt_le. intros Hc. apply Qltb_true in Hc. congruence.
Qed.

Lemma has_clear_other (b k j : Z) :
  0 <= k -> 0 <= j -> j <> k -> has_flag (clear_flag b k) j = has_flag b j.
Proof.
  intros Hk Hj Hne. rewrite !has_flag_testbit by exact Hj. unfold clear_flag.
  rewrite Z.land_spec, Z.lnot_spec, Z.shiftl_1_l, Z.pow2_bits_false by lia.
  apply andb_true_r.
Qed.

(** A drift leaves the fathers, the top-level nodes, and every hmax,
    divVmax and Flag. *)
Lemma drift_alike (no time1 : Z) (t t' : tree) :
  real_force_drift_node get_drift_factor BITFLAG_NODEHASBEENKICKED as_moments E no time1 t
  = Ok t' ->
  alike t t'.
Proof.
  intros Hrun. unfold real_force_drift_node, mbind, outcome_bind in Hrun.
  bind_inv Hrun. rename a into n, E0 into Hn.
  destruct (time1 =? Ti_current n).
  { injection Hrun as <-. split; [reflexivity |]. intros x. split; [apply node_like_refl |].
    destruct (ext_at E t x); auto. }
  bind_inv Hrun. rename a into e, E0 into He.
  bind_inv Hrun. destruct a as [m1 e1]. rename E0 into Hme.
  bind_inv Hrun. rename a into t1, E0 into Ht1.
  assert (Hm : d.father m1 = d.father (u_d as_moments n) /\
               has_flag (d.bitflags m1) BITFLAG_TOPLEVEL = is_top n /\
               hmax e1 = hmax e /\ divVmax e1 = divVmax e).
  { destruct (has_flag (d.bitflags (u_d as_moments n)) BITFLAG_NODEHASBEENKICKED).
    - destruct (negb (Ti_lastkicked e =? Ti_current n)); [discriminate |].
      injection Hme as <- <-. cbn. repeat split.
      apply has_clear_other; assumption.
    - injection Hme as <- <-. repeat split. }
  destruct Hm as (Hf & Htop & Hh & Hd).
  split.
  { destruct (set_node_keeps E _ _ _ _ Ht1) as [F1 _].
    destruct (set_ext_keeps E _ _ _ _ Hrun) as [F2 _]. congruence. }
  intros x.
  destruct (node_at_set_node E _ _ _ x _ Ht1) as (Hx1 & Hx2 & _).
  destruct (ext_at_set_ext E _ _ _ x _ Hrun) as (Hx3 & Hx4 & _).
  rewrite Hx4, Hx1, Hx3, Hx2. destruct (Z.eqb_spec x no) as [Heq | Hne].
  - rewrite Heq, Hn, He. cbn. unfold is_top. cbn. auto.
  - split; [apply node_like_refl |]. destruct (ext_at E t x); auto.
Qed.

Lemma ordered_but_none (t : tree) (no : Z) (h dv : Q) :
  no < 0 -> (ordered_but t no h dv <-> ordered t).
Proof.
  intros Hno. split; intros H x n e Hn He Htop Hf;
    destruct (H x n e Hn He Htop Hf) as (ef & Hef & H1);
    exists ef; (split; [exact Hef |]);
    destruct (Z.eqb_spec (d.father (u_d as_moments n)) no); try lia; exact H1.
Qed.

Lemma ordered_but_alike (t t1 : tree) (no : Z) (h dv : Q) :
  alike t t1 -> ordered_but t no h dv -> ordered_but t1 no h dv.
Proof.
  intros [_ Ha] Ho x n1 e1 Hn1 He1 Htop Hf.
  destruct (Ha x) as [A B]. rewrite Hn1 in A. rewrite He1 in B.
  destruct (node_at E t x) as [n | | |] eqn:Hn; try contradiction.
  destruct (ext_at E t x) as [e | | |] eqn:He; try contradiction.
  cbn in A. destruct A as [A1 A2]. destruct B as (B1 & B2).
  rewrite A1 in *. rewrite A2 in Htop.
  destruct (Ho x n e Hn He Htop Hf) as (ef & Hef & H1 & H2).
  destruct (Ha (d.father (u_d as_moments n))) as [_ C]. rewrite Hef in C.
  destruct (ext_at E t1 (d.father (u_d as_moments n))) as [ef1 | | |]; try contradiction.
  destruct C as (C1 & C2). exists ef1. split; [reflexivity |].
  rewrite B1, B2, C1, C2. split; assumption.
Qed.

Lemma ordered_alike (t t1 : tree) : alike t t1 -> ordered t -> ordered t1.
Proof.
  intros Ha Ho. apply (ordered_but_none t1 (-1) 0 0); [lia |].
  apply (ordered_but_alike t t1 (-1) 0 0 Ha). apply ordered_but_none; [lia | exact Ho].
Qed.

Lemma set_ext_view (t t' : tree) (no : Z) (x : extNODE) :
  set_ext E t no x = Ok t' ->
  Father t' = Father t /\
  forall k, node_at E t' k = node_at E t k /\
            ext_at E t' k = (if k =? no then Ok x else ext_at E t k).
Proof.
  intros H. split; [exact (proj1 (set_ext_keeps E _ _ _ _ H)) |]. intros k.
  destruct (ext_at_set_ext E _ _ _ k _ H) as (H1 & H2 & _). auto.
Qed.

Lemma Qmaxb_mono (a b h : Q) : (a <= b)%Q -> (Qmaxb a h <= Qmaxb b h)%Q.
Proof.
  intros H. apply Qmaxb_least; [| apply Qmaxb_right].
  apply Qle_trans with b; [exact H | apply Qmaxb_left].
Qed.

(** Raising node [no] to [h] and [dv]. *)
Lemma raise_lifted (t t' : tree) (no : Z) (e : extNODE) (h dv : Q) :
  ext_at E t no = Ok e -> set_ext E t no (raise e h dv) = Ok t' -> lifted t t'.
Proof.
  intros He Hset. destruct (set_ext_view _ _ _ _ Hset) as [F V]. split; [exact F |].
  intros x. destruct (V x) as [V1 V2]. rewrite V1, V2. split; [apply node_like_refl |].
  destruct (Z.eqb_spec x no) as [Heq | Hne]; [| apply ext_lifted_refl].
  rewrite Heq, He. cbn. split; [apply (Qmaxb_left (hmax e) h) | apply (Qmaxb_left (divVmax e) dv)].
Qed.

Lemma set_Flag_alike (t t' : tree) (no : Z) (e : extNODE) (g : Z) :
  ext_at E t no = Ok e -> set_ext E t no (set_Flag e g) = Ok t' -> alike t t'.
Proof.
  intros He Hset. destruct (set_ext_view _ _ _ _ Hset) as [F V]. split; [exact F |].
  intros x. destruct (V x) as [V1 V2]. rewrite V1, V2. split; [apply node_like_refl |].
  destruct (Z.eqb_spec x no) as [Heq | Hne].
  - rewrite Heq, He. cbn. auto.
  - destruct (ext_at E t x); auto.
Qed.

(** The walk for the active gas particle [i]. *)
Lemma hmax_walk_spec (glob i : Z) (pa : particle_data) (sp : Exchange.sph_particle_data) :
  rd (P E) i = Ok pa -> rd (SphP E) i = Ok sp ->
  forall fuel no s s',
    hmax_walk E fuel glob i no s = Ok s' ->
    ordered_but (k_tree s) no (Hsml pa) (Exchange.DivVel sp) ->
    ordered (k_tree s') /\ lifted (k_tree s) (k_tree s') /\
    covered (k_tree s) (k_tree s') no (Hsml pa) (Exchange.DivVel sp).
Proof.
  intros Hpa Hsp. set (h := Hsml pa). set (dv := Exchange.DivVel sp).
  induction fuel as [| fuel IH]; intros no s s' Hrun Ho.
  - cbn [hmax_walk] in Hrun. destruct (Z.geb_spec no 0) as [Hno | Hno]; [discriminate |].
    injection Hrun as <-. split; [now apply (ordered_but_none _ no h dv) |].
    split; [apply lifted_refl |]. intros y Hy. destruct (up_to_top_nonneg _ _ _ Hy). lia.
  - cbn [hmax_walk] in Hrun. destruct (Z.geb_spec no 0) as [Hno | Hno].
    2:{ injection Hrun as <-. split; [now apply (ordered_but_none _ no h dv) |].
        split; [apply lifted_refl |]. intros y Hy. destruct (up_to_top_nonneg _ _ _ Hy). lia. }
    unfold mbind, outcome_bind in Hrun. bind_inv Hrun. rename a into t1, E0 into Hdrift.
    rewrite Hpa in Hrun. cbn [obind] in Hrun. bind_inv Hrun. rename a into e, E0 into He.
    rewrite Hsp in Hrun. cbn [obind] in Hrun. fold h dv in Hrun.
    pose proof (drift_alike _ _ _ _ Hdrift) as Ha.
    pose proof (ordered_but_alike _ _ _ _ _ Ha Ho) as Ho1.
    pose proof (alike_lifted _ _ Ha) as Hg1.
    destruct (Split.Qltb (hmax e) h || Split.Qltb (divVmax e) dv) eqn:Hcond.
    2:{ apply orb_false_iff in Hcond as [Hc1 Hc2].
        apply Qltb_not in Hc1. apply Qltb_not in Hc2.
        injection Hrun as <-. cbn [k_tree].
        assert (Hord : ordered t1).
        { intros x n ex Hn Hex Htop Hf. destruct (Ho1 x n ex Hn Hex Htop Hf) as (ef & Hef & H1 & H2).
          exists ef. split; [exact Hef |].
          destruct (Z.eqb_spec (d.father (u_d as_moments n)) no) as [Heq | _]; [| auto].
          rewrite Heq, He in Hef. injection Hef as <-.
          split; [apply Qle_trans with (Qmaxb (hmax e) h); [exact H1 |]
                 | apply Qle_trans with (Qmaxb (divVmax e) dv); [exact H2 |]];
            (apply Qmaxb_least; [apply Qle_refl | assumption]). }
        split; [exact Hord |]. split; [exact Hg1 |].
        intros y Hy. apply (up_to_top_lifted _ _ _ _ Hg1) in Hy.
        destruct (ordered_chain t1 no y e Hord Hy He) as (ey & Hey & H1 & H2).
        exists ey. split; [exact Hey |]. split; lra. }
    clear Hcond. bind_inv Hrun. rename a into t2, E0 into Hset.
    bind_inv Hrun. rename a into n, E0 into Hn.
    destruct (set_ext_view _ _ _ _ Hset) as [F2 V2].
    pose proof (raise_lifted _ _ _ _ _ _ He Hset) as Hg2.
    rewrite (proj1 (V2 no)) in Hn.
    assert (He2 : ext_at E t2 no = Ok (raise e h dv)).
    { rewrite (proj2 (V2 no)), Z.eqb_refl. reflexivity. }
    assert (Hn0 : exists n0, node_at E (k_tree s) no = Ok n0 /\
                    d.father (u_d as_moments n0) = d.father (u_d as_moments n) /\
                    is_top n0 = is_top n).
    { destruct Ha as [_ Ha]. destruct (Ha no) as [A _]. rewrite Hn in A.
      destruct (node_at E (k_tree s) no) as [n0 | | |]; try contradiction.
      destruct A as [A1 A2]. exists n0. auto. }
    destruct Hn0 as (n0 & Hn0 & Hf0 & Htop0).
    (* the order in [t2], but for the edge from [no] to its father *)
    assert (Hrest : forall x nx ex, x <> no -> node_at E t2 x = Ok nx -> ext_at E t2 x = Ok ex ->
              is_top nx = false -> 0 <= d.father (u_d as_moments nx) ->
              exists ef, ext_at E t2 (d.father (u_d as_moments nx)) = Ok ef /\
                (hmax ex <= hmax ef /\ divVmax ex <= divVmax ef)%Q).
    { intros x nx ex Hx Hnx Hex Htop Hf.
      rewrite (proj1 (V2 x)) in Hnx. rewrite (proj2 (V2 x)) in Hex.
      destruct (Z.eqb_spec x no) as [| _]; [contradiction |].
      destruct (Ho1 x nx ex Hnx Hex Htop Hf) as (ef & Hef & H1 & H2).
      rewrite (proj2 (V2 (d.father (u_d as_moments nx)))).
      destruct (Z.eqb_spec (d.father (u_d as_moments nx)) no) as [Heq | _].
      - rewrite Heq, He in Hef. injection Hef as <-. eexists. split; [reflexivity |].
        cbn [raise hmax divVmax]. split; assumption.
      - exists ef. split; [exact Hef |]. split; assumption. }
    destruct (has_flag (d.bitflags (u_d as_moments n)) BITFLAG_TOPLEVEL) eqn:Htop.
    + (* a top-level node: the walk ends *)
      assert (Hord2 : ordered t2).
      { intros x nx ex Hnx Hex Htx Hf. destruct (Z.eq_dec x no) as [Heq | Hx]; [subst x |].
        - rewrite (proj1 (V2 no)), Hn in Hnx. injection Hnx as <-.
          unfold is_top in Htx. congruence.
        - exact (Hrest x nx ex Hx Hnx Hex Htx Hf). }
      assert (Hcov : forall t', lifted t2 t' -> covered (k_tree s) t' no h dv).
      { intros t' Hg' y Hy.
        assert (Hyn : y = no).
        { destruct (up_to_top_inv _ _ _ Hy) as [Hyn | (n1 & Hn1 & Ht1 & _)]; [exact Hyn |].
          rewrite Hn0 in Hn1. injection Hn1 as <-. unfold is_top in *. congruence. }
        rewrite Hyn. destruct Hg' as [_ Hg']. destruct (Hg' no) as [_ B]. rewrite He2 in B.
        unfold ext_lifted in B. destruct (ext_at E t' no) as [e' | | |]; try contradiction.
        exists e'. split; [reflexivity |]. cbn [raise hmax divVmax] in B. destruct B as [B1 B2].
        pose proof (Qmaxb_right (hmax e) h). pose proof (Qmaxb_right (divVmax e) dv).
        unfold Qmaxb in *. split; lra. }
      destruct (negb (Flag (raise e h dv) =? glob)).
      * bind_inv Hrun. rename a into t3, E0 into Hflag. bind_inv Hrun. injection Hrun as <-.
        cbn [k_tree]. pose proof (set_Flag_alike _ _ _ _ _ He2 Hflag) as Ha3.
        split; [exact (ordered_alike _ _ Ha3 Hord2) |].
        split; [exact (lifted_trans _ _ _ (lifted_trans _ _ _ Hg1 Hg2) (alike_lifted _ _ Ha3)) |].
        apply Hcov. exact (alike_lifted _ _ Ha3).
      * injection Hrun as <-. cbn [k_tree].
        split; [exact Hord2 |]. split; [exact (lifted_trans _ _ _ Hg1 Hg2) |].
        apply Hcov. apply lifted_refl.
    + (* on to the father *)
      assert (Ho2 : ordered_but t2 (d.father (u_d as_moments n)) h dv).
      { intros x nx ex Hnx Hex Htx Hf. destruct (Z.eq_dec x no) as [Heq | Hx]; [subst x |].
        - rewrite (proj1 (V2 no)), Hn in Hnx. injection Hnx as <-.
          rewrite He2 in Hex. injection Hex as <-. rewrite Z.eqb_refl.
          destruct (Ho1 no n e Hn He Htx Hf) as (ef & Hef & H1 & H2).
          rewrite (proj2 (V2 (d.father (u_d as_moments n)))).
          cbn [raise hmax divVmax]. fold (Qmaxb (hmax e) h). fold (Qmaxb (divVmax e) dv).
          destruct (Z.eqb_spec (d.father (u_d as_moments n)) no) as [Heq | _].
          * eexists. split; [reflexivity |]. cbn [raise hmax divVmax]. split; apply Qmaxb_left.
          * exists ef. split; [exact Hef |]. split; apply Qmaxb_mono; assumption.
        - destruct (Hrest x nx ex Hx Hnx Hex Htx Hf) as (ef & Hef & H1 & H2).
          exists ef. split; [exact Hef |].
          destruct (d.father (u_d as_moments nx) =? d.father (u_d as_moments n)).
          + split; [apply Qle_trans with (hmax ef); [exact H1 | apply Qmaxb_left]
                   | apply Qle_trans with (divVmax ef); [exact H2 | apply Qmaxb_left]].
          + split; assumption. }
      destruct (IH _ _ _ Hrun Ho2) as (Hord' & Hg' & Hcov'). cbn [k_tree] in *.
      pose proof (lifted_trans _ _ _ Hg1 Hg2) as Hg12.
      split; [exact Hord' |]. split; [exact (lifted_trans _ _ _ Hg12 Hg') |].
      intros y Hy. destruct (up_to_top_inv _ _ _ Hy) as [Hyn | (n1 & Hn1 & Ht1 & Hup)].
      * rewrite Hyn. destruct Hg' as [_ Hg']. destruct (Hg' no) as [_ B]. rewrite He2 in B.
        unfold ext_lifted in B. destruct (ext_at E (k_tree s') no) as [e' | | |]; try contradiction.
        exists e'. split; [reflexivity |]. cbn [raise hmax divVmax] in B. destruct B as [B1 B2].
        pose proof (Qmaxb_right (hmax e) h). pose proof (Qmaxb_right (divVmax e) dv).
        unfold Qmaxb in *. split; lra.
      * rewrite Hn0 in Hn1. injection Hn1 as <-. rewrite Hf0 in Hup.
        apply Hcov'. exact (up_to_top_lifted _ _ _ _ Hg12 Hup).
Qed.

Lemma ordered_weak (t : tree) (no : Z) (h dv : Q) : ordered t -> ordered_but t no h dv.
Proof.
  intros Ho x n e Hn He Htop Hf. destruct (Ho x n e Hn He Htop Hf) as (ef & Hef & H1 & H2).
  exists ef. split; [exact Hef |]. destruct (d.father (u_d as_moments n) =? no); [| auto].
  split; [apply Qle_trans with (hmax ef); [exact H1 | apply Qmaxb_left]
         | apply Qle_trans with (divVmax ef); [exact H2 | apply Qmaxb_left]].
Qed.

Lemma hmax_walk_reads (fuel : nat) (glob i no : Z) (s s' : kicks) :
  0 <= no -> hmax_walk E fuel glob i no s = Ok s' ->
  exists pa sp, rd (P E) i = Ok pa /\ rd (SphP E) i = Ok sp.
Proof.
  intros Hno Hrun. destruct fuel as [| fuel]; cbn [hmax_walk] in Hrun;
    destruct (Z.geb_spec no 0); try lia; [discriminate |].
  unfold mbind, outcome_bind in Hrun. bind_inv Hrun. bind_inv Hrun. bind_inv Hrun. bind_inv Hrun.
  eauto.
Qed.

(** Particle [j] is met by the loop over the active particles that starts
    at [i]. *)
Inductive visits (next : list Z) : Z -> Z -> Prop :=
| vi_here i : 0 <= i -> visits next i i
| vi_next i k j : 0 <= i -> rd next i = Ok k -> visits next k j -> visits next i j.

Lemma visits_inv (next : list Z) (i j : Z) :
  visits next i j ->
  0 <= i /\ (j = i \/ exists k, rd next i = Ok k /\ visits next k j).
Proof. intros H. destruct H; split; eauto. Qed.

(** The loop over the active particles. *)
Lemma active_loop_spec (glob : Z) (next : list Z) :
  forall fuel i s s',
    active_loop E next fuel glob i s = Ok s' -> ordered (k_tree s) ->
    ordered (k_tree s') /\ lifted (k_tree s) (k_tree s') /\
    forall j pa sp no,
      visits next i j -> rd (P E) j = Ok pa -> PType pa = 0 -> rd (SphP E) j = Ok sp ->
      rd (Father (k_tree s)) j = Ok no ->
      covered (k_tree s) (k_tree s') no (Hsml pa) (Exchange.DivVel sp).
Proof.
  induction fuel as [| fuel IH]; intros i s s' Hrun Ho; cbn [active_loop] in Hrun;
    destruct (Z.geb_spec i 0) as [Hi | Hi]; try discriminate.
  1, 3: injection Hrun as <-; (split; [exact Ho |]); (split; [apply lifted_refl |]);
        intros j pa sp no Hv; apply visits_inv in Hv; lia.
  unfold mbind, outcome_bind in Hrun. bind_inv Hrun. rename a into pa, E0 into Hpa.
  bind_inv Hrun. rename a into s1, E0 into Hwalk. bind_inv Hrun. rename a into k, E0 into Hk.
  assert (H1 : ordered (k_tree s1) /\ lifted (k_tree s) (k_tree s1) /\
               forall sp no, PType pa = 0 -> rd (SphP E) i = Ok sp ->
                 rd (Father (k_tree s)) i = Ok no ->
                 covered (k_tree s) (k_tree s1) no (Hsml pa) (Exchange.DivVel sp)).
  { destruct (Z.eqb_spec (PType pa) 0) as [Hgas | Hgas].
    - bind_inv Hwalk. rename a into no, E0 into Hno.
      destruct (Z.le_gt_cases 0 no) as [Hpos | Hneg].
      + destruct (hmax_walk_reads _ _ _ _ _ _ Hpos Hwalk) as (pa' & sp & Hpa' & Hsp).
        destruct (hmax_walk_spec glob i pa sp Hpa Hsp _ _ _ _ Hwalk
                    (ordered_weak _ _ _ _ Ho)) as (A & B & C).
        split; [exact A |]. split; [exact B |]. intros sp' no' _ Hsp' Hno'.
        rewrite Hsp in Hsp'. injection Hsp' as <-. rewrite Hno in Hno'. injection Hno' as <-.
        exact C.
      + assert (s1 = s).
        { destruct (S fuel); cbn [hmax_walk] in Hwalk;
            destruct (Z.geb_spec no 0); try lia; congruence. }
        subst s1. split; [exact Ho |]. split; [apply lifted_refl |].
        intros sp' no' _ _ Hno' y Hy. rewrite Hno in Hno'. injection Hno' as <-.
        destruct (up_to_top_nonneg _ _ _ Hy). lia.
    - injection Hwalk as <-. split; [exact Ho |]. split; [apply lifted_refl |].
      intros sp no Hc. contradiction. }
  destruct H1 as (Ho1 & Hg1 & Hc1).
  destruct (IH _ _ _ Hrun Ho1) as (Ho' & Hg' & Hc').
  split; [exact Ho' |]. split; [exact (lifted_trans _ _ _ Hg1 Hg') |].
  intros j pj spj noj Hv Hpj Hgas Hspj Hnoj.
  destruct (visits_inv _ _ _ Hv) as [_ [Hji | (k' & Hk' & Hv')]].
  - rewrite Hji in *. rewrite Hpa in Hpj. injection Hpj as <-.
    exact (covered_lifted _ _ _ _ _ _ (Hc1 spj noj Hgas Hspj Hnoj) Hg').
  - rewrite Hk in Hk'. injection Hk' as <-.
    assert (Hnoj1 : rd (Father (k_tree s1)) j = Ok noj).
    { destruct Hg1 as [F _]. rewrite F. exact Hnoj. }
    intros y Hy. apply (Hc' j pj spj noj Hv' Hpj Hgas Hspj Hnoj1).
    exact (up_to_top_lifted _ _ _ _ Hg1 Hy).
Qed.

(** The walks of the last loop raise values only. *)
Lemma spread_walk_lifted (h dv : Q) :
  forall fuel no t t', spread_walk E fuel h dv no t = Ok t' -> lifted t t'.
Proof.
  induction fuel as [| fuel IH]; intros no t t' Hrun; cbn [spread_walk] in Hrun;
    destruct (no >=? 0); try discriminate.
  1, 3: injection Hrun as <-; apply lifted_refl.
  unfold mbind, outcome_bind in Hrun. bind_inv Hrun. rename a into t1, E0 into Hdrift.
  bind_inv Hrun. rename a into e, E0 into He.
  pose proof (alike_lifted _ _ (drift_alike _ _ _ _ Hdrift)) as Hg1.
  destruct (Split.Qltb (hmax e) h || Split.Qltb (divVmax e) dv).
  - bind_inv Hrun. rename a into t2, E0 into Hset. bind_inv Hrun.
    exact (lifted_trans _ _ _ (lifted_trans _ _ _ Hg1 (raise_lifted _ _ _ _ _ _ He Hset))
             (IH _ _ _ Hrun)).
  - injection Hrun as <-. exact Hg1.
Qed.

Lemma spread_loop_lifted (fuel : nat) (la : list Z) (ha : list Q) (n : nat) (t t' : tree) :
  for_range n 0 (spread_turn E fuel la ha) t = Ok t' -> lifted t t'.
Proof.
  intros Hrun.
  apply (for_range_Ok (fun _ t1 => lifted t t1) _ n 0 t t' Hrun); [apply lifted_refl |].
  intros k t0 t1 _ Hg Hturn. unfold spread_turn, mbind, outcome_bind in Hturn.
  bind_inv Hturn. bind_inv Hturn. bind_inv Hturn. bind_inv Hturn.
  exact (lifted_trans _ _ _ Hg (spread_walk_lifted _ _ _ _ _ _ Hturn)).
Qed.

End Facts.

Section Whole.

Hypothesis kicked_bit : 0 <= BITFLAG_NODEHASBEENKICKED.
Hypothesis top_bit : 0 <= BITFLAG_TOPLEVEL.
Hypothesis top_kicked : BITFLAG_TOPLEVEL <> BITFLAG_NODEHASBEENKICKED.

Lemma on_all_Ok {A B : Type} (f : A -> outcome B) (l : list A) (l' : list B) :
  on_all f l = Ok l' ->
  forall r a, rd l r = Ok a -> exists b, rd l' r = Ok b /\ f a = Ok b.
Proof.
  revert l'. induction l as [| a l IH]; intros l' Hrun r x Hx.
  - apply rd_range in Hx. unfold zlen in Hx. cbn in Hx. lia.
  - cbn [on_all] in Hrun. unfold mbind, outcome_bind in Hrun.
    apply obind_Ok in Hrun as (b & Hb & Hrun). apply obind_Ok in Hrun as (bs & Hbs & Hrun).
    injection Hrun as <-. destruct (Z.eq_dec r 0) as [-> | Hne].
    + cbn in Hx. injection Hx as <-. exists b. split; [reflexivity | exact Hb].
    + apply rd_Ok in Hx as [H0 Hx].
      replace (Z.to_nat r) with (S (Z.to_nat (r - 1))) in Hx by lia. cbn in Hx.
      destruct (IH bs Hbs (r - 1) x) as (y & Hy & Hf); [apply rd_Ok; split; [lia | exact Hx] |].
      exists y. split; [| exact Hf]. apply rd_Ok in Hy as [_ Hy]. apply rd_Ok.
      split; [lia |]. replace (Z.to_nat r) with (S (Z.to_nat (r - 1))) by lia. exact Hy.
Qed.

(** The part before the exchange on one process. *)
Lemma hmax_local_spec (fuel : nat) (p p1 : hydro) (s : kicks) (loc : list Q) :
  hmax_local fuel p = Ok (p1, s, loc) -> ordered (h_dom p) (h_tree p) ->
  h_dom p1 = with_GlobFlag (h_dom p) (GlobFlag (h_dom p) + 1) /\
  lifted (h_dom p) (h_tree p) (h_tree p1) /\
  forall j pa sp no,
    visits (NextActiveParticle p) (FirstActiveParticle p) j ->
    rd (P (h_dom p)) j = Ok pa -> PType pa = 0 -> rd (SphP (h_dom p)) j = Ok sp ->
    rd (Father (h_tree p)) j = Ok no ->
    covered (h_dom p) (h_tree p) (h_tree p1) no (Hsml pa) (Exchange.DivVel sp).
Proof.
  intros Hrun Ho. unfold hmax_local in Hrun. cbv zeta in Hrun.
  unfold mbind, outcome_bind in Hrun. apply obind_Ok in Hrun as (s0 & Hloop & Hrun).
  apply obind_Ok in Hrun as (loc0 & Hloc & Hrun). injection Hrun as <- <- <-.
  cbn [h_dom h_tree].
  destruct (active_loop_spec (h_dom p) kicked_bit top_bit top_kicked _ _ _ _ _ _ Hloop Ho)
    as (_ & Hg & Hc).
  split; [reflexivity |]. split; [exact Hg | exact Hc].
Qed.

(** The part after the exchange on one process. *)
Lemma hmax_global_spec (fuel : nat) (S : list (hydro * kicks * list Q))
  (p : hydro) (s : kicks) (loc : list Q) (p' : hydro) :
  hmax_global fuel S (p, s, loc) = Ok p' ->
  lifted (h_dom p) (h_tree p) (h_tree p').
Proof.
  intros Hrun. unfold hmax_global in Hrun. cbv zeta in Hrun.
  unfold mbind, outcome_bind in Hrun. apply obind_Ok in Hrun as ([[tot ol] oh] & _ & Hrun).
  apply obind_Ok in Hrun as (la & _ & Hrun). apply obind_Ok in Hrun as (ha & _ & Hrun).
  apply obind_Ok in Hrun as (t & Hloop & Hrun). injection Hrun as <-. cbn [h_tree].
  exact (spread_loop_lifted (h_dom p) kicked_bit top_bit top_kicked _ _ _ _ _ _ Hloop).
Qed.

(** X22 (force_update_hmax): when on a process, below the top-level nodes,
    no node has a larger hmax or divVmax than its father, and the routine
    returns on all processes, then on that process every node from the
    father of an active gas particle up to the first top-level node has an
    hmax that is not below the Hsml of the particle and a divVmax that is not
    below its DivVel; the fathers and the top-level nodes are as before, and
    no hmax and no divVmax in the tree was lowered. *)
Theorem update_hmax_covers (fuel : nat) (G G' : list hydro) (r : Z) (p : hydro) :
  force_update_hmax fuel G = Ok G' ->
  rd G r = Ok p -> ordered (h_dom p) (h_tree p) ->
  exists p',
    rd G' r = Ok p' /\
    lifted (h_dom p) (h_tree p) (h_tree p') /\
    forall j pa sp no,
      visits (NextActiveParticle p) (FirstActiveParticle p) j ->
      rd (P (h_dom p)) j = Ok pa -> PType pa = 0 -> rd (SphP (h_dom p)) j = Ok sp ->
      rd (Father (h_tree p)) j = Ok no ->
      covered (h_dom p) (h_tree p) (h_tree p') no (Hsml pa) (Exchange.DivVel sp).
Proof.
  intros Hrun Hp Ho. unfold force_update_hmax, mbind, outcome_bind in Hrun.
  apply obind_Ok in Hrun as (S & Hlocal & Hrun).
  destruct (on_all_Ok _ _ _ Hlocal r p Hp) as ([[p1 s] loc] & Hx & Hloc).
  destruct (on_all_Ok _ _ _ Hrun r _ Hx) as (p' & Hp' & Hglob).
  destruct (hmax_local_spec _ _ _ _ _ Hloc Ho) as (Hdom & Hg1 & Hc1).
  pose proof (hmax_global_spec _ _ _ _ _ _ Hglob) as Hg2. rewrite Hdom in Hg2.
  assert (Hg2' : lifted (h_dom p) (h_tree p1) (h_tree p')) by exact Hg2.
  exists p'. split; [exact Hp' |]. split; [exact (lifted_trans _ _ _ _ Hg1 Hg2') |].
  intros j pa sp no Hv Hpa Hgas Hsp Hno.
  exact (covered_lifted _ _ _ _ _ _ _ (Hc1 j pa sp no Hv Hpa Hgas Hsp Hno) Hg2').
Qed.

End Whole.

(** *** What is gathered *)

(** The sum of the counts of the processes before process [r]. *)
Definition before (counts : list Z) (r : Z) : Z := Exchange.zsum (take (Z.to_nat r) counts).

Lemma zsum_app (l1 l2 : list Z) :
  Exchange.zsum (l1 ++ l2) = Exchange.zsum l1 + Exchange.zsum l2.
Proof. unfold Exchange.zsum. induction l1 as [| x l1 IH]; cbn [app fold_right]; lia. Qed.

Lemma before_succ (counts : list Z) (r c : Z) :
  rd counts r = Ok c -> before counts (r + 1) = before counts r + c.
Proof.
  intros H. apply rd_Ok in H as [H0 H]. unfold before.
  replace (Z.to_nat (r + 1)) with (S (Z.to_nat r)) by lia.
  rewrite (take_S_r _ _ _ H), zsum_app. cbn. lia.
Qed.

Lemma before_all (counts : list Z) (r : Z) :
  zlen counts <= r -> before counts r = Exchange.zsum counts.
Proof.
  intros H. unfold before, zlen in *. rewrite take_ge by lia. reflexivity.
Qed.

Lemma before_step (counts : list Z) (r : Z) :
  (forall k c, rd counts k = Ok c -> 0 <= c) -> 0 <= r ->
  before counts r <= before counts (r + 1).
Proof.
  intros Hc Hr. destruct (Z.le_gt_cases (zlen counts) r) as [Hl | Hl].
  - rewrite !before_all by lia. lia.
  - destruct (rd_in_range counts r) as (c & H); [lia |].
    rewrite (before_succ _ _ _ H). pose proof (Hc r c H). lia.
Qed.

Lemma before_mono (counts : list Z) (r r' : Z) :
  (forall k c, rd counts k = Ok c -> 0 <= c) -> 0 <= r <= r' ->
  before counts r <= before counts r'.
Proof.
  intros Hc [Hr Hle]. replace r' with (r + Z.of_nat (Z.to_nat (r' - r))) by lia.
  induction (Z.to_nat (r' - r)) as [| d IH]; [replace (r + Z.of_nat 0) with r by lia; lia |].
  replace (r + Z.of_nat (S d)) with (r + Z.of_nat d + 1) by lia.
  pose proof (before_step counts (r + Z.of_nat d) Hc ltac:(lia)). lia.
Qed.

Lemma zsum_double (l : list Z) :
  Exchange.zsum (map (fun c => c * 2) l) = Exchange.zsum l * 2.
Proof. unfold Exchange.zsum. induction l as [| x l IH]; cbn [map fold_right]; lia. Qed.

Lemma before_double (counts : list Z) (r : Z) :
  before (map (fun c => c * 2) counts) r = before counts r * 2.
Proof. unfold before. rewrite firstn_map. apply zsum_double. Qed.

Lemma rd_map_Ok {A B : Type} (f : A -> B) (l : list A) (i : Z) (x : A) :
  rd l i = Ok x -> rd (map f l) i = Ok (f x).
Proof.
  intros H. apply rd_Ok in H as [H0 H]. apply rd_Ok. split; [exact H0 |].
  rewrite Exchange.lookup_map, H. reflexivity.
Qed.

Lemma zlen_map {A B : Type} (f : A -> B) (l : list A) : zlen (map f l) = zlen l.
Proof. unfold zlen. now rewrite length_map. Qed.

(** The loop over the counts: the offsets of a process are the counts
    before it. *)
Lemma offsets_spec (NTask : Z) (counts : list Z) (tot : Z) (ol oh : list Z) :
  offsets NTask counts = Ok (tot, ol, oh) -> zlen counts = NTask ->
  tot = Exchange.zsum counts /\
  forall r, 0 <= r < NTask ->
    rd ol r = Ok (before counts r) /\ rd oh r = Ok (before counts r * 2).
Proof.
  intros Hrun Hlen. unfold offsets, mbind, outcome_bind in Hrun.
  apply obind_Ok in Hrun as (ol0 & Hol0 & Hrun). apply obind_Ok in Hrun as (oh0 & Hoh0 & Hrun).
  pose proof (for_range_Ok
    (fun ta st => let '(tot, ol, oh) := st in
       tot = before counts ta /\
       forall r, 0 <= r < ta \/ r = 0 ->
         rd ol r = Ok (before counts r) /\ rd oh r = Ok (before counts r * 2))
    _ _ _ _ _ Hrun) as H. cbv beta in H.
  replace (0 + Z.of_nat (Z.to_nat NTask)) with NTask in H.
  2:{ apply wr_Ok in Hol0 as [Hr _]. unfold zlen in Hr. rewrite repeat_length in Hr. lia. }
  destruct H as [Htot Hall].
  - split; [reflexivity |]. intros r Hr. assert (r = 0) by lia. subst r.
    rewrite (rd_wr_eq _ _ _ _ Hol0), (rd_wr_eq _ _ _ _ Hoh0). split; reflexivity.
  - intros ta [[tot0 ola] oha] st1 Hta [Htot0 Hall0] Hstep.
    apply obind_Ok in Hstep as (c & Hc & Hstep).
    destruct (Z.gtb_spec ta 0) as [Hpos | Hzero].
    + apply obind_Ok in Hstep as (a & Ha & Hstep). apply obind_Ok in Hstep as (b & Hb & Hstep).
      apply obind_Ok in Hstep as (ol1 & Hol1 & Hstep).
      apply obind_Ok in Hstep as (a' & Ha' & Hstep).
      apply obind_Ok in Hstep as (oh1 & Hoh1 & Hstep). injection Hstep as <-.
      destruct (Hall0 (ta - 1) ltac:(lia)) as [Hp1 Hp2].
      rewrite Hp1 in Ha. injection Ha as <-. rewrite Hp2 in Ha'. injection Ha' as <-.
      pose proof (before_succ counts (ta - 1) b Hb) as Hs.
      replace (ta - 1 + 1) with ta in Hs by lia.
      split; [rewrite (before_succ _ _ _ Hc); lia |].
      intros r Hr. rewrite (Exchange.rd_wr _ _ _ r _ Hol1), (Exchange.rd_wr _ _ _ r _ Hoh1).
      destruct (Z.eqb_spec r ta) as [-> | Hne].
      * rewrite Hs. split; [reflexivity | f_equal; lia].
      * apply Hall0. lia.
    + injection Hstep as <-. split; [rewrite (before_succ _ _ _ Hc); lia |].
      intros r Hr. apply Hall0. lia.
  - split; [rewrite Htot; apply before_all; lia |]. intros r Hr. apply Hall. lia.
Qed.

(** What MPI_Allgatherv leaves in the buffer of a process: the entries of
    process [r] follow those of the processes before it. *)
Lemma Allgatherv_spec {A : Type} (NTask : Z) (sends : list (list A)) (counts displs : list Z)
  (recv recv' : list A) :
  MPI_Allgatherv NTask sends counts displs recv = Ok recv' ->
  (forall k c, rd counts k = Ok c -> 0 <= c) ->
  (forall r, 0 <= r < NTask -> rd displs r = Ok (before counts r)) ->
  forall r c src k,
    0 <= r < NTask -> rd counts r = Ok c -> rd sends r = Ok src -> 0 <= k < c ->
    exists x, rd src k = Ok x /\ rd recv' (before counts r + k) = Ok x.
Proof.
  intros Hrun Hc Hd. unfold MPI_Allgatherv in Hrun.
  pose proof (for_range_Ok
    (fun r0 buf => forall r c src k, 0 <= r < r0 -> rd counts r = Ok c -> rd sends r = Ok src ->
       0 <= k < c -> exists x, rd src k = Ok x /\ rd buf (before counts r + k) = Ok x)
    _ _ _ _ _ Hrun) as H. cbv beta in H.
  intros r c src k Hr. apply H; [| | lia]; clear H.
  - intros r0 c0 src0 k0 Hr0. lia.
  - intros r0 buf buf1 Hr0 Hprev Hstep. unfold mbind, outcome_bind in Hstep.
    apply obind_Ok in Hstep as (c0 & Hc0 & Hstep). apply obind_Ok in Hstep as (o & Ho & Hstep).
    apply obind_Ok in Hstep as (src0 & Hsrc0 & Hstep).
    rewrite (Hd r0 ltac:(lia)) in Ho. injection Ho as <-.
    pose proof (for_range_Ok
      (fun k0 b =>
         (forall r c src k, 0 <= r < r0 -> rd counts r = Ok c -> rd sends r = Ok src ->
            0 <= k < c -> exists x, rd src k = Ok x /\ rd b (before counts r + k) = Ok x) /\
         forall k, 0 <= k < k0 -> exists x, rd src0 k = Ok x /\
                                         rd b (before counts r0 + k) = Ok x)
      _ _ _ _ _ Hstep) as H. cbv beta in H.
    destruct H as [Hold Hnew].
    + split; [exact Hprev |]. intros k0 Hk0. lia.
    + intros k0 b b1 Hk0 [Hold Hnew] Hw. apply obind_Ok in Hw as (x & Hx & Hw).
      split.
      * intros r1 c1 src1 k1 Hr1 Hc1 Hs1 Hk1.
        destruct (Hold r1 c1 src1 k1 Hr1 Hc1 Hs1 Hk1) as (y & Hy & Hb).
        exists y. split; [exact Hy |]. rewrite (Exchange.rd_wr _ _ _ _ _ Hw).
        pose proof (before_succ counts r1 c1 Hc1) as Hs.
        pose proof (before_mono counts (r1 + 1) r0 Hc ltac:(lia)) as Hm.
        destruct (Z.eqb_spec (before counts r1 + k1) (before counts r0 + k0)); [lia | exact Hb].
      * intros k1 Hk1. rewrite (Exchange.rd_wr _ _ _ _ _ Hw).
        destruct (Z.eqb_spec (before counts r0 + k1) (before counts r0 + k0)) as [Heq | Hne].
        -- assert (k1 = k0) by lia. subst k1. exists x. split; [exact Hx | reflexivity].
        -- apply Hnew. lia.
    + intros r1 c1 src1 k1 Hr1 Hc1 Hs1 Hk1.
      destruct (Z.eq_dec r1 r0) as [-> | Hne].
      * rewrite Hc0 in Hc1. injection Hc1 as <-. rewrite Hsrc0 in Hs1. injection Hs1 as <-.
        apply Hnew. lia.
      * apply (Hold r1 c1 src1 k1); try assumption. lia.
Qed.

Section Spreading.

Hypothesis kicked_bit : 0 <= BITFLAG_NODEHASBEENKICKED.
Hypothesis top_bit : 0 <= BITFLAG_TOPLEVEL.
Hypothesis top_kicked : BITFLAG_TOPLEVEL <> BITFLAG_NODEHASBEENKICKED.
Hypothesis local_bit : 0 <= BITFLAG_DEPENDS_ON_LOCAL_MASS.
Hypothesis local_kicked : BITFLAG_DEPENDS_ON_LOCAL_MASS <> BITFLAG_NODEHASBEENKICKED.

Variable E : domain.

Definition on_local_mass (n : NODE) : bool :=
  has_flag (d.bitflags (u_d as_moments n)) BITFLAG_DEPENDS_ON_LOCAL_MASS.

(** The trees [t] and [t'] have the same nodes depending on local mass. *)
Definition same_local (t t' : tree) : Prop :=
  forall x, match node_at E t x, node_at E t' x with
            | Ok n, Ok n' => on_local_mass n' = on_local_mass n
            | Ok _, _ => False
            | _, Ok _ => False
            | _, _ => True
            end.

Lemma same_local_refl (t : tree) : same_local t t.
Proof. intros x. destruct (node_at E t x); auto. Qed.

Lemma same_local_trans (t1 t2 t3 : tree) :
  same_local t1 t2 -> same_local t2 t3 -> same_local t1 t3.
Proof.
  intros H1 H2 x. specialize (H1 x). specialize (H2 x).
  destruct (node_at E t1 x), (node_at E t2 x), (node_at E t3 x); try tauto. congruence.
Qed.

Lemma same_local_nodes (t t' : tree) :
  (forall x, node_at E t' x = node_at E t x) -> same_local t t'.
Proof. intros H x. rewrite H. destruct (node_at E t x); auto. Qed.

Lemma drift_same_local (no time1 : Z) (t t' : tree) :
  real_force_drift_node get_drift_factor BITFLAG_NODEHASBEENKICKED as_moments E no time1 t
  = Ok t' ->
  same_local t t'.
Proof.
  intros Hrun. unfold real_force_drift_node, mbind, outcome_bind in Hrun.
  apply obind_Ok in Hrun as (n & Hn & Hrun).
  destruct (time1 =? Ti_current n); [injection Hrun as <-; apply same_local_refl |].
  apply obind_Ok in Hrun as (e & He & Hrun). apply obind_Ok in Hrun as ([m1 e1] & Hme & Hrun).
  apply obind_Ok in Hrun as (t1 & Ht1 & Hrun).
  assert (Hm : has_flag (d.bitflags m1) BITFLAG_DEPENDS_ON_LOCAL_MASS = on_local_mass n).
  { destruct (has_flag (d.bitflags (u_d as_moments n)) BITFLAG_NODEHASBEENKICKED).
    - destruct (negb (Ti_lastkicked e =? Ti_current n)); [discriminate |].
      injection Hme as <- <-. cbn. apply has_clear_other; assumption.
    - injection Hme as <- <-. reflexivity. }
  intros x.
  destruct (node_at_set_node E _ _ _ x _ Ht1) as (Hx1 & _).
  destruct (ext_at_set_ext E _ _ _ x _ Hrun) as (_ & Hx4 & _).
  rewrite Hx4, Hx1. destruct (Z.eqb_spec x no) as [Heq | Hne].
  - rewrite Heq, Hn. unfold on_local_mass. cbn. exact Hm.
  - destruct (node_at E t x); auto.
Qed.

Lemma set_ext_same_local (t t' : tree) (no : Z) (x : extNODE) :
  set_ext E t no x = Ok t' -> same_local t t'.
Proof.
  intros H. apply same_local_nodes. intros k.
  exact (proj1 (proj2 (set_ext_view E _ _ _ _ H) k)).
Qed.

(** The walk of a particle: the list of the nodes changed grows, and no
    node changes its dependence on local mass. *)
Lemma hmax_walk_keeps (glob i : Z) :
  forall fuel no s s',
    hmax_walk E fuel glob i no s = Ok s' ->
    DomainNumChanged s <= DomainNumChanged s' /\ same_local (k_tree s) (k_tree s').
Proof.
  induction fuel as [| fuel IH]; intros no s s' Hrun; cbn [hmax_walk] in Hrun;
    destruct (no >=? 0); try discriminate.
  1, 3: injection Hrun as <-; split; [lia | apply same_local_refl].
  unfold mbind, outcome_bind in Hrun.
  apply obind_Ok in Hrun as (t1 & Hdrift & Hrun). apply obind_Ok in Hrun as (pa & _ & Hrun).
  apply obind_Ok in Hrun as (e & _ & Hrun). apply obind_Ok in Hrun as (sp & _ & Hrun).
  pose proof (drift_same_local _ _ _ _ Hdrift) as H1.
  destruct (Split.Qltb (hmax e) (Hsml pa) || Split.Qltb (divVmax e) (Exchange.DivVel sp)).
  2:{ injection Hrun as <-. cbn [k_tree DomainNumChanged]. split; [lia | exact H1]. }
  apply obind_Ok in Hrun as (t2 & Hset & Hrun). apply obind_Ok in Hrun as (n & _ & Hrun).
  pose proof (same_local_trans _ _ _ H1 (set_ext_same_local _ _ _ _ Hset)) as H2.
  destruct (has_flag (d.bitflags (u_d as_moments n)) BITFLAG_TOPLEVEL).
  - destruct (negb (Flag (raise e (Hsml pa) (Exchange.DivVel sp)) =? glob)).
    + apply obind_Ok in Hrun as (t3 & Hflag & Hrun). apply obind_Ok in Hrun as (l & _ & Hrun).
      injection Hrun as <-. cbn [k_tree DomainNumChanged].
      split; [lia | exact (same_local_trans _ _ _ H2 (set_ext_same_local _ _ _ _ Hflag))].
    + injection Hrun as <-. cbn [k_tree DomainNumChanged]. split; [lia | exact H2].
  - destruct (IH _ _ _ Hrun) as [A B]. cbn [k_tree DomainNumChanged] in *.
    split; [exact A | exact (same_local_trans _ _ _ H2 B)].
Qed.

Lemma active_loop_keeps (glob : Z) (next : list Z) :
  forall fuel i s s',
    active_loop E next fuel glob i s = Ok s' ->
    DomainNumChanged s <= DomainNumChanged s' /\ same_local (k_tree s) (k_tree s').
Proof.
  induction fuel as [| fuel IH]; intros i s s' Hrun; cbn [active_loop] in Hrun;
    destruct (i >=? 0); try discriminate.
  1, 3: injection Hrun as <-; split; [lia | apply same_local_refl].
  unfold mbind, outcome_bind in Hrun.
  apply obind_Ok in Hrun as (pa & _ & Hrun). apply obind_Ok in Hrun as (s1 & Hwalk & Hrun).
  apply obind_Ok in Hrun as (k & _ & Hrun).
  assert (H1 : DomainNumChanged s <= DomainNumChanged s1 /\ same_local (k_tree s) (k_tree s1)).
  { destruct (PType pa =? 0).
    - apply obind_Ok in Hwalk as (no & _ & Hwalk). exact (hmax_walk_keeps _ _ _ _ _ _ Hwalk).
    - injection Hwalk as <-. split; [lia | apply same_local_refl]. }
  destruct H1 as [A1 B1]. destruct (IH _ _ _ Hrun) as [A2 B2].
  split; [lia | exact (same_local_trans _ _ _ B1 B2)].
Qed.

Lemma spread_walk_same_local (h dv : Q) :
  forall fuel no t t', spread_walk E fuel h dv no t = Ok t' -> same_local t t'.
Proof.
  induction fuel as [| fuel IH]; intros no t t' Hrun; cbn [spread_walk] in Hrun;
    destruct (no >=? 0); try discriminate.
  1, 3: injection Hrun as <-; apply same_local_refl.
  unfold mbind, outcome_bind in Hrun.
  apply obind_Ok in Hrun as (t1 & Hdrift & Hrun). apply obind_Ok in Hrun as (e & _ & Hrun).
  pose proof (drift_same_local _ _ _ _ Hdrift) as H1.
  destruct (Split.Qltb (hmax e) h || Split.Qltb (divVmax e) dv).
  - apply obind_Ok in Hrun as (t2 & Hset & Hrun). apply obind_Ok in Hrun as (n & _ & Hrun).
    exact (same_local_trans _ _ _ (same_local_trans _ _ _ H1 (set_ext_same_local _ _ _ _ Hset))
             (IH _ _ _ Hrun)).
  - injection Hrun as <-. exact H1.
Qed.

(** A walk of the last loop that starts at node [no] leaves there at least
    the values it brings. *)
Lemma spread_walk_first (fuel : nat) (h dv : Q) (no : Z) (t t' : tree) :
  0 <= no -> spread_walk E fuel h dv no t = Ok t' ->
  exists e', ext_at E t' no = Ok e' /\ (h <= hmax e' /\ dv <= divVmax e')%Q.
Proof.
  intros Hno Hrun. destruct fuel as [| fuel]; cbn [spread_walk] in Hrun;
    destruct (Z.geb_spec no 0); try lia; [discriminate |].
  unfold mbind, outcome_bind in Hrun.
  apply obind_Ok in Hrun as (t1 & Hdrift & Hrun). apply obind_Ok in Hrun as (e & He & Hrun).
  destruct (Split.Qltb (hmax e) h || Split.Qltb (divVmax e) dv) eqn:Hcond.
  - apply obind_Ok in Hrun as (t2 & Hset & Hrun). apply obind_Ok in Hrun as (n & _ & Hrun).
    pose proof (spread_walk_lifted E kicked_bit top_bit top_kicked _ _ _ _ _ _ Hrun) as [_ Hl].
    destruct (Hl no) as [_ B].
    rewrite (proj2 (proj2 (set_ext_view E _ _ _ _ Hset) no)), Z.eqb_refl in B.
    unfold ext_lifted in B. destruct (ext_at E t' no) as [e' | | |]; try contradiction.
    exists e'. split; [reflexivity |]. cbn [raise hmax divVmax] in B. destruct B as [B1 B2].
    pose proof (Qmaxb_right (hmax e) h). pose proof (Qmaxb_right (divVmax e) dv).
    unfold Qmaxb in *. split; lra.
  - injection Hrun as <-. apply orb_false_iff in Hcond as [H1 H2].
    exists e. split; [exact He |]. split; apply Qltb_not; assumption.
Qed.

End Spreading.

Section Reaching.

Hypothesis kicked_bit : 0 <= BITFLAG_NODEHASBEENKICKED.
Hypothesis top_bit : 0 <= BITFLAG_TOPLEVEL.
Hypothesis top_kicked : BITFLAG_TOPLEVEL <> BITFLAG_NODEHASBEENKICKED.
Hypothesis local_bit : 0 <= BITFLAG_DEPENDS_ON_LOCAL_MASS.
Hypothesis local_kicked : BITFLAG_DEPENDS_ON_LOCAL_MASS <> BITFLAG_NODEHASBEENKICKED.

Lemma on_all_zlen {A B : Type} (f : A -> outcome B) (l : list A) (l' : list B) :
  on_all f l = Ok l' -> zlen l' = zlen l.
Proof.
  revert l'. induction l as [| a l IH]; intros l' Hrun.
  - injection Hrun as <-. reflexivity.
  - cbn [on_all] in Hrun. unfold mbind, outcome_bind in Hrun.
    apply obind_Ok in Hrun as (b & Hb & Hrun). apply obind_Ok in Hrun as (bs & Hbs & Hrun).
    injection Hrun as <-. specialize (IH bs Hbs). unfold zlen in *. cbn [length]. lia.
Qed.

Lemma on_all_back {A B : Type} (f : A -> outcome B) (l : list A) (l' : list B) (r : Z) (b : B) :
  on_all f l = Ok l' -> rd l' r = Ok b -> exists a, rd l r = Ok a /\ f a = Ok b.
Proof.
  intros Hrun Hb. destruct (rd_in_range l r) as (a & Ha).
  { rewrite <- (on_all_zlen _ _ _ Hrun). exact (rd_range _ _ _ Hb). }
  destruct (on_all_Ok _ _ _ Hrun r a Ha) as (b' & Hb' & Hf). exists a. split; [exact Ha |].
  congruence.
Qed.

Lemma rd_map_back {A B : Type} (f : A -> B) (l : list A) (i : Z) (y : B) :
  rd (map f l) i = Ok y -> exists x, rd l i = Ok x /\ y = f x.
Proof.
  intros H. destruct (rd_in_range l i) as (x & Hx).
  { rewrite <- (zlen_map f). exact (rd_range _ _ _ H). }
  exists x. split; [exact Hx |]. rewrite (rd_map_Ok f _ _ _ Hx) in H. congruence.
Qed.

(** What a process has put into [domainHmax_loc]. *)
Lemma loc_filled (E : domain) (s : kicks) (loc0 loc : list Q) :
  for_range (Z.to_nat (DomainNumChanged s)) 0
    (fun i loc =>
       no ← rd (DomainList s) i;
       e ← ext_at E (k_tree s) no;
       loc ← wr loc (2 * i) (hmax e);
       wr loc (2 * i + 1) (divVmax e)) loc0 = Ok loc ->
  forall k, 0 <= k < DomainNumChanged s ->
    exists no e, rd (DomainList s) k = Ok no /\ ext_at E (k_tree s) no = Ok e /\
      rd loc (2 * k) = Ok (hmax e) /\ rd loc (2 * k + 1) = Ok (divVmax e).
Proof.
  intros Hrun.
  pose proof (for_range_Ok
    (fun i l => forall k, 0 <= k < i ->
       exists no e, rd (DomainList s) k = Ok no /\ ext_at E (k_tree s) no = Ok e /\
         rd l (2 * k) = Ok (hmax e) /\ rd l (2 * k + 1) = Ok (divVmax e))
    _ _ _ _ _ Hrun) as H. cbv beta in H.
  intros k Hk. apply H; [| | lia]; clear H.
  - intros k0 Hk0. lia.
  - intros i l l1 Hi Hprev Hstep k0 Hk0. unfold mbind, outcome_bind in Hstep.
    apply obind_Ok in Hstep as (no & Hno & Hstep). apply obind_Ok in Hstep as (e & He & Hstep).
    apply obind_Ok in Hstep as (la & Hla & Hstep).
    destruct (Z.eq_dec k0 i) as [-> | Hne].
    + exists no, e. split; [exact Hno |]. split; [exact He |].
      rewrite !(Exchange.rd_wr _ _ _ _ _ Hstep), !(Exchange.rd_wr _ _ _ _ _ Hla).
      destruct (Z.eqb_spec (2 * i) (2 * i + 1)); [lia |]. rewrite !Z.eqb_refl. auto.
    + destruct (Hprev k0 ltac:(lia)) as (no0 & e0 & H1 & H2 & H3 & H4).
      exists no0, e0. split; [exact H1 |]. split; [exact H2 |].
      rewrite !(Exchange.rd_wr _ _ _ _ _ Hstep), !(Exchange.rd_wr _ _ _ _ _ Hla).
      destruct (Z.eqb_spec (2 * k0) (2 * i + 1)); [lia |].
      destruct (Z.eqb_spec (2 * k0) (2 * i)); [lia |].
      destruct (Z.eqb_spec (2 * k0 + 1) (2 * i + 1)); [lia |].
      destruct (Z.eqb_spec (2 * k0 + 1) (2 * i)); [lia |]. auto.
Qed.

(** The last loop on a process: the entry [i0] of what was gathered
    reaches its node, when this does not depend on local mass. *)
Lemma spread_loop_reaches (E : domain) (fuel : nat) (dla : list Z) (dha : list Q)
  (tot : Z) (t1 t' : tree) (i0 no : Z) (h dv : Q) (n : NODE) :
  for_range (Z.to_nat tot) 0 (spread_turn E fuel dla dha) t1 = Ok t' ->
  0 <= i0 < tot -> rd dla i0 = Ok no -> rd dha (2 * i0) = Ok h -> rd dha (2 * i0 + 1) = Ok dv ->
  0 <= MaxPart E -> node_at E t1 no = Ok n -> on_local_mass n = false ->
  exists e', ext_at E t' no = Ok e' /\ (h <= hmax e' /\ dv <= divVmax e')%Q.
Proof.
  intros Hrun Hi0 Hno Hh Hdv Hmax Hn Hfree.
  pose proof (for_range_Ok
    (fun i t => same_local E t1 t /\
       (i0 < i -> exists e', ext_at E t no = Ok e' /\ (h <= hmax e' /\ dv <= divVmax e')%Q))
    _ _ _ _ _ Hrun) as H. cbv beta in H.
  apply H; [| | lia]; clear H.
  - split; [apply same_local_refl |]. lia.
  - intros i t t0 Hi [Hsame Hdone] Hturn.
    assert (Hkeep : lifted E t t0 /\ same_local E t t0).
    { unfold spread_turn, mbind, outcome_bind in Hturn.
      apply obind_Ok in Hturn as (x & _ & Hturn). apply obind_Ok in Hturn as (nx & _ & Hturn).
      apply obind_Ok in Hturn as (hx & _ & Hturn). apply obind_Ok in Hturn as (dx & _ & Hturn).
      split; [exact (spread_walk_lifted E kicked_bit top_bit top_kicked _ _ _ _ _ _ Hturn)
             | exact (spread_walk_same_local kicked_bit local_bit local_kicked E _ _ _ _ _ _ Hturn)]. }
    destruct Hkeep as [Hl Hs]. split; [exact (same_local_trans E _ _ _ Hsame Hs) |].
    intros Hlt. destruct (Z.eq_dec i i0) as [-> | Hne].
    + unfold spread_turn, mbind, outcome_bind in Hturn. rewrite Hno in Hturn.
      cbn [obind] in Hturn. apply obind_Ok in Hturn as (nx & Hnx & Hturn).
      rewrite Hh, Hdv in Hturn. cbn [obind] in Hturn.
      specialize (Hsame no). rewrite Hn, Hnx in Hsame.
      unfold on_local_mass in Hsame, Hfree. rewrite Hsame, Hfree in Hturn.
      apply (spread_walk_first kicked_bit top_bit top_kicked E _ _ _ _ _ _ ) in Hturn;
        [exact Hturn |].
      apply rd_range in Hn. lia.
    + destruct Hdone as (e0 & He0 & H1 & H2); [lia |].
      destruct Hl as [_ Hl]. destruct (Hl no) as [_ B]. rewrite He0 in B.
      unfold ext_lifted in B. destruct (ext_at E t0 no) as [e' | | |]; try contradiction.
      exists e'. split; [reflexivity |]. destruct B. split; lra.
Qed.

(** The counts of the nodes changed are not negative. *)
Lemma counts_nonneg (fuel : nat) (G : list hydro) (S : list (hydro * kicks * list Q)) :
  on_all (hmax_local fuel) G = Ok S ->
  forall k c, rd (map (fun y => DomainNumChanged (snd (fst y))) S) k = Ok c -> 0 <= c.
Proof.
  intros Hlocal k c Hc. apply rd_map_back in Hc as ([[p1 s] loc] & Hx & ->).
  destruct (on_all_back _ _ _ _ _ Hlocal Hx) as (p & _ & Hrun).
  unfold hmax_local in Hrun. cbv zeta in Hrun. unfold mbind, outcome_bind in Hrun.
  apply obind_Ok in Hrun as (s0 & Hloop & Hrun). apply obind_Ok in Hrun as (l0 & _ & Hrun).
  injection Hrun as _ <- _. cbn [fst snd].
  destruct (active_loop_keeps kicked_bit local_bit local_kicked _ _ _ _ _ _ _ Hloop) as [H _].
  exact H.
Qed.

(** X23 (force_update_hmax): when the routine returns on all processes,
    every top-level node that a process has put on its list of changed nodes
    in the loop over its active particles ends on every process, where it
    does not depend on local mass, with an hmax and a divVmax that are not
    below those it had on the listing process when the lists were
    exchanged. *)
Theorem update_hmax_spreads (fuel : nat) (G G' : list hydro)
  (r : Z) (p p1 : hydro) (s : kicks) (loc : list Q) (k no : Z) (e : extNODE)
  (q : Z) (pq : hydro) (n : NODE) :
  force_update_hmax fuel G = Ok G' ->
  rd G r = Ok p -> hmax_local fuel p = Ok (p1, s, loc) ->
  0 <= k < DomainNumChanged s -> rd (DomainList s) k = Ok no ->
  ext_at (h_dom p) (k_tree s) no = Ok e ->
  rd G q = Ok pq -> 0 <= MaxPart (h_dom pq) ->
  node_at (h_dom pq) (h_tree pq) no = Ok n -> on_local_mass n = false ->
  exists q' e',
    rd G' q = Ok q' /\ ext_at (h_dom pq) (h_tree q') no = Ok e' /\
    (hmax e <= hmax e' /\ divVmax e <= divVmax e')%Q.
Proof.
  intros Hrun Hp Hloc Hk Hno He Hq Hmax Hn Hfree.
  unfold force_update_hmax, mbind, outcome_bind in Hrun.
  apply obind_Ok in Hrun as (S & Hlocal & Hglobal).
  destruct (on_all_Ok _ _ _ Hlocal r p Hp) as (xr & Hxr & Hlr).
  rewrite Hloc in Hlr. injection Hlr as <-.
  destruct (on_all_Ok _ _ _ Hlocal q pq Hq) as ([[q1 sq] locq] & Hxq & Hlq).
  destruct (on_all_Ok _ _ _ Hglobal q _ Hxq) as (q' & Hq' & Hgq).
  exists q'.
  (* the list and the values of process [r] *)
  pose proof Hloc as Hloc'. unfold hmax_local in Hloc'. cbv zeta in Hloc'.
  unfold mbind, outcome_bind in Hloc'.
  apply obind_Ok in Hloc' as (s0 & Hloop & Hloc'). apply obind_Ok in Hloc' as (l0 & Hfill & Hloc').
  injection Hloc' as _ <- <-.
  destruct (loc_filled _ _ _ _ Hfill k Hk) as (no0 & e0 & Hno0 & He0 & Hv1 & Hv2).
  rewrite Hno in Hno0. injection Hno0 as <-. rewrite He in He0. injection He0 as <-.
  (* the tree of process [q] after its loop over the active particles *)
  pose proof Hlq as Hlq'. unfold hmax_local in Hlq'. cbv zeta in Hlq'.
  unfold mbind, outcome_bind in Hlq'.
  apply obind_Ok in Hlq' as (sq0 & Hloopq & Hlq'). apply obind_Ok in Hlq' as (lq0 & _ & Hlq').
  injection Hlq' as <- <- <-.
  destruct (active_loop_keeps kicked_bit local_bit local_kicked _ _ _ _ _ _ _ Hloopq)
    as [_ Hsame].
  specialize (Hsame no). cbn [k_tree] in Hsame. rewrite Hn in Hsame.
  destruct (node_at (h_dom pq) (k_tree sq0) no) as [n1 | | |] eqn:Hn1; try contradiction.
  (* what process [q] gathers *)
  unfold hmax_global in Hgq. cbv zeta in Hgq. unfold mbind, outcome_bind in Hgq.
  apply obind_Ok in Hgq as ([[tot ol] oh] & Hoff & Hgq).
  apply obind_Ok in Hgq as (dla & Hdla & Hgq). apply obind_Ok in Hgq as (dha & Hdha & Hgq).
  apply obind_Ok in Hgq as (t' & Hspread & Hgq). injection Hgq as <-. cbn [h_tree h_dom] in *.
  set (counts := map (fun y : hydro * kicks * list Q => DomainNumChanged (snd (fst y))) S) in *.
  pose proof (counts_nonneg _ _ _ Hlocal) as Hnn. fold counts in Hnn.
  assert (Hlen : zlen counts = zlen S) by apply zlen_map.
  destruct (offsets_spec _ _ _ _ _ Hoff Hlen) as [Htot Hoffs].
  assert (Hr : 0 <= r < zlen S) by exact (rd_range _ _ _ Hxr).
  assert (Hcr : rd counts r = Ok (DomainNumChanged s0)).
  { unfold counts. rewrite (rd_map_Ok _ _ _ _ Hxr). reflexivity. }
  destruct (Allgatherv_spec _ _ _ _ _ _ Hdla Hnn (fun r0 H0 => proj1 (Hoffs r0 H0))
              r _ (DomainList s0) k Hr Hcr
              ltac:(rewrite (rd_map_Ok _ _ _ _ Hxr); reflexivity) Hk) as (x & Hx & Hgot).
  rewrite Hno in Hx. injection Hx as <-.
  assert (Hnn2 : forall k0 c, rd (map (fun c => c * 2) counts) k0 = Ok c -> 0 <= c).
  { intros k0 c Hc. apply rd_map_back in Hc as (c0 & Hc0 & ->). pose proof (Hnn k0 c0 Hc0). lia. }
  assert (Hoffs2 : forall r0, 0 <= r0 < zlen S ->
            rd oh r0 = Ok (before (map (fun c => c * 2) counts) r0)).
  { intros r0 H0. rewrite before_double. exact (proj2 (Hoffs r0 H0)). }
  assert (Hcr2 : rd (map (fun c => c * 2) counts) r = Ok (DomainNumChanged s0 * 2))
    by exact (rd_map_Ok _ _ _ _ Hcr).
  assert (Hsend2 : rd (map snd S) r = Ok l0) by exact (rd_map_Ok snd _ _ _ Hxr).
  destruct (Allgatherv_spec _ _ _ _ _ _ Hdha Hnn2 Hoffs2 r _ l0 (2 * k) Hr Hcr2 Hsend2
              ltac:(lia)) as (y1 & Hy1 & Hgot1).
  destruct (Allgatherv_spec _ _ _ _ _ _ Hdha Hnn2 Hoffs2 r _ l0 (2 * k + 1) Hr Hcr2 Hsend2
              ltac:(lia)) as (y2 & Hy2 & Hgot2).
  rewrite Hv1 in Hy1. injection Hy1 as <-. rewrite Hv2 in Hy2. injection Hy2 as <-.
  rewrite before_double in Hgot1, Hgot2.
  replace (before counts r * 2 + 2 * k) with (2 * (before counts r + k)) in Hgot1 by lia.
  replace (before counts r * 2 + (2 * k + 1)) with (2 * (before counts r + k) + 1) in Hgot2
    by lia.
  assert (Hin : 0 <= before counts r + k < tot).
  { pose proof (before_mono counts 0 r Hnn ltac:(lia)) as H0.
    pose proof (before_succ counts r _ Hcr) as H1.
    pose proof (before_mono counts (r + 1) (zlen counts) Hnn ltac:(lia)) as H2.
    rewrite (before_all counts (zlen counts)) in H2 by lia.
    assert (Hz : before counts 0 = 0) by reflexivity. lia. }
  destruct (spread_loop_reaches _ _ _ _ _ _ _ _ _ _ _ n1 Hspread Hin Hgot Hgot1 Hgot2 Hmax Hn1
              ltac:(rewrite Hsame; exact Hfree)) as (e' & He' & Hbound).
  exists e'. split; [exact Hq' |]. split; [exact He' | exact Hbound].
Qed.

End Reaching.

End Updating.

(** One process with one active gas particle of Hsml 3 and DivVel 2 below
    node 6; node 5, the father of node 6, is a top-level node that depends on
    the local mass, and node 4 is the root. *)
Definition gas_domain : domain :=
  mkDomain 4 100 9 1 [] [0] 0 16 (8, 8, 8)%Q (0, 0, 0)%Q 1 (-1) [] 5 1 1
           [mkP (1, 1, 1)%Q (0, 0, 0)%Q 1 7 0 0 0 0 false false 0 0 3]
           [Exchange.mkSph 2 1].

Definition gas_node (bits father : Z) : NODE :=
  mkNode 16 (8, 8, 8)%Q (Moments (d.mk (8, 8, 8)%Q 1 bits (-1) (-1) father)) 0.

Definition gas_ext : extNODE := mkExt 1 0 1 (0, 0, 0)%Q (0, 0, 0)%Q 0 0.

Definition gas_tree : tree :=
  mkTree [gas_node 2 (-1); gas_node 6 4; gas_node 0 5] [gas_ext; gas_ext; gas_ext]
         [] [6] [5] 3 (-1).

Definition gas_process : hydro := mkHydro gas_domain gas_tree 0 [-1].

Lemma gas_ordered : ordered 1 (fun _ => sample_moments) gas_domain gas_tree.
Proof.
  intros x n e Hn He Htop Hf. unfold node_at in Hn.
  assert (Hr : 0 <= x - 4 < 3) by exact (rd_range _ _ _ Hn).
  assert (Hc : x = 4 \/ x = 5 \/ x = 6) by lia.
  destruct Hc as [-> | [-> | ->]]; vm_compute in Hn; injection Hn as <-;
    vm_compute in He; injection He as <-; try (vm_compute in Htop; discriminate);
    try (cbn in Hf; lia).
  exists gas_ext. split; [reflexivity |]. split; apply Qle_refl.
Qed.

Lemma update_hmax_covers_witness :
  exists G',
    force_update_hmax (fun _ _ => 0%Q) 0 1 2 (fun _ => sample_moments) 3 [gas_process] = Ok G' /\
    map (fun p => map (fun e => (hmax e, divVmax e)) (Extnodes (h_tree p))) G'
    = [[(3, 2); (3, 2); (3, 2)]]%Q.
Proof.
  destruct (force_update_hmax (fun _ _ => 0%Q) 0 1 2 (fun _ => sample_moments) 3 [gas_process])
    as [G' | | |] eqn:Hrun; [| vm_compute in Hrun; discriminate ..].
  destruct (update_hmax_covers (fun _ _ => 0%Q) 0 1 2 (fun _ => sample_moments)
              ltac:(lia) ltac:(lia) ltac:(lia) 3 [gas_process] G' 0 gas_process Hrun
              eq_refl gas_ordered) as (p' & Hp' & _).
  exists G'. split; [reflexivity |].
  vm_compute in Hrun. injection Hrun as <-. reflexivity.
Defined.

(** A second process with the same nodes and no active particle; there
    node 5 does not depend on local mass. *)
Definition far_tree : tree :=
  mkTree [gas_node 2 (-1); gas_node 2 4; gas_node 0 5] [gas_ext; gas_ext; gas_ext]
         [] [6] [5] 3 (-1).

Definition far_process : hydro := mkHydro gas_domain far_tree (-1) [-1].

Lemma update_hmax_spreads_witness :
  exists G',
    force_update_hmax (fun _ _ => 0%Q) 0 1 2 (fun _ => sample_moments) 3
      [gas_process; far_process] = Ok G' /\
    map (fun p => map (fun e => (hmax e, divVmax e)) (Extnodes (h_tree p))) G'
    = [[(3, 2); (3, 2); (3, 2)]; [(3, 2); (3, 2); (1, 1)]]%Q.
Proof.
  destruct (force_update_hmax (fun _ _ => 0%Q) 0 1 2 (fun _ => sample_moments) 3
              [gas_process; far_process]) as [G' | | |] eqn:Hrun;
    [| vm_compute in Hrun; discriminate ..].
  destruct (hmax_local (fun _ _ => 0%Q) 0 1 (fun _ => sample_moments) 3 gas_process)
    as [[[p1 s] loc] | | |] eqn:Hloc; [| vm_compute in Hloc; discriminate ..].
  pose proof Hloc as Hc. vm_compute in Hc. injection Hc as _ Hs _.
  destruct (update_hmax_spreads (fun _ _ => 0%Q) 0 1 2 (fun _ => sample_moments)
              ltac:(lia) ltac:(lia) ltac:(lia) ltac:(lia) ltac:(lia)
              3 [gas_process; far_process] G' 0 gas_process p1 s loc 0 5
              (mkExt 3 0 2 (0, 0, 0)%Q (0, 0, 0)%Q 0 2) 1 far_process (gas_node 2 4)
              Hrun eq_refl Hloc
              ltac:(rewrite <- Hs; cbn; lia) ltac:(rewrite <- Hs; reflexivity)
              ltac:(rewrite <- Hs; reflexivity) eq_refl ltac:(cbn; lia) eq_refl eq_refl)
    as (q' & e' & _).
  exists G'. split; [reflexivity |].
  vm_compute in Hrun. injection Hrun as <-. reflexivity.
Defined.

End Hmax.
